(* ===== verification/_CoqProject ===== *)
-Q . S2P
Prelude.v
Aria.v
PageSource.v
Physical.v
Paging.v
Virtual.v
Elf.v
Portal.v
PortalOk.v
Notify.v
NotifyOk.v
Lock.v
Smp.v
Resource.v
Queue.v
Lists.v
Ule.v
UleOk.v
Rr.v
Wait.v
Mutex.v
Slab.v
SlabOk.v
Clock.v
Timers.v
Irq.v
Futex.v
Acpi.v
Cap.v
Port.v
InitServer.v
Abi.v
Bcache.v
Address.v
Nvme.v
NvmeOk.v
Pci.v
Boot.v
Log.v
Cpu.v
Servers.v
