(* ===== verification/Prelude.v ===== *)
(** * Dufay: a verification development of the Dufay kernel

    Dufay is a small capability kernel for amd64 ([src/kernel]) with servers
    that run on top of it ([src/servers]).  This library translates its core
    into Rocq functions and proves what makes them correct.

    ** The parts and how they interact

    At boot, [mm/physical.c] builds one bitmap of pages per usable region of
    the memory map.  The page tables ([arch/amd64/paging.c]), the address
    spaces ([mm/virtual.c]) and the slab allocator ([mm/slab.c]) take their
    frames from it, and everything else takes its objects from the slab
    allocator.  Processors run threads: a scheduler ([core/sched/ule.c], or
    [core/sched/rr.c] in the debugging configuration) picks them, the clock
    interrupt ([core/clock.c]) ends quanta and finds expired timers, deferred
    calls ([core/dpc.c]) and software interrupts ([core/ipl.c]) carry the
    work to a level where the scheduler can be entered.  Threads sleep on
    dispatch objects ([core/wait.c], with mutexes, semaphores and events on
    top) and are woken through the scheduler.  Processes name objects by
    capabilities ([core/object.c], [core/capability.c]) and exchange messages
    through ports ([core/message.c]).  A process's memory is a set of portals
    ([mm/portal.c]) at addresses its address space hands out
    ([mm/address.c]); the resolver of page faults looks up the portal and maps
    the page (its call in [arch/amd64/idt.c] is compiled out).  Programs are loaded from ELF images ([core/elf.c]),
    and the servers drive the PCI bus and NVMe disks.

    ** The files

    - [Prelude]: machine integers, results, the state and error monad [M],
      automation and shared lemmas.
    - [Aria]: the library [aria] is a submodule the repository does not hold.
      Its macros and containers are class parameters ([AriaBase], [AriaDict],
      [PairingHeap], [AriaBitmap], [AriaVector], [AriaBst], [AriaRb]) with their documented laws as separate
      classes, and a reference instance of each shows that the laws can hold.
    - [PageSource]: the interface of the page allocator to its clients.
    - [Physical]: [mm/physical.c], routine by routine; discharges
      [PageSource].  [pmm_alloc] returns the first fit of free, aligned,
      contiguous pages, marks exactly those, and freeing undoes it when no
      lower module is taken for the owner.
    - [Paging]: [arch/amd64/paging.c].  Page tables are words of physical
      memory; the hardware's walk ([translate]) is the specification:
      [pmap_map] changes the translation of exactly the mapped page,
      [pmap_unmap] removes it, new roots share the kernel's half.
    - [Virtual]: [mm/virtual.c], range mapping and the kernel's address space.
    - [Queue]: the pointer-level tail queues of [external/sys/queue.h] refine
      lists, read in both directions, and pass the checks of a diagnostic
      build; the components above use lists.
    - [Lists]: the other four kinds of lists of that header, shown to run in
      step with tail queues up to the links they do not keep.
    - [Ule], [UleOk]: [core/sched/ule.c] and its correctness: queue
      invariants, selection order, bounds of priorities, load balancing;
      what becomes of every thread when one is made ready or one yields.
    - [Rr]: [core/sched/rr.c] as a state machine driven by readies, yields,
      waits, ticks and dispatches; safety of every reachable machine and
      bounded waiting.  The windows inside a wait and before a dispatch, in
      which the code loses threads, are examples at its end.
    - [Wait]: [core/wait.c], [core/mutex.c], [core/semaphore.c] and the event
      objects of [core/events.c], as interleaved steps of waiters and
      signallers; no wake-up is lost.
    - [Slab], [SlabOk]: [mm/slab.c] over words of memory; for small objects
      without constructors, objects handed out are disjoint, whether they come
      from a magazine or from a slab, freed objects come back, and pages
      return only when empty; the allocation of a new magazine is modelled but
      left out of the theorems.
    - [Clock]: [core/clock.c], [core/timer.c], [core/dpc.c], [core/ipl.c] and
      the common interrupt routine of [arch/amd64/idt.c], shared with [Irq]: a
      clock interrupt fires exactly the timers that are due.
    - [Cap]: [core/object.c], [core/capability.c], [core/message.c]: handles
      and reference counts, ports as queues of messages.
    - [Port]: ports as tail queues of blocks of memory, in step with [Cap];
      the constructors and destructors of objects.
    - [InitServer]: [servers/sys/init/init.c] on top of [Cap]: its system
      calls by number.  The kernel's table reaches none of the handlers it
      means; on a table with the numbers of its comments the program would get
      its own message back.
    - [Elf]: [core/elf.c]: checking headers, mapping the loadable segments
      and copying them; what is written through the mapping is read back.
    - [Portal], [PortalOk]: [mm/portal.c]: the tree of a process's regions,
      resolving a page fault to the page of the right region and nothing
      else, sharing by reference count, the errors; page tables other than
      the kernel's, which lack the routine the resolver calls.
    - [Address]: [mm/address.c]: the ranges an address space without holes
      hands out are disjoint and within its bounds, for requests that do not
      wrap.
    - [Irq]: [arch/amd64/idt.c] and [core/irq.c]: the vectors handed out,
      the dispatch of an interrupt, the chains of interrupt handlers.
    - [Futex]: [core/futex.c], the queue operations of [core/events.c] and
      the table of [core/syscall.c].
    - [Acpi]: [acpi/rsdp.c], [acpi/madt.h], [arch/amd64/apic.c] and
      [arch/amd64/hpet.c]: the description table read back, interrupt lines
      routed to their entries, bounds of waits.
    - [Nvme], [NvmeOk]: the NVMe driver of [servers/io/nvme]: queue pairs,
      transfers, the interrupt handler, bring-up; driver, handler and device
      as one system in which every command is answered as long as the ring
      is not filled to its last slot, which the driver does not test.
    - [Pci]: the PCI server of [servers/io/pci]: register sizing, message
      interrupts, enumeration of the mapped configuration space.
    - [Notify], [NotifyOk]: [core/notification.c]: queues of notifications,
      sending, building and broadcasting through bridges, dispatching and
      returning.  A small Hoare logic carries the typing of the queues
      through every call, the failing ones included; dispatching serves the
      lowest unmasked number first.
    - [Lock]: [core/lock.h]: spin locks as steps of interleaved processors;
      mutual exclusion, and what becomes of the interrupt state and level.
    - [Smp]: [arch/amd64/smp.c], [gdt.c] and [cpu.c]: the chain in which each processor wakes the
      next ends with all of them up, for tables that start with the boot
      processor; the segment table fits the selectors of
      system calls.
    - [Resource]: [core/resource.c]: segments by size class over linked lists
      and two trees; allocation refines a bump allocator.
    - [Bcache]: [core/bcache.c]: lookup of blocks by number, the read and
      write loops.
    - [Mutex]: the threads of [sync_test.c] on top of [Wait]: at most one
      thread is between acquiring and releasing a mutex, and a released mutex
      goes to a waiter if there is one.
    - [Boot]: the memory part of [fuga_entry] in [main.c], the composition of
      [Physical], [Slab], [Paging] and [Virtual]: with enough memory every
      step succeeds, the caches exist, and the kernel image and every whole
      region of the direct map translate.
    - [Abi]: [core/syscall.h] and the entry of system calls: the registers
      that carry arguments and results.
    - [Log]: the serial port, printing of the kernel and the servers, panics
      and stack traces.
    - [Cpu]: [arch/amd64/cpu.h] and [cpu.c]: model-specific registers, the
      interrupt flag, the features switched on at start.
    - [Servers]: the [main] functions of the servers, against an interface
      of what the kernel gives them; the stacks of their notifications are
      disjoint.
    - [Timers]: clock interrupts between starts and stops of timers, in any
      order: a timer fires once, at the first tick at which its time has
      passed; the timers of the timer test of [sync_test.c].
    ** Conventions

    [RETURN_ERROR] and [return -1] are [Err]; [panic], an endless loop and an
    access through a wild pointer are [Halt].  State changed before an error
    stays changed.  Integers are [Z], wrapped ([u64], [u32], [u8], [s32])
    where the source computes at a fixed width.  Spin locks are in [Lock];
    elsewhere a routine that holds its lock throughout is one step, and where
    a routine's steps interleave with others ([Wait], [Smp], the windows of
    [Rr]) the steps are separate.  Heap allocations that only succeed or fail are
    parameters.  The configuration is amd64 with the ULE scheduler; [Rr] is
    the other choice of scheduler.

    ** Bounds and fuel

    Loops that are not structural take fuel, and the theorems show that the
    fuel given suffices: [pmm_search] takes the number of pages of the module
    plus one, since each step moves the candidate by at least a page; the
    slab routines nest at most four deep, a fact of their call graph, and the
    magazine loops retry at most three or four times; the dispatch of
    deferred calls needs more fuel than queued calls, and the expiry of
    timers more than the size of the heap; [balance_load] is bounded by
    [LOAD_BALANCE_LIMIT] in the source; the wake loop of an object runs
    through its queue; a description table is read in at most as many turns
    as it has bytes, and a table that needs more is never finished.

    ** Not modelled

    Assembly beyond the register conventions of [Abi] ([isr.asm],
    [thread.asm], the trampoline of new processors), the fixed sequences of
    writes that enable the interrupt controllers and the HPET, the dump of
    registers after a fault, and the TLB: there is nothing to state about
    them beyond the hardware they drive.  Code that never runs is left out:
    the launcher in [core/init.c] and parts of [core/events.c] are compiled
    out, and the end of [irq_cortex_resolve_fault] follows a panic.  The
    aarch64 port is stubs.  [external/limine.h] declares the boot protocol;
    the entries the kernel reads are records here.  The stacks and contexts
    of notifications are macros of headers the repository does not hold, and
    [core/notification.c] is not part of the build; they are parameters of
    [Notify]. *)

From stdpp Require Export base option list gmap numbers sorting.
From stdpp Require Export strings.
From Stdlib Require Export ZArith Lia.

#[global] Open Scope Z_scope.

(** ** Machine integers

    A C integer of width [w] is a [Z]; every place where the source computes
    at a fixed width wraps explicitly. *)

Definition u64 (x : Z) : Z := x mod 2 ^ 64.
Definition u32 (x : Z) : Z := x mod 2 ^ 32.
Definition u8 (x : Z) : Z := x mod 2 ^ 8.

(** Reinterpretation of the low [w] bits as a two's complement number. *)
Definition signed (w x : Z) : Z :=
  let r := x mod 2 ^ w in if r <? 2 ^ (w - 1) then r else r - 2 ^ w.
Definition s32 (x : Z) : Z := signed 32 x.
Definition s64 (x : Z) : Z := signed 64 x.

(** [PAGE_SIZE] of [arch/amd64/port.h]. *)
Definition PAGE_SIZE : Z := 4096.

(** ** Results

    A kernel routine returns a value, reports an error ([RETURN_ERROR] or
    [return -1]), or never returns ([panic], an endless loop, a wild
    dereference). *)

Inductive cres (A : Type) : Type :=
| Ok (a : A)
| Err
| Halt.
Arguments Ok {A} a.
Arguments Err {A}.
Arguments Halt {A}.

(** The error value of a routine that returns [uint64_t]. *)
Definition ERROR_u64 : Z := 2 ^ 64 - 1.

#[global] Instance cres_eq_dec {A} `{EqDecision A} : EqDecision (cres A).
Proof. solve_decision. Defined.

(** ** State and errors

    A routine that reads and writes kernel state maps a state to the state it
    leaves behind and its result.  The effects made before an error stay, as
    they do in the source. *)

Definition M (S A : Type) : Type := S -> S * cres A.

#[export] Instance M_ret {S} : MRet (M S) := fun A a s => (s, Ok a).
#[export] Instance M_bind {S} : MBind (M S) := fun A B f m s =>
  match m s with
  | (s', Ok a) => f a s'
  | (s', Err) => (s', Err)
  | (s', Halt) => (s', Halt)
  end.

Definition fail {S A} : M S A := fun s => (s, Err).
Definition halt {S A} : M S A := fun s => (s, Halt).
Definition gets {S A} (f : S -> A) : M S A := fun s => (s, Ok (f s)).
Definition modify {S} (f : S -> S) : M S unit := fun s => (f s, Ok tt).

(** ** Automation *)

Create HintDb dufay.

Ltac zify_bools :=
  repeat match goal with
  | H : (_ <? _) = true |- _ => apply Z.ltb_lt in H
  | H : (_ <? _) = false |- _ => apply Z.ltb_ge in H
  | H : (_ <=? _) = true |- _ => apply Z.leb_le in H
  | H : (_ <=? _) = false |- _ => apply Z.leb_gt in H
  | H : (_ =? _) = true |- _ => apply Z.eqb_eq in H
  | H : (_ =? _) = false |- _ => apply Z.eqb_neq in H
  | H : _ && _ = true |- _ => apply andb_true_iff in H; destruct H
  | H : _ || _ = false |- _ => apply orb_false_iff in H; destruct H
  | H : negb _ = true |- _ => apply negb_true_iff in H
  | H : negb _ = false |- _ => apply negb_false_iff in H
  end.

(** Case split on the condition of an [if] in the goal, or of the [if]s in
    the hypotheses, with the comparison turned into an arithmetic fact. *)
Ltac case_if :=
  match goal with
  | |- context [if ?b then _ else _] => let E := fresh "E" in destruct b eqn:E; zify_bools
  end.
Ltac case_if_in H :=
  match type of H with
  | context [if ?b then _ else _] => let E := fresh "E" in destruct b eqn:E; zify_bools
  end.

(** ** Shared lemmas *)

Lemma u64_small (x : Z) : 0 <= x < 2 ^ 64 -> u64 x = x.
Proof. apply Z.mod_small. Qed.

Lemma u64_range (x : Z) : 0 <= u64 x < 2 ^ 64.
Proof. apply Z.mod_pos_bound. lia. Qed.

Lemma u8_range (x : Z) : 0 <= u8 x < 2 ^ 8.
Proof. apply Z.mod_pos_bound. lia. Qed.

Lemma u8_small (x : Z) : 0 <= x < 2 ^ 8 -> u8 x = x.
Proof. apply Z.mod_small. Qed.

#[export] Hint Resolve u64_range u8_range : dufay.

(** A value that fits in a signed word keeps its value. *)
Lemma s32_small (x : Z) : - 2 ^ 31 <= x < 2 ^ 31 -> s32 x = x.
Proof.
  unfold s32, signed. intros H. change (2 ^ (32 - 1)) with (2 ^ 31).
  destruct (Z.leb_spec 0 x).
  - rewrite Z.mod_small by lia. destruct (Z.ltb_spec x (2 ^ 31)); lia.
  - rewrite <- (Z.mod_add x 1), Z.mod_small by lia. destruct (Z.ltb_spec (x + 1 * 2 ^ 32) (2 ^ 31)); lia.
Qed.

Lemma bind_ok {S A B} (m : M S A) (f : A -> M S B) (s s' : S) (a : A) :
  m s = (s', Ok a) -> (m ≫= f) s = f a s'.
Proof. intros E. unfold mbind, M_bind. rewrite E. done. Qed.

Lemma bind_halt {S A B} (m : M S A) (f : A -> M S B) (s s' : S) :
  m s = (s', Halt) -> (m ≫= f) s = (s', Halt).
Proof. intros E. unfold mbind, M_bind. rewrite E. done. Qed.

(** [x & (1 << n)] as a condition. *)
Lemma land_bit (x n : Z) : 0 <= n -> (Z.land x (2 ^ n) =? 0) = negb (Z.testbit x n).
Proof.
  intros Hn. destruct (Z.testbit x n) eqn:E; cbn.
  - apply Z.eqb_neq. intros H. apply (f_equal (fun z => Z.testbit z n)) in H.
    rewrite Z.land_spec, E, Z.pow2_bits_true, Z.bits_0 in H by done. done.
  - apply Z.eqb_eq, Z.bits_inj'. intros m Hm. rewrite Z.land_spec, Z.bits_0.
    rewrite Z.pow2_bits_eqb by done. destruct (n =? m) eqn:E1; zify_bools; subst;
      rewrite ?E, ?andb_false_r; done.
Qed.

(** Masking keeps a value within its width. *)
Lemma land_range (a b w : Z) : 0 <= w -> 0 <= a < 2 ^ w -> 0 <= Z.land a b < 2 ^ w.
Proof.
  intros Hw Ha. rewrite <- (Z.mod_small a (2 ^ w)) by done.
  rewrite <- Z.land_ones, <- Z.land_assoc, (Z.land_comm (Z.ones w)), Z.land_assoc, Z.land_ones by done.
  apply Z.mod_pos_bound. lia.
Qed.

Lemma lor_range (a b w : Z) : 0 <= w -> 0 <= a < 2 ^ w -> 0 <= b < 2 ^ w -> 0 <= Z.lor a b < 2 ^ w.
Proof.
  intros Hw Ha Hb. assert (E : Z.lor a b = Z.lor a b mod 2 ^ w).
  { apply Z.bits_inj'. intros n Hn. destruct (Z.lt_ge_cases n w); [by rewrite Z.mod_pow2_bits_low|].
    rewrite Z.mod_pow2_bits_high, Z.lor_spec by lia.
    rewrite <- (Z.mod_small a (2 ^ w)), <- (Z.mod_small b (2 ^ w)), !Z.mod_pow2_bits_high by lia. done. }
  rewrite E. apply Z.mod_pos_bound. lia.
Qed.

(** Filtering looks only at the elements of the list. *)
Lemma filter_ext_in {A} (P Q : A -> Prop) `{!forall x, Decision (P x), !forall x, Decision (Q x)} (l : list A) :
  (forall x, x ∈ l -> P x <-> Q x) -> filter P l = filter Q l.
Proof.
  induction l as [|x l IH]; intros Hl; [done|]. rewrite !filter_cons, IH by (intros; apply Hl; by right).
  pose proof (Hl x ltac:(left)). repeat case_decide; tauto || done.
Qed.

(** Replacing one of the concatenated lists. *)
Lemma concat_insert {A} (qs : list (list A)) (i : nat) (l : list A) :
  qs !! i = Some l ->
  exists rest, concat qs ≡ₚ l ++ rest /\ forall l', concat (<[i := l']> qs) ≡ₚ l' ++ rest.
Proof.
  intros Hl. exists (concat (take i qs) ++ concat (drop (S i) qs)).
  pose proof (lookup_lt_Some _ _ _ Hl). split.
  - rewrite <- (take_drop_middle qs i l Hl) at 1. rewrite !concat_app. cbn [concat]. solve_Permutation.
  - intros l'. rewrite (insert_take_drop qs i l') by done. rewrite !concat_app. cbn [concat]. solve_Permutation.
Qed.

(** ** Masks *)

(** Or-ing a number below [2 ^ m] into a multiple of [2 ^ m] adds it. *)
Lemma lor_low (a f m : Z) : 0 <= m -> a mod 2 ^ m = 0 -> 0 <= f < 2 ^ m -> Z.lor a f = a + f.
Proof.
  intros Hm Ha Hf.
  assert (E : Z.land a f = 0).
  { apply Z.bits_inj'. intros n Hn. rewrite Z.land_spec, Z.bits_0. destruct (Z.ltb_spec n m).
    - rewrite <- (Z.mod_pow2_bits_low a m n), Ha, Z.bits_0 by lia. done.
    - rewrite <- (Z.mod_small f (2 ^ m)), Z.mod_pow2_bits_high by lia. apply andb_false_r. }
  rewrite <- Z.lxor_lor, Z.add_nocarry_lxor by done. done.
Qed.

(** The mask of the bits from [m] to [w]. *)
Lemma high_mask (m w : Z) : 0 <= m <= w -> 2 ^ w - 2 ^ m = Z.ldiff (Z.ones w) (Z.ones m).
Proof.
  intros H. rewrite Z.ldiff_ones_r, Z.shiftl_mul_pow2, Z.shiftr_div_pow2, Z.ones_equiv by lia.
  replace (Z.pred (2 ^ w)) with ((2 ^ (w - m) - 1) * 2 ^ m + (2 ^ m - 1)).
  - rewrite Z.div_add_l, (Z.div_small (2 ^ m - 1)) by lia. rewrite Z.add_0_r, Z.mul_sub_distr_r, <- Z.pow_add_r by lia.
    replace (w - m + m) with w by lia. lia.
  - rewrite Z.mul_sub_distr_r, <- Z.pow_add_r by lia. replace (w - m + m) with w by lia. lia.
Qed.

Lemma land_high (x m w : Z) : 0 <= m <= w -> 0 <= x < 2 ^ w -> Z.land x (2 ^ w - 2 ^ m) = x - x mod 2 ^ m.
Proof.
  intros H Hx. rewrite high_mask by done. transitivity (Z.ldiff x (Z.ones m)).
  { apply Z.bits_inj'. intros n Hn. rewrite Z.land_spec, !Z.ldiff_spec. destruct (Z.ltb_spec n w).
    - rewrite (Z.ones_spec_low w) by lia. done.
    - rewrite <- (Z.mod_small x (2 ^ w)), Z.mod_pow2_bits_high by lia. done. }
  rewrite Z.ldiff_ones_r, Z.shiftl_mul_pow2, Z.shiftr_div_pow2 by lia. pose proof (Z.div_mod x (2 ^ m) ltac:(lia)). lia.
Qed.

Lemma land_low (x w : Z) : 0 <= w -> Z.land x (2 ^ w - 1) = x mod 2 ^ w.
Proof. intros. replace (2 ^ w - 1) with (Z.ones w) by (rewrite Z.ones_equiv; lia). by apply Z.land_ones. Qed.
