(* ===== verification/Aria.v ===== *)
(** * The aria support library

    [aria] is a git submodule: its macros and data structures are parameters
    of the development.  A class gathers the operations the kernel uses, and
    a second class states the documented behaviour the kernel relies on. *)

From S2P Require Import Prelude.

(** Arithmetic and bitmap macros of [aria/base.h].  A bitmap is the list of
    its bytes, a bit is addressed by its index. *)
Class AriaBase := {
  ALIGN_UP : Z -> Z -> Z;
  DIV_ROUNDUP : Z -> Z -> Z;
  BIT_TEST : list Z -> Z -> bool;
  BIT_SET : list Z -> Z -> list Z;
  BIT_CLEAR : list Z -> Z -> list Z;
}.

Definition in_bits (bm : list Z) (i : Z) : Prop := 0 <= i < 8 * Z.of_nat (length bm).

Class AriaBaseOk (A : AriaBase) : Prop := {
  (** [ALIGN_UP] rounds up to the next multiple of a power of two. *)
  align_up_ge : forall x k, 0 <= k -> 0 <= x -> x + 2 ^ k <= 2 ^ 64 ->
    x <= ALIGN_UP x (2 ^ k) < x + 2 ^ k;
  align_up_mod : forall x k, 0 <= k -> 0 <= x -> x + 2 ^ k <= 2 ^ 64 ->
    ALIGN_UP x (2 ^ k) mod 2 ^ k = 0;
  (** [DIV_ROUNDUP] is the quotient rounded up. *)
  div_roundup_spec : forall x d, 0 < d -> 0 <= x -> x + d <= 2 ^ 64 ->
    d * (DIV_ROUNDUP x d - 1) < x <= d * DIV_ROUNDUP x d;
  bit_set_length : forall bm i, length (BIT_SET bm i) = length bm;
  bit_clear_length : forall bm i, length (BIT_CLEAR bm i) = length bm;
  bit_test_zero : forall n i, 0 <= i < 8 * Z.of_nat n ->
    BIT_TEST (replicate n 0) i = false;
  bit_test_set : forall bm i j, in_bits bm i -> in_bits bm j ->
    BIT_TEST (BIT_SET bm i) j = (i =? j) || BIT_TEST bm j;
  bit_test_clear : forall bm i j, in_bits bm i -> in_bits bm j ->
    BIT_TEST (BIT_CLEAR bm i) j = negb (i =? j) && BIT_TEST bm j;
}.

(** ** A reference instance

    It shows that the laws can hold together, and it makes the definitions
    of the other files executable on concrete inputs. *)

Module AriaRef.

Definition align_up (x a : Z) : Z := (x + a - 1) / a * a.
Definition div_roundup (x d : Z) : Z := (x + d - 1) / d.

Definition get_byte (bm : list Z) (i : Z) : Z := default 0 (bm !! Z.to_nat (i / 8)).
Definition bit_test (bm : list Z) (i : Z) : bool := Z.testbit (get_byte bm i) (i mod 8).
Definition bit_set (bm : list Z) (i : Z) : list Z :=
  <[Z.to_nat (i / 8) := Z.setbit (get_byte bm i) (i mod 8)]> bm.
Definition bit_clear (bm : list Z) (i : Z) : list Z :=
  <[Z.to_nat (i / 8) := Z.clearbit (get_byte bm i) (i mod 8)]> bm.

End AriaRef.

#[export] Instance aria_ref : AriaBase := {
  ALIGN_UP := AriaRef.align_up;
  DIV_ROUNDUP := AriaRef.div_roundup;
  BIT_TEST := AriaRef.bit_test;
  BIT_SET := AriaRef.bit_set;
  BIT_CLEAR := AriaRef.bit_clear;
}.

Lemma round_up_bounds (x a : Z) :
  0 < a -> x <= (x + a - 1) / a * a < x + a.
Proof.
  intros. pose proof (Z.div_mod (x + a - 1) a ltac:(lia)).
  pose proof (Z.mod_pos_bound (x + a - 1) a ltac:(lia)). lia.
Qed.

Lemma get_byte_insert (bm : list Z) (i j v : Z) :
  in_bits bm i -> in_bits bm j ->
  AriaRef.get_byte (<[Z.to_nat (i / 8) := v]> bm) j =
    if i / 8 =? j / 8 then v else AriaRef.get_byte bm j.
Proof.
  unfold in_bits, AriaRef.get_byte. intros Hi Hj.
  pose proof (Z.div_le_upper_bound i 8 (Z.of_nat (length bm) - 1)).
  assert (0 <= i / 8 < Z.of_nat (length bm)).
  { split; [apply Z.div_pos | apply Z.div_lt_upper_bound]; lia. }
  assert (0 <= j / 8) by (apply Z.div_pos; lia).
  case_if.
  - rewrite <- E. rewrite list_lookup_insert_eq by lia. done.
  - rewrite list_lookup_insert_ne by lia. done.
Qed.

Lemma same_bit (i j : Z) : (i =? j) = (i / 8 =? j / 8) && (i mod 8 =? j mod 8).
Proof.
  pose proof (Z.div_mod i 8). pose proof (Z.div_mod j 8).
  destruct (i =? j) eqn:E; symmetry; zify_bools.
  - subst. rewrite !Z.eqb_refl. done.
  - apply andb_false_iff.
    destruct (i / 8 =? j / 8) eqn:E1; destruct (i mod 8 =? j mod 8) eqn:E2; zify_bools; auto; lia.
Qed.

#[export] Instance aria_ref_ok : AriaBaseOk aria_ref.
Proof.
  split; cbn; unfold AriaRef.align_up, AriaRef.div_roundup.
  - intros x k Hk Hx _. apply round_up_bounds. apply Z.pow_pos_nonneg; lia.
  - intros. apply Z.mod_mul. apply Z.pow_nonzero; lia.
  - intros x d Hd Hx _. pose proof (round_up_bounds x d Hd). lia.
  - intros. apply length_insert.
  - intros. apply length_insert.
  - intros n i Hi. unfold AriaRef.bit_test, AriaRef.get_byte.
    rewrite lookup_replicate_2; [apply Z.bits_0|].
    pose proof (Z.div_lt_upper_bound i 8 (Z.of_nat n)).
    assert (0 <= i / 8) by (apply Z.div_pos; lia). lia.
  - intros bm i j Hi Hj. unfold AriaRef.bit_test, AriaRef.bit_set.
    rewrite get_byte_insert, (same_bit i j) by done.
    destruct (i / 8 =? j / 8) eqn:E; cbn [andb orb negb]; [|reflexivity]. zify_bools.
    replace (AriaRef.get_byte bm j) with (AriaRef.get_byte bm i)
      by (unfold AriaRef.get_byte; congruence).
    rewrite Z.setbit_eqb by (apply Z.mod_pos_bound; lia). done.
  - intros bm i j Hi Hj. unfold AriaRef.bit_test, AriaRef.bit_clear.
    rewrite get_byte_insert, (same_bit i j) by done.
    destruct (i / 8 =? j / 8) eqn:E; cbn [andb orb negb]; [|reflexivity]. zify_bools.
    replace (AriaRef.get_byte bm j) with (AriaRef.get_byte bm i)
      by (unfold AriaRef.get_byte; congruence).
    rewrite Z.clearbit_eqb. rewrite andb_comm. done.
Qed.

(** ** Dictionaries ([aria/dictionary.h])

    A dictionary maps the bytes a key pointer points to; every key of the
    kernel is an integer of a fixed width, given here as its value, or a
    string, given by [bytes_key]. *)
Class AriaDict := {
  dictionary : Type -> Type;
  dict_empty : forall {A}, dictionary A;
  dictionary_push : forall {A}, dictionary A -> Z -> A -> dictionary A * bool;
  dictionary_search : forall {A}, dictionary A -> Z -> option A;
  dictionary_delete : forall {A}, dictionary A -> Z -> dictionary A;
}.

Class AriaDictOk (D : AriaDict) : Prop := {
  dict_search_empty : forall A k, dictionary_search (A := A) dict_empty k = None;
  dict_search_push : forall A (d d' : dictionary A) k k' v,
    dictionary_push d k v = (d', true) ->
    dictionary_search d' k' = if k =? k' then Some v else dictionary_search d k';
  dict_search_delete : forall A (d : dictionary A) k k',
    dictionary_search (dictionary_delete d k) k' = if k =? k' then None else dictionary_search d k';
}.

(** A dictionary key made of a string of bytes, as a number. *)
Definition bytes_key (l : list Z) : Z := foldr (fun b acc => b + 256 * acc) 1 l.

#[export] Instance dict_ref : AriaDict := {
  dictionary A := gmap Z A;
  dict_empty A := ∅;
  dictionary_push A d k v := (<[k := v]> d, true);
  dictionary_search A d k := d !! k;
  dictionary_delete A d k := delete k d;
}.

#[export] Instance dict_ref_ok : AriaDictOk dict_ref.
Proof.
  split; cbn.
  - intros. apply lookup_empty.
  - intros A d d' k k' v [= <-]. case_if; [subst; by rewrite lookup_insert_eq|by rewrite lookup_insert_ne].
  - intros A d k k'. case_if; [subst; by rewrite lookup_delete_eq|by rewrite lookup_delete_ne].
Qed.

(** ** Pairing heaps ([aria/pairing_heap.h])

    A heap of nodes, here the numbers of the objects that embed them.  The
    comparison looks at keys that do not change while a node is in the
    heap. *)
Definition key_compare (key : Z -> Z) (a b : Z) : bool := key a <? key b.

Class PairingHeap := {
  pairing_heap : Type;
  pairing_heap_empty : pairing_heap;
  pairing_heap_insert : (Z -> Z -> bool) -> pairing_heap -> Z -> pairing_heap;
  pairing_heap_top : pairing_heap -> option Z;
  pairing_heap_pop : (Z -> Z -> bool) -> pairing_heap -> pairing_heap;
  pairing_heap_remove : (Z -> Z -> bool) -> pairing_heap -> Z -> pairing_heap;
}.

Class PairingHeapOk (H : PairingHeap) := {
  ph_elems : pairing_heap -> list Z;
  ph_wf : (Z -> Z) -> pairing_heap -> Prop;
  ph_empty_ok : forall key, ph_wf key pairing_heap_empty /\ ph_elems pairing_heap_empty = [];
  ph_insert_ok : forall key h x, ph_wf key h -> x ∉ ph_elems h ->
    ph_wf key (pairing_heap_insert (key_compare key) h x) /\
    ph_elems (pairing_heap_insert (key_compare key) h x) ≡ₚ x :: ph_elems h;
  ph_top_ok : forall key h, ph_wf key h ->
    match pairing_heap_top h with
    | None => ph_elems h = []
    | Some x => x ∈ ph_elems h /\ forall y, y ∈ ph_elems h -> key x <= key y
    end;
  ph_pop_ok : forall key h x, ph_wf key h -> pairing_heap_top h = Some x ->
    ph_wf key (pairing_heap_pop (key_compare key) h) /\
    ph_elems h ≡ₚ x :: ph_elems (pairing_heap_pop (key_compare key) h);
  ph_remove_ok : forall key h x, ph_wf key h -> x ∈ ph_elems h ->
    ph_wf key (pairing_heap_remove (key_compare key) h x) /\
    ph_elems h ≡ₚ x :: ph_elems (pairing_heap_remove (key_compare key) h x);
  ph_wf_ext : forall key key' h, ph_wf key h -> (forall x, x ∈ ph_elems h -> key x = key' x) -> ph_wf key' h;
}.

(** The reference instance keeps a sorted list. *)
Module HeapRef.

Fixpoint insert (cmp : Z -> Z -> bool) (l : list Z) (x : Z) : list Z :=
  match l with
  | [] => [x]
  | y :: l' => if cmp y x then y :: insert cmp l' x else x :: l
  end.

Fixpoint remove (l : list Z) (x : Z) : list Z :=
  match l with
  | [] => []
  | y :: l => if y =? x then l else y :: remove l x
  end.

Definition sorted (key : Z -> Z) (l : list Z) : Prop := StronglySorted (fun a b => key a <= key b) l.

Lemma insert_perm (cmp : Z -> Z -> bool) (l : list Z) (x : Z) : insert cmp l x ≡ₚ x :: l.
Proof. induction l as [|y l IH]; cbn; [done|]. destruct (cmp y x); [|done]. rewrite IH. apply Permutation_swap. Qed.

Lemma remove_perm (l : list Z) (x : Z) : x ∈ l -> l ≡ₚ x :: remove l x.
Proof.
  induction l as [|y l IH]; cbn; [by intros ?%elem_of_nil|]. intros [->|Hx]%elem_of_cons; [by rewrite Z.eqb_refl|].
  case_if; [by subst|]. rewrite (IH Hx) at 1. apply Permutation_swap.
Qed.

Lemma insert_sorted (key : Z -> Z) (l : list Z) (x : Z) : sorted key l -> sorted key (insert (key_compare key) l x).
Proof.
  unfold sorted. induction 1 as [|y l Hs IH Hf]; cbn; [by repeat constructor|].
  unfold key_compare at 1. case_if.
  - constructor; [done|]. apply Forall_forall. intros z. rewrite insert_perm. intros [->|Hz]%elem_of_cons; [lia|].
    rewrite Forall_forall in Hf. by apply Hf.
  - constructor; [by constructor|]. constructor; [lia|]. eapply Forall_impl; [exact Hf|]. cbn. intros. lia.
Qed.

Lemma remove_sorted (key : Z -> Z) (l : list Z) (x : Z) : sorted key l -> sorted key (remove l x).
Proof.
  unfold sorted. induction 1 as [|y l Hs IH Hf]; cbn; [constructor|]. case_if; [done|]. constructor; [done|].
  rewrite Forall_forall in *. intros z Hz. apply Hf. clear -Hz. induction l as [|a l IH]; cbn in *; [done|].
  case_if_in Hz; [by right|]. apply elem_of_cons in Hz as [->|Hz]; [left|right; auto].
Qed.

End HeapRef.

#[export] Instance heap_ref : PairingHeap := {
  pairing_heap := list Z;
  pairing_heap_empty := [];
  pairing_heap_insert := HeapRef.insert;
  pairing_heap_top h := head h;
  pairing_heap_pop _ h := tail h;
  pairing_heap_remove _ h x := HeapRef.remove h x;
}.

#[export] Instance heap_ref_ok : PairingHeapOk heap_ref.
Proof.
  refine {| ph_elems := fun h => h; ph_wf := HeapRef.sorted |}; cbn.
  - intros key. split; [constructor|done].
  - intros key h x Hw _. split; [by apply HeapRef.insert_sorted|apply HeapRef.insert_perm].
  - intros key h Hw. destruct Hw as [|x l Hs Hf]; cbn; [done|]. split; [left|]. rewrite Forall_forall in Hf.
    intros y [->|Hy]%elem_of_cons; [lia|by apply Hf].
  - intros key h x Hw. destruct Hw as [|y l Hs Hf]; cbn; [done|]. by intros [= ->].
  - intros key h x Hw Hx. split; [by apply HeapRef.remove_sorted|by apply HeapRef.remove_perm].
  - intros key key' h Hw Hk. unfold HeapRef.sorted in *. induction Hw as [|y l Hs IH Hf]; [constructor|].
    constructor; [apply IH; intros; apply Hk; by right|]. rewrite Forall_forall in *. intros z Hz.
    rewrite <- (Hk y), <- (Hk z); [by apply Hf|by right|left].
Defined.

(** ** Bitmaps and vectors ([aria/bitmap.h], [aria/vector.h]) *)

Record bitmap_t := MkBitmap {
  bm_data : option (list Z);
  bm_size : Z;
  bm_resizable : bool;
}.

Class AriaBitmap := {
  bitmap_alloc : bitmap_t -> bitmap_t * option Z;
  bitmap_free : bitmap_t -> Z -> bitmap_t;
  (** The value of the expression [BIT_SET(data, i)]. *)
  BIT_SET_value : list Z -> Z -> bool;
  (** [VECTOR_INDEX(v, element, i)] makes index [i] valid. *)
  VECTOR_INDEX : forall {A}, list A -> A -> Z -> list A;
}.

Definition bit_used `{AriaBase} (b : bitmap_t) (i : Z) : Prop :=
  exists d, bm_data b = Some d /\ in_bits d i /\ BIT_TEST d i = true.

Class AriaBitmapOk (AB : AriaBase) (AM : AriaBitmap) : Prop := {
  bitmap_alloc_ok : forall b b' i, bitmap_alloc b = (b', Some i) ->
    0 <= i < 2 ^ 31 /\ i <= bm_size b' /\ bm_size b <= bm_size b' < 2 ^ 31 /\
    ~ bit_used b i /\ (forall j, bit_used b' j <-> j = i \/ bit_used b j);
  bitmap_alloc_fail : forall b b', bitmap_alloc b = (b', None) -> b' = b;
  bitmap_free_ok : forall b i, bit_used b i ->
    bm_size (bitmap_free b i) = bm_size b /\ (forall j, bit_used (bitmap_free b i) j <-> bit_used b j /\ j <> i);
  (** The value of an assignment is the value stored, which has the bit. *)
  bit_set_value : forall d i, in_bits d i -> BIT_SET_value d i = true;
  vector_index_ok : forall A (l : list A) a i, 0 <= i ->
    i < Z.of_nat (length (VECTOR_INDEX l a i)) /\
    (forall j x, l !! j = Some x -> VECTOR_INDEX l a i !! j = Some x);
}.

(** The reference instance does not grow: it looks for the first clear bit. *)
Module BitmapRef.

Definition data (b : bitmap_t) : list Z := default (replicate 8 0) (bm_data b).

Definition alloc (b : bitmap_t) : bitmap_t * option Z :=
  let d := data b in
  match list_find (fun i => AriaRef.bit_test d i = false) (seqZ 0 (8 * Z.of_nat (length d))) with
  | Some (_, i) =>
      if (i <=? bm_size b) && (i <? 2 ^ 31) && (bm_size b <? 2 ^ 31)
      then (MkBitmap (Some (AriaRef.bit_set d i)) (bm_size b) (bm_resizable b), Some i)
      else (b, None)
  | None => (b, None)
  end.

Definition free (b : bitmap_t) (i : Z) : bitmap_t :=
  MkBitmap ((fun d => AriaRef.bit_clear d i) <$> bm_data b) (bm_size b) (bm_resizable b).

Definition vector_index {A} (l : list A) (a : A) (i : Z) : list A := l ++ replicate (Z.to_nat (i + 1) - length l) a.

End BitmapRef.

#[export] Instance bitmap_ref : AriaBitmap := {
  bitmap_alloc := BitmapRef.alloc;
  bitmap_free := BitmapRef.free;
  BIT_SET_value _ _ := true;
  VECTOR_INDEX A := BitmapRef.vector_index;
}.

Lemma data_used (b : bitmap_t) (j : Z) :
  bit_used b j <-> in_bits (BitmapRef.data b) j /\ AriaRef.bit_test (BitmapRef.data b) j = true.
Proof.
  unfold bit_used, BitmapRef.data. destruct (bm_data b) as [d|]; cbn; [naive_solver|]. split; [naive_solver|].
  intros [Hj Ht]. pose proof (bit_test_zero 8 j Hj) as H. cbn in H. congruence.
Qed.

#[export] Instance bitmap_ref_ok : AriaBitmapOk aria_ref bitmap_ref.
Proof.
  split; cbn.
  - intros b b' i. unfold BitmapRef.alloc. destruct (list_find _ _) as [[k x]|] eqn:E; [|done].
    apply list_find_Some in E as (Hk & Hc & _). apply lookup_seqZ in Hk as [-> Hk].
    destruct (_ && _) eqn:Eb; [|done]. zify_bools. intros [= <- <-]. cbn [bm_size].
    assert (Hin : in_bits (BitmapRef.data b) (0 + Z.of_nat k)) by (unfold in_bits; lia).
    split_and!; try lia.
    + rewrite data_used. intros [_ Ht]. congruence.
    + intros j. rewrite (data_used b). unfold bit_used. cbn [bm_data]. split.
      * intros (d & [= <-] & Hj & Ht). unfold in_bits in Hj. rewrite (bit_set_length (A := aria_ref)) in Hj.
        rewrite (bit_test_set (A := aria_ref)) in Ht by done. apply orb_true_iff in Ht as [Ht|Ht]; zify_bools; [left; lia|by right].
      * intros Hor. eexists. split; [done|]. unfold in_bits. rewrite (bit_set_length (A := aria_ref)).
        assert (Hj : in_bits (BitmapRef.data b) j) by (destruct Hor as [->|[? _]]; done).
        split; [done|]. rewrite (bit_test_set (A := aria_ref)) by done. apply orb_true_iff.
        destruct Hor as [->|[_ Ht]]; [left; apply Z.eqb_refl|by right].
  - intros b b'. unfold BitmapRef.alloc. destruct (list_find _ _) as [[k x]|]; [destruct (_ && _)|]; congruence.
  - intros b i (d & Hd & Hi & Ht). split; [done|]. intros j. unfold bit_used, BitmapRef.free. cbn. rewrite Hd. cbn. split.
    + intros (d' & [= <-] & Hj & Hc). unfold in_bits in Hj. rewrite (bit_clear_length (A := aria_ref)) in Hj.
      rewrite (bit_test_clear (A := aria_ref)) in Hc by done. zify_bools. split; [by exists d|lia].
    + intros [H Hne]. destruct H as (d' & Ed & Hj & Hc). rewrite ?Hd in Ed. injection Ed as <-. eexists. split; [done|]. unfold in_bits. rewrite (bit_clear_length (A := aria_ref)).
      split; [done|]. rewrite (bit_test_clear (A := aria_ref)) by done. apply andb_true_iff. split; [|done].
      apply negb_true_iff, Z.eqb_neq. done.
  - done.
  - intros A l a i Hi. unfold BitmapRef.vector_index. rewrite length_app, length_replicate. split; [lia|].
    intros j x Hj. by apply lookup_app_l_Some.
Qed.

(** ** Vectors of [aria/vector.h]

    [VECTOR_PUSH] appends; growing the storage is the macro's own affair. *)
Class AriaVector := { VECTOR_PUSH : forall {A}, list A -> A -> list A }.

Class AriaVectorOk (AV : AriaVector) : Prop := {
  vector_push_spec : forall A (l : list A) a, VECTOR_PUSH l a = l ++ [a];
}.

#[export] Instance vector_ref : AriaVector := { VECTOR_PUSH A l a := l ++ [a] }.

#[export] Instance vector_ref_ok : AriaVectorOk vector_ref.
Proof. by constructor. Qed.

(** ** Search trees ([aria/bst.h], [aria/rb_tree.h]) *)

(** The tree through [left] and [right], by the number of the object. *)
Inductive ptree :=
| PLeaf
| PNode (left : ptree) (node : Z) (right : ptree).

Fixpoint nodes (t : ptree) : list Z :=
  match t with
  | PLeaf => []
  | PNode l n r => nodes l ++ n :: nodes r
  end.

(** The insertion macro of [aria/bst.h]: [BST_GENERIC_INSERT(root, key, node)]. *)
Class AriaBst := { BST_GENERIC_INSERT : (Z -> Z) -> ptree -> Z -> ptree }.

Fixpoint bst (key : Z -> Z) (t : ptree) : Prop :=
  match t with
  | PLeaf => True
  | PNode l n r =>
      bst key l /\ bst key r /\
      Forall (fun x => key x <= key n) (nodes l) /\ Forall (fun x => key n <= key x) (nodes r)
  end.

Class AriaBstOk (B : AriaBst) : Prop := {
  bst_insert_nodes : forall key t n, nodes (BST_GENERIC_INSERT key t n) ≡ₚ n :: nodes t;
  bst_insert_ok : forall key t n, bst key t -> bst key (BST_GENERIC_INSERT key t n);
}.

Module BstRef.

Fixpoint insert (key : Z -> Z) (t : ptree) (n : Z) : ptree :=
  match t with
  | PLeaf => PNode PLeaf n PLeaf
  | PNode l m r => if key n <? key m then PNode (insert key l n) m r else PNode l m (insert key r n)
  end.

Lemma insert_nodes key t n : nodes (insert key t n) ≡ₚ n :: nodes t.
Proof.
  induction t as [|l IHl m r IHr]; cbn [insert]; [done|]. case_if; cbn [nodes].
  - rewrite IHl. done.
  - rewrite IHr. rewrite Permutation_swap, <- Permutation_middle. done.
Qed.

End BstRef.

#[export] Instance bst_ref : AriaBst := { BST_GENERIC_INSERT := BstRef.insert }.

#[export] Instance bst_ref_ok : AriaBstOk bst_ref.
Proof.
  split; cbn; [apply BstRef.insert_nodes|]. intros key t n.
  induction t as [|l IHl m r IHr]; cbn [BstRef.insert bst]; [done|]. intros (Hl & Hr & Hfl & Hfr).
  case_if; cbn [bst]; split_and!; auto; rewrite BstRef.insert_nodes; constructor; done || lia.
Qed.

(** Red-black trees: [RB_GENERIC_INSERT(root, key, node)] and
    [RB_GENERIC_DELETE(root, node)]; [None] is [-1]. *)
Class AriaRb := {
  RB_GENERIC_INSERT : (Z -> Z) -> ptree -> Z -> option ptree;
  RB_GENERIC_DELETE : ptree -> Z -> option ptree;
}.

Class AriaRbOk (R : AriaRb) : Prop := {
  rb_insert_nodes : forall key t t' n, RB_GENERIC_INSERT key t n = Some t' -> nodes t' ≡ₚ n :: nodes t;
  rb_insert_ok : forall key t t' n, bst key t -> RB_GENERIC_INSERT key t n = Some t' -> bst key t';
}.

#[export] Instance rb_ref : AriaRb := {
  RB_GENERIC_INSERT key t n := Some (BstRef.insert key t n);
  RB_GENERIC_DELETE t n :=
    if decide (n ∈ nodes t)
    then Some (foldr (fun m t => PNode PLeaf m t) PLeaf (filter (fun m => m <> n) (nodes t)))
    else None;
}.

#[export] Instance rb_ref_ok : AriaRbOk rb_ref.
Proof.
  split; cbn; intros key t t' n; [intros [= <-]; apply BstRef.insert_nodes|].
  intros Ht [= <-]. by apply (bst_insert_ok (B := bst_ref)).
Qed.
