(* ===== verification/PageSource.v ===== *)
(** * What the page allocator promises to its clients

    The page tables, the address spaces and the slab allocator obtain frames
    from [pmm_alloc] and reach physical memory through the direct map.  This
    interface states the operations they call and the promises they rely on;
    [Physical.v] discharges it. *)

From S2P Require Import Prelude.

(** Words of physical memory: an absent word reads as zero. *)
Definition rd (mem : gmap Z Z) (a : Z) : Z := default 0 (mem !! a).

(** The frame at [a] and the [cnt] pages that follow it. *)
Definition in_frames (a cnt x : Z) : Prop :=
  exists j, 0 <= j < cnt /\ x = a + j * PAGE_SIZE.

Class PageSource (S : Type) := {
  ps_alloc : S -> Z -> Z -> S * cres Z;
  ps_mem : S -> gmap Z Z;
  ps_put : S -> gmap Z Z -> S;
}.

Class PageSourceOk (S : Type) (PS : PageSource S) := {
  (** The allocator's invariant, and the frames that are in use. *)
  ps_ok : S -> Prop;
  ps_used : S -> Z -> Prop;
  (** At least [n] further single frames can be allocated. *)
  ps_avail : S -> nat -> Prop;
  ps_mem_put : forall s mem, ps_mem (ps_put s mem) = mem;
  ps_ok_put : forall s mem, ps_ok s -> ps_ok (ps_put s mem);
  ps_used_put : forall s mem x, ps_used (ps_put s mem) x <-> ps_used s x;
  (** A successful request returns frames nobody had, aligned, in use from
      now on and zeroed; the rest of memory is untouched. *)
  ps_alloc_ok : forall s cnt k s' a, ps_ok s -> 0 < cnt < 2 ^ 52 -> 0 <= k <= 40 ->
    ps_alloc s cnt (2 ^ k) = (s', Ok a) ->
    ps_ok s' /\ 0 <= a /\ a + cnt * PAGE_SIZE <= 2 ^ 52 /\ a mod (2 ^ k * PAGE_SIZE) = 0 /\
    (forall x, in_frames a cnt x -> ~ ps_used s x) /\
    (forall x, ps_used s' x <-> in_frames a cnt x \/ ps_used s x) /\
    (forall x, a <= x < a + cnt * PAGE_SIZE -> x mod 8 = 0 -> rd (ps_mem s') x = 0) /\
    (forall x, ~ (a <= x < a + cnt * PAGE_SIZE) -> rd (ps_mem s') x = rd (ps_mem s) x);
  (** A failed request changes nothing. *)
  ps_alloc_err : forall s cnt k s', ps_ok s -> 0 < cnt < 2 ^ 52 -> 0 <= k <= 40 ->
    ps_alloc s cnt (2 ^ k) = (s', Err) -> s' = s;
  (** A request always returns. *)
  ps_alloc_total : forall s cnt k, ps_ok s -> 0 < cnt < 2 ^ 52 -> 0 <= k <= 40 ->
    snd (ps_alloc s cnt (2 ^ k)) <> Halt;
  ps_avail_put : forall s mem n, ps_avail (ps_put s mem) n <-> ps_avail s n;
  ps_avail_alloc : forall s n, ps_avail s (Datatypes.S n) ->
    exists s' a, ps_alloc s 1 1 = (s', Ok a) /\ ps_avail s' n;
  ps_avail_le : forall s n m, (m <= n)%nat -> ps_avail s n -> ps_avail s m;
  (** Frames in use are page aligned frames of the address space. *)
  ps_used_frame : forall s x, ps_ok s -> ps_used s x ->
    0 <= x < 2 ^ 52 /\ x mod PAGE_SIZE = 0;
}.

(** ** A reference implementation

    A bump allocator over the whole physical address space: the interface
    can be met, and the clients' hypotheses on free frames hold in it. *)

Record bump_state := MkBump {
  bump_next : Z;
  bump_frames : list Z;
  bump_mem : gmap Z Z;
}.

Definition bump_zero (a len : Z) (mem : gmap Z Z) : gmap Z Z :=
  filter (fun kv => ~ (a <= kv.1 < a + len)) mem.

Definition bump_alloc (s : bump_state) (cnt align : Z) : bump_state * cres Z :=
  let step := align * PAGE_SIZE in
  let a := (bump_next s + step - 1) / step * step in
  if a + cnt * PAGE_SIZE <=? 2 ^ 52
  then (MkBump (a + cnt * PAGE_SIZE)
               (((fun j => a + j * PAGE_SIZE) <$> seqZ 0 cnt) ++ bump_frames s)
               (bump_zero a (cnt * PAGE_SIZE) (bump_mem s)), Ok a)
  else (s, Err).

#[export] Instance bump_source : PageSource bump_state := {
  ps_alloc := bump_alloc;
  ps_mem := bump_mem;
  ps_put s mem := MkBump (bump_next s) (bump_frames s) mem;
}.

Record bump_ok (s : bump_state) : Prop := {
  bump_next_ok : 0 <= bump_next s <= 2 ^ 52 /\ bump_next s mod PAGE_SIZE = 0;
  bump_frames_ok : Forall (fun x => 0 <= x < bump_next s /\ x mod PAGE_SIZE = 0) (bump_frames s);
}.

Lemma bump_round x step : 0 < step -> x <= (x + step - 1) / step * step.
Proof. intros. pose proof (Z.div_mod (x + step - 1) step). pose proof (Z.mod_pos_bound (x + step - 1) step). lia. Qed.

Lemma rd_zero_in a len mem x : a <= x < a + len -> rd (bump_zero a len mem) x = 0.
Proof.
  intros Hx. unfold rd, bump_zero. rewrite map_lookup_filter_None_2; [done|]. right.
  intros v Hv Hn. apply Hn. done.
Qed.

Lemma rd_zero_out a len mem x : ~ (a <= x < a + len) -> rd (bump_zero a len mem) x = rd mem x.
Proof.
  intros Hx. unfold rd, bump_zero. destruct (mem !! x) eqn:E.
  - erewrite map_lookup_filter_Some_2; [done|done|done].
  - rewrite map_lookup_filter_None_2; [done|by left].
Qed.

Lemma seq_frames a cnt x :
  x ∈ ((fun j => a + j * PAGE_SIZE) <$> seqZ 0 cnt) <-> in_frames a cnt x.
Proof.
  rewrite list_elem_of_fmap. unfold in_frames. setoid_rewrite elem_of_seqZ.
  split; intros (j & ? & ?); exists j; split; done || lia.
Qed.

Lemma bump_alloc_ok s cnt k s' a :
  bump_ok s -> 0 < cnt -> 0 <= k -> bump_alloc s cnt (2 ^ k) = (s', Ok a) ->
  bump_ok s' /\ bump_next s <= a /\ a + cnt * PAGE_SIZE <= 2 ^ 52 /\ a mod (2 ^ k * PAGE_SIZE) = 0 /\
  bump_frames s' = ((fun j => a + j * PAGE_SIZE) <$> seqZ 0 cnt) ++ bump_frames s /\
  bump_mem s' = bump_zero a (cnt * PAGE_SIZE) (bump_mem s).
Proof.
  intros [[Hn Hal] Hf] Hc Hk. unfold bump_alloc. cbv zeta. set (step := 2 ^ k * PAGE_SIZE).
  assert (Hstep : 0 < step) by (unfold step, PAGE_SIZE; lia).
  case_if; [|done]. intros Heq.
  pose proof (bump_round (bump_next s) step Hstep) as Hr.
  set (b := (bump_next s + step - 1) / step * step) in *.
  assert (Hb : b mod step = 0) by (apply Z.mod_mul; lia).
  assert (Hb' : b mod PAGE_SIZE = 0).
  { apply Z.mod_divide; [done|]. apply Z.mod_divide in Hb; [|lia].
    etrans; [|exact Hb]. exists (2 ^ k). done. }
  injection Heq as <- <-. cbn [bump_frames bump_mem bump_next]. split_and!; try done.
  constructor; cbn [bump_next bump_frames].
  - unfold PAGE_SIZE in *. rewrite Z.mod_add by lia. split; [lia|done].
  - apply Forall_app. split.
    + apply Forall_forall. intros x Hx. apply seq_frames in Hx as (j & Hj & ->).
      unfold PAGE_SIZE in *. rewrite Z.mod_add by lia. split; [lia|done].
    + eapply Forall_impl; [exact Hf|]. cbn. intros x [Hx ?]. unfold PAGE_SIZE in *. split; [lia|done].
Qed.

#[export] Instance bump_source_ok : PageSourceOk bump_state bump_source.
Proof.
  refine {| ps_ok := bump_ok; ps_used := fun s x => x ∈ bump_frames s;
            ps_avail := fun s n => bump_next s mod PAGE_SIZE = 0 /\
                          bump_next s + Z.of_nat n * PAGE_SIZE <= 2 ^ 52 |}; try done.
  - intros s mem []. constructor; done.
  - intros s cnt k s' a Hs Hc Hk Ha.
    destruct (bump_alloc_ok s cnt k s' a Hs ltac:(lia) ltac:(lia) Ha) as (Hok & Hge & Hle & Hal & Hf & Hm).
    cbn [ps_mem bump_source]. rewrite Hm, Hf. pose proof (bump_next_ok s Hs). split_and!; try done; [lia|..].
    + intros x (j & Hj & ->) Hx. pose proof (bump_frames_ok s Hs) as HF. rewrite Forall_forall in HF.
      apply HF in Hx. unfold PAGE_SIZE in *. lia.
    + intros x. rewrite elem_of_app, seq_frames. done.
    + intros x Hx _. apply rd_zero_in. done.
    + intros x Hx. apply rd_zero_out. done.
  - intros s cnt k s' Hs Hc Hk. cbn [ps_alloc bump_source]. unfold bump_alloc. case_if; [done|]. congruence.
  - intros s cnt k Hs Hc Hk. cbn [ps_alloc bump_source]. unfold bump_alloc. case_if; done.
  - intros s n [Hal Hav]. cbn [ps_alloc bump_source]. unfold bump_alloc. rewrite !Z.mul_1_l.
    assert (Hr : (bump_next s + PAGE_SIZE - 1) / PAGE_SIZE * PAGE_SIZE = bump_next s).
    { unfold PAGE_SIZE in *. pose proof (Z.div_mod (bump_next s) 4096 ltac:(lia)).
      pose proof (Z.div_mod (bump_next s + 4096 - 1) 4096 ltac:(lia)).
      pose proof (Z.mod_pos_bound (bump_next s + 4096 - 1) 4096 ltac:(lia)). lia. }
    rewrite Hr. rewrite (proj2 (Z.leb_le _ _)) by (unfold PAGE_SIZE in *; lia).
    eexists _, _. split; [done|]. cbn [bump_next]. unfold PAGE_SIZE in *.
    split; [rewrite <- (Z.mul_1_l 4096) at 1; rewrite Z.mod_add by lia; done|lia].
  - intros s n m Hm [? ?]. split; [done|]. unfold PAGE_SIZE in *. lia.
  - intros s x Hs Hx. pose proof (bump_frames_ok s Hs) as HF. rewrite Forall_forall in HF.
    apply HF in Hx as [Hx Ha]. destruct (bump_next_ok s Hs). split; [lia|done].
Defined.
