(* ===== verification/Physical.v ===== *)
(** * The physical page allocator ([mm/physical.c])

    One bitmap module per usable region of the boot memory map; a bit is set
    when its page is in use.  The lock is not modelled: every operation here
    runs with the module lock held from its first to its last access. *)

From S2P Require Import Prelude Aria PageSource.

(** [struct limine_memmap_entry] of [external/limine.h]. *)
Record limine_memmap_entry := MkEntry {
  mm_base : Z;
  mm_length : Z;
  mm_type : Z;
}.

Definition LIMINE_MEMMAP_USABLE : Z := 0.

Record pmm_module := MkModule {
  mmap_entry : limine_memmap_entry;
  bitmap_size : Z;
  bitmap_entry_cnt : Z;
  last_free : Z;
  bitmap : list Z;
}.

(** The allocator's state: the chain of modules from [root_module] on, the
    bump pointer [meta_buffer], and the words of physical memory that the
    kernel reads and writes through the direct map. *)
Record pmm_state := MkPmm {
  pmm_modules : list pmm_module;
  meta_buffer : Z;
  pmm_memory : gmap Z Z;
}.

Section Physical.
Context `{AriaBase}.

Definition set_bitmap (m : pmm_module) (bm : list Z) : pmm_module :=
  MkModule (mmap_entry m) (bitmap_size m) (bitmap_entry_cnt m) (last_free m) bm.

Definition set_last_free (m : pmm_module) (z : Z) : pmm_module :=
  MkModule (mmap_entry m) (bitmap_size m) (bitmap_entry_cnt m) z (bitmap m).

Definition set_base (e : limine_memmap_entry) (b : Z) : limine_memmap_entry :=
  MkEntry b (mm_length e) (mm_type e).

Definition set_length (e : limine_memmap_entry) (l : Z) : limine_memmap_entry :=
  MkEntry (mm_base e) l (mm_type e).

(** The inner loop over [j]: it breaks on a set bit, completes when [cnt]
    clear bits were counted, and falls through when [cnt] is zero. *)
Inductive scan_result := ScanBusy | ScanDone (j : Z) | ScanNone.

Fixpoint pmm_scan (bm : list Z) (cnt j count : Z) (n : nat) : scan_result :=
  match n with
  | O => ScanNone
  | S n =>
      if BIT_TEST bm j then ScanBusy
      else if u64 (count + 1) =? cnt then ScanDone j
      else pmm_scan bm cnt (u64 (j + 1)) (u64 (count + 1)) n
  end.

(** [for (z = 0; z < count; z++) BIT_SET(bitmap, i + z)]. *)
Fixpoint pmm_set_run (bm : list Z) (i : Z) (n : nat) : list Z :=
  match n with
  | O => bm
  | S n => pmm_set_run (BIT_SET bm i) (i + 1) n
  end.

(** The search for the next free page from [z] on, [0] when there is none. *)
Fixpoint pmm_next_free (bm : list Z) (z : Z) (n : nat) : Z :=
  match n with
  | O => 0
  | S n => if BIT_TEST bm z then pmm_next_free bm (z + 1) n else z
  end.

(** The outer loop over [i], with the candidate address [alloc_base]; a step
    of zero would never leave the loop. *)
Fixpoint pmm_search (m : pmm_module) (cnt align i alloc_base : Z) (fuel : nat)
  : pmm_module * cres Z :=
  match fuel with
  | O => (m, Halt)
  | S fuel =>
      if i <? bitmap_entry_cnt m then
        if bitmap_entry_cnt m <? u64 (i + cnt) then (m, Err)
        else match pmm_scan (bitmap m) cnt i 0 (Z.to_nat cnt) with
        | ScanBusy =>
            pmm_search m cnt align (u64 (i + align))
              (u64 (alloc_base + align * PAGE_SIZE)) fuel
        | ScanNone => pmm_search m cnt align (u64 (i + align)) alloc_base fuel
        | ScanDone j =>
            let bm := pmm_set_run (bitmap m) i (Z.to_nat cnt) in
            let lf := pmm_next_free bm j (Z.to_nat (bitmap_entry_cnt m - j)) in
            (set_last_free (set_bitmap m bm) lf, Ok alloc_base)
        end
      else (m, Err)
  end.

Definition pmm_module_alloc (m : pmm_module) (cnt align : Z) : pmm_module * cres Z :=
  let alloc_base :=
    ALIGN_UP (u64 (mm_base (mmap_entry m) + u64 (last_free m * PAGE_SIZE)))
             (u64 (align * PAGE_SIZE)) in
  let bit_base := u64 (alloc_base - mm_base (mmap_entry m)) / PAGE_SIZE in
  pmm_search m cnt align bit_base alloc_base
    (S (Z.to_nat (bitmap_entry_cnt m - bit_base))).

Fixpoint pmm_clear_run (bm : list Z) (i : Z) (n : nat) : list Z :=
  match n with
  | O => bm
  | S n => pmm_clear_run (BIT_CLEAR bm i) (i + 1) n
  end.

Definition pmm_module_free (m : pmm_module) (base cnt : Z) : pmm_module :=
  set_bitmap m (pmm_clear_run (bitmap m) (DIV_ROUNDUP base PAGE_SIZE) (Z.to_nat cnt)).

(** [memset64(P2V(alloc), 0, (cnt * PAGE_SIZE) / 8)], on the
    physical side of the direct map. *)
Fixpoint memset64_zero (mem : gmap Z Z) (addr : Z) (n : nat) : gmap Z Z :=
  match n with
  | O => mem
  | S n => memset64_zero (<[addr := 0]> mem) (addr + 8) n
  end.

(** The walk over the modules: the first that can serve the request. *)
Fixpoint pmm_alloc_modules (ms : list pmm_module) (cnt align : Z)
  : list pmm_module * cres Z :=
  match ms with
  | [] => ([], Err)
  | m :: ms =>
      match pmm_module_alloc m cnt align with
      | (m', Ok a) =>
          if a =? ERROR_u64 then
            let '(ms', r) := pmm_alloc_modules ms cnt align in (m' :: ms', r)
          else (m' :: ms, Ok a)
      | (m', Err) =>
          let '(ms', r) := pmm_alloc_modules ms cnt align in (m' :: ms', r)
      | (m', Halt) => (m' :: ms, Halt)
      end
  end.

(** [pmm_alloc]: with no module at all the first iteration dereferences a
    null [root_module]. *)
Definition pmm_alloc (s : pmm_state) (cnt align : Z) : pmm_state * cres Z :=
  match pmm_modules s with
  | [] => (s, Halt)
  | ms =>
      let '(ms', r) := pmm_alloc_modules ms cnt align in
      match r with
      | Ok a =>
          (MkPmm ms' (meta_buffer s)
             (memset64_zero (pmm_memory s) a (Z.to_nat (u64 (cnt * PAGE_SIZE) / 8))),
           Ok a)
      | _ => (MkPmm ms' (meta_buffer s) (pmm_memory s), r)
      end
  end.

Fixpoint pmm_free_modules (ms : list pmm_module) (base cnt : Z) : list pmm_module :=
  match ms with
  | [] => []
  | m :: ms =>
      let mmap := mmap_entry m in
      if (mm_base mmap <=? base) &&
         (u64 (mm_base mmap + cnt * PAGE_SIZE) <=?
          u64 (mm_base mmap + bitmap_entry_cnt m * PAGE_SIZE))
      then pmm_module_free m (base - mm_base mmap) cnt :: ms
      else m :: pmm_free_modules ms base cnt
  end.

(** [pmm_free]: as for [pmm_alloc], an empty chain is a null dereference; an
    address no module claims is ignored. *)
Definition pmm_free (s : pmm_state) (base cnt : Z) : pmm_state * cres unit :=
  match pmm_modules s with
  | [] => (s, Halt)
  | ms => (MkPmm (pmm_free_modules ms base cnt) (meta_buffer s) (pmm_memory s), Ok tt)
  end.

(** ** Boot: [pmm_init]

    [sizeof_pmm_module] is the size of [struct pmm_module], which embeds an
    aria spinlock; [HIGH_VMA] is the offset of the direct map. *)

Context (sizeof_pmm_module HIGH_VMA : Z).

Definition MIB : Z := 0x100000.

(** First loop: size of the metadata buffer, and removal of the low MiB. *)
Definition pmm_init_size (e : limine_memmap_entry) (buffer_size : Z) : Z :=
  if mm_type e =? LIMINE_MEMMAP_USABLE then
    u64 (buffer_size + (sizeof_pmm_module * 2
                        + DIV_ROUNDUP (DIV_ROUNDUP (mm_length e) PAGE_SIZE) 8))
  else buffer_size.

Definition pmm_init_clip (e : limine_memmap_entry) : limine_memmap_entry :=
  if mm_base e <? MIB then
    if mm_length e <? MIB - mm_base e then set_length e 0
    else
      let e1 := set_base e (mm_base e + (MIB - mm_base e)) in
      set_length e1 (u64 (mm_length e1 - (MIB - mm_base e1)))
  else e.

Fixpoint pmm_init_scan (mmap : list limine_memmap_entry) (buffer_size : Z)
  : list limine_memmap_entry * Z :=
  match mmap with
  | [] => ([], buffer_size)
  | e :: mmap =>
      let '(mmap', bs) := pmm_init_scan mmap (pmm_init_size e buffer_size) in
      (pmm_init_clip e :: mmap', bs)
  end.

(** Second loop: carve the buffer out of the first entry it fits into. *)
Fixpoint pmm_init_carve (mmap : list limine_memmap_entry) (buffer_size meta : Z)
  : list limine_memmap_entry * Z :=
  match mmap with
  | [] => ([], meta)
  | e :: mmap =>
      if (mm_type e =? LIMINE_MEMMAP_USABLE) && (buffer_size <=? mm_length e) then
        let e1 := set_length (set_base e (u64 (mm_base e + buffer_size)))
                             (mm_length e - buffer_size) in
        let e2 := set_base e1 (ALIGN_UP (mm_base e1) PAGE_SIZE) in
        let e3 := set_length e2 (mm_length e2 / PAGE_SIZE * PAGE_SIZE) in
        (e3 :: mmap, u64 (mm_base e + HIGH_VMA))
      else
        let '(mmap', meta') := pmm_init_carve mmap buffer_size meta in
        (e :: mmap', meta')
  end.

(** [pmm_init_module]: the module and the advanced [meta_buffer]. *)
Definition pmm_init_module (e : limine_memmap_entry) (meta : Z) : pmm_module * Z :=
  let page_cnt := DIV_ROUNDUP (mm_length e) PAGE_SIZE in
  let size := DIV_ROUNDUP page_cnt 8 in
  (MkModule e size page_cnt 0 (replicate (Z.to_nat size) 0), u64 (meta + size)).

(** Third loop: a module for every usable entry that is left.  The module
    header is placed in the buffer first; the root and the later modules are
    set up alike and chained in order. *)
Fixpoint pmm_init_modules (mmap : list limine_memmap_entry) (meta : Z)
  : list pmm_module * Z :=
  match mmap with
  | [] => ([], meta)
  | e :: mmap =>
      if (mm_type e =? LIMINE_MEMMAP_USABLE) && negb (mm_length e =? 0) then
        let header := u64 (ALIGN_UP (u64 (meta - HIGH_VMA)) sizeof_pmm_module + HIGH_VMA) in
        let '(m, meta1) := pmm_init_module e (u64 (header + sizeof_pmm_module * 2)) in
        let '(ms, meta2) := pmm_init_modules mmap meta1 in
        (m :: ms, meta2)
      else pmm_init_modules mmap meta
  end.

Definition pmm_init (mmap : list limine_memmap_entry) (memory : gmap Z Z) : pmm_state :=
  let '(mmap1, buffer_size) := pmm_init_scan mmap 0 in
  let '(mmap2, meta) := pmm_init_carve mmap1 buffer_size 0 in
  let '(ms, meta') := pmm_init_modules mmap2 meta in
  MkPmm ms meta' memory.

End Physical.

(** ** Properties *)

Section PhysicalProofs.
Context {A : AriaBase} {HA : AriaBaseOk A}.
Implicit Types (m : pmm_module) (bm : list Z).

(** A module as [pmm_init] sets it up: a page-aligned region inside the
    52-bit physical address space and a bitmap with a bit for every page. *)
Record module_ok m : Prop := {
  mok_base : 0 <= mm_base (mmap_entry m);
  mok_aligned : mm_base (mmap_entry m) mod PAGE_SIZE = 0;
  mok_end : mm_base (mmap_entry m) + bitmap_entry_cnt m * PAGE_SIZE <= 2 ^ 52;
  mok_cnt : 0 <= bitmap_entry_cnt m <= 8 * Z.of_nat (length (bitmap m));
  mok_last : 0 <= last_free m <= bitmap_entry_cnt m;
}.

(** Page [i] of the module is in use. *)
Definition page_used m (i : Z) : Prop := BIT_TEST (bitmap m) i = true.

(** A run of [cnt] free pages whose address is a multiple of [align] pages,
    not below the allocator's starting hint. *)
Record free_run m (cnt align i : Z) : Prop := {
  fr_hint : last_free m <= i;
  fr_end : i + cnt <= bitmap_entry_cnt m;
  fr_align : (mm_base (mmap_entry m) + i * PAGE_SIZE) mod (align * PAGE_SIZE) = 0;
  fr_free : forall k, i <= k < i + cnt -> ~ page_used m k;
}.

Lemma pmm_set_run_length bm i n : length (pmm_set_run bm i n) = length bm.
Proof.
  revert bm i. induction n as [|n IH]; intros; cbn; [done|].
  rewrite IH. apply bit_set_length.
Qed.

Lemma pmm_clear_run_length bm i n : length (pmm_clear_run bm i n) = length bm.
Proof.
  revert bm i. induction n as [|n IH]; intros; cbn; [done|].
  rewrite IH. apply bit_clear_length.
Qed.

Lemma pmm_set_run_test bm i n j :
  0 <= i -> i + Z.of_nat n <= 8 * Z.of_nat (length bm) -> in_bits bm j ->
  BIT_TEST (pmm_set_run bm i n) j = (i <=? j) && (j <? i + Z.of_nat n) || BIT_TEST bm j.
Proof.
  revert bm i. induction n as [|n IH]; intros bm i Hi Hn Hj; cbn -[Z.of_nat].
  - destruct (i <=? j) eqn:E1, (j <? i + Z.of_nat 0) eqn:E2; zify_bools; done || lia.
  - rewrite IH; [|lia|rewrite bit_set_length; lia|unfold in_bits; rewrite bit_set_length; done].
    rewrite bit_test_set by (unfold in_bits in *; lia).
    destruct (BIT_TEST bm j); rewrite ?orb_true_r, ?orb_false_r; [done|].
    destruct (i <=? j) eqn:E1, (j <? i + Z.of_nat (S n)) eqn:E2, (i + 1 <=? j) eqn:E3,
      (j <? i + 1 + Z.of_nat n) eqn:E4, (i =? j) eqn:E5; zify_bools; done || lia.
Qed.

Lemma pmm_clear_run_test bm i n j :
  0 <= i -> i + Z.of_nat n <= 8 * Z.of_nat (length bm) -> in_bits bm j ->
  BIT_TEST (pmm_clear_run bm i n) j =
    negb ((i <=? j) && (j <? i + Z.of_nat n)) && BIT_TEST bm j.
Proof.
  revert bm i. induction n as [|n IH]; intros bm i Hi Hn Hj; cbn -[Z.of_nat].
  - destruct (i <=? j) eqn:E1, (j <? i + Z.of_nat 0) eqn:E2; zify_bools; done || lia.
  - rewrite IH; [|lia|rewrite bit_clear_length; lia|unfold in_bits; rewrite bit_clear_length; done].
    rewrite bit_test_clear by (unfold in_bits in *; lia).
    destruct (BIT_TEST bm j); rewrite ?andb_false_r, ?andb_true_r; [|done].
    destruct (i <=? j) eqn:E1, (j <? i + Z.of_nat (S n)) eqn:E2, (i + 1 <=? j) eqn:E3,
      (j <? i + 1 + Z.of_nat n) eqn:E4, (i =? j) eqn:E5; zify_bools; done || lia.
Qed.

Lemma pmm_next_free_range bm z n :
  0 <= z -> 0 <= pmm_next_free bm z n < z + Z.of_nat n \/ pmm_next_free bm z n = 0.
Proof.
  revert z. induction n as [|n IH]; intros z Hz; cbn -[Z.of_nat]; [auto|].
  destruct (BIT_TEST bm z); [|lia].
  destruct (IH (z + 1)); lia.
Qed.

Lemma pmm_next_free_min bm z n k :
  0 <= z -> z <= k < z + Z.of_nat n -> BIT_TEST bm k = false -> pmm_next_free bm z n <= k.
Proof.
  revert z. induction n as [|n IH]; intros z Hz Hk Hb; cbn -[Z.of_nat]; [lia|].
  destruct (BIT_TEST bm z) eqn:E; [|lia]. apply IH; [lia| |done].
  destruct (Z.eq_dec z k) as [->|]; [congruence|lia].
Qed.

Lemma pmm_scan_spec bm cnt j count n :
  0 <= j -> j + Z.of_nat (S n) < 2 ^ 64 -> 0 <= count -> count + Z.of_nat (S n) = cnt ->
  cnt < 2 ^ 64 ->
  match pmm_scan bm cnt j count (S n) with
  | ScanBusy => exists k, j <= k < j + Z.of_nat (S n) /\ BIT_TEST bm k = true
  | ScanDone j' => j' = j + Z.of_nat n /\
      (forall k, j <= k < j + Z.of_nat (S n) -> BIT_TEST bm k = false)
  | ScanNone => False
  end.
Proof.
  revert j count. induction n as [|n IH]; intros j count Hj Hn Hc Hcnt Hb;
    remember (S n) as n' eqn:En || idtac; cbn [pmm_scan];
    destruct (BIT_TEST bm j) eqn:Et; try (exists j; split; [lia|done]);
    rewrite (u64_small (count + 1)) by lia; case_if; try lia.
  - split; [lia|]. intros k Hk. replace k with j by lia. done.
  - subst n'. rewrite u64_small by lia.
    specialize (IH (j + 1) (count + 1) ltac:(lia) ltac:(lia) ltac:(lia) ltac:(lia) Hb).
    destruct (pmm_scan bm cnt (j + 1) (count + 1) (S n)); [| |done].
    + destruct IH as (k & Hk & ?). exists k. split; [lia|done].
    + destruct IH as (-> & Hk). split; [lia|]. intros k Hkr.
      destruct (Z.eq_dec k j); [congruence|]. apply Hk. lia.
Qed.

(** What one request leaves behind in a module. *)
Record run_taken m m' (cnt i : Z) : Prop := {
  rt_entry : mmap_entry m' = mmap_entry m;
  rt_cnt : bitmap_entry_cnt m' = bitmap_entry_cnt m;
  rt_ok : module_ok m';
  rt_used : forall k, 0 <= k < bitmap_entry_cnt m ->
    page_used m' k <-> (i <= k < i + cnt) \/ page_used m k;
  rt_hint : forall k, i <= k < bitmap_entry_cnt m -> ~ page_used m' k -> last_free m' <= k;
}.

(** The contract of a module: the lowest suitable run is taken, and a request
    fails only when there is none. *)
Definition alloc_post m (cnt align : Z) (r : pmm_module * cres Z) : Prop :=
  match r with
  | (m', Ok a) => exists i,
      0 <= i /\ a = mm_base (mmap_entry m) + i * PAGE_SIZE /\
      free_run m cnt align i /\ (forall i', free_run m cnt align i' -> i <= i') /\
      run_taken m m' cnt i
  | (m', Err) => m' = m /\ forall i, ~ free_run m cnt align i
  | (_, Halt) => False
  end.

Lemma multiples_apart (x y d : Z) :
  x mod d = 0 -> y mod d = 0 -> 0 < d -> x < y -> x + d <= y.
Proof.
  intros Hx Hy Hd Hlt.
  apply Z.mod_divide in Hx; [|lia]. apply Z.mod_divide in Hy; [|lia].
  destruct Hx as [p ->], Hy as [q ->].
  assert (p < q) by (apply (Z.mul_lt_mono_pos_r d); lia).
  pose proof (Z.mul_le_mono_nonneg_r (p + 1) q d ltac:(lia) ltac:(lia)). lia.
Qed.

Lemma run_taken_intro m cnt i j :
  module_ok m -> 0 < cnt -> 0 <= i -> i + cnt <= bitmap_entry_cnt m ->
  i <= j < i + cnt ->
  let bm := pmm_set_run (bitmap m) i (Z.to_nat cnt) in
  run_taken m
    (set_last_free (set_bitmap m bm)
       (pmm_next_free bm j (Z.to_nat (bitmap_entry_cnt m - j)))) cnt i.
Proof.
  intros [? ? ? Hcnt ?] Hc Hi He Hj bm. split; try done.
  - split; cbn; try done.
    + unfold bm. rewrite pmm_set_run_length. done.
    + destruct (pmm_next_free_range bm j (Z.to_nat (bitmap_entry_cnt m - j))) as [Hr|Hr];
        [lia| |rewrite Hr]; lia.
  - intros k Hk. unfold page_used, bm. cbn.
    assert (Z.of_nat (Z.to_nat cnt) = cnt) by lia.
    rewrite pmm_set_run_test by (unfold in_bits; lia).
    rewrite orb_true_iff, andb_true_iff, Z.leb_le, Z.ltb_lt, Z2Nat.id by lia. done.
  - intros k Hk Hfree. cbn. unfold page_used in Hfree. cbn in Hfree. apply not_true_is_false in Hfree.
    apply pmm_next_free_min; [lia| |done]. split; [|lia].
    destruct (Z.le_gt_cases j k); [done|]. unfold bm in Hfree.
    rewrite pmm_set_run_test in Hfree by (unfold in_bits; lia). apply orb_false_iff in Hfree as [Hfree _].
    apply andb_false_iff in Hfree as [Hfree|Hfree]; zify_bools; lia.
Qed.

Lemma pmm_search_spec m cnt k i fuel :
  module_ok m -> 0 < cnt < 2 ^ 52 -> 0 <= k <= 40 -> 0 <= i < 2 ^ 42 ->
  (mm_base (mmap_entry m) + i * PAGE_SIZE) mod (2 ^ k * PAGE_SIZE) = 0 ->
  (forall i', free_run m cnt (2 ^ k) i' -> i <= i') -> last_free m <= i ->
  Z.max 0 (bitmap_entry_cnt m - i) < Z.of_nat fuel ->
  alloc_post m cnt (2 ^ k)
    (pmm_search m cnt (2 ^ k) i (mm_base (mmap_entry m) + i * PAGE_SIZE) fuel).
Proof.
  intros Hm Hcnt Hk. pose proof Hm as [Hb _ He Hn _].
  assert (0 < 2 ^ k <= 2 ^ 40) by (split; [apply Z.pow_pos_nonneg|apply Z.pow_le_mono_r]; lia).
  revert i. induction fuel as [|fuel IH]; intros i Hi Hal Hmin Hlast Hf; cbn [pmm_search]; [lia|].
  case_if; [|split; [done|]; intros i' Hr; pose proof (Hmin _ Hr); destruct Hr; lia].
  rewrite u64_small by lia.
  case_if; [split; [done|]; intros i' Hr; pose proof (Hmin _ Hr); destruct Hr; lia|].
  replace (Z.to_nat cnt) with (S (Z.to_nat (cnt - 1))) by lia.
  pose proof (pmm_scan_spec (bitmap m) cnt i 0 (Z.to_nat (cnt - 1))
    ltac:(lia) ltac:(lia) ltac:(lia) ltac:(lia) ltac:(lia)) as Hs.
  destruct (pmm_scan _ _ _ _ _) as [|j|]; [| |done].
  - destruct Hs as (b & Hbr & Hbt). unfold PAGE_SIZE in *.
    rewrite !u64_small by lia.
    replace (mm_base (mmap_entry m) + i * 4096 + 2 ^ k * 4096)
      with (mm_base (mmap_entry m) + (i + 2 ^ k) * 4096) by lia.
    apply IH; try lia.
    + replace (mm_base (mmap_entry m) + (i + 2 ^ k) * 4096)
        with (mm_base (mmap_entry m) + i * 4096 + 1 * (2 ^ k * 4096)) by lia.
      rewrite Z.mod_add by lia. done.
    + intros i' Hr. pose proof (Hmin _ Hr) as Hle. destruct Hr as [? ? Ha Hfree].
      destruct (Z.eq_dec i i') as [->|Hne]; [exfalso; apply (Hfree b); [lia|done]|].
      unfold PAGE_SIZE in *.
      pose proof (multiples_apart _ _ _ Hal Ha). lia.
  - destruct Hs as (-> & Hfree). exists i. split; [lia|]. split; [done|].
    split; [|split; [done|]].
    + split; [done|lia|done|]. intros b Hbr. unfold page_used.
      rewrite Hfree by lia. done.
    + replace (S (Z.to_nat (cnt - 1))) with (Z.to_nat cnt) by lia.
      apply run_taken_intro; try done; lia.
Qed.

(** The starting point of the search: the lowest aligned page at or above the hint. *)
Lemma pmm_start_spec m k :
  module_ok m -> 0 <= k <= 40 ->
  let ab := ALIGN_UP (u64 (mm_base (mmap_entry m) + u64 (last_free m * PAGE_SIZE)))
                     (u64 (2 ^ k * PAGE_SIZE)) in
  exists i, last_free m <= i < 2 ^ 42 /\ ab = mm_base (mmap_entry m) + i * PAGE_SIZE /\
    ab mod (2 ^ k * PAGE_SIZE) = 0 /\
    (forall i', last_free m <= i' ->
       (mm_base (mmap_entry m) + i' * PAGE_SIZE) mod (2 ^ k * PAGE_SIZE) = 0 -> i <= i').
Proof.
  intros [Hb Hal He Hc Hl] Hk. cbn zeta. unfold PAGE_SIZE in *.
  assert (0 < 2 ^ k <= 2 ^ 40) by (split; [apply Z.pow_pos_nonneg|apply Z.pow_le_mono_r]; lia).
  rewrite (u64_small (last_free m * 4096)), (u64_small (2 ^ k * 4096)), u64_small by lia.
  set (x := mm_base (mmap_entry m) + last_free m * 4096).
  replace (2 ^ k * 4096) with (2 ^ (k + 12)) in * by (rewrite Z.pow_add_r; lia).
  assert (2 ^ (k + 12) <= 2 ^ 52) by (apply Z.pow_le_mono_r; lia).
  pose proof (align_up_ge x (k + 12) ltac:(lia) ltac:(lia) ltac:(lia)) as Hge.
  pose proof (align_up_mod x (k + 12) ltac:(lia) ltac:(lia) ltac:(lia)) as Hm.
  set (ab := ALIGN_UP x (2 ^ (k + 12))) in *.
  assert (Hpg : ab mod 4096 = 0).
  { apply Z.mod_divide; [lia|]. apply Z.divide_trans with (2 ^ (k + 12)).
    - exists (2 ^ k). rewrite Z.pow_add_r; lia.
    - apply Z.mod_divide; lia. }
  exists ((ab - mm_base (mmap_entry m)) / 4096).
  assert (Hq : ab = mm_base (mmap_entry m) + (ab - mm_base (mmap_entry m)) / 4096 * 4096).
  { assert ((ab - mm_base (mmap_entry m)) mod 4096 = 0) by (rewrite Zminus_mod, Hal, Hpg; done).
    pose proof (Z.div_mod (ab - mm_base (mmap_entry m)) 4096 ltac:(lia)). lia. }
  split; [|split; [done|split; [done|]]].
  - subst x. lia.
  - intros i' Hi' Ha. subst x.
    destruct (Z.le_gt_cases ((ab - mm_base (mmap_entry m)) / 4096) i'); [done|].
    pose proof (multiples_apart _ _ _ Ha Hm). lia.
Qed.

Lemma pmm_module_alloc_post m cnt k :
  module_ok m -> 0 < cnt < 2 ^ 52 -> 0 <= k <= 40 ->
  alloc_post m cnt (2 ^ k) (pmm_module_alloc m cnt (2 ^ k)).
Proof.
  intros Hm Hcnt Hk. unfold pmm_module_alloc.
  destruct (pmm_start_spec m k Hm Hk) as (i & Hi & Hab & Hmod & Hmin).
  pose proof Hm as [Hb _ _ Hc Hl]. cbn zeta in Hab, Hmod, Hmin |- *.
  rewrite Hab in Hmod |- *.
  replace (mm_base (mmap_entry m) + i * PAGE_SIZE - mm_base (mmap_entry m))
    with (i * PAGE_SIZE) by lia.
  unfold PAGE_SIZE in *. rewrite u64_small, Z.div_mul by lia.
  apply pmm_search_spec; try done; try lia.
  intros i' [H1 _ H3 _]. apply Hmin; done.
Qed.

(** *** The whole allocator *)

(** Pages of two modules are never the same frame. *)
Definition modules_disjoint m1 m2 : Prop :=
  mm_base (mmap_entry m1) + bitmap_entry_cnt m1 * PAGE_SIZE <= mm_base (mmap_entry m2) \/
  mm_base (mmap_entry m2) + bitmap_entry_cnt m2 * PAGE_SIZE <= mm_base (mmap_entry m1).

Record pmm_ok (s : pmm_state) : Prop := {
  pok_nonempty : pmm_modules s <> [];
  pok_modules : Forall module_ok (pmm_modules s);
  pok_disjoint : ForallOrdPairs modules_disjoint (pmm_modules s);
}.

Definition module_frame m (x : Z) : Prop :=
  exists i, 0 <= i < bitmap_entry_cnt m /\ x = mm_base (mmap_entry m) + i * PAGE_SIZE /\
            page_used m i.

(** The frame at address [x] is in use. *)
Definition frame_used (s : pmm_state) (x : Z) : Prop :=
  Exists (fun m => module_frame m x) (pmm_modules s).

Lemma run_taken_frame m m' cnt i x :
  module_ok m -> run_taken m m' cnt i -> 0 < cnt -> 0 <= i -> i + cnt <= bitmap_entry_cnt m ->
  module_frame m' x <->
    in_frames (mm_base (mmap_entry m) + i * PAGE_SIZE) cnt x \/ module_frame m x.
Proof.
  intros Hm [He Hc _ Hu] Hcnt Hi Hend. unfold module_frame, in_frames.
  rewrite He, Hc. split.
  - intros (k & Hk & -> & Hp). apply Hu in Hp; [|done]. destruct Hp as [Hp|Hp]; [left|right].
    + exists (k - i). lia.
    + eauto.
  - intros [(j & Hj & ->)|(k & Hk & -> & Hp)].
    + exists (i + j). split; [lia|]. split; [lia|]. apply Hu; [lia|left; lia].
    + exists k. split; [done|]. split; [done|]. apply Hu; auto.
Qed.

(** The outcome of the walk over the modules. *)
Definition walk_post (ms : list pmm_module) (cnt align : Z)
    (r : list pmm_module * cres Z) : Prop :=
  match r with
  | (ms', Ok a) => exists pre m m' post i,
      ms = pre ++ m :: post /\ ms' = pre ++ m' :: post /\ 0 <= i /\
      a = mm_base (mmap_entry m) + i * PAGE_SIZE /\ free_run m cnt align i /\
      run_taken m m' cnt i
  | (ms', Err) => ms' = ms /\ Forall (fun m => forall i, ~ free_run m cnt align i) ms
  | (_, Halt) => False
  end.

Lemma pmm_alloc_modules_spec ms cnt k :
  Forall module_ok ms -> 0 < cnt < 2 ^ 52 -> 0 <= k <= 40 ->
  walk_post ms cnt (2 ^ k) (pmm_alloc_modules ms cnt (2 ^ k)).
Proof.
  intros Hms Hcnt Hk. induction Hms as [|m ms Hm _ IH]; cbn [pmm_alloc_modules]; [done|].
  pose proof (pmm_module_alloc_post m cnt k Hm Hcnt Hk) as Hp.
  destruct (pmm_module_alloc m cnt (2 ^ k)) as [m' [a| |]]; cbn in Hp; [| |done].
  - destruct Hp as (i & Hi & -> & Hr & _ & Ht).
    pose proof (mok_end _ Hm). pose proof (fr_end _ _ _ _ Hr).
    case_if; [unfold ERROR_u64, PAGE_SIZE in *; lia|].
    exists [], m, m', ms, i. done.
  - destruct Hp as [-> Hno]. destruct (pmm_alloc_modules ms cnt (2 ^ k)) as [ms' [a| |]];
      cbn in IH; [| |done].
    + destruct IH as (pre & n & n' & post & i & -> & -> & H).
      exists (m :: pre), n, n', post, i. done.
    + destruct IH as [-> IH]. split; [done|]. constructor; done.
Qed.

Lemma memset64_zero_lookup mem a n x :
  memset64_zero mem a n !! x =
    if (a <=? x) && (x <? a + 8 * Z.of_nat n) && ((x - a) mod 8 =? 0)
    then Some 0 else mem !! x.
Proof.
  revert mem a. induction n as [|n IH]; intros mem a; cbn -[Z.of_nat Z.modulo].
  - destruct (a <=? x) eqn:E1, (x <? a + 8 * Z.of_nat 0) eqn:E2; cbn [andb]; zify_bools; done || lia.
  - rewrite IH. rewrite lookup_insert.
    replace ((x - (a + 8)) mod 8) with ((x - a) mod 8)
      by (replace (x - a) with (x - (a + 8) + 1 * 8) by lia; rewrite Z.mod_add; lia).
    destruct (decide (a = x)) as [->|Hne].
    + rewrite Z.sub_diag, Z.mod_0_l by lia.
      destruct (x + 8 <=? x) eqn:E1, (x <=? x) eqn:E2, (x <? x + 8 * Z.of_nat (S n)) eqn:E3;
        cbn [andb]; zify_bools; done || lia.
    + destruct ((x - a) mod 8 =? 0) eqn:E0; rewrite ?andb_false_r, ?andb_true_r; [|done].
      zify_bools. pose proof (Z.div_mod (x - a) 8 ltac:(lia)).
      destruct (a + 8 <=? x) eqn:E1, (a <=? x) eqn:E2, (x <? a + 8 + 8 * Z.of_nat n) eqn:E3,
        (x <? a + 8 * Z.of_nat (S n)) eqn:E4; cbn [andb]; zify_bools; done || lia.
Qed.

Lemma disjoint_replace m m' pre post :
  mmap_entry m' = mmap_entry m -> bitmap_entry_cnt m' = bitmap_entry_cnt m ->
  ForallOrdPairs modules_disjoint (pre ++ m :: post) ->
  ForallOrdPairs modules_disjoint (pre ++ m' :: post).
Proof.
  intros He Hc. induction pre as [|p pre IH]; cbn; inversion 1 as [|? ? Hp Hr]; subst.
  - constructor; [|done]. unfold modules_disjoint in *. rewrite He, Hc. done.
  - constructor; [|auto]. rewrite Forall_app, Forall_cons in *.
    destruct Hp as (? & Hpm & ?). split; [done|]. split; [|done].
    unfold modules_disjoint in *. rewrite He, Hc. done.
Qed.

(** The contract of [pmm_alloc]. *)
Definition pmm_alloc_post (s : pmm_state) (cnt align : Z) (r : pmm_state * cres Z) : Prop :=
  match r with
  | (s', Ok a) =>
      pmm_ok s' /\ 0 <= a /\ a + cnt * PAGE_SIZE <= 2 ^ 52 /\ a mod (align * PAGE_SIZE) = 0 /\
      (forall x, in_frames a cnt x -> ~ frame_used s x) /\
      (forall x, frame_used s' x <-> in_frames a cnt x \/ frame_used s x) /\
      (forall x, a <= x < a + cnt * PAGE_SIZE -> x mod 8 = 0 -> rd (pmm_memory s') x = 0) /\
      (forall x, ~ (a <= x < a + cnt * PAGE_SIZE) -> rd (pmm_memory s') x = rd (pmm_memory s) x)
  | (s', Err) =>
      s' = s /\ Forall (fun m => forall i, ~ free_run m cnt align i) (pmm_modules s)
  | (_, Halt) => False
  end.

Lemma disjoint_others m pre post n :
  ForallOrdPairs modules_disjoint (pre ++ m :: post) -> n ∈ pre \/ n ∈ post ->
  modules_disjoint n m.
Proof.
  induction pre as [|p pre IH]; cbn; inversion 1 as [|? ? Hp Hr]; subst; intros [Hn|Hn].
  - inversion Hn.
  - rewrite Forall_forall in Hp. specialize (Hp n Hn). unfold modules_disjoint in *. lia.
  - apply elem_of_cons in Hn as [->|Hn]; [|auto].
    rewrite Forall_app, Forall_cons in Hp. tauto.
  - auto.
Qed.

Lemma free_run_unused s pre m post cnt align i x :
  pmm_ok s -> pmm_modules s = pre ++ m :: post -> 0 <= i -> free_run m cnt align i ->
  in_frames (mm_base (mmap_entry m) + i * PAGE_SIZE) cnt x -> ~ frame_used s x.
Proof.
  intros [_ Hok Hd] Hms Hi [_ Hend _ Hfree] (j & Hj & ->) Hu. unfold frame_used in Hu.
  rewrite Hms in *. apply Exists_exists in Hu as (n & Hn & k & Hk & Heq & Hp).
  unfold PAGE_SIZE in *.
  assert (Hc : n ∈ pre \/ n ∈ post \/ n = m)
    by (apply elem_of_app in Hn as [|Hn]; [auto|apply elem_of_cons in Hn as [|]; auto]).
  assert (n = m \/ modules_disjoint n m) as [->|Hdj].
  { destruct Hc as [|[|]]; [right; eapply disjoint_others; eauto..|auto]. }
  - apply (Hfree k); [lia|done].
  - unfold modules_disjoint, PAGE_SIZE in Hdj. lia.
Qed.

Lemma memory_zeroed mem a n x :
  0 <= a -> a mod 8 = 0 -> a <= x < a + 8 * Z.of_nat n -> x mod 8 = 0 ->
  rd (memset64_zero mem a n) x = 0.
Proof.
  intros Ha Hm Hx Hxm. unfold rd. rewrite memset64_zero_lookup.
  replace ((x - a) mod 8) with 0 by (rewrite Zminus_mod, Hm, Hxm; done).
  replace (a <=? x) with true by (symmetry; apply Z.leb_le; lia).
  replace (x <? a + 8 * Z.of_nat n) with true by (symmetry; apply Z.ltb_lt; lia).
  done.
Qed.

Lemma memory_untouched mem a n x :
  ~ (a <= x < a + 8 * Z.of_nat n) -> rd (memset64_zero mem a n) x = rd mem x.
Proof.
  intros Hx. unfold rd. rewrite memset64_zero_lookup.
  destruct ((a <=? x) && (x <? a + 8 * Z.of_nat n)) eqn:E; [zify_bools; lia|done].
Qed.

Lemma pmm_alloc_ok_post s cnt k :
  pmm_ok s -> 0 < cnt < 2 ^ 52 -> 0 <= k <= 40 ->
  pmm_alloc_post s cnt (2 ^ k) (pmm_alloc s cnt (2 ^ k)).
Proof.
  intros Hs Hcnt Hk. unfold pmm_alloc.
  pose proof (pmm_alloc_modules_spec (pmm_modules s) cnt k (pok_modules s Hs) Hcnt Hk) as Hw.
  destruct (pmm_modules s) as [|m0 ms0] eqn:Ems; [by destruct Hs|]. rewrite <- Ems in *.
  destruct (pmm_alloc_modules (pmm_modules s) cnt (2 ^ k)) as [ms' [a| |]]; cbn in Hw; [| |done].
  - destruct Hw as (pre & m & m' & post & i & Hpre & -> & Hi & -> & Hr & Ht).
    pose proof Hs as [_ Hok Hd]. rewrite Hpre in Hok, Hd.
    pose proof Hok as [Hok1 [Hm Hok2]%Forall_cons]%Forall_app.
    pose proof (mok_end _ Hm). pose proof (mok_base _ Hm). pose proof (fr_end _ _ _ _ Hr).
    set (a := mm_base (mmap_entry m) + i * PAGE_SIZE).
    assert (Ha8 : a mod 8 = 0).
    { apply Z.mod_divide; [lia|]. apply Z.divide_trans with PAGE_SIZE; [exists 512; done|].
      apply Z.mod_divide; [done|]. unfold a. rewrite Z.mod_add by done. apply Hm. }
    assert (Hsz : 8 * Z.of_nat (Z.to_nat (u64 (cnt * PAGE_SIZE) / 8)) = cnt * PAGE_SIZE).
    { unfold PAGE_SIZE. rewrite u64_small by (unfold PAGE_SIZE in *; lia).
      replace (cnt * 4096) with (cnt * 512 * 8) by lia. rewrite Z.div_mul by lia. lia. }
    split; [|split; [unfold a, PAGE_SIZE; lia|split; [unfold a, PAGE_SIZE in *; lia|]]].
    { split; cbn.
      - by destruct pre.
      - apply Forall_app. split; [done|]. apply Forall_cons. split; [apply Ht|done].
      - eapply disjoint_replace; [apply Ht|apply Ht|done]. }
    split; [apply Hr|]. split; [intros x; eapply free_run_unused; eauto|].
    split; [|split].
    + intros x. unfold frame_used. cbn. rewrite Hpre, !Exists_app, !Exists_cons.
      rewrite (run_taken_frame m m' cnt i x) by (done || lia). fold a. tauto.
    + intros x Hx. apply memory_zeroed; [unfold a, PAGE_SIZE; lia|done|lia].
    + intros x Hx. apply memory_untouched. lia.
  - destruct Hw as [-> Hw]. split; [|done]. destruct s; done.
Qed.

(** [n] successive requests for one page succeed. *)
Fixpoint modules_avail (ms : list pmm_module) (n : nat) : Prop :=
  match n with
  | O => ms <> []
  | S n =>
      match pmm_alloc_modules ms 1 1 with
      | (ms', Ok _) => modules_avail ms' n
      | _ => False
      end
  end.

Lemma modules_avail_alloc s n :
  modules_avail (pmm_modules s) (S n) ->
  exists s' a, pmm_alloc s 1 1 = (s', Ok a) /\ modules_avail (pmm_modules s') n.
Proof.
  cbn [modules_avail]. unfold pmm_alloc.
  destruct (pmm_modules s) as [|m ms] eqn:E; [done|]. rewrite <- E.
  destruct (pmm_alloc_modules (pmm_modules s) 1 1) as [ms' [a| |]]; try done.
  intros H. eexists _, a. split; [reflexivity|]. exact H.
Qed.

Lemma modules_avail_le ms n k : (k <= n)%nat -> modules_avail ms n -> modules_avail ms k.
Proof.
  revert ms k. induction n as [|n IH]; intros ms k Hk Hn.
  - replace k with 0%nat by lia. done.
  - destruct k as [|k].
    + cbn in Hn |- *. by destruct ms.
    + cbn [modules_avail] in *. destruct (pmm_alloc_modules ms 1 1) as [ms' [a| |]]; try done.
      apply IH; [lia|done].
Qed.

#[export] Instance pmm_source : PageSource pmm_state := {
  ps_alloc := pmm_alloc;
  ps_mem := pmm_memory;
  ps_put s mem := MkPmm (pmm_modules s) (meta_buffer s) mem;
}.

(** [pmm_alloc] keeps the promises of [PageSource]. *)
#[export] Instance pmm_source_ok : PageSourceOk pmm_state pmm_source.
Proof.
  refine {| ps_ok := pmm_ok; ps_used := frame_used;
            ps_avail := fun s => modules_avail (pmm_modules s) |}; try done.
  - intros s mem []. split; done.
  - intros s cnt k s' a Hs Hc Hk Heq. cbn in Heq.
    pose proof (pmm_alloc_ok_post s cnt k Hs Hc Hk) as Hp. rewrite Heq in Hp. exact Hp.
  - intros s cnt k s' Hs Hc Hk Heq. cbn in Heq.
    pose proof (pmm_alloc_ok_post s cnt k Hs Hc Hk) as Hp. rewrite Heq in Hp. apply Hp.
  - intros s cnt k Hs Hc Hk Heq. cbn in Heq.
    pose proof (pmm_alloc_ok_post s cnt k Hs Hc Hk) as Hp.
    destruct (pmm_alloc s cnt (2 ^ k)) as [s' r]. cbn in Heq. subst r. exact Hp.
  - intros s n. apply modules_avail_alloc.
  - intros s n k. apply modules_avail_le.
  - intros s x [_ Hok _] Hu. apply Exists_exists in Hu as (m & Hm & i & Hi & -> & _).
    rewrite Forall_forall in Hok. destruct (Hok m Hm) as [Hb Ha He _ _].
    unfold PAGE_SIZE in *. rewrite Z.mod_add by lia. lia.
Defined.

(** *** Freeing *)

Lemma pmm_module_free_frame m i cnt :
  module_ok m -> 0 <= i -> 0 < cnt -> i + cnt <= bitmap_entry_cnt m ->
  let m' := pmm_module_free m (i * PAGE_SIZE) cnt in
  module_ok m' /\
  (forall x, module_frame m' x <->
     module_frame m x /\ ~ in_frames (mm_base (mmap_entry m) + i * PAGE_SIZE) cnt x).
Proof.
  intros [Hb Ha He Hn Hl] Hi Hc Hend m'.
  assert (Hd : DIV_ROUNDUP (i * PAGE_SIZE) PAGE_SIZE = i).
  { pose proof (div_roundup_spec (i * PAGE_SIZE) PAGE_SIZE) as Hd.
    unfold PAGE_SIZE in *. specialize (Hd ltac:(lia) ltac:(lia) ltac:(lia)). lia. }
  split.
  - split; cbn; try done. rewrite pmm_clear_run_length. done.
  - intros x. unfold module_frame, in_frames, page_used, m', pmm_module_free. cbn.
    rewrite Hd. split.
    + intros (k & Hk & -> & Ht). rewrite pmm_clear_run_test in Ht by (unfold in_bits; lia).
      zify_bools. split; [eauto|]. intros (j & Hj & Hx). unfold PAGE_SIZE in *.
      replace k with (i + j) in * by lia.
      destruct (i <=? i + j) eqn:E1, (i + j <? i + Z.of_nat (Z.to_nat cnt)) eqn:E2;
        zify_bools; done || lia.
    + intros [(k & Hk & -> & Ht) Hno]. exists k. split; [done|]. split; [done|].
      rewrite pmm_clear_run_test by (unfold in_bits; lia). rewrite Ht, andb_true_r.
      apply negb_true_iff. apply andb_false_iff.
      destruct (i <=? k) eqn:E1; [|auto]. right. apply Z.ltb_ge.
      destruct (Z.le_gt_cases (i + Z.of_nat (Z.to_nat cnt)) k); [done|].
      exfalso. apply Hno. exists (k - i). zify_bools. unfold PAGE_SIZE in *. lia.
Qed.

(** No module that lies wholly below [a] has as many as [cnt] pages: such a
    module would be taken by [pmm_free] for the owner of [a]. *)
Definition no_room_below (ms : list pmm_module) (a cnt : Z) : Prop :=
  Forall (fun m => mm_base (mmap_entry m) <= a -> cnt <= bitmap_entry_cnt m ->
                   a < mm_base (mmap_entry m) + bitmap_entry_cnt m * PAGE_SIZE) ms.

(** The [cnt] pages from [a] on belong to one module, and [pmm_free] finds it. *)
Definition free_request (ms : list pmm_module) (a cnt : Z) : Prop :=
  Exists (fun m => exists i, 0 <= i /\ i + cnt <= bitmap_entry_cnt m /\
                             a = mm_base (mmap_entry m) + i * PAGE_SIZE) ms /\
  no_room_below ms a cnt.

(** What was allocated lies in one module. *)
Lemma alloc_free_request s s1 cnt k a :
  pmm_ok s -> 0 < cnt < 2 ^ 52 -> 0 <= k <= 40 ->
  pmm_alloc s cnt (2 ^ k) = (s1, Ok a) ->
  no_room_below (pmm_modules s) a cnt -> free_request (pmm_modules s1) a cnt.
Proof.
  intros Hs Hcnt Hk. unfold pmm_alloc.
  pose proof (pmm_alloc_modules_spec (pmm_modules s) cnt k (pok_modules s Hs) Hcnt Hk) as Hw.
  destruct (pmm_modules s) as [|m0 ms0] eqn:Ems; [by destruct Hs|]. rewrite <- Ems in *.
  destruct (pmm_alloc_modules (pmm_modules s) cnt (2 ^ k)) as [ms' [b| |]]; cbn in Hw; [|done..].
  destruct Hw as (pre & m & m' & post & i & Hpre & -> & Hi & Hb & [_ He _ _] & [Hme Hmc _ _ _]).
  intros [= <- <-] Hn. unfold free_request, no_room_below in *. cbn [pmm_modules]. rewrite Hpre in Hn. split.
  - apply Exists_app. right. apply Exists_cons_hd. exists i. rewrite Hme, Hmc. split_and!; [done|lia|done].
  - rewrite !Forall_app, !Forall_cons in *. rewrite Hme, Hmc. exact Hn.
Qed.

Lemma pmm_free_modules_spec ms a cnt :
  Forall module_ok ms -> ForallOrdPairs modules_disjoint ms -> 0 < cnt < 2 ^ 40 ->
  free_request ms a cnt ->
  exists pre m post i, ms = pre ++ m :: post /\ 0 <= i /\ i + cnt <= bitmap_entry_cnt m /\
    a = mm_base (mmap_entry m) + i * PAGE_SIZE /\
    pmm_free_modules ms a cnt = pre ++ pmm_module_free m (i * PAGE_SIZE) cnt :: post.
Proof.
  intros Hok Hd Hc [Hin Hlow]. unfold PAGE_SIZE in *.
  induction Hok as [|m ms Hm Hok IH]; [by inversion Hin|].
  inversion Hd as [|? ? Hdm Hd']; subst. inversion Hlow as [|? ? Hl Hlow']; subst.
  pose proof (mok_base _ Hm). pose proof (mok_end _ Hm). pose proof (mok_cnt _ Hm).
  cbn [pmm_free_modules]. unfold PAGE_SIZE in *. rewrite !u64_small by lia.
  destruct (mm_base (mmap_entry m) <=? a) eqn:E1; cbn [andb]; zify_bools;
    [destruct (_ + cnt * 4096 <=? _) eqn:E2; zify_bools|].
  - exists [], m, ms, ((a - mm_base (mmap_entry m)) / 4096).
    apply Exists_cons in Hin as [(i & Hi & Hie & ->)|Hin].
    + replace (mm_base (mmap_entry m) + i * 4096 - mm_base (mmap_entry m)) with (i * 4096) by lia.
      rewrite Z.div_mul by lia. done.
    + exfalso. apply Exists_exists in Hin as (n & Hn & i & Hi & Hie & ->).
      rewrite Forall_forall in Hdm. specialize (Hdm n Hn).
      unfold modules_disjoint, PAGE_SIZE in Hdm.
      rewrite Forall_forall in Hok. pose proof (mok_base _ (Hok n Hn)). lia.
  - apply Exists_cons in Hin as [(i & Hi & Hie & ->)|Hin]; [lia|].
    destruct (IH Hd' Hin Hlow') as (pre & n & post & i & -> & Hi & Hie & Ha & ->).
    exists (m :: pre), n, post, i. done.
  - apply Exists_cons in Hin as [(i & Hi & Hie & ->)|Hin]; [lia|].
    destruct (IH Hd' Hin Hlow') as (pre & n & post & i & -> & Hi & Hie & Ha & ->).
    exists (m :: pre), n, post, i. done.
Qed.

Lemma pmm_free_spec s a cnt :
  pmm_ok s -> 0 < cnt < 2 ^ 40 -> free_request (pmm_modules s) a cnt ->
  exists s', pmm_free s a cnt = (s', Ok tt) /\ pmm_ok s' /\
    (forall x, frame_used s' x <-> frame_used s x /\ ~ in_frames a cnt x).
Proof.
  intros [Hne Hok Hd] Hc Hr. unfold pmm_free.
  destruct (pmm_free_modules_spec _ a cnt Hok Hd Hc Hr)
    as (pre & m & post & i & Hms & Hi & Hie & Ha & Hf).
  destruct (pmm_modules s) as [|m0 ms0] eqn:E0; [done|]. rewrite <- E0 in *.
  rewrite Hms in Hok, Hd. pose proof Hok as [Hok1 [Hm Hok2]%Forall_cons]%Forall_app.
  destruct (pmm_module_free_frame m i cnt Hm Hi ltac:(lia) Hie) as [Hm' Hfr].
  eexists. split; [done|]. rewrite Hf. split.
  - split; cbn; [by destruct pre| |].
    + apply Forall_app. split; [done|]. constructor; done.
    + eapply disjoint_replace; [..|done]; done.
  - intros x. unfold frame_used. cbn. rewrite Hms, !Exists_app, !Exists_cons, Hfr, <- Ha.
    assert (Hothers : Exists (λ n, module_frame n x) pre \/ Exists (λ n, module_frame n x) post ->
                      ~ in_frames a cnt x).
    { intros Hex (j & Hj & ->).
      assert (exists n, (n ∈ pre \/ n ∈ post) /\ module_frame n (a + j * PAGE_SIZE))
        as (n & Hn & k & Hk & Hkx & _)
        by (rewrite !Exists_exists in Hex; destruct Hex as [(n & ? & ?)|(n & ? & ?)]; eauto).
      pose proof (disjoint_others _ _ _ _ Hd Hn) as Hdj.
      unfold modules_disjoint, PAGE_SIZE in *. lia. }
    tauto.
Qed.

(** *** Boot *)

Context (sizeof_pmm_module HIGH_VMA : Z).

(** A usable entry as the boot protocol delivers it: page aligned, inside the
    physical address space, on one side of the first MiB. *)
Definition entry_ok (e : limine_memmap_entry) : Prop :=
  mm_type e = LIMINE_MEMMAP_USABLE ->
  0 <= mm_base e /\ mm_base e mod PAGE_SIZE = 0 /\ 0 <= mm_length e /\
  mm_length e mod PAGE_SIZE = 0 /\ mm_base e + mm_length e <= 2 ^ 52 /\
  (MIB <= mm_base e \/ mm_base e + mm_length e < MIB).

Definition entries_disjoint (e1 e2 : limine_memmap_entry) : Prop :=
  mm_type e1 = LIMINE_MEMMAP_USABLE -> mm_type e2 = LIMINE_MEMMAP_USABLE ->
  mm_base e1 + mm_length e1 <= mm_base e2 \/ mm_base e2 + mm_length e2 <= mm_base e1.

(** What a boot-time step may do to an entry: shrink it, keeping it aligned. *)
Definition shrunk (e e' : limine_memmap_entry) : Prop :=
  mm_type e' = mm_type e /\
  (mm_type e = LIMINE_MEMMAP_USABLE ->
   0 <= mm_length e' /\ mm_length e' mod PAGE_SIZE = 0 /\
   (mm_length e' = 0 \/
    mm_base e' mod PAGE_SIZE = 0 /\ mm_base e <= mm_base e' /\
    mm_base e' + mm_length e' <= mm_base e + mm_length e)).

Lemma pmm_init_clip_shrunk e : entry_ok e -> shrunk e (pmm_init_clip e).
Proof.
  intros He. unfold pmm_init_clip. split; [repeat case_if; done|].
  intros Hu. destruct (He Hu) as (H1 & H2 & H3 & H4 & H5 & H6).
  case_if; [|split; [lia|]; split; [done|]; right; lia].
  case_if; [cbn; split; [lia|]; split; [done|auto]|lia].
Qed.

Lemma pmm_init_scan_shrunk mmap bs :
  Forall entry_ok mmap ->
  Forall2 shrunk mmap (fst (pmm_init_scan sizeof_pmm_module mmap bs)).
Proof.
  intros Hok. revert bs. induction Hok as [|e mmap He _ IH]; intros bs; cbn; [done|].
  specialize (IH (pmm_init_size sizeof_pmm_module e bs)).
  destruct (pmm_init_scan _ _ _) as [mmap' bs']. constructor; [|done].
  by apply pmm_init_clip_shrunk.
Qed.

Lemma pmm_carve_entry e e' bs :
  entry_ok e -> shrunk e e' -> mm_type e' = LIMINE_MEMMAP_USABLE ->
  0 <= bs <= mm_length e' ->
  shrunk e (MkEntry (ALIGN_UP (u64 (mm_base e' + bs)) PAGE_SIZE)
                    ((mm_length e' - bs) / PAGE_SIZE * PAGE_SIZE) (mm_type e')).
Proof.
  intros He [Ht Hsh] Hu Hbs. split; [done|]. intros Hu'. cbn.
  destruct (Hsh Hu') as (H1 & H2 & H3). destruct (He Hu') as (H4 & _ & _ & _ & H5 & _).
  unfold PAGE_SIZE in *.
  pose proof (Z.div_mod (mm_length e' - bs) 4096 ltac:(lia)) as Hdm.
  pose proof (Z.mod_pos_bound (mm_length e' - bs) 4096 ltac:(lia)) as Hmb.
  assert (0 <= (mm_length e' - bs) / 4096) by (apply Z.div_pos; lia).
  split; [lia|]. split; [apply Z.mod_mul; lia|].
  destruct H3 as [H3|(H6 & H7 & H8)].
  { left. rewrite H3 in *. replace bs with 0 by lia. done. }
  right. rewrite u64_small by lia.
  pose proof (align_up_ge (mm_base e' + bs) 12 ltac:(lia) ltac:(lia) ltac:(lia)) as Hge.
  pose proof (align_up_mod (mm_base e' + bs) 12 ltac:(lia) ltac:(lia) ltac:(lia)) as Hmd.
  change (2 ^ 12) with 4096 in *. set (b := ALIGN_UP _ _) in *.
  split; [done|]. split; [lia|].
  (* the sum of two multiples that exceeds a multiple by less than a page *)
  assert (Hs : (b + (mm_length e' - bs) / 4096 * 4096) mod 4096 = 0)
    by (rewrite Z.mod_add by lia; done).
  assert (He' : (mm_base e' + mm_length e') mod 4096 = 0)
    by (rewrite Zplus_mod, H6, H2; done).
  pose proof (multiples_apart _ _ _ He' Hs). lia.
Qed.

Lemma pmm_init_carve_shrunk mmap mmap' bs meta :
  Forall entry_ok mmap -> Forall2 shrunk mmap mmap' -> 0 <= bs ->
  Forall2 shrunk mmap (fst (pmm_init_carve HIGH_VMA mmap' bs meta)).
Proof.
  intros Hok Hsh Hbs. revert meta. induction Hsh as [|e e' mmap mmap' He Hsh IH];
    intros meta; cbn [pmm_init_carve]; [constructor|].
  apply Forall_cons in Hok as [Hoe Hok]. case_if.
  - constructor; [|done].
    refine (pmm_carve_entry e e' bs Hoe He _ _); [done|lia].
  - specialize (IH Hok meta). destruct (pmm_init_carve _ _ _ _) as [l z].
    constructor; done.
Qed.

Lemma pmm_init_size_nonneg mmap bs :
  0 <= bs -> 0 <= snd (pmm_init_scan sizeof_pmm_module mmap bs).
Proof.
  revert bs. induction mmap as [|e mmap IH]; intros bs Hbs; cbn; [done|].
  assert (H : 0 <= pmm_init_size sizeof_pmm_module e bs)
    by (unfold pmm_init_size; case_if; [apply u64_range|done]).
  specialize (IH _ H). destruct (pmm_init_scan _ _ _). done.
Qed.

(** A fresh module over (part of) a usable entry of the memory map. *)
Definition fresh_module_of (e : limine_memmap_entry) m : Prop :=
  mm_type e = LIMINE_MEMMAP_USABLE /\ module_ok m /\
  mm_base e <= mm_base (mmap_entry m) /\
  mm_base (mmap_entry m) + bitmap_entry_cnt m * PAGE_SIZE <= mm_base e + mm_length e /\
  (forall i, 0 <= i < bitmap_entry_cnt m -> ~ page_used m i).

Lemma pmm_init_module_fresh e e' meta :
  entry_ok e -> shrunk e e' -> mm_type e' = LIMINE_MEMMAP_USABLE -> mm_length e' <> 0 ->
  fresh_module_of e (fst (pmm_init_module e' meta)).
Proof.
  intros He [Ht Hsh] Hu Hnz. rewrite Ht in Hu.
  destruct (Hsh Hu) as (H1 & H2 & [|(H3 & H4 & H5)]); [done|].
  destruct (He Hu) as (H6 & _ & _ & _ & H7 & _). unfold PAGE_SIZE in *.
  pose proof (Z.div_mod (mm_length e') 4096 ltac:(lia)) as Hdm.
  pose proof (div_roundup_spec (mm_length e') 4096 ltac:(lia) ltac:(lia) ltac:(lia)) as Hc.
  set (c := DIV_ROUNDUP (mm_length e') 4096) in *.
  assert (Hc' : c * 4096 = mm_length e') by lia.
  pose proof (div_roundup_spec c 8 ltac:(lia) ltac:(lia) ltac:(lia)) as Hz.
  unfold pmm_init_module, PAGE_SIZE. fold c. cbn [fst].
  split; [done|]. split; [|split; [done|split; [cbn; unfold PAGE_SIZE; lia|]]].
  - split; cbn; unfold PAGE_SIZE; try lia. rewrite length_replicate. lia.
  - intros i Hi. unfold page_used. cbn in *. rewrite bit_test_zero by lia. done.
Qed.

Lemma pmm_init_modules_fresh mmap mmap' meta :
  Forall entry_ok mmap -> Forall2 shrunk mmap mmap' -> ForallOrdPairs entries_disjoint mmap ->
  let ms := fst (pmm_init_modules sizeof_pmm_module HIGH_VMA mmap' meta) in
  Forall (fun m => Exists (fun e => fresh_module_of e m) mmap) ms /\
  ForallOrdPairs modules_disjoint ms.
Proof.
  intros Hok Hsh. revert meta. induction Hsh as [|e e' mmap mmap' He Hsh IH];
    intros meta Hd; cbn [pmm_init_modules]; [split; constructor|].
  apply Forall_cons in Hok as [Hoe Hok]. inversion Hd as [|? ? Hde Hd']; subst. case_if.
  - destruct (pmm_init_module e' _) as [m meta1] eqn:Em.
    assert (Hf : fresh_module_of e m).
    { replace m with (fst (m, meta1)) by done. rewrite <- Em.
      apply pmm_init_module_fresh; done. }
    specialize (IH Hok meta1 Hd'). destruct (pmm_init_modules _ _ _ _) as [ms meta2].
    destruct IH as [IH1 IH2]. cbn [fst]. split.
    + constructor; [by apply Exists_cons_hd|].
      eapply Forall_impl; [done|]. intros n Hn. by apply Exists_cons_tl.
    + constructor; [|done]. rewrite Forall_forall in IH1 |- *. intros n Hn.
      destruct (proj1 (Exists_exists _ _) (IH1 n Hn)) as (e2 & He2 & Hf2).
      rewrite Forall_forall in Hde. specialize (Hde e2 He2).
      destruct Hf as (Hu & _ & Hb1 & He1 & _), Hf2 as (Hu2 & _ & Hb2 & He2' & _).
      specialize (Hde Hu Hu2). unfold modules_disjoint. lia.
  - destruct (IH Hok meta Hd') as [IH1 IH2]. split; [|done].
    eapply Forall_impl; [done|]. intros n Hn. by apply Exists_cons_tl.
Qed.

End PhysicalProofs.

(** ** Claims *)

Section PhysicalClaims.
Context {A : AriaBase} {HA : AriaBaseOk A}.

(** C1: [pmm_alloc] with [cnt] pages and a power-of-two alignment always
    returns.  On success the frames were free, are contiguous, aligned, inside
    the 52-bit address space, marked used from now on (and nothing else is),
    and their memory reads as zero while the rest of memory is untouched; an
    error leaves the state alone and means that no module has a free aligned
    run at or above its search hint. *)
Theorem pmm_alloc_correct (s : pmm_state) (cnt k : Z) :
  pmm_ok s -> 0 < cnt < 2 ^ 52 -> 0 <= k <= 40 ->
  pmm_alloc_post s cnt (2 ^ k) (pmm_alloc s cnt (2 ^ k)).
Proof. apply pmm_alloc_ok_post. Qed.

(** a module serves a request with the lowest free aligned run at or
    above its hint, for which the two cursors of the loop (the bit index and
    the address) agree; it refuses only when there is no such run, and its
    search loop terminates. *)
Theorem pmm_module_alloc_first_fit (m : pmm_module) (cnt k : Z) :
  module_ok m -> 0 < cnt < 2 ^ 52 -> 0 <= k <= 40 ->
  alloc_post m cnt (2 ^ k) (pmm_module_alloc m cnt (2 ^ k)).
Proof. apply pmm_module_alloc_post. Qed.

(** C19: freeing what was allocated gives every frame its former state back,
    provided no module that lies wholly below the frames has as many pages as
    the request: [pmm_free] takes the first module that starts at or below the
    address and is large enough (see [pmm_free_wrong_module]). *)
Theorem pmm_alloc_free_roundtrip (s s1 : pmm_state) (cnt k a : Z) :
  pmm_ok s -> 0 < cnt < 2 ^ 40 -> 0 <= k <= 40 ->
  pmm_alloc s cnt (2 ^ k) = (s1, Ok a) ->
  no_room_below (pmm_modules s) a cnt ->
  exists s2, pmm_free s1 a cnt = (s2, Ok tt) /\ pmm_ok s2 /\
    (forall x, frame_used s2 x <-> frame_used s x).
Proof.
  intros Hs Hc Hk Ha Hn. pose proof (alloc_free_request s s1 cnt k a Hs ltac:(lia) Hk Ha Hn) as Hr.
  pose proof (pmm_alloc_ok_post s cnt k Hs ltac:(lia) Hk) as Hp. rewrite Ha in Hp.
  destruct Hp as (Hok & _ & _ & _ & Hfree & Hu & _).
  destruct (pmm_free_spec s1 a cnt Hok Hc Hr) as (s2 & Hf & Hok2 & Hu2).
  exists s2. split; [done|]. split; [done|]. intros x. rewrite Hu2, Hu.
  specialize (Hfree x). tauto.
Qed.

(** on a memory map whose usable entries are page aligned, disjoint and
    do not straddle the first MiB, [pmm_init] builds well-formed modules over
    disjoint parts of usable entries, with every page free. *)
Theorem pmm_init_fresh (sizeof_pmm_module HIGH_VMA : Z) (mmap : list limine_memmap_entry)
    (memory : gmap Z Z) :
  Forall entry_ok mmap -> ForallOrdPairs entries_disjoint mmap ->
  let s := pmm_init sizeof_pmm_module HIGH_VMA mmap memory in
  Forall (fun m => Exists (fun e => fresh_module_of e m) mmap) (pmm_modules s) /\
  ForallOrdPairs modules_disjoint (pmm_modules s).
Proof.
  intros Hok Hd. unfold pmm_init.
  pose proof (pmm_init_scan_shrunk sizeof_pmm_module mmap 0 Hok) as H1.
  pose proof (pmm_init_size_nonneg sizeof_pmm_module mmap 0 ltac:(lia)) as H2.
  destruct (pmm_init_scan sizeof_pmm_module mmap 0) as [mmap1 bs]. cbn in H1, H2.
  pose proof (pmm_init_carve_shrunk HIGH_VMA mmap mmap1 bs 0 Hok H1 H2) as H3.
  destruct (pmm_init_carve HIGH_VMA mmap1 bs 0) as [mmap2 meta]. cbn in H3.
  pose proof (pmm_init_modules_fresh sizeof_pmm_module HIGH_VMA mmap mmap2 meta Hok H3 Hd) as H4.
  destruct (pmm_init_modules sizeof_pmm_module HIGH_VMA mmap2 meta). exact H4.
Qed.

End PhysicalClaims.

(** ** Witnesses *)

Module PhysicalExamples.

(** Two modules: eight pages at 1 MiB, all in use, and eight free pages at 2 MiB. *)
Definition full_module : pmm_module := MkModule (MkEntry 0x100000 0x8000 0) 1 8 0 [255].
Definition empty_module : pmm_module := MkModule (MkEntry 0x200000 0x8000 0) 1 8 0 [0].
Definition demo_state : pmm_state := MkPmm [empty_module] 0 ∅.
Definition two_modules : pmm_state := MkPmm [full_module; empty_module] 0 ∅.

End PhysicalExamples.
Import PhysicalExamples.

Lemma full_module_ok : module_ok full_module.
Proof. by split; vm_compute. Qed.

Lemma empty_module_ok : module_ok empty_module.
Proof. by split; vm_compute. Qed.

Lemma demo_state_ok : pmm_ok demo_state.
Proof. split; [done|by repeat constructor|repeat constructor]. Qed.

Lemma two_modules_ok : pmm_ok two_modules.
Proof.
  split; [done|repeat constructor; apply full_module_ok || apply empty_module_ok|].
  constructor; [|repeat constructor]. constructor; [|constructor].
  left. by vm_compute.
Qed.

Lemma pmm_alloc_correct_witness :
  pmm_ok two_modules /\ snd (pmm_alloc two_modules 2 (2 ^ 1)) = Ok 0x200000 /\
  pmm_alloc_post two_modules 2 (2 ^ 1) (pmm_alloc two_modules 2 (2 ^ 1)).
Proof.
  split; [exact two_modules_ok|]. split; [vm_compute; reflexivity|].
  apply pmm_alloc_correct; [exact two_modules_ok|lia|lia].
Defined.

Lemma pmm_module_alloc_first_fit_witness :
  module_ok empty_module /\ snd (pmm_module_alloc empty_module 3 (2 ^ 0)) = Ok 0x200000 /\
  alloc_post empty_module 3 (2 ^ 0) (pmm_module_alloc empty_module 3 (2 ^ 0)).
Proof.
  split; [exact empty_module_ok|]. split; [vm_compute; reflexivity|].
  apply pmm_module_alloc_first_fit; [exact empty_module_ok|lia|lia].
Defined.

Lemma demo_alloc :
  pmm_alloc demo_state 2 (2 ^ 0) = (fst (pmm_alloc demo_state 2 (2 ^ 0)), Ok 0x200000).
Proof.
  rewrite (surjective_pairing (pmm_alloc demo_state 2 (2 ^ 0))) at 1.
  by f_equal.
Qed.

Lemma pmm_alloc_free_roundtrip_witness :
  let s1 := fst (pmm_alloc demo_state 2 (2 ^ 0)) in
  exists s2, pmm_free s1 0x200000 2 = (s2, Ok tt) /\
    pmm_ok s2 /\ (forall x, frame_used s2 x <-> frame_used demo_state x).
Proof.
  apply (pmm_alloc_free_roundtrip demo_state _ 2 0 0x200000); [exact demo_state_ok|lia|lia| |].
  - exact demo_alloc.
  - constructor; [intros; by vm_compute|constructor].
Defined.

Lemma pmm_init_fresh_witness :
  let s := pmm_init 64 0 [MkEntry 0x200000 0x8000 0] ∅ in
  Forall (fun m => Exists (fun e => fresh_module_of e m) [MkEntry 0x200000 0x8000 0])
    (pmm_modules s) /\
  ForallOrdPairs modules_disjoint (pmm_modules s).
Proof.
  apply pmm_init_fresh; [|repeat constructor].
  constructor; [|constructor]. intros _. cbn. unfold PAGE_SIZE, MIB.
  split_and!; reflexivity || lia.
Defined.

(** ** Findings *)

(** [pmm_free] compares sizes, not the end of the freed range: a page of a
    later module is handed to an earlier module and stays in use. *)
Lemma pmm_free_wrong_module :
  let r := pmm_alloc two_modules 1 1 in
  snd r = Ok 0x200000 /\ frame_used (fst (pmm_free (fst r) 0x200000 1)) 0x200000.
Proof.
  split; [vm_compute; reflexivity|]. unfold frame_used.
  replace (pmm_modules _) with
    [MkModule (MkEntry 0x100000 0x8000 0) 1 8 0 [255];
     MkModule (MkEntry 0x200000 0x8000 0) 1 8 1 [1]] by (vm_compute; reflexivity).
  apply Exists_cons_tl, Exists_cons_hd. exists 0. by vm_compute.
Qed.

(** [pmm_module_free] leaves [last_free] alone, so a request can fail although
    the pages it needs were just freed. *)
Lemma pmm_hint_misses_freed :
  let m1 := fst (pmm_module_alloc empty_module 7 1) in
  let m2 := pmm_module_free m1 0 7 in
  bitmap m2 = [0] /\ snd (pmm_module_alloc m2 2 1) = Err.
Proof. split; vm_compute; reflexivity. Qed.

(** The first loop of [pmm_init] moves [base] before it subtracts the removed
    part from [length]: an entry across the first MiB keeps its full length
    and ends beyond the real region. *)
Lemma pmm_init_clip_overruns :
  let e := MkEntry 0x80000 0x100000 LIMINE_MEMMAP_USABLE in
  pmm_init_clip e = MkEntry 0x100000 0x100000 LIMINE_MEMMAP_USABLE.
Proof. vm_compute. reflexivity. Qed.
