(* ===== verification/Paging.v ===== *)
(** * The amd64 page tables ([arch/amd64/paging.c])

    A page table is a tree of 4 KiB tables of 64-bit entries in physical
    memory.  The source reaches a table through the direct map ([P2V]); here
    a table pointer is the physical address behind it, and reading or writing
    [table[index]] reads or writes the word at [table + 8 * index].  The TLB
    ([invlpg]) and [cr3] are not part of the model. *)

From S2P Require Import Prelude Aria PageSource Physical.

(** [enum vm_prot] and [enum vm_flags] of [mm/virtual.h]. *)
Definition VM_PROT_PRESENT : Z := 2 ^ 0.
Definition VM_PROT_WRITE : Z := 2 ^ 1.
Definition VM_PROT_EXECUTE : Z := 2 ^ 2.
Definition VM_PROT_USER : Z := 2 ^ 3.
Definition VM_PROT_ALL : Z := 15.
Definition VM_LARGE_PAGE : Z := 2 ^ 0.
Definition VM_HUGE_PAGE : Z := 2 ^ 1.
Definition VM_GLOBAL : Z := 2 ^ 2.

(** Entry bits of [arch/amd64/paging.h]. *)
Definition X86_FLAGS_P : Z := 2 ^ 0.
Definition X86_FLAGS_RW : Z := 2 ^ 1.
Definition X86_FLAGS_US : Z := 2 ^ 2.
Definition X86_FLAGS_PS : Z := 2 ^ 7.
Definition X86_FLAGS_G : Z := 2 ^ 8.
Definition X86_FLAGS_NX : Z := 2 ^ 63.

Definition LARGE_PAGE_SIZE : Z := 2 ^ 21.
Definition HUGE_PAGE_SIZE : Z := 2 ^ 30.

Definition PTE_ADDR_MASK : Z := 0x000ffffffffff000.
Definition PTE_GET_ADDR (v : Z) : Z := Z.land v PTE_ADDR_MASK.
Definition PTE_GET_FLAGS (v : Z) : Z := Z.land v (u64 (Z.lnot PTE_ADDR_MASK)).

(** [x & flag] as a C condition. *)
Definition has (x flag : Z) : bool := negb (Z.land x flag =? 0).

Record pml_indices := MkIndices {
  pml5_index : Z;
  pml4_index : Z;
  pml3_index : Z;
  pml2_index : Z;
  pml1_index : Z;
}.

Definition compute_table_indices (vaddr : Z) : pml_indices :=
  {| pml5_index := Z.land (Z.shiftr vaddr 48) 0x1ff;
     pml4_index := Z.land (Z.shiftr vaddr 39) 0x1ff;
     pml3_index := Z.land (Z.shiftr vaddr 30) 0x1ff;
     pml2_index := Z.land (Z.shiftr vaddr 21) 0x1ff;
     pml1_index := Z.land (Z.shiftr vaddr 12) 0x1ff |}.

Definition set_if (b : bool) (flag ret : Z) : Z := if b then Z.lor ret flag else ret.

Definition vm_prot_to_x86 (prot flags : Z) : Z :=
  let ret := 0 in
  let ret := set_if (has prot VM_PROT_PRESENT) X86_FLAGS_P ret in
  let ret := set_if (has prot VM_PROT_WRITE) X86_FLAGS_RW ret in
  let ret := set_if (negb (has prot VM_PROT_EXECUTE)) X86_FLAGS_NX ret in
  let ret := set_if (has prot VM_PROT_USER) X86_FLAGS_US ret in
  let ret := set_if (has flags VM_GLOBAL) X86_FLAGS_G ret in
  let ret := set_if (has flags VM_LARGE_PAGE || has flags VM_HUGE_PAGE) X86_FLAGS_PS ret in
  ret.

Definition x86_to_vm_prot (x86_flags : Z) : Z :=
  let prot := 0 in
  let prot := set_if (has x86_flags X86_FLAGS_P) VM_PROT_PRESENT prot in
  let prot := set_if (has x86_flags X86_FLAGS_RW) VM_PROT_WRITE prot in
  let prot := set_if (negb (has x86_flags X86_FLAGS_NX)) VM_PROT_EXECUTE prot in
  let prot := set_if (has x86_flags X86_FLAGS_US) VM_PROT_USER prot in
  prot.

(** The out-parameters of [pmap_translate]: [*flags] is written for large
    mappings only. *)
Record translation := MkTrans {
  out_paddr : Z;
  out_flags : option Z;
  out_prot : Z;
}.

Section Paging.
Context {S : Type} `{PageSource S}.
Context (pml5_supported gib_pages_supported : bool).

Definition load (a : Z) : M S Z := gets (fun s => rd (ps_mem s) a).
Definition store (a v : Z) : M S unit :=
  modify (fun s => ps_put s (<[a := v]> (ps_mem s))).

(** [pmm_alloc(1, 1)] as the 64-bit value the callers use. *)
Definition alloc_frame : M S Z := fun s =>
  match ps_alloc s 1 1 with
  | (s', Ok a) => (s', Ok a)
  | (s', Err) => (s', Ok ERROR_u64)
  | (s', Halt) => (s', Halt)
  end.

Definition descend_table (table index : Z) (alloc : bool) (prot : Z) : M S (option Z) :=
  entry ← load (table + 8 * index);
  if has entry X86_FLAGS_P then mret (Some (PTE_GET_ADDR entry))
  else if negb alloc then mret None
  else
    frame ← alloc_frame;
    let entry := Z.lor frame (vm_prot_to_x86 VM_PROT_ALL 0) in
    store (table + 8 * index) entry;;
    if entry =? 0 then halt
    else mret (Some (PTE_GET_ADDR entry)).

(** A descent with [alloc] set always yields a table. *)
Definition descend_alloc (table index prot : Z) : M S Z :=
  t ← descend_table table index true prot;
  match t with Some t => mret t | None => halt end.

Definition pmap_map (pmlt vaddr paddr prot flags : Z) : M S unit :=
  let indices := compute_table_indices vaddr in
  let x86 := vm_prot_to_x86 prot flags in
  pml4 ← (if pml5_supported then descend_alloc pmlt (pml5_index indices) x86 else mret pmlt);
  pml3 ← descend_alloc pml4 (pml4_index indices) x86;
  if has flags VM_HUGE_PAGE && gib_pages_supported then
    store (pml3 + 8 * pml3_index indices) (Z.lor paddr x86)
  else
    pml2 ← descend_alloc pml3 (pml3_index indices) x86;
    if has flags VM_HUGE_PAGE || has flags VM_LARGE_PAGE then
      store (pml2 + 8 * pml2_index indices) (Z.lor paddr x86)
    else
      pml1 ← descend_alloc pml2 (pml2_index indices) x86;
      store (pml1 + 8 * pml1_index indices) (Z.lor paddr x86).

(** [if (!p) return r;] followed by the rest. *)
Definition or_return {A} (r : A) (m : M S (option Z)) (k : Z -> M S A) : M S A :=
  t ← m; match t with Some t => k t | None => mret r end.

Definition pmap_unmap (pmlt vaddr : Z) : M S unit :=
  let indices := compute_table_indices vaddr in
  or_return tt (if pml5_supported then descend_table pmlt (pml5_index indices) false 0
                else mret (Some pmlt)) (fun pml4 =>
  or_return tt (descend_table pml4 (pml4_index indices) false 0) (fun pml3 =>
  entry3 ← load (pml3 + 8 * pml3_index indices);
  if has entry3 X86_FLAGS_PS then store (pml3 + 8 * pml3_index indices) 0
  else
  or_return tt (descend_table pml3 (pml3_index indices) false 0) (fun pml2 =>
  entry2 ← load (pml2 + 8 * pml2_index indices);
  if has entry2 X86_FLAGS_PS then store (pml2 + 8 * pml2_index indices) 0
  else
  or_return tt (descend_table pml2 (pml2_index indices) false 0) (fun pml1 =>
  store (pml1 + 8 * pml1_index indices) 0)))).

(** [None] is the return value [-1]. *)
Definition pmap_translate (pmlt vaddr : Z) : M S (option translation) :=
  let indices := compute_table_indices vaddr in
  or_return None (if pml5_supported then descend_table pmlt (pml5_index indices) false 0
                  else mret (Some pmlt)) (fun pml4 =>
  or_return None (descend_table pml4 (pml4_index indices) false 0) (fun pml3 =>
  entry3 ← load (pml3 + 8 * pml3_index indices);
  if has entry3 X86_FLAGS_PS then
    mret (Some (MkTrans (PTE_GET_ADDR entry3) (Some VM_HUGE_PAGE)
                        (x86_to_vm_prot (PTE_GET_FLAGS entry3))))
  else
  or_return None (descend_table pml3 (pml3_index indices) false 0) (fun pml2 =>
  entry2 ← load (pml2 + 8 * pml2_index indices);
  if has entry2 X86_FLAGS_PS then
    mret (Some (MkTrans (PTE_GET_ADDR entry2) (Some VM_LARGE_PAGE)
                        (x86_to_vm_prot (PTE_GET_FLAGS entry3))))
  else
  or_return None (descend_table pml2 (pml2_index indices) false 0) (fun pml1 =>
  entry1 ← load (pml1 + 8 * pml1_index indices);
  if negb (has entry1 X86_FLAGS_P) then mret None
  else mret (Some (MkTrans (PTE_GET_ADDR entry1) None
                           (x86_to_vm_prot (PTE_GET_FLAGS entry1)))))))).

(** [amd64_page_entry]: the address of the entry that decides [vaddr]. *)
Definition amd64_page_entry (pmlt vaddr : Z) : M S (option Z) :=
  let indices := compute_table_indices vaddr in
  or_return None (if pml5_supported then descend_table pmlt (pml5_index indices) false 0
                  else mret (Some pmlt)) (fun pml4 =>
  or_return None (descend_table pml4 (pml4_index indices) false 0) (fun pml3 =>
  entry3 ← load (pml3 + 8 * pml3_index indices);
  if has entry3 X86_FLAGS_PS then mret (Some (pml3 + 8 * pml3_index indices))
  else
  or_return None (descend_table pml3 (pml3_index indices) false 0) (fun pml2 =>
  entry2 ← load (pml2 + 8 * pml2_index indices);
  if has entry2 X86_FLAGS_PS then mret (Some (pml2 + 8 * pml2_index indices))
  else
  or_return None (descend_table pml2 (pml2_index indices) false 0) (fun pml1 =>
  mret (Some (pml1 + 8 * pml1_index indices)))))).

Definition arch_largest_page_size : Z :=
  if gib_pages_supported then HUGE_PAGE_SIZE else LARGE_PAGE_SIZE.

(** [for (i = 256; i < 512; i++)] over the kernel half of a top-level table. *)
Fixpoint kernel_half (n : nat) (i : Z) (body : Z -> M S unit) : M S unit :=
  match n with
  | O => mret tt
  | Datatypes.S n => body i;; kernel_half n (i + 1) body
  end.

(** [pmap_init_kernel]: the root table of the kernel, with the tables of its
    upper half allocated in advance.  [P2V] of any frame is not null. *)
Definition pmap_init_kernel : M S Z :=
  pmlt ← alloc_frame;
  kernel_half 256 256 (fun i =>
    descend_table pmlt i true (Z.lor X86_FLAGS_P (Z.lor X86_FLAGS_RW X86_FLAGS_US));;
    mret tt);;
  mret pmlt.

(** [pmap_new]: a root table that shares the kernel half; [heap_ok] says
    whether the allocation of the [struct pmap] succeeded. *)
Definition pmap_new (heap_ok : bool) (kernel_pmlt : Z) : M S Z :=
  if negb heap_ok then halt
  else
    pmlt ← alloc_frame;
    kernel_half 256 256 (fun i =>
      e ← load (kernel_pmlt + 8 * i);
      store (pmlt + 8 * i) e);;
    mret pmlt.

End Paging.

(** ** Entries and flags *)

Lemma has_bit (x n : Z) : 0 <= n -> has x (2 ^ n) = Z.testbit x n.
Proof. intros. unfold has. rewrite land_bit by done. apply negb_involutive. Qed.

Lemma mask_bits (n : Z) : Z.testbit PTE_ADDR_MASK n = (12 <=? n) && (n <? 52).
Proof.
  replace PTE_ADDR_MASK with (Z.shiftl (Z.ones 40) 12) by done.
  destruct (Z.le_gt_cases 0 n); [|rewrite Z.testbit_neg_r by done; symmetry;
    apply andb_false_iff; left; apply Z.leb_gt; lia].
  rewrite Z.shiftl_spec by done.
  destruct (12 <=? n) eqn:E1; cbn [andb]; zify_bools.
  - destruct (n <? 52) eqn:E2; zify_bools; [apply Z.ones_spec_low|apply Z.ones_spec_high]; lia.
  - apply Z.testbit_neg_r. lia.
Qed.

(** A frame address: page aligned, in the physical address space. *)
Definition frame_addr (a : Z) : Prop := 0 <= a < 2 ^ 52 /\ a mod PAGE_SIZE = 0.

Lemma frame_low a n : frame_addr a -> 0 <= n < 12 -> Z.testbit a n = false.
Proof.
  intros [Hr Hm] Hn. change PAGE_SIZE with (2 ^ 12) in Hm.
  replace a with (2 ^ 12 * (a / 2 ^ 12)) by (pose proof (Z.div_mod a (2 ^ 12)); lia).
  rewrite Z.mul_comm, Z.mul_pow2_bits by lia. apply Z.testbit_neg_r. lia.
Qed.

Lemma frame_high a n : frame_addr a -> 52 <= n -> Z.testbit a n = false.
Proof.
  intros [Hr _] Hn. rewrite <- (Z.mod_small a (2 ^ 52)) by done.
  apply Z.mod_pow2_bits_high. lia.
Qed.

(** Entry flags: bits outside the address field, in 64 bits. *)
Definition flag_bits (f : Z) : Prop :=
  forall n, 12 <= n < 52 -> Z.testbit f n = false.

Lemma PTE_GET_ADDR_lor a f : frame_addr a -> flag_bits f -> PTE_GET_ADDR (Z.lor a f) = a.
Proof.
  intros Ha Hf. unfold PTE_GET_ADDR. apply Z.bits_inj'. intros n Hn.
  rewrite Z.land_spec, Z.lor_spec, mask_bits.
  destruct (12 <=? n) eqn:E1, (n <? 52) eqn:E2; cbn; zify_bools;
    rewrite ?andb_false_r, ?andb_true_r.
  - rewrite Hf, orb_false_r by lia. done.
  - rewrite frame_high by (done || lia). done.
  - rewrite frame_low by (done || lia). done.
  - lia.
Qed.

Lemma flag_testbit a f n :
  frame_addr a -> 0 <= n < 12 \/ 52 <= n -> Z.testbit (Z.lor a f) n = Z.testbit f n.
Proof.
  intros Ha Hn. rewrite Z.lor_spec.
  destruct Hn; [rewrite frame_low by done|rewrite frame_high by done]; done.
Qed.

Lemma set_if_bit b n r m :
  0 <= n -> 0 <= m -> Z.testbit (set_if b (2 ^ n) r) m = (b && (n =? m)) || Z.testbit r m.
Proof.
  intros Hn Hm. destruct b; cbn; [|done]. rewrite Z.lor_spec, Z.pow2_bits_eqb by done.
  apply orb_comm.
Qed.

Lemma vm_prot_to_x86_bit prot flags n :
  0 <= n ->
  Z.testbit (vm_prot_to_x86 prot flags) n =
    ((Z.testbit flags 0 || Z.testbit flags 1) && (7 =? n)) || ((Z.testbit flags 2 && (8 =? n))
    || ((Z.testbit prot 3 && (2 =? n)) || ((negb (Z.testbit prot 2) && (63 =? n))
    || ((Z.testbit prot 1 && (1 =? n)) || (Z.testbit prot 0 && (0 =? n)))))).
Proof.
  intros Hn. unfold vm_prot_to_x86, X86_FLAGS_P, X86_FLAGS_RW, X86_FLAGS_US, X86_FLAGS_PS,
    X86_FLAGS_G, X86_FLAGS_NX, VM_PROT_PRESENT, VM_PROT_WRITE, VM_PROT_EXECUTE, VM_PROT_USER,
    VM_LARGE_PAGE, VM_HUGE_PAGE, VM_GLOBAL.
  rewrite !has_bit by lia. rewrite !set_if_bit by lia. rewrite Z.bits_0, orb_false_r. done.
Qed.

Lemma vm_prot_to_x86_flags prot flags : flag_bits (vm_prot_to_x86 prot flags).
Proof.
  intros n Hn. rewrite vm_prot_to_x86_bit by lia.
  repeat match goal with |- context [?k =? n] =>
    replace (k =? n) with false by (symmetry; apply Z.eqb_neq; lia) end.
  rewrite !andb_false_r. done.
Qed.

Lemma PTE_GET_FLAGS_bit v n :
  0 <= n < 64 -> Z.testbit (PTE_GET_FLAGS v) n =
    Z.testbit v n && negb ((12 <=? n) && (n <? 52)).
Proof.
  intros Hn. unfold PTE_GET_FLAGS, u64. rewrite Z.land_spec.
  rewrite Z.mod_pow2_bits_low, Z.lnot_spec, mask_bits by lia. done.
Qed.

(** Only the low bits of an entry matter to [x86_to_vm_prot]. *)
Lemma x86_to_vm_prot_ext v w :
  (forall n, n = 0 \/ n = 1 \/ n = 2 \/ n = 63 -> Z.testbit v n = Z.testbit w n) ->
  x86_to_vm_prot v = x86_to_vm_prot w.
Proof.
  intros Hb. unfold x86_to_vm_prot, X86_FLAGS_P, X86_FLAGS_RW, X86_FLAGS_US, X86_FLAGS_NX.
  rewrite !has_bit by lia. rewrite !Hb by lia. done.
Qed.

Lemma prot_cases prot : 0 <= prot < 16 ->
  prot = 0 \/ prot = 1 \/ prot = 2 \/ prot = 3 \/ prot = 4 \/ prot = 5 \/ prot = 6 \/ prot = 7 \/
  prot = 8 \/ prot = 9 \/ prot = 10 \/ prot = 11 \/ prot = 12 \/ prot = 13 \/ prot = 14 \/ prot = 15.
Proof. lia. Qed.

Lemma x86_prot_roundtrip prot flags :
  0 <= prot < 16 -> x86_to_vm_prot (vm_prot_to_x86 prot flags) = prot.
Proof.
  intros Hp. rewrite (x86_to_vm_prot_ext _ (vm_prot_to_x86 prot 0)).
  - destruct (prot_cases prot Hp) as
      [->|[->|[->|[->|[->|[->|[->|[->|[->|[->|[->|[->|[->|[->|[->| ->]]]]]]]]]]]]]]];
      reflexivity.
  - intros n Hn. rewrite !vm_prot_to_x86_bit by lia.
    destruct Hn as [->|[->|[->| ->]]]; cbn; rewrite ?andb_false_r; done.
Qed.

(** The protection read back from an entry is the one it was made with. *)
Lemma entry_prot a prot flags :
  frame_addr a -> 0 <= prot < 16 ->
  x86_to_vm_prot (PTE_GET_FLAGS (Z.lor a (vm_prot_to_x86 prot flags))) = prot.
Proof.
  intros Ha Hp. rewrite <- (x86_prot_roundtrip prot flags Hp) at 2.
  apply x86_to_vm_prot_ext. intros n Hn.
  rewrite PTE_GET_FLAGS_bit, flag_testbit by (done || lia).
  destruct Hn as [->|[->|[->| ->]]]; cbn; rewrite andb_true_r; done.
Qed.

(** ** The tree as a mathematical object

    [idx] and [pfx] cut a virtual address into the index used at level [l]
    (4 KiB tables are level 1) and the indices used above it.  [pfx 0] is the
    page number, [pfx (l - 1)] the region one entry of level [l] decides. *)

Definition shift_of (l : nat) : Z := 3 + 9 * Z.of_nat l.
Definition idx (l : nat) (va : Z) : Z := Z.land (Z.shiftr va (shift_of l)) 0x1ff.

Section Tree.
Context (pml5_supported : bool).

Definition top : nat := if pml5_supported then 5 else 4.

Definition pfx (l : nat) (va : Z) : Z :=
  (va / 2 ^ (12 + 9 * Z.of_nat l)) mod 2 ^ (9 * (Z.of_nat top - Z.of_nat l)).

Definition large (l : nat) (e : Z) : bool :=
  ((l =? 2)%nat || (l =? 3)%nat) && has e X86_FLAGS_PS.

(** The entry that decides [va]: its level, its address, and the entry
    through which its table was reached. *)
Fixpoint walk (mem : gmap Z Z) (l : nat) (t va par : Z) : option (nat * Z * Z) :=
  let a := t + 8 * idx l va in
  match l with
  | O => None
  | Datatypes.S l' =>
      if (l =? 1)%nat || large l (rd mem a) then Some (l, a, par)
      else if has (rd mem a) X86_FLAGS_P
           then walk mem l' (PTE_GET_ADDR (rd mem a)) va (rd mem a)
           else None
  end.

(** What an address is mapped to: level, entry, parent entry. *)
Definition lookup_at (mem : gmap Z Z) (l : nat) (t va par : Z) : option (nat * Z * Z) :=
  match walk mem l t va par with
  | Some (l', a, par) =>
      if (l' =? 1)%nat && negb (has (rd mem a) X86_FLAGS_P) then None
      else Some (l', rd mem a, par)
  | None => None
  end.

Definition mapping (mem : gmap Z Z) (root va : Z) : option (nat * Z * Z) :=
  lookup_at mem top root va 0.

(** The answer of [pmap_translate] for an entry. *)
Definition answer (x : nat * Z * Z) : translation :=
  let '(l, e, par) := x in
  match l with
  | 1%nat => MkTrans (PTE_GET_ADDR e) None (x86_to_vm_prot (PTE_GET_FLAGS e))
  | 2%nat => MkTrans (PTE_GET_ADDR e) (Some VM_LARGE_PAGE) (x86_to_vm_prot (PTE_GET_FLAGS par))
  | _ => MkTrans (PTE_GET_ADDR e) (Some VM_HUGE_PAGE) (x86_to_vm_prot (PTE_GET_FLAGS e))
  end.

Lemma idx_range l va : 0 <= idx l va < 512.
Proof.
  unfold idx. change 0x1ff with (Z.ones 9). rewrite Z.land_ones by lia.
  apply Z.mod_pos_bound. lia.
Qed.

Lemma pfx_top va : pfx top va = 0.
Proof. unfold pfx. rewrite Z.sub_diag, Z.mul_0_r. apply Z.mod_1_r. Qed.

Lemma pfx_step l va : (l < top)%nat -> pfx l va = 512 * pfx (Datatypes.S l) va + idx (Datatypes.S l) va.
Proof.
  intros Hl. unfold pfx, idx, shift_of. change 0x1ff with (Z.ones 9).
  rewrite Z.land_ones, Z.shiftr_div_pow2 by lia.
  replace (9 * (Z.of_nat top - Z.of_nat l)) with (9 + 9 * (Z.of_nat top - Z.of_nat (Datatypes.S l))) by lia.
  replace (12 + 9 * Z.of_nat (Datatypes.S l)) with (12 + 9 * Z.of_nat l + 9) by lia.
  replace (3 + 9 * Z.of_nat (Datatypes.S l)) with (12 + 9 * Z.of_nat l) by lia.
  rewrite !Z.pow_add_r, Z.rem_mul_r by lia. rewrite Z.div_div by lia. change (2 ^ 9) with 512. lia.
Qed.

(** *** Typing of tables

    [G] assigns to each table its level and the prefix of the addresses it
    serves.  Several roots can share tables: each has level [top]. *)

Definition wf_entry (G : gmap Z (nat * Z)) (l : nat) (q i e : Z) : Prop :=
  (large l e = true -> has e X86_FLAGS_P = true) /\
  (has e X86_FLAGS_P = true -> large l e = true \/
     exists t', e = Z.lor t' (vm_prot_to_x86 VM_PROT_ALL 0) /\
                G !! t' = Some (Nat.pred l, 512 * q + i)).

Record pt_typed (mem : gmap Z Z) (G : gmap Z (nat * Z)) : Prop := {
  pt_frame : forall t x, G !! t = Some x -> frame_addr t;
  pt_level : forall t l q, G !! t = Some (l, q) -> (1 <= l <= top)%nat;
  pt_entry : forall t l q i, G !! t = Some (l, q) -> (2 <= l)%nat -> 0 <= i < 512 ->
    wf_entry G l q i (rd mem (t + 8 * i));
}.

Lemma slot_inj t i t' i' :
  frame_addr t -> frame_addr t' -> 0 <= i < 512 -> 0 <= i' < 512 ->
  t + 8 * i = t' + 8 * i' -> t = t' /\ i = i'.
Proof.
  intros [_ Ht] [_ Ht'] Hi Hi' He. unfold PAGE_SIZE in *.
  assert (t = 4096 * (t / 4096)) by (pose proof (Z.div_mod t 4096); lia).
  assert (t' = 4096 * (t' / 4096)) by (pose proof (Z.div_mod t' 4096); lia).
  lia.
Qed.

Lemma table_flags_P t : frame_addr t -> has (Z.lor t (vm_prot_to_x86 VM_PROT_ALL 0)) X86_FLAGS_P = true.
Proof.
  intros Ht. unfold X86_FLAGS_P. rewrite has_bit, flag_testbit by (done || lia). done.
Qed.

Lemma table_not_large t l : frame_addr t -> large l (Z.lor t (vm_prot_to_x86 VM_PROT_ALL 0)) = false.
Proof.
  intros Ht. unfold large, X86_FLAGS_PS. rewrite has_bit, flag_testbit by (done || lia).
  apply andb_false_r.
Qed.

(** The entry of a present, smaller table. *)
Lemma pt_descend mem G t l q i :
  pt_typed mem G -> G !! t = Some (Datatypes.S l, q) -> (1 <= l)%nat -> 0 <= i < 512 ->
  large (Datatypes.S l) (rd mem (t + 8 * i)) = false ->
  has (rd mem (t + 8 * i)) X86_FLAGS_P = true ->
  G !! PTE_GET_ADDR (rd mem (t + 8 * i)) = Some (l, 512 * q + i).
Proof.
  intros HT HG Hl Hi Hlg HP.
  destruct (pt_entry _ _ HT t (Datatypes.S l) q i HG ltac:(lia) Hi) as [_ He].
  destruct (He HP) as [Hx|(t' & Ee & Ht')]; [congruence|].
  rewrite Ee, PTE_GET_ADDR_lor; [done| |apply vm_prot_to_x86_flags].
  eapply pt_frame; eauto.
Qed.

(** Memory that differs from [mem] at one slot at most, as far as the tables
    of [G] are concerned. *)
Definition agree_off (G : gmap Z (nat * Z)) (mem mem' : gmap Z Z) (a : Z) : Prop :=
  forall t x i, G !! t = Some x -> 0 <= i < 512 -> t + 8 * i <> a ->
    rd mem' (t + 8 * i) = rd mem (t + 8 * i).

(** A write at one slot changes no address, unless the walk from that slot
    itself changes. *)
Lemma lookup_agree mem mem' G l0 t0 q0 i0 va l t par :
  pt_typed mem G -> agree_off G mem mem' (t0 + 8 * i0) ->
  G !! t0 = Some (l0, q0) -> 0 <= i0 < 512 ->
  (pfx (Nat.pred l0) va = 512 * q0 + i0 -> idx l0 va = i0 ->
     forall par, lookup_at mem' l0 t0 va par = lookup_at mem l0 t0 va par) ->
  G !! t = Some (l, pfx l va) ->
  lookup_at mem' l t va par = lookup_at mem l t va par.
Proof.
  intros HT HA H0 Hi0 Hslot. revert t par.
  induction l as [|l IH]; intros t par HG; [done|].
  pose proof (pt_level _ _ HT _ _ _ HG) as Hlv.
  destruct (Z.eq_dec (t + 8 * idx (Datatypes.S l) va) (t0 + 8 * i0)) as [He|Hne].
  { apply slot_inj in He as [-> He]; [|eapply pt_frame; eauto..|apply idx_range|done].
    rewrite H0 in HG. injection HG as -> ->. apply Hslot; [|done].
    cbn [Nat.pred]. rewrite pfx_step by lia. lia. }
  assert (Heq : rd mem' (t + 8 * idx (Datatypes.S l) va) = rd mem (t + 8 * idx (Datatypes.S l) va))
    by (eapply HA; [done|apply idx_range|done]).
  unfold lookup_at in *. cbn [walk]. rewrite Heq.
  destruct ((_ =? 1)%nat || _) eqn:E; [rewrite Heq; done|].
  apply orb_false_iff in E as [E1 E2]. apply Nat.eqb_neq in E1.
  case_if; [|done]. apply IH. rewrite pfx_step by lia.
  apply pt_descend; [done|done|lia|apply idx_range|done|done].
Qed.

(** Memory that agrees on the tables gives the same walks. *)
Lemma lookup_same mem mem' G va l t par :
  pt_typed mem G ->
  (forall t x i, G !! t = Some x -> 0 <= i < 512 -> rd mem' (t + 8 * i) = rd mem (t + 8 * i)) ->
  G !! t = Some (l, pfx l va) -> lookup_at mem' l t va par = lookup_at mem l t va par.
Proof.
  intros HT HA. revert t par. unfold lookup_at. induction l as [|l IH]; intros t par HG; [done|].
  pose proof (pt_level _ _ HT _ _ _ HG). pose proof (HA _ _ _ HG (idx_range (Datatypes.S l) va)) as Heq.
  cbn [walk]. rewrite Heq. destruct ((_ =? 1)%nat || _) eqn:E; [rewrite Heq; done|].
  apply orb_false_iff in E as [E1 E2]. apply Nat.eqb_neq in E1.
  case_if; [|done]. apply IH. rewrite pfx_step by lia.
  apply pt_descend; [done|done|lia|apply idx_range|done|done].
Qed.

(** Writing an entry changes no address outside the region of the entry. *)
Lemma lookup_frame mem mem' G l0 t0 q0 i0 va l t par :
  pt_typed mem G -> agree_off G mem mem' (t0 + 8 * i0) ->
  G !! t0 = Some (l0, q0) -> 0 <= i0 < 512 ->
  pfx (Nat.pred l0) va <> 512 * q0 + i0 ->
  G !! t = Some (l, pfx l va) ->
  lookup_at mem' l t va par = lookup_at mem l t va par.
Proof. intros HT HA H0 Hi0 Hne HG. eapply (lookup_agree mem mem' G l0 t0); eauto. congruence. Qed.

(** A slot whose entry decides nothing. *)
Lemma lookup_absent mem l t va par :
  large l (rd mem (t + 8 * idx l va)) = false ->
  has (rd mem (t + 8 * idx l va)) X86_FLAGS_P = false -> lookup_at mem l t va par = None.
Proof.
  intros Hl HP. unfold lookup_at. destruct l as [|l]; [done|]. cbn [walk].
  rewrite Hl, HP, orb_false_r. destruct (Datatypes.S l =? 1)%nat eqn:E; [rewrite E, HP|]; done.
Qed.

Lemma zero_not_large l : large l 0 = false.
Proof. unfold large. apply andb_false_r. Qed.

(** An empty table maps nothing. *)
Lemma lookup_zero mem l f va par :
  (forall i, 0 <= i < 512 -> rd mem (f + 8 * i) = 0) -> lookup_at mem l f va par = None.
Proof.
  intros Hz. apply lookup_absent; rewrite Hz by apply idx_range; [apply zero_not_large|done].
Qed.

(** Linking an empty table into an absent entry changes no address. *)
Lemma lookup_link mem mem' G l0 t0 q0 i0 f va l t par :
  pt_typed mem G -> agree_off G mem mem' (t0 + 8 * i0) ->
  G !! t0 = Some (l0, q0) -> (2 <= l0)%nat -> 0 <= i0 < 512 ->
  has (rd mem (t0 + 8 * i0)) X86_FLAGS_P = false ->
  rd mem' (t0 + 8 * i0) = Z.lor f (vm_prot_to_x86 VM_PROT_ALL 0) -> frame_addr f ->
  (forall i, 0 <= i < 512 -> rd mem' (f + 8 * i) = 0) ->
  G !! t = Some (l, pfx l va) ->
  lookup_at mem' l t va par = lookup_at mem l t va par.
Proof.
  intros HT HA H0 Hl0 Hi0 Habs Hnew Hf Hz HG.
  eapply (lookup_agree mem mem' G l0 t0); eauto. intros _ <- par'.
  assert (Hlg : large l0 (rd mem (t0 + 8 * idx l0 va)) = false).
  { destruct (pt_entry _ _ HT _ _ _ _ H0 Hl0 Hi0) as [Hx _].
    destruct (large _ _); [rewrite Hx in Habs|]; done. }
  rewrite (lookup_absent mem) by done. unfold lookup_at. destruct l0 as [|l0]; [done|]. cbn [walk].
  rewrite Hnew, table_not_large, table_flags_P by done.
  replace (Datatypes.S l0 =? 1)%nat with false by (symmetry; apply Nat.eqb_neq; lia).
  cbn [orb]. rewrite PTE_GET_ADDR_lor by (done || apply vm_prot_to_x86_flags).
  exact (lookup_zero mem' l0 f va _ Hz).
Qed.

(** *** The path of an address

    [reach l t par]: the descent for [va] from [root] arrives at table [t] of
    level [l] through the entry [par]. *)
Inductive reach (mem : gmap Z Z) (root va : Z) : nat -> Z -> Z -> Prop :=
| reach_root : reach mem root va top root 0
| reach_step l t par :
    reach mem root va (Datatypes.S l) t par ->
    (1 <= l)%nat ->
    large (Datatypes.S l) (rd mem (t + 8 * idx (Datatypes.S l) va)) = false ->
    has (rd mem (t + 8 * idx (Datatypes.S l) va)) X86_FLAGS_P = true ->
    reach mem root va l (PTE_GET_ADDR (rd mem (t + 8 * idx (Datatypes.S l) va)))
      (rd mem (t + 8 * idx (Datatypes.S l) va)).

Lemma reach_level mem root va l t par : reach mem root va l t par -> (1 <= l <= top)%nat.
Proof. induction 1; [unfold top; destruct pml5_supported; lia|lia]. Qed.

Lemma reach_walk mem root va l t par :
  reach mem root va l t par -> walk mem top root va 0 = walk mem l t va par.
Proof.
  induction 1 as [|l t par _ IH Hl Hlg HP]; [done|]. rewrite IH. cbn [walk].
  rewrite Hlg, HP. replace (Datatypes.S l =? 1)%nat with false by (symmetry; apply Nat.eqb_neq; lia).
  done.
Qed.

Lemma walk_reach mem root va l t par l' a par' :
  reach mem root va l t par -> walk mem l t va par = Some (l', a, par') ->
  exists t', reach mem root va l' t' par' /\ a = t' + 8 * idx l' va /\ (1 <= l')%nat /\
    (l' =? 1)%nat || large l' (rd mem a) = true.
Proof.
  revert t par. induction l as [|l IH]; intros t par Hr HW; [done|].
  cbn [walk] in HW. destruct ((_ =? 1)%nat || _) eqn:E in HW.
  - simplify_eq. exists t. split_and!; try done. lia.
  - apply orb_false_iff in E as [E1 E2]. apply Nat.eqb_neq in E1. case_if_in HW; [|done].
    eapply IH; [|done]. apply (reach_step _ _ _ _ _ par); [done|lia|done|done].
Qed.

Lemma reach_lookup mem root va l t par :
  reach mem root va l t par -> mapping mem root va = lookup_at mem l t va par.
Proof. intros Hr. unfold mapping, lookup_at. rewrite (reach_walk _ _ _ _ _ _ Hr). done. Qed.

Lemma reach_typed mem G root va l t par :
  pt_typed mem G -> G !! root = Some (top, 0) -> reach mem root va l t par ->
  G !! t = Some (l, pfx l va).
Proof.
  intros HT HG. induction 1 as [|l t par Hr IH Hl Hlg HP]; [rewrite pfx_top; done|].
  pose proof (reach_level _ _ _ _ _ _ Hr).
  rewrite pfx_step by lia. apply pt_descend; [done|done|lia|apply idx_range|done|done].
Qed.

(** A write below the path keeps the path. *)
Lemma reach_frame mem mem' G root va l0 t0 q0 i0 l t par :
  pt_typed mem G -> G !! root = Some (top, 0) -> agree_off G mem mem' (t0 + 8 * i0) ->
  G !! t0 = Some (l0, q0) -> 0 <= i0 < 512 ->
  reach mem root va l t par -> (l0 <= l)%nat -> reach mem' root va l t par.
Proof.
  intros HT HG HA H0 Hi0. induction 1 as [|l t par Hr IH Hl Hlg HP]; intros Hle; [constructor|].
  assert (Heq : rd mem' (t + 8 * idx (Datatypes.S l) va) = rd mem (t + 8 * idx (Datatypes.S l) va)).
  { pose proof (reach_typed _ _ _ _ _ _ _ HT HG Hr) as HGt.
    eapply HA; [done|apply idx_range|]. intros He.
    apply slot_inj in He as [-> He]; [|eapply pt_frame; eauto..|apply idx_range|done].
    rewrite H0 in HGt. injection HGt as -> _. lia. }
  rewrite <- Heq. apply (reach_step _ _ _ _ _ par); [apply IH; lia|done|rewrite Heq; done..].
Qed.

End Tree.

(** ** The operations on the tree *)

Section PagingOk.
Context {S : Type} {PS : PageSource S} {HPS : PageSourceOk S PS}.
Context (pml5_supported gib_pages_supported : bool).
Local Abbreviation top := (top pml5_supported).
Local Abbreviation pfx := (pfx pml5_supported).
Local Abbreviation mapping := (mapping pml5_supported).
Local Abbreviation pt_typed := (pt_typed pml5_supported).
Local Abbreviation reach := (reach pml5_supported).

Lemma descend_noalloc t i p (s : S) :
  descend_table t i false p s =
    (s, Ok (if has (rd (ps_mem s) (t + 8 * i)) X86_FLAGS_P
            then Some (PTE_GET_ADDR (rd (ps_mem s) (t + 8 * i))) else None)).
Proof. unfold descend_table, load, gets, mbind, M_bind, mret, M_ret. case_if; done. Qed.

Lemma or_return_noalloc {A} (r : A) t i p k (s : S) :
  or_return r (descend_table t i false p) k s =
    if has (rd (ps_mem s) (t + 8 * i)) X86_FLAGS_P
    then k (PTE_GET_ADDR (rd (ps_mem s) (t + 8 * i))) s else (s, Ok r).
Proof.
  unfold or_return, mbind, M_bind. rewrite descend_noalloc. case_if; done.
Qed.

(** The three descents of the source that allocate nothing are one walk. *)
Ltac indices va :=
  change (pml5_index (compute_table_indices va)) with (idx 5 va);
  change (pml4_index (compute_table_indices va)) with (idx 4 va);
  change (pml3_index (compute_table_indices va)) with (idx 3 va);
  change (pml2_index (compute_table_indices va)) with (idx 2 va);
  change (pml1_index (compute_table_indices va)) with (idx 1 va).

Ltac walk_cases :=
  repeat match goal with
  | |- context [or_return _ (descend_table _ _ false _) _ _] => rewrite or_return_noalloc
  | |- context [or_return _ (mret (Some ?t)) ?k ?s] =>
      change (or_return _ (mret (Some t)) k s) with (k t s); cbv beta
  | |- context [(load ?a ≫= ?k) ?s] =>
      change ((load a ≫= k) s) with (k (rd (ps_mem s) a) s); cbv beta
  | |- context [has ?e ?f] => let E := fresh "E" in destruct (has e f) eqn:E
  | _ => progress cbn [Nat.eqb andb orb negb fst snd fmap option_fmap option_map answer]
  end.

Lemma pmap_translate_walk root va (s : S) :
  pmap_translate pml5_supported root va s = (s, Ok (answer <$> mapping (ps_mem s) root va)).
Proof.
  unfold pmap_translate, mapping, lookup_at, Paging.top. indices va.
  destruct pml5_supported; cbn [walk]; unfold large; walk_cases; done.
Qed.

Lemma pmap_unmap_walk root va (s : S) :
  pmap_unmap pml5_supported root va s =
    match walk (ps_mem s) top root va 0 with
    | Some (_, a, _) => (ps_put s (<[a := 0]> (ps_mem s)), Ok tt)
    | None => (s, Ok tt)
    end.
Proof.
  unfold pmap_unmap, Paging.top. indices va.
  destruct pml5_supported; cbn [walk]; unfold large; walk_cases; done.
Qed.

Lemma amd64_page_entry_walk root va (s : S) :
  amd64_page_entry pml5_supported root va s =
    (s, Ok ((fun x => x.1.2) <$> walk (ps_mem s) top root va 0)).
Proof.
  unfold amd64_page_entry, Paging.top. indices va.
  destruct pml5_supported; cbn [walk]; unfold large; walk_cases; done.
Qed.

(** *** The invariant

    Every table is a frame the allocator has handed out, and the tables are
    typed. *)
Record pt_inv (s : S) (G : gmap Z (nat * Z)) : Prop := {
  pi_ok : ps_ok s;
  pi_typed : pt_typed (ps_mem s) G;
  pi_used : forall t x, G !! t = Some x -> ps_used s t;
}.

Lemma rd_insert mem a v x : rd (<[a := v]> mem) x = if decide (x = a) then v else rd mem x.
Proof. unfold rd. destruct (decide (x = a)) as [->|]; [rewrite lookup_insert_eq|rewrite lookup_insert_ne by done]; done. Qed.

Lemma agree_insert G mem a v : agree_off G mem (<[a := v]> mem) a.
Proof. intros t x i _ _ Hne. rewrite rd_insert. case_decide; done. Qed.

(** Writing a well-formed entry keeps the tables typed. *)
Lemma pt_typed_store mem G t0 l0 q0 i0 v :
  pt_typed mem G -> G !! t0 = Some (l0, q0) -> 0 <= i0 < 512 ->
  ((2 <= l0)%nat -> wf_entry G l0 q0 i0 v) ->
  pt_typed (<[t0 + 8 * i0 := v]> mem) G.
Proof.
  intros HT H0 Hi0 Hv. constructor; [eapply pt_frame; eauto|eapply pt_level; eauto|].
  intros t l q i HG Hl Hi. rewrite rd_insert. case_decide as Hd; [|eapply pt_entry; eauto].
  apply slot_inj in Hd as [-> ->]; [|eapply pt_frame; eauto..|done|done].
  rewrite H0 in HG. injection HG as -> ->. auto.
Qed.

Lemma pt_inv_store s G t0 l0 q0 i0 v :
  pt_inv s G -> G !! t0 = Some (l0, q0) -> 0 <= i0 < 512 ->
  ((2 <= l0)%nat -> wf_entry G l0 q0 i0 v) ->
  pt_inv (ps_put s (<[t0 + 8 * i0 := v]> (ps_mem s))) G.
Proof.
  intros HI H0 Hi0 Hv. destruct HI as [Hok HT Hu]. constructor.
  - apply ps_ok_put. done.
  - rewrite ps_mem_put. eapply pt_typed_store; eauto.
  - intros t x HG. apply ps_used_put. eauto.
Qed.

(** A table added to the typing, with entries that are typed. *)
Lemma pt_typed_grow mem G f l q :
  pt_typed mem G -> G !! f = None -> frame_addr f -> (1 <= l <= top)%nat ->
  (forall i, (2 <= l)%nat -> 0 <= i < 512 -> wf_entry G l q i (rd mem (f + 8 * i))) ->
  pt_typed mem (<[f := (l, q)]> G).
Proof.
  intros HT Hf Hfr Hl He.
  assert (Hmono : forall l' q' i e, wf_entry G l' q' i e -> wf_entry (<[f := (l, q)]> G) l' q' i e).
  { intros l' q' i e [H1 H2]. split; [done|]. intros HP.
    destruct (H2 HP) as [?|(t' & ? & Ht')]; [by left|right]. exists t'. split; [done|].
    rewrite lookup_insert_ne; [done|]. congruence. }
  constructor.
  - intros t x. rewrite lookup_insert_Some. intros [[<- _]|[_ ?]]; [done|eapply pt_frame; eauto].
  - intros t l' q'. rewrite lookup_insert_Some. intros [[<- ?]|[_ ?]]; [by simplify_eq|eapply pt_level; eauto].
  - intros t l' q' i. rewrite lookup_insert_Some.
    intros [[<- ?]|[_ ?]] ??; apply Hmono; [simplify_eq; auto|eapply pt_entry; eauto].
Qed.

(** Memory outside the tables of [G] is the same. *)
Definition same_outside (G : gmap Z (nat * Z)) (s s' : S) : Prop :=
  forall x, (forall t, is_Some (G !! t) -> ~ (t <= x < t + PAGE_SIZE)) ->
    rd (ps_mem s') x = rd (ps_mem s) x.

(** What a step that may add tables, but maps nothing, guarantees. *)
Record extends (s s' : S) (G G' : gmap Z (nat * Z)) : Prop := {
  ex_inv : pt_inv s' G';
  ex_sub : G ⊆ G';
  ex_same : same_outside G' s s';
  ex_used : forall x, ps_used s x -> ps_used s' x;
  ex_map : forall r va, G !! r = Some (top, 0) ->
    mapping (ps_mem s') r va = mapping (ps_mem s) r va;
  (** Entries that are present stay. *)
  ex_keep : forall t x i, G !! t = Some x -> 0 <= i < 512 ->
    has (rd (ps_mem s) (t + 8 * i)) X86_FLAGS_P = true ->
    rd (ps_mem s') (t + 8 * i) = rd (ps_mem s) (t + 8 * i);
}.

Lemma extends_refl s G : pt_inv s G -> extends s s G G.
Proof. intros HI. constructor; done. Qed.

Lemma extends_trans s1 s2 s3 G1 G2 G3 :
  extends s1 s2 G1 G2 -> extends s2 s3 G2 G3 -> extends s1 s3 G1 G3.
Proof.
  intros H1 H2. constructor.
  - eapply ex_inv; eauto.
  - etrans; eapply ex_sub; eauto.
  - intros x Hx. rewrite (ex_same _ _ _ _ H2) by done. apply (ex_same _ _ _ _ H1).
    intros t [y Ht]. apply Hx. exists y. eapply lookup_weaken; [done|]. eapply ex_sub; eauto.
  - intros x Hx. eapply ex_used, ex_used; eauto.
  - intros r va Hr. rewrite (ex_map _ _ _ _ H2); [eapply ex_map; eauto|].
    eapply lookup_weaken; [done|]. eapply ex_sub; eauto.
  - intros t x i Ht Hi HP. pose proof (ex_keep _ _ _ _ H1 t x i Ht Hi HP) as E1.
    rewrite (ex_keep _ _ _ _ H2 t x i); [done|eapply lookup_weaken, ex_sub; eauto|done|rewrite E1; done].
Qed.

Lemma slot_outside t i f :
  frame_addr t -> frame_addr f -> t <> f -> 0 <= i < 512 -> ~ (f <= t + 8 * i < f + PAGE_SIZE).
Proof.
  intros [_ Ht] [_ Hf] Hne Hi. unfold PAGE_SIZE in *.
  assert (t = 4096 * (t / 4096)) by (pose proof (Z.div_mod t 4096); lia).
  assert (f = 4096 * (f / 4096)) by (pose proof (Z.div_mod f 4096); lia).
  lia.
Qed.

Lemma pt_typed_agree mem mem' G :
  (forall t x i, G !! t = Some x -> 0 <= i < 512 -> rd mem' (t + 8 * i) = rd mem (t + 8 * i)) ->
  pt_typed mem G -> pt_typed mem' G.
Proof.
  intros HA HT. constructor; [eapply pt_frame; eauto|eapply pt_level; eauto|].
  intros t l q i HG Hl Hi. rewrite (HA _ _ _ HG Hi). eapply pt_entry; eauto.
Qed.

(** A fresh frame, as a table. *)
Lemma alloc_frame_spec s G n :
  pt_inv s G -> ps_avail s (Datatypes.S n) ->
  exists s' f, alloc_frame s = (s', Ok f) /\ ps_avail s' n /\ ps_ok s' /\
    frame_addr f /\ G !! f = None /\ ps_used s' f /\
    (forall x, ps_used s x -> ps_used s' x) /\
    (forall i, 0 <= i < 512 -> rd (ps_mem s') (f + 8 * i) = 0) /\
    (forall x, ~ (f <= x < f + PAGE_SIZE) -> rd (ps_mem s') x = rd (ps_mem s) x) /\
    pt_typed (ps_mem s') G.
Proof.
  intros HI Hav. destruct (ps_avail_alloc s n Hav) as (s' & f & Ea & Hav').
  exists s', f. unfold alloc_frame. rewrite Ea.
  change 1 with (2 ^ 0) in Ea at 2.
  destruct (ps_alloc_ok s 1 0 s' f (pi_ok _ _ HI) ltac:(lia) ltac:(lia) Ea)
    as (Hok & Hf0 & Hf1 & Hfa & Hfree & Hused & Hz & Hsame).
  assert (Hin : in_frames f 1 f) by (exists 0; lia).
  assert (Hfr : frame_addr f) by (split; [unfold PAGE_SIZE in *; lia|]; rewrite Z.mul_1_l in Hfa; done).
  assert (HGf : G !! f = None).
  { destruct (G !! f) eqn:EG; [|done]. destruct (Hfree f Hin). eapply pi_used; eauto. }
  split_and!; try done.
  - apply Hused. by left.
  - intros x Hx. apply Hused. by right.
  - intros i Hi. apply Hz; [unfold PAGE_SIZE; lia|].
    destruct Hfr as [_ Hm]. unfold PAGE_SIZE in Hm.
    assert (f = 4096 * (f / 4096)) by (pose proof (Z.div_mod f 4096); lia).
    replace (f + 8 * i) with ((512 * (f / 4096) + i) * 8) by lia. apply Z.mod_mul. lia.
  - eapply pt_typed_agree; [|apply HI]. intros t x i Ht Hi. apply Hsame.
    rewrite Z.mul_1_l. apply slot_outside; [|done| |done].
    + eapply pt_frame; [apply HI|done].
    + congruence.
Qed.

Lemma zero_wf G l q i : wf_entry G l q i 0.
Proof.
  split; [|done]. unfold large. change (has 0 X86_FLAGS_PS) with false.
  rewrite andb_false_r. done.
Qed.

(** Linking the fresh, zeroed frame [f] into slot [i] of table [t] keeps the
    tables well formed and what they map. *)
Section Link.
Context (s s1 : S) (G : gmap Z (nat * Z)) (va : Z) (l : nat) (t f : Z).
Hypotheses (HT : pt_typed (ps_mem s) G) (HGt : G !! t = Some (Datatypes.S l, pfx (Datatypes.S l) va)) (Hl : (1 <= l)%nat)
  (Hfr : frame_addr f) (HGf : G !! f = None)
  (Hz : forall i, 0 <= i < 512 -> rd (ps_mem s1) (f + 8 * i) = 0)
  (Hsame : forall x, ~ (f <= x < f + PAGE_SIZE) -> rd (ps_mem s1) x = rd (ps_mem s) x).

Let i := idx (Datatypes.S l) va.
Let e := Z.lor f (vm_prot_to_x86 VM_PROT_ALL 0).
Let mem' := <[t + 8 * i := e]> (ps_mem s1).
Let G' := <[f := (l, 512 * pfx (Datatypes.S l) va + i)]> G.

Lemma link_range : 0 <= i < 512.
Proof. apply idx_range. Qed.

Lemma link_agree : agree_off G (ps_mem s) mem' (t + 8 * i).
Proof.
  intros t1 x j Ht1 Hj Hne. unfold mem'. rewrite rd_insert. case_decide; [done|].
  apply Hsame, slot_outside; [eapply pt_frame; eauto|done|congruence|done].
Qed.

Lemma link_fresh j : 0 <= j < 512 -> rd mem' (f + 8 * j) = 0.
Proof.
  intros Hj. unfold mem'. rewrite rd_insert, decide_False; [auto|].
  intros Hx. apply slot_inj in Hx as [-> _]; [congruence|done|eapply pt_frame; eauto|done|apply link_range].
Qed.

Lemma link_entry : rd mem' (t + 8 * i) = e /\ has e X86_FLAGS_P = true /\ PTE_GET_ADDR e = f.
Proof.
  split_and!; [unfold mem'; by rewrite rd_insert, decide_True|by apply table_flags_P|].
  apply PTE_GET_ADDR_lor; [done|apply vm_prot_to_x86_flags].
Qed.

Lemma link_inv :
  (l < top)%nat -> pt_typed (ps_mem s1) G -> ps_ok s1 -> ps_used s1 f -> (forall x y, G !! x = Some y -> ps_used s1 x) ->
  pt_inv (ps_put s1 mem') G'.
Proof.
  intros Hlv HT1 Hok1 Huf Hu.
  assert (HGt' : G' !! t = Some (Datatypes.S l, pfx (Datatypes.S l) va)).
  { unfold G'. rewrite lookup_insert_ne; [done|]. congruence. }
  apply (pt_inv_store s1 G' t (Datatypes.S l) (pfx (Datatypes.S l) va) i e); [|done|apply link_range|].
  - constructor; [done| |].
    + apply pt_typed_grow; [done|done|done|lia|]. intros j _ Hj. rewrite Hz by done. apply zero_wf.
    + intros t1 x. unfold G'. rewrite lookup_insert_Some. intros [[<- _]|[_ ?]]; [done|]. by eapply Hu.
  - intros _. split; [intros _; by apply table_flags_P|]. intros _. right. exists f. split; [done|].
    cbn [Nat.pred]. apply lookup_insert_eq.
Qed.

Lemma link_extends :
  has (rd (ps_mem s) (t + 8 * i)) X86_FLAGS_P = false -> pt_inv (ps_put s1 mem') G' ->
  (forall x, ps_used s x -> ps_used s1 x) -> extends s (ps_put s1 mem') G G'.
Proof.
  intros HP HI' Hu. constructor; [done| | | | |].
  - apply insert_subseteq. done.
  - intros x Hx. rewrite ps_mem_put. unfold mem'. rewrite rd_insert. case_decide as Hd.
    + exfalso. apply (Hx t); [unfold G'; rewrite lookup_insert_ne by congruence; eauto|]. unfold PAGE_SIZE. pose proof link_range. lia.
    + apply Hsame. apply (Hx f). unfold G'. rewrite lookup_insert_eq. eauto.
  - intros x Hx. apply ps_used_put. auto.
  - intros r va' Hr'. rewrite ps_mem_put.
    eapply (lookup_link _ _ _ G (Datatypes.S l) t _ i f);
      [exact HT|exact link_agree|exact HGt|lia|exact link_range|done|apply link_entry|done|exact link_fresh|].
    rewrite pfx_top. done.
  - intros t1 x j Ht1 Hj HP1. rewrite ps_mem_put. eapply link_agree; [done|done|].
    intros Hx. rewrite Hx in HP1. congruence.
Qed.

Lemma link_reach root par :
  G !! root = Some (top, 0) -> reach (ps_mem s) root va (Datatypes.S l) t par -> reach mem' root va l f e.
Proof.
  intros HG Hr. destruct link_entry as (Hnew & HeP & HeA).
  assert (Hstep : reach mem' root va (Datatypes.S l) t par).
  { apply (reach_frame _ (ps_mem s) mem' G root va (Datatypes.S l) t _ i) with (3 := link_agree) (4 := HGt); try done. apply link_range. }
  pose proof (reach_step _ mem' root va l t par Hstep Hl) as Hs. fold i in Hs.
  rewrite Hnew, HeA in Hs. apply Hs; [apply table_not_large; done|done].
Qed.
End Link.

(** A descent that allocates reaches the next table and maps nothing. *)
Lemma descend_alloc_spec s G root va l t par p n :
  pt_inv s G -> G !! root = Some (top, 0) ->
  reach (ps_mem s) root va (Datatypes.S l) t par -> (1 <= l)%nat ->
  large (Datatypes.S l) (rd (ps_mem s) (t + 8 * idx (Datatypes.S l) va)) = false ->
  ps_avail s (Datatypes.S n) ->
  exists s' t' G' par', descend_alloc t (idx (Datatypes.S l) va) p s = (s', Ok t') /\
    extends s s' G G' /\ reach (ps_mem s') root va l t' par' /\ ps_avail s' n /\
    par' = Z.lor t' (vm_prot_to_x86 VM_PROT_ALL 0).
Proof.
  intros HI HG Hr Hl Hlg Hav. pose proof (pi_typed _ _ HI) as HT.
  pose proof (reach_typed _ _ _ _ _ _ _ _ HT HG Hr) as HGt.
  pose proof (reach_level _ _ _ _ _ _ _ Hr) as Hlv.
  pose proof (idx_range (Datatypes.S l) va) as Hi.
  unfold descend_alloc, descend_table, load. unfold mbind, M_bind, gets, mret, M_ret at 1.
  destruct (has (rd (ps_mem s) (t + 8 * idx (Datatypes.S l) va)) X86_FLAGS_P) eqn:HP.
  - exists s. eexists _, G, (rd (ps_mem s) (t + 8 * idx (Datatypes.S l) va)).
    split_and!; [done|apply extends_refl; done|apply (reach_step _ _ _ _ _ _ par); done
      |eapply ps_avail_le; [|done]; lia|].
    destruct (pt_entry _ _ _ HT _ _ _ _ HGt ltac:(lia) Hi) as [_ He].
    destruct (He HP) as [?|(t' & Ee & Ht')]; [congruence|].
    rewrite Ee, PTE_GET_ADDR_lor; [done|eapply pt_frame; eauto|apply vm_prot_to_x86_flags].
  - destruct (alloc_frame_spec s G n HI Hav)
      as (s1 & f & Ea & Hav1 & Hok1 & Hfr & HGf & Huf & Hu & Hz & Hsame & HT1).
    cbn [negb]. rewrite Ea. unfold store, modify.
    destruct (link_entry s1 va l t f Hfr) as (_ & HeP & HeA).
    assert (He0 : (Z.lor f (vm_prot_to_x86 VM_PROT_ALL 0) =? 0) = false).
    { apply Z.eqb_neq. intros He. rewrite He in HeP. done. }
    rewrite He0, HeA. eexists _, f, _, _. split; [done|]. split_and!; [| |apply ps_avail_put; done|done].
    + eapply link_extends; eauto. eapply link_inv; eauto; [lia|]. intros x y Hx. apply Hu. eapply pi_used; eauto.
    + rewrite ps_mem_put. by eapply (link_reach s s1 G).
Qed.

(** The level at which [pmap_map] writes its entry. *)
Definition leaf_level (flags : Z) : nat :=
  if has flags VM_HUGE_PAGE && gib_pages_supported then 3
  else if has flags VM_HUGE_PAGE || has flags VM_LARGE_PAGE then 2 else 1.

(** No mapping of a larger size covers the address. *)
Definition no_larger (mem : gmap Z Z) (root va : Z) (leaf : nat) : Prop :=
  match mapping mem root va with Some (l, _, _) => (l <= leaf)%nat | None => True end.

Lemma no_larger_descend mem root va leaf l t par :
  no_larger mem root va leaf -> reach mem root va l t par -> (leaf < l)%nat -> (1 <= leaf)%nat ->
  large l (rd mem (t + 8 * idx l va)) = false.
Proof.
  intros Hn Hr Hl Hl1. unfold no_larger in Hn. rewrite (reach_lookup _ _ _ _ _ _ _ Hr) in Hn.
  destruct (large l _) eqn:E; [|done]. unfold lookup_at in Hn. destruct l as [|l]; [lia|].
  cbn [walk] in Hn. rewrite E, orb_true_r in Hn.
  replace (Datatypes.S l =? 1)%nat with false in Hn by (symmetry; apply Nat.eqb_neq; lia).
  cbn [andb] in Hn. lia.
Qed.

(** One step of [pmap_map]'s descent, with everything it accumulates. *)
Definition descended (s0 : S) (G0 : gmap Z (nat * Z)) (root va : Z) (l : nat) (n : nat)
    (s : S) (t : Z) : Prop :=
  exists G par, extends s0 s G0 G /\ reach (ps_mem s) root va l t par /\ ps_avail s n /\
    ((l < top)%nat -> par = Z.lor t (vm_prot_to_x86 VM_PROT_ALL 0)).

Lemma descended_step s0 G0 root va leaf l n s t p :
  G0 !! root = Some (top, 0) -> no_larger (ps_mem s0) root va leaf ->
  (1 <= leaf <= l)%nat ->
  descended s0 G0 root va (Datatypes.S l) (Datatypes.S n) s t ->
  exists s' t', descend_alloc t (idx (Datatypes.S l) va) p s = (s', Ok t') /\
    descended s0 G0 root va l n s' t'.
Proof.
  intros HG Hn Hl (G & par & Hx & Hr & Hav & _).
  assert (HGr : G !! root = Some (top, 0)) by (eapply lookup_weaken; [done|eapply ex_sub; eauto]).
  assert (Hn' : no_larger (ps_mem s) root va leaf)
    by (unfold no_larger; rewrite (ex_map _ _ _ _ Hx) by done; done).
  destruct (descend_alloc_spec s G root va l t par p n) as (s' & t' & G' & par' & E & Hx' & Hr' & Hav' & Hp);
    [eapply ex_inv; eauto|done|done|lia|eapply no_larger_descend; eauto; lia|done|].
  exists s', t'. split; [done|]. exists G', par'. split_and!; try done. eapply extends_trans; eauto.
Qed.

Lemma descended_le s0 G0 root va l n m s t :
  (m <= n)%nat -> descended s0 G0 root va l n s t -> descended s0 G0 root va l m s t.
Proof.
  intros Hm (G & par & ? & ? & ? & ?). exists G, par. split_and!; try done.
  eapply ps_avail_le; eauto.
Qed.

(** [pmap_map] reaches the table of the leaf level and writes one entry. *)
Lemma pmap_map_store s G root va paddr prot flags n :
  pt_inv s G -> G !! root = Some (top, 0) -> ps_avail s (4 + n) ->
  no_larger (ps_mem s) root va (leaf_level flags) ->
  exists s1 t, descended s G root va (leaf_level flags) n s1 t /\
    pmap_map pml5_supported gib_pages_supported root va paddr prot flags s =
      (ps_put s1 (<[t + 8 * idx (leaf_level flags) va := Z.lor paddr (vm_prot_to_x86 prot flags)]>
                   (ps_mem s1)), Ok tt).
Proof.
  intros HI HG Hav Hn. unfold pmap_map. indices va. set (x86 := vm_prot_to_x86 prot flags).
  assert (Hlf : (1 <= leaf_level flags <= 3)%nat) by (unfold leaf_level; repeat case_if; lia).
  assert (H0 : descended s G root va top (4 + n) s root).
  { exists G, 0. split_and!; [apply extends_refl; done|constructor|done|lia]. }
  assert (H4 : forall b : bool, top = (if b then 5 else 4)%nat -> exists s4 t4,
      (if b then descend_alloc root (idx 5 va) x86 else mret root) s = (s4, Ok t4) /\
      descended s G root va 4 (3 + n) s4 t4).
  { intros b Htop. rewrite Htop in H0. destruct b.
    - apply (descended_step s G root va (leaf_level flags) 4 (3 + n) s root x86); [exact HG|exact Hn|lia|exact H0].
    - exists s, root. split; [done|]. eapply descended_le; [|done]. lia. }
  destruct (H4 pml5_supported eq_refl) as (s4 & t4 & E4 & H4'). rewrite (bind_ok _ _ _ _ _ E4).
  destruct (descended_step s G root va (leaf_level flags) 3 (2 + n) s4 t4 x86) as (s3 & t3 & E3 & H3); [done..|lia|done|].
  rewrite (bind_ok _ _ _ _ _ E3). unfold leaf_level in *.
  destruct (has flags VM_HUGE_PAGE && gib_pages_supported).
  { exists s3, t3. split; [eapply descended_le; [|done]; lia|done]. }
  destruct (descended_step s G root va 2 2 (1 + n) s3 t3 x86) as (s2 & t2 & E2 & H2);
    [done| |lia|done|].
  { revert Hn. unfold no_larger. repeat case_match; intros; try done; repeat case_if_in Hn; lia. }
  rewrite (bind_ok _ _ _ _ _ E2).
  destruct (has flags VM_HUGE_PAGE || has flags VM_LARGE_PAGE).
  { exists s2, t2. split; [eapply descended_le; [|done]; lia|done]. }
  destruct (descended_step s G root va 1 1 n s2 t2 x86) as (s1 & t1 & E1 & H1); [done|done|lia|done|].
  rewrite (bind_ok _ _ _ _ _ E1). exists s1, t1. done.
Qed.

Definition leaf_entry (paddr prot flags : Z) : Z := Z.lor paddr (vm_prot_to_x86 prot flags).

Lemma leaf_entry_P paddr prot flags :
  frame_addr paddr -> has (leaf_entry paddr prot flags) X86_FLAGS_P = has prot VM_PROT_PRESENT.
Proof.
  intros Hf. unfold leaf_entry, X86_FLAGS_P, VM_PROT_PRESENT.
  rewrite !has_bit, flag_testbit, vm_prot_to_x86_bit by (done || lia).
  cbn [Z.eqb Pos.eqb]. rewrite !andb_false_r, andb_true_r. done.
Qed.

Lemma leaf_entry_large paddr prot flags :
  frame_addr paddr -> (2 <= leaf_level flags)%nat ->
  large (leaf_level flags) (leaf_entry paddr prot flags) = true.
Proof.
  intros Hf Hl. unfold large, leaf_entry, X86_FLAGS_PS.
  rewrite has_bit, flag_testbit, vm_prot_to_x86_bit by (done || lia).
  unfold leaf_level, VM_HUGE_PAGE, VM_LARGE_PAGE in *. rewrite !has_bit in * by lia.
  destruct (Z.testbit flags 0), (Z.testbit flags 1), gib_pages_supported;
    cbn [andb orb Nat.eqb Z.eqb Pos.eqb] in *; done || lia.
Qed.

(** The leaf write maps the address and touches nothing else. *)
Lemma leaf_store s0 G0 root va s t paddr prot flags n :
  let leaf := leaf_level flags in
  let s' := ps_put s (<[t + 8 * idx leaf va := leaf_entry paddr prot flags]> (ps_mem s)) in
  frame_addr paddr -> has prot VM_PROT_PRESENT = true -> G0 !! root = Some (top, 0) ->
  descended s0 G0 root va leaf n s t ->
  exists G par, G0 ⊆ G /\ pt_inv s' G /\
    mapping (ps_mem s') root va = Some (leaf, leaf_entry paddr prot flags, par) /\
    par = Z.lor t (vm_prot_to_x86 VM_PROT_ALL 0) /\ frame_addr t /\
    (forall r va', G0 !! r = Some (top, 0) -> pfx (Nat.pred leaf) va' <> pfx (Nat.pred leaf) va ->
       mapping (ps_mem s') r va' = mapping (ps_mem s0) r va') /\
    same_outside G s0 s' /\ ps_avail s' n /\ (forall x, ps_used s0 x -> ps_used s' x).
Proof.
  intros leaf s' Hf Hp HG (G & par & Hx & Hr & Hav & Hpar). exists G, par.
  assert (HGr : forall r, G0 !! r = Some (top, 0) -> G !! r = Some (top, 0))
    by (intros r ?; eapply lookup_weaken; [done|eapply ex_sub; eauto]).
  pose proof (ex_inv _ _ _ _ Hx) as HI. pose proof (pi_typed _ _ HI) as HT.
  pose proof (reach_typed _ _ _ _ _ _ _ _ HT (HGr _ HG) Hr) as HGt.
  assert (Hlf : (1 <= leaf <= 3)%nat) by (unfold leaf, leaf_level; repeat case_if; lia).
  assert (Htop : (4 <= top)%nat) by (unfold Paging.top; case_if; lia).
  pose proof (idx_range leaf va) as Hi. unfold s' in *.
  split_and!.
  - eapply ex_sub; eauto.
  - apply (pt_inv_store s G t leaf (pfx leaf va) (idx leaf va)); [done..|].
    intros Hl2. split; [intros _; rewrite leaf_entry_P; done|]. intros _. left. apply leaf_entry_large; done.
  - rewrite ps_mem_put.
    assert (Hr' : reach (<[t + 8 * idx leaf va := leaf_entry paddr prot flags]> (ps_mem s)) root va leaf t par)
      by (apply (reach_frame _ (ps_mem s) _ G root va leaf t _ (idx leaf va)) with (4 := HGt); auto using agree_insert).
    rewrite (reach_lookup _ _ _ _ _ _ _ Hr'). unfold lookup_at.
    destruct leaf as [|leaf'] eqn:El; [lia|]. cbn [walk].
    rewrite !rd_insert, !decide_True by done.
    assert (Hd : (Datatypes.S leaf' =? 1)%nat || large (Datatypes.S leaf') (leaf_entry paddr prot flags) = true).
    { destruct leaf'; [done|]. rewrite <- El. unfold leaf. rewrite leaf_entry_large; [apply orb_true_r|done|].
      fold leaf. lia. }
    rewrite Hd. rewrite rd_insert, decide_True, leaf_entry_P, Hp, andb_false_r by done. done.
  - apply Hpar. lia.
  - eapply pt_frame; eauto.
  - intros r va' Hr' Hne. rewrite ps_mem_put, <- (ex_map _ _ _ _ Hx) by done.
    eapply (lookup_frame _ _ _ G leaf t (pfx leaf va) (idx leaf va)); [done|apply agree_insert|done|done| |].
    + destruct leaf as [|leaf']; [lia|]. cbn [Nat.pred] in *. rewrite <- pfx_step by lia. done.
    + rewrite pfx_top. auto.
  - intros x Hout. rewrite ps_mem_put, rd_insert, decide_False.
    + apply (ex_same _ _ _ _ Hx). done.
    + intros ->. apply (Hout t); [eauto|]. unfold PAGE_SIZE. lia.
  - apply ps_avail_put. done.
  - intros x Hu. apply ps_used_put. eapply ex_used; eauto.
Qed.

(** What [pmap_translate] reports for an address mapped with [flags]. *)
Definition mapped_as (paddr prot flags : Z) : translation :=
  match leaf_level flags with
  | 1%nat => MkTrans paddr None prot
  | 2%nat => MkTrans paddr (Some VM_LARGE_PAGE) VM_PROT_ALL
  | _ => MkTrans paddr (Some VM_HUGE_PAGE) prot
  end.

Lemma answer_leaf paddr prot flags t :
  frame_addr paddr -> 0 <= prot < 16 -> frame_addr t ->
  answer (leaf_level flags, leaf_entry paddr prot flags, Z.lor t (vm_prot_to_x86 VM_PROT_ALL 0))
    = mapped_as paddr prot flags.
Proof.
  intros Hf Hp Ht.
  assert (Hl : leaf_level flags = 1%nat \/ leaf_level flags = 2%nat \/ leaf_level flags = 3%nat)
    by (unfold leaf_level; repeat case_if; lia).
  unfold mapped_as, answer, leaf_entry.
  rewrite PTE_GET_ADDR_lor, !entry_prot by (done || apply vm_prot_to_x86_flags).
  destruct Hl as [->|[->| ->]]; done.
Qed.

(** The effect of [pmap_map], with the frames that remain. *)
Lemma pmap_map_post s G root va paddr prot flags n :
  pt_inv s G -> G !! root = Some (top, 0) -> ps_avail s (4 + n) ->
  no_larger (ps_mem s) root va (leaf_level flags) ->
  frame_addr paddr -> 0 <= prot < 16 -> has prot VM_PROT_PRESENT = true ->
  exists s' G' par,
    pmap_map pml5_supported gib_pages_supported root va paddr prot flags s = (s', Ok tt) /\
    G ⊆ G' /\ pt_inv s' G' /\
    mapping (ps_mem s') root va = Some (leaf_level flags, leaf_entry paddr prot flags, par) /\
    answer (leaf_level flags, leaf_entry paddr prot flags, par) = mapped_as paddr prot flags /\
    (forall r va', G !! r = Some (top, 0) ->
       pfx (Nat.pred (leaf_level flags)) va' <> pfx (Nat.pred (leaf_level flags)) va ->
       mapping (ps_mem s') r va' = mapping (ps_mem s) r va') /\
    same_outside G' s s' /\ ps_avail s' n /\ (forall x, ps_used s x -> ps_used s' x).
Proof.
  intros HI HG Hav Hn Hf Hp HP.
  destruct (pmap_map_store s G root va paddr prot flags n HI HG Hav Hn) as (s1 & t & Hd & E).
  destruct (leaf_store s G root va s1 t paddr prot flags n Hf HP HG Hd)
    as (G' & par & Hsub & HI' & Hm & -> & Ht & Hframe & Hout & Hav' & Hu).
  eexists _, G', _. split; [exact E|]. split_and!; try done. apply answer_leaf; done.
Qed.

(** C2: [pmap_map] on a well-formed tree, for an address not covered by a
    larger page and with enough free frames for the missing tables, returns;
    afterwards [pmap_translate] reports the physical address and the
    protection it was given (for a 2 MiB page, the protection of the table
    above it), every other page of every address space that shares these
    tables translates as before, the tree is well formed again and memory
    outside the page tables is untouched. *)
Theorem pmap_map_correct s G root va paddr prot flags :
  pt_inv s G -> G !! root = Some (top, 0) -> ps_avail s 4 ->
  no_larger (ps_mem s) root va (leaf_level flags) ->
  frame_addr paddr -> 0 <= prot < 16 -> has prot VM_PROT_PRESENT = true ->
  exists s' G',
    pmap_map pml5_supported gib_pages_supported root va paddr prot flags s = (s', Ok tt) /\
    G ⊆ G' /\ pt_inv s' G' /\
    pmap_translate pml5_supported root va s' = (s', Ok (Some (mapped_as paddr prot flags))) /\
    (forall r va', G !! r = Some (top, 0) ->
       pfx (Nat.pred (leaf_level flags)) va' <> pfx (Nat.pred (leaf_level flags)) va ->
       snd (pmap_translate pml5_supported r va' s') = snd (pmap_translate pml5_supported r va' s)) /\
    same_outside G' s s'.
Proof.
  intros HI HG Hav Hn Hf Hp HP.
  destruct (pmap_map_post s G root va paddr prot flags 0 HI HG Hav Hn Hf Hp HP)
    as (s' & G' & par & E & Hsub & HI' & Hm & Ha & Hframe & Hout & _).
  exists s', G'. split_and!; try done.
  - rewrite pmap_translate_walk, Hm, <- Ha. done.
  - intros r va' Hr' Hne. rewrite !pmap_translate_walk. cbn [snd]. do 2 f_equal. auto.
Qed.

(** Clearing the entry that decides an address. *)
Lemma unmap_slot s G root va l a par :
  let s' := ps_put s (<[a := 0]> (ps_mem s)) in
  pt_inv s G -> G !! root = Some (top, 0) ->
  walk (ps_mem s) top root va 0 = Some (l, a, par) ->
  pt_inv s' G /\ mapping (ps_mem s') root va = None /\
  (forall r va', G !! r = Some (top, 0) -> pfx (Nat.pred l) va' <> pfx (Nat.pred l) va ->
     mapping (ps_mem s') r va' = mapping (ps_mem s) r va') /\
  (mapping (ps_mem s) root va = None -> forall r va', G !! r = Some (top, 0) ->
     mapping (ps_mem s') r va' = mapping (ps_mem s) r va').
Proof.
  intros s' HI HG EW. pose proof (pi_typed _ _ HI) as HT. unfold s'.
  destruct (walk_reach _ _ _ _ _ _ _ _ _ _ (reach_root _ _ _ _) EW) as (t & Hr & -> & Hl & Hleaf).
  pose proof (reach_typed _ _ _ _ _ _ _ _ HT HG Hr) as HGt. pose proof (reach_level _ _ _ _ _ _ _ Hr).
  pose proof (idx_range l va) as Hi. rewrite ps_mem_put. split_and!.
  - apply (pt_inv_store s G t l (pfx l va)); [done..|]. intros _. apply zero_wf.
  - assert (Hr' : reach (<[t + 8 * idx l va := 0]> (ps_mem s)) root va l t par)
      by (apply (reach_frame _ (ps_mem s) _ G root va l t _ (idx l va)) with (4 := HGt); auto using agree_insert).
    rewrite (reach_lookup _ _ _ _ _ _ _ Hr').
    apply lookup_absent; rewrite rd_insert, decide_True by done; [apply zero_not_large|done].
  - intros r va' Hr' Hne.
    eapply (lookup_frame _ _ _ G l t (pfx l va) (idx l va)); [done|apply agree_insert|done|done| |].
    + destruct l as [|l]; [lia|]. cbn [Nat.pred] in *. rewrite <- pfx_step by lia. done.
    + rewrite pfx_top. done.
  - intros Hm r va' Hr'. unfold mapping, lookup_at in Hm. rewrite EW in Hm. case_if_in Hm; [|done].
    assert (l = 1%nat) as -> by (apply Nat.eqb_eq; done).
    eapply (lookup_agree _ _ _ G 1 t (pfx 1 va) (idx 1 va)); [done|apply agree_insert|done|done| |rewrite pfx_top; done].
    intros _ Hix p. rewrite !lookup_absent; [done|done|rewrite Hix; done|done|].
    rewrite Hix, rd_insert, decide_True; done.
Qed.

(** C18: [pmap_unmap] leaves the address untranslated, keeps the translation
    of every address outside the page that was mapped, and keeps the tree
    well formed. *)
Theorem pmap_unmap_correct s G root va :
  pt_inv s G -> G !! root = Some (top, 0) ->
  exists s', pmap_unmap pml5_supported root va s = (s', Ok tt) /\ pt_inv s' G /\
    pmap_translate pml5_supported root va s' = (s', Ok None) /\
    (forall r va' l e par, G !! r = Some (top, 0) ->
       mapping (ps_mem s) root va = Some (l, e, par) ->
       pfx (Nat.pred l) va' <> pfx (Nat.pred l) va ->
       snd (pmap_translate pml5_supported r va' s') = snd (pmap_translate pml5_supported r va' s)) /\
    (mapping (ps_mem s) root va = None -> forall r va', G !! r = Some (top, 0) ->
       snd (pmap_translate pml5_supported r va' s') = snd (pmap_translate pml5_supported r va' s)).
Proof.
  intros HI HG. rewrite pmap_unmap_walk. destruct (walk (ps_mem s) top root va 0) as [[[l a] par]|] eqn:EW.
  - destruct (unmap_slot s G root va l a par HI HG EW) as (HI' & Hn & Hfr & Hab).
    eexists. split; [done|]. split; [done|]. setoid_rewrite pmap_translate_walk. cbn [snd].
    split_and!; [rewrite Hn; done| |].
    + intros r va' l' e par' Hr' Hm Hne. rewrite Hfr; [done..|].
      unfold mapping, lookup_at in Hm. rewrite EW in Hm. case_if_in Hm; [done|]. congruence.
    + intros Hm r va' Hr'. rewrite Hab; done.
  - exists s. split_and!; try done. rewrite pmap_translate_walk. unfold mapping, lookup_at. rewrite EW. done.
Qed.

(** *** The kernel half *)

(** Two roots that share the kernel half: the upper 256 entries are equal and
    all present. *)
Definition shares (mem : gmap Z Z) (r r' : Z) : Prop :=
  forall i, 256 <= i < 512 -> rd mem (r + 8 * i) = rd mem (r' + 8 * i) /\
    has (rd mem (r + 8 * i)) X86_FLAGS_P = true.

Definition kernel_address (va : Z) : Prop := 256 <= idx top va.

Lemma shares_mapping mem r r' va :
  shares mem r r' -> kernel_address va -> mapping mem r va = mapping mem r' va.
Proof.
  intros Hs Hk. unfold kernel_address in Hk. unfold mapping, lookup_at.
  pose proof (idx_range top va) as Hi.
  assert (Htop : top = 5%nat \/ top = 4%nat) by (unfold Paging.top; case_if; lia).
  destruct (Hs (idx top va) ltac:(lia)) as [Heq HP]. revert Heq HP.
  destruct Htop as [-> | ->]; intros Heq HP; cbn [walk]; unfold large;
    cbn [Nat.eqb andb orb]; rewrite <- Heq, HP; done.
Qed.

(** The loop of [pmap_new]. *)
Lemma copy_half kr r n : forall i (s : S),
  frame_addr kr -> frame_addr r -> kr <> r -> 0 <= i -> i + Z.of_nat n <= 512 ->
  ps_ok s ->
  exists s', kernel_half n i (fun i => e ← load (kr + 8 * i); store (r + 8 * i) e) s = (s', Ok tt) /\
    ps_ok s' /\ (forall x, ps_used s' x <-> ps_used s x) /\
    (forall m, ps_avail s m -> ps_avail s' m) /\
    (forall j, i <= j < i + Z.of_nat n -> rd (ps_mem s') (r + 8 * j) = rd (ps_mem s) (kr + 8 * j)) /\
    (forall x, (forall j, i <= j < i + Z.of_nat n -> x <> r + 8 * j) ->
       rd (ps_mem s') x = rd (ps_mem s) x).
Proof.
  induction n as [|n IH]; intros i s Hkr Hr Hne Hi Hn Hok.
  { exists s. split_and!; try done. intros j Hj. lia. }
  set (s1 := ps_put s (<[r + 8 * i := rd (ps_mem s) (kr + 8 * i)]> (ps_mem s))).
  destruct (IH (i + 1) s1) as (s' & E & Hok' & Hu & Hm & Hc & Hf); [done|done|done|lia|lia|apply ps_ok_put; done|].
  exists s'. change (kernel_half (Datatypes.S n) i (fun i => e ← load (kr + 8 * i); store (r + 8 * i) e) s)
    with (kernel_half n (i + 1) (fun i => e ← load (kr + 8 * i); store (r + 8 * i) e) s1).
  rewrite E.
  assert (H1 : forall x, rd (ps_mem s1) x = if decide (x = r + 8 * i) then rd (ps_mem s) (kr + 8 * i) else rd (ps_mem s) x)
    by (intros x; unfold s1; rewrite ps_mem_put, rd_insert; done).
  split_and!; [done|done| | | |].
  - intros x. rewrite Hu. unfold s1. apply ps_used_put.
  - intros m Hav. apply Hm. unfold s1. apply ps_avail_put. done.
  - intros j Hj. destruct (Z.eq_dec j i) as [->|].
    + rewrite Hf by (intros; lia). rewrite H1, decide_True by done. done.
    + rewrite Hc, H1, decide_False; [done| |lia]. intros Hx.
      apply slot_inj in Hx as [? _]; [congruence|done|done|lia|lia].
  - intros x Hx. rewrite Hf, H1, decide_False; [done|apply Hx; lia|]. intros j Hj. apply Hx. lia.
Qed.

Lemma pmap_new_post s G kr n :
  pt_inv s G -> G !! kr = Some (top, 0) -> shares (ps_mem s) kr kr -> ps_avail s (Datatypes.S n) ->
  exists s' r, pmap_new true kr s = (s', Ok r) /\ G !! r = None /\
    pt_inv s' (<[r := (top, 0)]> G) /\ shares (ps_mem s') kr r /\ ps_avail s' n /\
    (forall va, kernel_address va -> mapping (ps_mem s') r va = mapping (ps_mem s) kr va) /\
    (forall va, ~ kernel_address va -> mapping (ps_mem s') r va = None) /\
    (forall r' va, G !! r' = Some (top, 0) -> mapping (ps_mem s') r' va = mapping (ps_mem s) r' va).
Proof.
  intros HI HG Hk Hav. pose proof (pi_typed _ _ HI) as HT.
  destruct (alloc_frame_spec s G n HI Hav)
    as (s1 & r & Ea & Hav1 & Hok1 & Hfr & HGr & Hur & Hu & Hz & Hsame & HT1).
  assert (Hkr : frame_addr kr) by (eapply pt_frame; eauto).
  assert (Hne : kr <> r) by congruence.
  destruct (copy_half kr r 256 256 s1) as (s' & E & Hok' & Hu' & Hm & Hc & Hf); [done..|lia|lia|done|].
  change (256 + Z.of_nat 256) with 512 in *.
  assert (Hold : forall t x i, G !! t = Some x -> 0 <= i < 512 -> rd (ps_mem s') (t + 8 * i) = rd (ps_mem s) (t + 8 * i)).
  { intros t x i Ht Hi. assert (t <> r) by congruence.
    assert (frame_addr t) by (eapply pt_frame; eauto).
    rewrite Hf, Hsame; [done|apply slot_outside; done|].
    intros j Hj Hx. apply slot_inj in Hx as [? _]; [congruence|done|done|done|lia]. }
  assert (Hup : forall i, 256 <= i < 512 -> rd (ps_mem s') (r + 8 * i) = rd (ps_mem s) (kr + 8 * i)).
  { intros i Hi. rewrite Hc by lia. apply Hsame, slot_outside; [done|done|done|lia]. }
  assert (Hlow : forall i, 0 <= i < 256 -> rd (ps_mem s') (r + 8 * i) = 0).
  { intros i Hi. rewrite Hf; [apply Hz; lia|]. intros j Hj. lia. }
  assert (Hmap : forall r' va, G !! r' = Some (top, 0) -> mapping (ps_mem s') r' va = mapping (ps_mem s) r' va).
  { intros r' va Hr'. eapply (lookup_same _ _ _ G); [done|done|rewrite pfx_top; done]. }
  assert (Hsh : shares (ps_mem s') kr r).
  { intros i Hi. rewrite Hup, (Hold kr _ i HG) by lia. split; [done|]. apply Hk. done. }
  exists s', r. unfold pmap_new. cbn [negb]. rewrite (bind_ok _ _ _ _ _ Ea), (bind_ok _ _ _ _ _ E).
  split; [done|]. split; [done|]. split_and!; [|done|auto|..|done].
  - constructor; [done| |].
    + apply pt_typed_grow; [eapply pt_typed_agree; eauto|done|done| |].
      { unfold Paging.top; case_if; lia. }
      intros i _ Hi. destruct (Z.le_gt_cases 256 i).
      * rewrite Hup by lia. eapply pt_entry; [done|done| |done]. unfold Paging.top; case_if; lia.
      * rewrite Hlow by lia. apply zero_wf.
    + intros t x. rewrite lookup_insert_Some, Hu'. intros [[<- _]|[_ ?]]; [done|].
      apply Hu. eapply pi_used; eauto.
  - intros va Hva. rewrite <- (shares_mapping _ kr r va), Hmap by done. done.
  - intros va Hva. apply lookup_absent;
      (rewrite Hlow; [|unfold kernel_address in Hva; pose proof (idx_range top va); lia]);
      [apply zero_not_large|done].
Qed.

(** [pmap_new] returns a root whose kernel half is the kernel's and whose
    user half is empty: kernel addresses translate as in the kernel's tables,
    user addresses do not translate, the existing address spaces are as
    before, and the tree with the new root is well formed. *)
Theorem pmap_new_correct s G kr :
  pt_inv s G -> G !! kr = Some (top, 0) -> shares (ps_mem s) kr kr -> ps_avail s 1 ->
  exists s' r, pmap_new true kr s = (s', Ok r) /\ G !! r = None /\
    pt_inv s' (<[r := (top, 0)]> G) /\ shares (ps_mem s') kr r /\
    (forall va, kernel_address va ->
       snd (pmap_translate pml5_supported r va s') = snd (pmap_translate pml5_supported kr va s)) /\
    (forall va, ~ kernel_address va -> snd (pmap_translate pml5_supported r va s') = Ok None) /\
    (forall r' va, G !! r' = Some (top, 0) ->
       snd (pmap_translate pml5_supported r' va s') = snd (pmap_translate pml5_supported r' va s)).
Proof.
  intros HI HG Hk Hav.
  destruct (pmap_new_post s G kr 0 HI HG Hk Hav) as (s' & r & E & ? & ? & ? & _ & Hker & Huser & Hold).
  exists s', r. setoid_rewrite pmap_translate_walk. cbn [snd]. split_and!; try done.
  - intros va Hva. rewrite Hker; done.
  - intros va Hva. rewrite Huser; done.
  - intros r' va Hr'. rewrite Hold; done.
Qed.

(** Mapping in one address space keeps the kernel half shared. *)
Lemma leaf_store_keeps s0 G0 root va s t paddr prot flags r i n :
  let leaf := leaf_level flags in
  G0 !! root = Some (top, 0) -> G0 !! r = Some (top, 0) -> 0 <= i < 512 ->
  has (rd (ps_mem s0) (r + 8 * i)) X86_FLAGS_P = true ->
  descended s0 G0 root va leaf n s t ->
  rd (<[t + 8 * idx leaf va := leaf_entry paddr prot flags]> (ps_mem s)) (r + 8 * i)
    = rd (ps_mem s0) (r + 8 * i).
Proof.
  intros leaf HG Hr Hi HP (G & par & Hx & Hre & _ & _).
  rewrite rd_insert, decide_False; [eapply ex_keep; eauto|]. intros He.
  pose proof (ex_sub _ _ _ _ Hx) as Hsub. pose proof (pi_typed _ _ (ex_inv _ _ _ _ Hx)) as HT.
  pose proof (reach_typed _ _ _ _ _ _ _ _ HT (lookup_weaken _ _ _ _ HG Hsub) Hre) as HGt.
  pose proof (lookup_weaken _ _ _ _ Hr Hsub) as Hr'.
  apply slot_inj in He as [-> _]; [|eapply pt_frame; eauto..|done|apply idx_range].
  rewrite Hr' in HGt. injection HGt as Hl _. revert Hl.
  unfold leaf, leaf_level, Paging.top. repeat case_if; lia.
Qed.

(** a mapping made in any address space keeps the kernel half shared: two
    roots that share it before share it after, so a kernel mapping made
    through one root translates identically through the other. *)
Theorem pmap_map_keeps_shared s G root va paddr prot flags r r' :
  pt_inv s G -> G !! root = Some (top, 0) -> ps_avail s 4 ->
  no_larger (ps_mem s) root va (leaf_level flags) ->
  G !! r = Some (top, 0) -> G !! r' = Some (top, 0) -> shares (ps_mem s) r r' ->
  exists s', pmap_map pml5_supported gib_pages_supported root va paddr prot flags s = (s', Ok tt) /\
    shares (ps_mem s') r r' /\
    forall va', kernel_address va' ->
      snd (pmap_translate pml5_supported r va' s') = snd (pmap_translate pml5_supported r' va' s').
Proof.
  intros HI HG Hav Hn Hr Hr' Hs.
  destruct (pmap_map_store s G root va paddr prot flags 0 HI HG Hav Hn) as (s1 & t & Hd & E).
  eexists. split; [exact E|]. rewrite ps_mem_put.
  assert (Hs' : shares (<[t + 8 * idx (leaf_level flags) va := leaf_entry paddr prot flags]> (ps_mem s1)) r r').
  { intros i Hi. destruct (Hs i Hi) as [Heq HP].
    rewrite (leaf_store_keeps s G root va s1 t paddr prot flags r i 0) by (done || lia).
    rewrite (leaf_store_keeps s G root va s1 t paddr prot flags r' i 0) by (done || lia || congruence).
    done. }
  split; [exact Hs'|]. intros va' Hk. rewrite !pmap_translate_walk, ps_mem_put. cbn [snd].
  unfold leaf_entry in Hs'. rewrite (shares_mapping _ r r' va') by done. done.
Qed.

Lemma idx_of_index l i : 0 <= i < 512 -> idx l (i * 2 ^ shift_of l) = i.
Proof.
  intros Hi. unfold idx. rewrite Z.shiftr_div_pow2 by (unfold shift_of; lia).
  rewrite Z.div_mul by (unfold shift_of; lia). change 0x1ff with (Z.ones 9).
  rewrite Z.land_ones by lia. apply Z.mod_small. done.
Qed.

Lemma descend_alloc_table t i p (s s' : S) t' :
  descend_alloc t i p s = (s', Ok t') -> descend_table t i true p s = (s', Ok (Some t')).
Proof.
  unfold descend_alloc, mbind, M_bind. destruct (descend_table t i true p s) as [s1 [[x|]| |]];
    cbv; congruence.
Qed.

Lemma init_half r p m n : forall i s G,
  pt_inv s G -> G !! r = Some (top, 0) -> 0 <= i -> i + Z.of_nat n <= 512 -> ps_avail s (n + m) ->
  exists s' G', kernel_half n i (fun i => descend_table r i true p;; mret tt) s = (s', Ok tt) /\
    extends s s' G G' /\ ps_avail s' m /\
    (forall j, i <= j < i + Z.of_nat n -> has (rd (ps_mem s') (r + 8 * j)) X86_FLAGS_P = true).
Proof.
  induction n as [|n IH]; intros i s G HI HG Hi Hn Hav.
  { exists s, G. split_and!; [done|apply extends_refl; done|done|lia]. }
  assert (Htop : top = 5%nat \/ top = 4%nat) by (unfold Paging.top; case_if; lia).
  assert (exists l, top = Datatypes.S l /\ (3 <= l)%nat) as (l & El & Hl)
    by (destruct Htop as [-> | ->]; eexists; split; done || lia).
  destruct (descend_alloc_spec s G r (i * 2 ^ shift_of top) l r 0 p (n + m))
    as (s1 & t1 & G1 & par & E1 & Hx1 & Hr1 & Hav1 & Hpar); [done|done|rewrite <- El; constructor|lia| |done|].
  { rewrite <- El. unfold large. destruct Htop as [-> | ->]; done. }
  rewrite <- El, idx_of_index in E1 by lia. apply descend_alloc_table in E1.
  assert (HG1 : G1 !! r = Some (top, 0)) by (eapply lookup_weaken, ex_sub; eauto).
  destruct (IH (i + 1) s1 G1) as (s' & G' & E & Hx & Hm & HP); [eapply ex_inv; eauto|done|lia|lia|done|].
  exists s', G'. split_and!; [|eapply extends_trans; eauto|done|].
  - cbn [kernel_half]. rewrite (bind_ok _ _ s s1 tt); [done|].
    rewrite (bind_ok _ _ _ _ _ E1). done.
  - intros j Hj. destruct (Z.eq_dec j i) as [->|]; [|apply HP; lia].
    assert (HP1 : has (rd (ps_mem s1) (r + 8 * i)) X86_FLAGS_P = true).
    { inversion Hr1 as [Hq|l' t par' Hr0 _ Hlg Hp]; subst; [lia|].
      rewrite <- El in *. rewrite <- (idx_of_index top i ltac:(lia)).
      pose proof (reach_typed _ _ _ _ _ _ _ _ (pi_typed _ _ (ex_inv _ _ _ _ Hx1)) HG1 Hr0) as HGt.
      inversion Hr0 as [|? ? ? Hup]; subst; [done|].
      apply reach_level in Hup. lia. }
    erewrite (ex_keep _ _ _ _ Hx r); [done|done|lia|done].
Qed.

Lemma pmap_init_kernel_post (s : S) (n : nat) :
  ps_ok s -> ps_avail s (257 + n) ->
  exists s' G r, pmap_init_kernel s = (s', Ok r) /\ pt_inv s' G /\ G !! r = Some (top, 0) /\
    shares (ps_mem s') r r /\ ps_avail s' n /\
    forall va, mapping (ps_mem s') r va = None.
Proof.
  intros Hok Hav.
  assert (HI0 : pt_inv s ∅) by (constructor; [done|constructor|]; intros *; rewrite lookup_empty; done).
  destruct (alloc_frame_spec s ∅ (256 + n) HI0 Hav)
    as (s1 & r & Ea & Hav1 & Hok1 & Hfr & _ & Hur & Hu & Hz & Hsame & HT1).
  assert (HI1 : pt_inv s1 (<[r := (top, 0)]> ∅)).
  { constructor; [done| |].
    - apply pt_typed_grow; [done|done|done|unfold Paging.top; case_if; lia|].
      intros i _ Hi. rewrite Hz by done. apply zero_wf.
    - intros t x. rewrite lookup_insert_Some. intros [[<- _]|[_ Hx]]; [done|by rewrite lookup_empty in Hx]. }
  assert (HG1 : (<[r := (top, 0)]> (∅ : gmap Z (nat * Z))) !! r = Some (top, 0)) by apply lookup_insert_eq.
  destruct (init_half r (Z.lor X86_FLAGS_P (Z.lor X86_FLAGS_RW X86_FLAGS_US)) n 256 256 s1 _ HI1)
    as (s' & G & E & Hx & Hav' & HP); [done|lia|lia|done|].
  exists s', G, r. unfold pmap_init_kernel. rewrite (bind_ok _ _ _ _ _ Ea), (bind_ok _ _ _ _ _ E).
  split_and!; [done|eapply ex_inv; eauto|eapply lookup_weaken, ex_sub; eauto| |done|].
  - intros i Hi. split; [done|]. apply HP. lia.
  - intros va. rewrite (ex_map _ _ _ _ Hx) by done. apply lookup_zero. done.
Qed.

(** [pmap_init_kernel] returns a well-formed root that maps nothing and
    whose 256 kernel entries are all present, so that every address space
    made from it shares them. *)
Theorem pmap_init_kernel_correct (s : S) :
  ps_ok s -> ps_avail s 257 ->
  exists s' G r, pmap_init_kernel s = (s', Ok r) /\ pt_inv s' G /\ G !! r = Some (top, 0) /\
    shares (ps_mem s') r r /\
    forall va, pmap_translate pml5_supported r va s' = (s', Ok None).
Proof.
  intros Hok Hav. destruct (pmap_init_kernel_post s 0 Hok Hav) as (s' & G & r & E & ? & ? & ? & _ & Hm).
  exists s', G, r. split_and!; try done. intros va. rewrite pmap_translate_walk, Hm. done.
Qed.

End PagingOk.

(** ** Witnesses *)

Module PagingExamples.

(** Eight pages at 2 MiB; the first holds an empty root table. *)
Definition root_frame : Z := 0x200000.
Definition small_state : pmm_state :=
  MkPmm [MkModule (MkEntry root_frame 0x8000 0) 1 8 1 [1]] 0 ∅.
Definition small_typing : gmap Z (nat * Z) := {[root_frame := (4%nat, 0)]}.

(** 512 free pages at 2 MiB. *)
Definition big_state : pmm_state :=
  MkPmm [MkModule (MkEntry root_frame 0x200000 0) 1 512 0 (replicate 64 0)] 0 ∅.

End PagingExamples.
Import PagingExamples.

Lemma small_state_ok : pmm_ok small_state.
Proof. split; [done|constructor; [by split; vm_compute|constructor]|repeat constructor]. Qed.

Lemma big_state_ok : pmm_ok big_state.
Proof. split; [done|constructor; [by split; vm_compute|constructor]|repeat constructor]. Qed.

Lemma small_avail : modules_avail (pmm_modules small_state) 4.
Proof. by vm_compute. Qed.

Lemma big_avail : modules_avail (pmm_modules big_state) (257 + 6).
Proof. by vm_compute. Qed.

Lemma small_inv : pt_inv false small_state small_typing.
Proof.
  constructor; [exact small_state_ok| |].
  - constructor.
    + intros t x. unfold small_typing. rewrite lookup_singleton_Some. intros [<- _]. done.
    + intros t l q. unfold small_typing. rewrite lookup_singleton_Some. intros [<- ?]. simplify_eq.
      cbn. lia.
    + intros t l q i _ _ _. apply zero_wf.
  - intros t x. unfold small_typing. rewrite lookup_singleton_Some. intros [<- _].
    constructor. exists 0. split; [done|]. split; [done|]. by vm_compute.
Qed.

Lemma pmap_map_correct_witness :
  exists s', pmap_map false true root_frame 0x401000 0x5000 3 0 small_state = (s', Ok tt) /\
    pmap_translate false root_frame 0x401000 s' = (s', Ok (Some (MkTrans 0x5000 None 3))).
Proof.
  destruct (pmap_map_correct false true small_state small_typing root_frame 0x401000 0x5000 3 0)
    as (s' & G' & E & _ & _ & T & _);
    [exact small_inv|reflexivity|exact small_avail|by vm_compute|by vm_compute|lia|reflexivity|].
  exists s'. split; [exact E|exact T].
Defined.

Lemma pmap_unmap_correct_witness :
  exists s', pmap_unmap false root_frame 0x401000 small_state = (s', Ok tt) /\
    pmap_translate false root_frame 0x401000 s' = (s', Ok None).
Proof.
  destruct (pmap_unmap_correct false small_state small_typing root_frame 0x401000)
    as (s' & E & _ & T & _); [exact small_inv|reflexivity|].
  exists s'. split; [exact E|exact T].
Defined.

Lemma pmap_init_kernel_correct_witness :
  exists s' r, pmap_init_kernel big_state = (s', Ok r) /\
    pmap_translate true r 0xffffffff80000000 s' = (s', Ok None).
Proof.
  destruct (pmap_init_kernel_correct true big_state) as (s' & G & r & E & _ & _ & _ & T);
    [exact big_state_ok|by vm_compute|].
  exists s', r. split; [exact E|apply T].
Defined.

(** A booted kernel: [pmap_init_kernel] has run. *)
Lemma booted :
  exists (s : pmm_state) G kr, pt_inv false s G /\ G !! kr = Some (4%nat, 0) /\
    shares (ps_mem s) kr kr /\ ps_avail s 6.
Proof.
  destruct (pmap_init_kernel_post false big_state 6) as (s & G & kr & _ & ? & ? & ? & ? & _);
    [exact big_state_ok|exact big_avail|].
  exists s, G, kr. done.
Qed.

Lemma pmap_new_correct_witness :
  exists (s : pmm_state) kr s' r, pmap_new true kr s = (s', Ok r) /\
    shares (ps_mem s') kr r /\ snd (pmap_translate false r 0x401000 s') = Ok None.
Proof.
  destruct booted as (s & G & kr & HI & HG & Hsh & Hav).
  destruct (pmap_new_correct false s G kr) as (s' & r & E & _ & _ & Hs & _ & Hu & _);
    [exact HI|exact HG|exact Hsh|eapply ps_avail_le; [|exact Hav]; lia|].
  exists s, kr, s', r. split; [exact E|]. split; [exact Hs|]. apply Hu. by vm_compute.
Defined.

(** The demonstration maps the local APIC page of the kernel half. *)
Lemma pmap_map_keeps_shared_witness :
  exists (s : pmm_state) kr r s', kr <> r /\
    pmap_map false true kr 0xffff8000fee00000 0xfee00000 3 0 s = (s', Ok tt) /\
    shares (ps_mem s') kr r.
Proof.
  destruct (pmap_init_kernel_post false big_state 6) as (s0 & G0 & kr & _ & HI0 & HG0 & Hs0 & Ha0 & Hm0);
    [exact big_state_ok|exact big_avail|].
  destruct (pmap_new_post false s0 G0 kr 5) as (s & r & _ & Hr & HI & Hs & Ha & _ & _ & Hold);
    [exact HI0|exact HG0|exact Hs0|exact Ha0|].
  assert (Hne : kr <> r) by congruence.
  destruct (pmap_map_keeps_shared false true s (<[r := (4%nat, 0)]> G0) kr
              0xffff8000fee00000 0xfee00000 3 0 kr r) as (s' & E & Hs' & _).
  - exact HI.
  - rewrite lookup_insert_ne by congruence. exact HG0.
  - eapply ps_avail_le; [|exact Ha]. lia.
  - unfold no_larger. rewrite Hold, Hm0 by exact HG0. exact I.
  - rewrite lookup_insert_ne by congruence. exact HG0.
  - apply lookup_insert_eq.
  - exact Hs.
  - exists s, kr, r, s'. done.
Defined.

(** A read-only 2 MiB page is reported with every permission:
    [pmap_translate] decodes the entry of the table above. *)
Lemma pmap_translate_large_prot :
  snd (pmap_translate false root_frame 0x400000
         (fst (pmap_map false true root_frame 0x400000 0x600000 VM_PROT_PRESENT VM_LARGE_PAGE small_state)))
  = Ok (Some (MkTrans 0x600000 (Some VM_LARGE_PAGE) VM_PROT_ALL)).
Proof. vm_compute. reflexivity. Qed.

(** When the page allocator is exhausted the check [!*entry] does not fire:
    the failure value is installed as a table at the top of the physical
    address space. *)
Lemma descend_table_out_of_memory :
  snd (descend_table root_frame 0 true 0
         (MkPmm [MkModule (MkEntry root_frame 0x8000 0) 1 8 0 [255]] 0 ∅))
  = Ok (Some 0xffffffffff000).
Proof. vm_compute. reflexivity. Qed.
