(* ===== verification/Virtual.v ===== *)
(** * Virtual memory ([mm/virtual.c])

    The kernel's own address space and the mapping of ranges: loops of
    [pmm_alloc] and [pmap_map].  Locks are not modelled; each routine runs
    with its lock held. *)

From S2P Require Import Prelude PageSource Physical Paging.

Definition LIMINE_MEMMAP_RESERVED : Z := 1.

Section Virtual.
Context {S : Type} `{PageSource S}.
Context (pml5_supported gib_pages_supported : bool).
(** [HIGH_VMA], where the direct map starts. *)
Context (HIGH_VMA : Z).

Definition P2V (x : Z) : Z := u64 (x + HIGH_VMA).

(** The value of [pmm_alloc(1, align)]: the frame, or [-1]. *)
Definition pmm_alloc_value (align : Z) : M S Z := fun s =>
  match ps_alloc s 1 align with
  | (s', Ok a) => (s', Ok a)
  | (s', Err) => (s', Ok ERROR_u64)
  | (s', Halt) => (s', Halt)
  end.

(** [for (i = 0; i < cnt; i++) { pmap_map(pmap, vaddr, pmm_alloc(1, align), prot, flags); vaddr += step; }],
    with the frames it maps. *)
Fixpoint map_fresh (cnt : nat) (pmlt vaddr align step prot flags : Z) : M S (list Z) :=
  match cnt with
  | O => mret []
  | Datatypes.S cnt =>
      paddr ← pmm_alloc_value align;
      pmap_map pml5_supported gib_pages_supported pmlt vaddr paddr prot flags;;
      fs ← map_fresh cnt pmlt (u64 (vaddr + step)) align step prot flags;
      mret (paddr :: fs)
  end.

Definition vmm_map_range (pmlt : option Z) (vaddr cnt prot flags : Z) : M S Z :=
  match pmlt with
  | None => fail
  | Some pmlt =>
      let max_page_size := arch_largest_page_size gib_pages_supported in
      (if has flags VM_HUGE_PAGE then
         map_fresh (Z.to_nat cnt) pmlt vaddr (max_page_size / PAGE_SIZE) max_page_size prot flags
       else if has flags VM_LARGE_PAGE then
         map_fresh (Z.to_nat cnt) pmlt vaddr (LARGE_PAGE_SIZE / PAGE_SIZE) LARGE_PAGE_SIZE prot flags
       else map_fresh (Z.to_nat cnt) pmlt vaddr 1 PAGE_SIZE prot flags);;
      mret 0
  end.

(** [vmm_unmap_range] is a stub in the source. *)
Definition vmm_unmap_range (pmlt : option Z) (vaddr cnt : Z) : M S Z :=
  match pmlt with None => fail | Some _ => mret 0 end.

(** [vmm_default_table]: [dict_ok] and [heap_ok] say whether the two heap
    allocations succeed; the result is the new root. *)
Definition vmm_default_table (table : option unit) (dict_ok heap_ok : bool) (kernel_pmlt : Z) : M S Z :=
  match table with
  | None => fail
  | Some _ => if negb dict_ok then fail else pmap_new heap_ok kernel_pmlt
  end.

(** [for (i = 0; i < n; i++) { pmap_map(pmap, vaddr, paddr, prot, flags); ... }] with
    both addresses advanced by [step]. *)
Fixpoint map_linear (n : nat) (pmlt vaddr paddr step prot flags : Z) : M S unit :=
  match n with
  | O => mret tt
  | Datatypes.S n =>
      pmap_map pml5_supported gib_pages_supported pmlt vaddr paddr prot flags;;
      map_linear n pmlt (u64 (vaddr + step)) (u64 (paddr + step)) step prot flags
  end.

(** [for (i = 0; i < n; i++) { pmap_map(pmap, P2V(phys), phys, prot, flags); phys += step; }] *)
Fixpoint map_direct (n : nat) (pmlt phys step prot flags : Z) : M S unit :=
  match n with
  | O => mret tt
  | Datatypes.S n =>
      pmap_map pml5_supported gib_pages_supported pmlt (P2V phys) phys prot flags;;
      map_direct n pmlt (u64 (phys + step)) step prot flags
  end.

Definition highest_page_step (highest_page : Z) (e : limine_memmap_entry) : Z :=
  if (highest_page <? u64 (mm_base e + mm_length e)) && negb (mm_type e =? LIMINE_MEMMAP_RESERVED)
  then u64 (mm_base e + mm_length e) else highest_page.

Definition identity_map_size (mmap : list limine_memmap_entry) : Z :=
  let gib4 := 4 * 2 ^ 30 in
  let highest_page := foldl highest_page_step 0 mmap in
  if gib4 <? highest_page then highest_page else gib4.

Definition KERNEL_IMAGE_PAGES : Z := 0x6400.

(** [vmm_init]: [table_ok] says whether the heap allocation of the page
    table succeeds; the result is the root that is activated. *)
Definition vmm_init (table_ok : bool) (kernel_vaddr kernel_paddr : Z)
    (mmap : list limine_memmap_entry) : M S Z :=
  if negb table_ok then fail
  else
    pmlt ← pmap_init_kernel;
    map_linear (Z.to_nat KERNEL_IMAGE_PAGES) pmlt kernel_vaddr kernel_paddr PAGE_SIZE VM_PROT_ALL VM_GLOBAL;;
    let max_page_size := arch_largest_page_size gib_pages_supported in
    map_direct (Z.to_nat (identity_map_size mmap / max_page_size)) pmlt 0 max_page_size
      VM_PROT_ALL (Z.lor VM_GLOBAL VM_HUGE_PAGE);;
    mret pmlt.

End Virtual.

Section VirtualOk.
Context {S : Type} {PS : PageSource S} {HPS : PageSourceOk S PS}.
Context (pml5_supported gib_pages_supported : bool).
Local Abbreviation top := (top pml5_supported).
Local Abbreviation pfx := (pfx pml5_supported).
Local Abbreviation mapping := (mapping pml5_supported).
Local Abbreviation leaf_level := (leaf_level gib_pages_supported).
Local Abbreviation no_larger := (no_larger pml5_supported).
Local Abbreviation mapped_as := (mapped_as gib_pages_supported).
Local Abbreviation pt_inv := (pt_inv pml5_supported).

(** [va] translates to [tr]. *)
Definition maps_to (s : S) (root va : Z) (tr : translation) : Prop :=
  answer <$> mapping (ps_mem s) root va = Some tr.

(** The region of [va] that one entry written with [flags] decides. *)
Definition region (flags va : Z) : Z := pfx (Nat.pred (leaf_level flags)) va.

(** A sequence of mappings of given addresses. *)
Fixpoint map_seq (l : list (Z * Z)) (root prot flags : Z) : M S unit :=
  match l with
  | [] => mret tt
  | (va, pa) :: l =>
      pmap_map pml5_supported gib_pages_supported root va pa prot flags;;
      map_seq l root prot flags
  end.

Lemma map_seq_spec root prot flags n l : forall s G,
  0 <= prot < 16 -> has prot VM_PROT_PRESENT = true ->
  pt_inv s G -> G !! root = Some (top, 0) -> ps_avail s (4 * length l + n) ->
  NoDup (region flags <$> l.*1) ->
  Forall (fun p => frame_addr p.2 /\ no_larger (ps_mem s) root p.1 (leaf_level flags)) l ->
  exists s' G', map_seq l root prot flags s = (s', Ok tt) /\ G ⊆ G' /\ pt_inv s' G' /\
    Forall (fun p => maps_to s' root p.1 (mapped_as p.2 prot flags)) l /\
    (forall r va', G !! r = Some (top, 0) -> region flags va' ∉ region flags <$> l.*1 ->
       mapping (ps_mem s') r va' = mapping (ps_mem s) r va') /\ ps_avail s' n.
Proof.
  induction l as [|[va pa] l IH]; intros s G Hp HP HI HG Hav Hnd Hl; cbn [map_seq].
  { exists s, G. split_and!; done. }
  cbn [fst snd fmap list_fmap] in *. apply NoDup_cons in Hnd as [Hni Hnd].
  apply Forall_cons in Hl as [[Hf Hn] Hl]. cbn [fst snd length] in *.
  destruct (pmap_map_post pml5_supported gib_pages_supported s G root va pa prot flags (4 * length l + n))
    as (s1 & G1 & par & E & Hsub & HI1 & Hm & Ha & Hfr & _ & Hav1 & _);
    [done|done|eapply ps_avail_le; [|exact Hav]; lia|done|done|done|done|].
  rewrite (bind_ok _ _ _ _ _ E).
  destruct (IH s1 G1) as (s' & G' & E' & Hsub' & HI' & Hall & Hfr' & Hav'); [done..| |done|done| |].
  { eapply lookup_weaken; done. }
  { rewrite Forall_forall in Hl |- *. intros [va' pa'] Hin. destruct (Hl _ Hin) as [Hf' Hn'].
    cbn [fst snd] in *. split; [done|].
    unfold Paging.no_larger in *. rewrite Hfr; [done|done|]. intros Heq. apply Hni.
    unfold region at 1. rewrite <- Heq. apply list_elem_of_fmap. exists va'. split; [done|].
    apply list_elem_of_fmap. exists (va', pa'). done. }
  exists s', G'. split_and!; try done; [by etrans| |].
  - constructor; [|done]. cbn. unfold maps_to. rewrite Hfr'; [|eapply lookup_weaken; done|done].
    rewrite Hm. cbn [fmap option_fmap option_map]. rewrite Ha. done.
  - intros r va' Hr Hnot. apply not_elem_of_cons in Hnot as [Hne Hnot].
    rewrite Hfr'; [|eapply lookup_weaken; done|done]. apply Hfr; done.
Qed.

(** *** Linear ranges *)

Definition region_size (flags : Z) : Z := 2 ^ (12 + 9 * Z.of_nat (Nat.pred (leaf_level flags))).

Lemma region_step flags va i :
  region flags (va + i * region_size flags) =
    (va / region_size flags + i) mod 2 ^ (9 * (Z.of_nat top - Z.of_nat (Nat.pred (leaf_level flags)))).
Proof.
  unfold region, Paging.pfx. fold (region_size flags).
  rewrite Z.div_add by (unfold region_size; lia). done.
Qed.

(** At least 2^18 regions of any size fit in the address space. *)
Lemma region_inj flags va i j :
  Z.abs (i - j) < 2 ^ 18 ->
  region flags (va + i * region_size flags) = region flags (va + j * region_size flags) -> i = j.
Proof.
  rewrite !region_step. set (m := 2 ^ (9 * _)).
  assert (Hm : 2 ^ 18 <= m).
  { unfold m. apply Z.pow_le_mono_r; [lia|]. unfold Paging.leaf_level, Paging.top.
    destruct pml5_supported; repeat case_if; lia. }
  intros Hij Heq. set (q := va / region_size flags) in *. clearbody m q.
  pose proof (Z.div_mod (q + i) m ltac:(lia)). pose proof (Z.div_mod (q + j) m ltac:(lia)).
  rewrite Heq in *. generalize dependent ((q + i) / m). generalize dependent ((q + j) / m). clear Heq.
  generalize ((q + j) mod m). intros r a Ha b Hb.
  assert (Hd : i - j = m * (b - a)) by lia. assert (b - a = 0) by nia. nia.
Qed.

Definition linear (n : nat) (va pa step : Z) : list (Z * Z) :=
  (fun i => (va + i * step, pa + i * step)) <$> seqZ 0 (Z.of_nat n).

Lemma linear_S n va pa step :
  linear (Datatypes.S n) va pa step = (va, pa) :: linear n (va + step) (pa + step) step.
Proof.
  unfold linear. rewrite Nat2Z.inj_succ, seqZ_cons by lia. cbn [fmap list_fmap].
  f_equal; [f_equal; lia|]. rewrite Z.pred_succ. change (Z.succ 0) with (1 + 0).
  rewrite <- fmap_add_seqZ, <- list_fmap_compose.
  apply list_fmap_ext. intros i x _. cbn. f_equal; lia.
Qed.

Lemma map_linear_seq n : forall root va pa step prot flags (s : S),
  0 <= va -> 0 <= pa -> 0 < step -> va + Z.of_nat n * step <= 2 ^ 64 -> pa + Z.of_nat n * step <= 2 ^ 64 ->
  map_linear pml5_supported gib_pages_supported n root va pa step prot flags s =
    map_seq (linear n va pa step) root prot flags s.
Proof.
  induction n as [|n IH]; intros * Hva Hpa Hst Hv Hp; [done|]. rewrite linear_S.
  cbn [map_linear map_seq]. unfold mbind, M_bind.
  destruct (pmap_map _ _ root va pa prot flags s) as [s1 [[]| |]]; [|done|done].
  destruct n as [|n]; [done|].
  rewrite !u64_small by nia. apply IH; nia.
Qed.

Lemma map_direct_seq HIGH_VMA n : forall root pa step prot flags (s : S),
  0 <= HIGH_VMA -> 0 <= pa -> 0 < step -> pa + HIGH_VMA + Z.of_nat n * step <= 2 ^ 64 ->
  map_direct pml5_supported gib_pages_supported HIGH_VMA n root pa step prot flags s =
    map_seq (linear n (pa + HIGH_VMA) pa step) root prot flags s.
Proof.
  induction n as [|n IH]; intros * Hh Hpa Hst Hv; [done|]. rewrite linear_S.
  cbn [map_direct map_seq]. unfold mbind, M_bind, P2V. rewrite (u64_small (pa + HIGH_VMA)) by nia.
  destruct (pmap_map _ _ root (pa + HIGH_VMA) pa prot flags s) as [s1 [[]| |]]; [|done|done].
  destruct n as [|n]; [done|]. rewrite u64_small by nia. rewrite IH by nia.
  do 2 f_equal. lia.
Qed.

Lemma linear_regions n va pa flags :
  Z.of_nat n <= 2 ^ 18 -> NoDup (region flags <$> (linear n va pa (region_size flags)).*1).
Proof.
  intros Hn. unfold linear. rewrite <- list_fmap_compose, <- list_fmap_compose.
  apply NoDup_fmap_2_strong; [|apply NoDup_seqZ].
  intros i j Hi Hj. apply elem_of_seqZ in Hi, Hj. apply region_inj. lia.
Qed.

Lemma elem_of_linear n va pa step x :
  x ∈ linear n va pa step <-> exists i, 0 <= i < Z.of_nat n /\ x = (va + i * step, pa + i * step).
Proof.
  unfold linear. rewrite list_elem_of_fmap. setoid_rewrite elem_of_seqZ.
  split; intros (i & ? & ?); exists i; split; done || lia.
Qed.

(** A linear range mapped into a tree that maps none of it at a larger size. *)
Lemma map_linear_spec root prot flags m n va pa s G :
  let size := region_size flags in
  0 <= prot < 16 -> has prot VM_PROT_PRESENT = true ->
  pt_inv s G -> G !! root = Some (top, 0) -> ps_avail s (4 * n + m) ->
  Z.of_nat n <= 2 ^ 18 -> frame_addr pa -> pa + Z.of_nat n * size <= 2 ^ 52 ->
  (forall i, 0 <= i < Z.of_nat n -> no_larger (ps_mem s) root (va + i * size) (leaf_level flags)) ->
  exists s' G', map_seq (linear n va pa size) root prot flags s = (s', Ok tt) /\ G ⊆ G' /\ pt_inv s' G' /\
    (forall i, 0 <= i < Z.of_nat n ->
       maps_to s' root (va + i * size) (mapped_as (pa + i * size) prot flags)) /\
    (forall r va', G !! r = Some (top, 0) ->
       (forall i, 0 <= i < Z.of_nat n -> region flags va' <> region flags (va + i * size)) ->
       mapping (ps_mem s') r va' = mapping (ps_mem s) r va') /\ ps_avail s' m.
Proof.
  intros size Hp HP HI HG Hav Hn Hf Hb Hnl.
  assert (Hlen : length (linear n va pa size) = n) by (unfold linear; rewrite length_fmap, length_seqZ; lia).
  assert (Hsz : 0 < size /\ size mod PAGE_SIZE = 0).
  { split; [unfold size, region_size; lia|]. unfold size, region_size.
    rewrite Z.pow_add_r by lia. change (2 ^ 12) with PAGE_SIZE. rewrite Z.mul_comm. apply Z.mod_mul. done. }
  destruct (map_seq_spec root prot flags m (linear n va pa size) s G) as (s' & G' & E & Hsub & HI' & Hall & Hfr & Hav');
    [done..|rewrite Hlen; done|apply linear_regions; done| |].
  { apply Forall_forall. intros x Hx. apply elem_of_linear in Hx as (i & Hi & ->). cbn [fst snd].
    split; [|auto]. destruct Hf as [Hf Ha]. split; [nia|]. rewrite Z.add_mod, Ha by done.
    rewrite Z.mul_mod by done. destruct Hsz as [_ ->]. rewrite Z.mul_0_r. done. }
  exists s', G'. split_and!; try done.
  - intros i Hi. rewrite Forall_forall in Hall.
    apply (Hall (va + i * size, pa + i * size)). apply elem_of_linear. eauto.
  - intros r va' Hr Hne. apply Hfr; [done|]. rewrite list_elem_of_fmap. intros (y & Hy & Hin).
    apply list_elem_of_fmap in Hin as (x & -> & Hx). apply elem_of_linear in Hx as (i & Hi & ->).
    apply (Hne i Hi). done.
Qed.

(** *** Ranges of fresh frames *)

(** A frame that is allocated but not linked changes no translation. *)
Lemma alloc_value_spec s G n :
  pt_inv s G -> ps_avail s (Datatypes.S n) ->
  exists s1 f, pmm_alloc_value 1 s = (s1, Ok f) /\ pt_inv s1 G /\ frame_addr f /\ ps_avail s1 n /\
    ~ ps_used s f /\ ps_used s1 f /\ (forall x, ps_used s x -> ps_used s1 x) /\
    (forall r va, G !! r = Some (top, 0) -> mapping (ps_mem s1) r va = mapping (ps_mem s) r va).
Proof.
  intros HI Hav. destruct (ps_avail_alloc s n Hav) as (s1 & f & Ea & Hav1).
  destruct (alloc_frame_spec pml5_supported s G n HI Hav)
    as (s1' & f' & Ea' & _ & Hok1 & Hfr & HGf & Huf & Hu & Hz & Hsame & HT1).
  unfold alloc_frame in Ea'. rewrite Ea in Ea'. simplify_eq.
  exists s1', f'. unfold pmm_alloc_value. rewrite Ea. split_and!; try done.
  - constructor; [done|done|]. intros t x Ht. apply Hu. eapply pi_used; eauto.
  - change 1 with (2 ^ 0) in Ea at 2.
    destruct (ps_alloc_ok s 1 0 s1' f' (pi_ok _ _ _ HI) ltac:(lia) ltac:(lia) Ea) as (_ & _ & _ & _ & Hfree & _).
    apply Hfree. exists 0. lia.
  - intros r va Hr. apply (lookup_same pml5_supported _ _ G); [apply HI| |rewrite pfx_top; done].
    intros t x i Ht Hi. apply Hsame, slot_outside; [|done|congruence|done].
    eapply pt_frame; [apply HI|done].
Qed.

Record fresh_range (s s' : S) (G G' : gmap Z (nat * Z)) (root va prot flags : Z) (fs : list Z) : Prop := {
  fr_sub : G ⊆ G';
  fr_inv : pt_inv s' G';
  fr_nodup : NoDup fs;
  fr_fresh : Forall (fun a => ~ ps_used s a /\ ps_used s' a) fs;
  fr_map : forall (i : nat) a, fs !! i = Some a ->
    maps_to s' root (va + Z.of_nat i * PAGE_SIZE) (MkTrans a None prot);
  fr_frame : forall r va', G !! r = Some (top, 0) ->
    (forall i, 0 <= i < Z.of_nat (length fs) -> pfx 0 va' <> pfx 0 (va + i * PAGE_SIZE)) ->
    mapping (ps_mem s') r va' = mapping (ps_mem s) r va';
  fr_used : forall x, ps_used s x -> ps_used s' x;
}.

Lemma page_inj va i j :
  Z.abs (i - j) < 2 ^ 18 -> pfx 0 (va + i * PAGE_SIZE) = pfx 0 (va + j * PAGE_SIZE) -> i = j.
Proof. exact (region_inj 0 va i j). Qed.

Lemma map_fresh_spec root prot flags n : forall s G va,
  leaf_level flags = 1%nat -> 0 <= prot < 16 -> has prot VM_PROT_PRESENT = true ->
  pt_inv s G -> G !! root = Some (top, 0) -> ps_avail s (5 * n) ->
  0 <= va -> va + Z.of_nat n * PAGE_SIZE <= 2 ^ 64 -> Z.of_nat n <= 2 ^ 18 ->
  (forall i, 0 <= i < Z.of_nat n -> no_larger (ps_mem s) root (va + i * PAGE_SIZE) 1) ->
  exists s' G' fs,
    map_fresh pml5_supported gib_pages_supported n root va 1 PAGE_SIZE prot flags s = (s', Ok fs) /\
    length fs = n /\ fresh_range s s' G G' root va prot flags fs.
Proof.
  induction n as [|n IH]; intros s G va Hlf Hp HP HI HG Hav Hva Hend Hn Hnl.
  { exists s, G, []. split_and!; [done|done|]. constructor; done || constructor. }
  destruct (alloc_value_spec s G (4 + 5 * n) HI) as (s1 & f & Ea & HI1 & Hf & Hav1 & Hnew & Hused & Hmono & Hsame1);
    [eapply ps_avail_le; [|exact Hav]; lia|].
  destruct (pmap_map_post pml5_supported gib_pages_supported s1 G root va f prot flags (5 * n))
    as (s2 & G2 & par & E & Hsub & HI2 & Hm & Ha & Hfr & _ & Hav2 & Hmono2); [done..| |done|done|done|].
  { rewrite Hlf. unfold Paging.no_larger in *. rewrite Hsame1 by done.
    specialize (Hnl 0 ltac:(lia)). rewrite Z.mul_0_l, Z.add_0_r in Hnl. done. }
  rewrite Hlf in *. cbn [Nat.pred] in *. unfold PAGE_SIZE in Hend.
  destruct (IH s2 G2 (va + PAGE_SIZE)) as (s' & G' & fs & E' & Hlen & HR);
    [done..|eapply lookup_weaken; done|done|unfold PAGE_SIZE; lia|unfold PAGE_SIZE; lia|lia| |].
  { intros i Hi. replace (va + PAGE_SIZE + i * PAGE_SIZE) with (va + (i + 1) * PAGE_SIZE) by lia.
    unfold Paging.no_larger in *. rewrite Hfr, Hsame1; [apply Hnl; lia|done|done|].
    intros Hx. replace va with (va + 0 * PAGE_SIZE) in Hx at 2 by lia. apply page_inj in Hx; lia. }
  destruct HR as [Hsub' HI' Hnd Hfresh Hmap Hframe Hmono'].
  exists s', G', (f :: fs). split; [|split; [cbn [length]; lia|constructor]].
  - cbn [map_fresh]. rewrite (bind_ok _ _ _ _ _ Ea), (bind_ok _ _ _ _ _ E).
    destruct n as [|n].
    + cbn [map_fresh] in *. erewrite bind_ok by reflexivity. injection E' as <- <-. done.
    + rewrite u64_small by (unfold PAGE_SIZE; lia). rewrite (bind_ok _ _ _ _ _ E'). done.
  - by etrans.
  - done.
  - constructor; [|done]. intros Hin. rewrite Forall_forall in Hfresh. apply Hfresh in Hin as [Hx _]. auto.
  - constructor; [auto|]. eapply Forall_impl; [exact Hfresh|]. intros a [Hx ?]. split; [|done].
    intros Hc. apply Hx. auto.
  - intros [|i] a; cbn [lookup list_lookup].
    + intros [= <-]. rewrite Z.mul_0_l, Z.add_0_r. unfold maps_to.
      rewrite Hframe; [|eapply lookup_weaken; done|].
      * rewrite Hm. cbn [fmap option_fmap option_map]. rewrite Ha. unfold Paging.mapped_as. rewrite Hlf. done.
      * intros j Hj Hx. replace va with (va + 0 * PAGE_SIZE) in Hx at 1 by lia.
        replace (va + PAGE_SIZE + j * PAGE_SIZE) with (va + (j + 1) * PAGE_SIZE) in Hx by lia.
        apply page_inj in Hx; lia.
    + intros Hi. replace (va + Z.of_nat (Datatypes.S i) * PAGE_SIZE) with (va + PAGE_SIZE + Z.of_nat i * PAGE_SIZE) by lia.
      auto.
  - intros r va' Hr Hne. cbn [length] in Hne. rewrite Hframe; [|eapply lookup_weaken; done|].
    + rewrite Hfr; [auto|done|]. specialize (Hne 0 ltac:(lia)). rewrite Z.mul_0_l, Z.add_0_r in Hne. done.
    + intros i Hi. replace (va + PAGE_SIZE + i * PAGE_SIZE) with (va + (i + 1) * PAGE_SIZE) by lia.
      apply Hne. lia.
  - auto.
Qed.

(** C30: [vmm_map_range] with 4 KiB pages, on a range that no larger page
    covers and with enough free frames, backs every page of the range with a
    frame of its own that nobody used before, with the protection asked for;
    every page outside the range translates as before in every address space
    that shares the tables. *)
Theorem vmm_map_range_correct s G root va cnt prot flags :
  leaf_level flags = 1%nat -> 0 <= prot < 16 -> has prot VM_PROT_PRESENT = true ->
  pt_inv s G -> G !! root = Some (top, 0) -> ps_avail s (5 * Z.to_nat cnt) ->
  0 <= va -> 0 <= cnt <= 2 ^ 18 -> va + cnt * PAGE_SIZE <= 2 ^ 64 ->
  (forall i, 0 <= i < cnt -> no_larger (ps_mem s) root (va + i * PAGE_SIZE) 1) ->
  exists s' G' fs,
    vmm_map_range pml5_supported gib_pages_supported (Some root) va cnt prot flags s = (s', Ok 0) /\
    Z.of_nat (length fs) = cnt /\ fresh_range s s' G G' root va prot flags fs.
Proof.
  intros Hlf Hp HP HI HG Hav Hva Hcnt Hend Hnl.
  destruct (map_fresh_spec root prot flags (Z.to_nat cnt) s G va) as (s' & G' & fs & E & Hlen & HR);
    [done..|rewrite Z2Nat.id by lia; done|lia|intros i Hi; apply Hnl; lia|].
  exists s', G', fs. split_and!; [|lia|done]. unfold vmm_map_range.
  assert (Hfl : has flags VM_HUGE_PAGE = false /\ has flags VM_LARGE_PAGE = false).
  { unfold Paging.leaf_level in Hlf. destruct (has flags VM_HUGE_PAGE), (has flags VM_LARGE_PAGE), gib_pages_supported; done. }
  destruct Hfl as [-> ->]. rewrite (bind_ok _ _ _ _ _ E). done.
Qed.

(** *** The kernel's address space *)

Lemma mod_eq_diff q q' m : 0 < m -> 0 < q' - q < m -> q mod m = q' mod m -> False.
Proof.
  intros Hm Hd Heq. pose proof (Z.div_mod q m ltac:(lia)). pose proof (Z.div_mod q' m ltac:(lia)).
  rewrite Heq in *. revert H H0. generalize (q / m) (q' / m) (q' mod m). intros a b r -> ->.
  assert (b - a = 0 \/ b - a < 0 \/ 0 < b - a) as [?|[?|?]] by lia; nia.
Qed.

(** Addresses at least one region apart, in the same half of the address
    space, lie in different regions. *)
Lemma pfx_apart k a b :
  (k <= 2)%nat -> 0 <= a -> a + 2 ^ (12 + 9 * Z.of_nat k) <= b -> b - a < 2 ^ 47 -> pfx k a <> pfx k b.
Proof.
  intros Hk Ha Hab Hfar Heq. unfold Paging.pfx in Heq.
  set (sz := 2 ^ (12 + 9 * Z.of_nat k)) in *.
  assert (Hsz : 0 < sz <= 2 ^ 30) by (unfold sz; split; [lia|apply Z.pow_le_mono_r; lia]).
  assert (Hm : 2 ^ 48 <= sz * 2 ^ (9 * (Z.of_nat top - Z.of_nat k))).
  { unfold sz. rewrite <- Z.pow_add_r; [apply Z.pow_le_mono_r; [lia|]|lia|];
      unfold Paging.top; destruct pml5_supported; lia. }
  set (m := 2 ^ (9 * (Z.of_nat top - Z.of_nat k))) in *. clearbody sz m.
  pose proof (Z.div_mod a sz ltac:(lia)). pose proof (Z.mod_pos_bound a sz ltac:(lia)).
  pose proof (Z.div_mod b sz ltac:(lia)). pose proof (Z.mod_pos_bound b sz ltac:(lia)).
  revert Heq. generalize dependent (a / sz). generalize dependent (b / sz). intros qb Hb qa Hqa Heq.
  apply mod_eq_diff in Heq; [done|nia|].
  assert (Hlo : sz * qa < sz * qb) by lia.
  assert (Hhi : sz * (qb - qa) < sz * m) by lia.
  split; nia.
Qed.

Definition direct_flags : Z := Z.lor VM_GLOBAL VM_HUGE_PAGE.

Lemma direct_size : region_size direct_flags = arch_largest_page_size gib_pages_supported.
Proof. unfold region_size, Paging.leaf_level. destruct gib_pages_supported; done. Qed.

Lemma direct_pred : (Nat.pred (leaf_level direct_flags) <= 2)%nat.
Proof. unfold Paging.leaf_level. repeat case_if; cbn [Nat.pred]; lia. Qed.

(** [vmm_init] returns a root in which every page of the kernel image
    translates to its physical page and every region of the direct map, up to
    the highest usable address rounded down to the page size in use,
    translates to the physical region it stands for, with full protection. *)
Theorem vmm_init_correct s HIGH_VMA kv kp mmap :
  let size := arch_largest_page_size gib_pages_supported in
  let n := identity_map_size mmap / size in
  ps_ok s -> ps_avail s (257 + (4 * Z.to_nat KERNEL_IMAGE_PAGES + 4 * Z.to_nat n)) ->
  0 <= n <= 2 ^ 18 -> n * size <= 2 ^ 52 -> 0 <= HIGH_VMA ->
  HIGH_VMA + n * size <= kv -> kv + KERNEL_IMAGE_PAGES * PAGE_SIZE <= 2 ^ 64 ->
  kv + KERNEL_IMAGE_PAGES * PAGE_SIZE - HIGH_VMA < 2 ^ 47 ->
  frame_addr kp -> kp + KERNEL_IMAGE_PAGES * PAGE_SIZE <= 2 ^ 52 ->
  exists s' G root,
    vmm_init pml5_supported gib_pages_supported HIGH_VMA true kv kp mmap s = (s', Ok root) /\
    pt_inv s' G /\ G !! root = Some (top, 0) /\
    (forall i, 0 <= i < KERNEL_IMAGE_PAGES ->
       pmap_translate pml5_supported root (kv + i * PAGE_SIZE) s' =
         (s', Ok (Some (MkTrans (kp + i * PAGE_SIZE) None VM_PROT_ALL)))) /\
    (forall j, 0 <= j < n ->
       pmap_translate pml5_supported root (P2V HIGH_VMA (j * size)) s' =
         (s', Ok (Some (mapped_as (j * size) VM_PROT_ALL direct_flags)))).
Proof.
  intros size n Hok Hav Hn Hn52 Hhv Hdis Hk64 Hfar Hkp Hkp52.
  assert (Hsz : 4096 <= size <= 2 ^ 30) by (unfold size, arch_largest_page_size; case_if; done).
  assert (Hds : region_size direct_flags = size) by exact direct_size.
  unfold vmm_init. set (K := Z.to_nat KERNEL_IMAGE_PAGES) in *.
  assert (HK : Z.of_nat K = 0x6400) by (unfold K, KERNEL_IMAGE_PAGES; lia).
  clearbody K. unfold KERNEL_IMAGE_PAGES, PAGE_SIZE in *.
  destruct (pmap_init_kernel_post pml5_supported s _ Hok Hav) as (s0 & G0 & root & E0 & HI0 & HG0 & _ & Hav0 & Hm0).
  assert (Hnl0 : forall va l, no_larger (ps_mem s0) root va l) by (intros; unfold Paging.no_larger; rewrite Hm0; done).
  destruct (map_linear_spec root VM_PROT_ALL VM_GLOBAL (4 * Z.to_nat n) K kv kp s0 G0)
    as (s1 & G1 & E1 & Hsub1 & HI1 & Hmap1 & Hfr1 & Hav1);
    change (region_size VM_GLOBAL) with 4096 in *; rewrite ?HK in *; try done.
  assert (HG1 : G1 !! root = Some (top, 0)) by (eapply lookup_weaken; done).
  destruct (map_linear_spec root VM_PROT_ALL direct_flags 0 (Z.to_nat n) (0 + HIGH_VMA) 0 s1 G1)
    as (s2 & G2 & E2 & Hsub2 & HI2 & Hmap2 & Hfr2 & _);
    [done|done|exact HI1|exact HG1|rewrite Nat.add_0_r; exact Hav1|lia|done|..];
    rewrite ?Hds in *; rewrite ?Z2Nat.id in * by lia; [lia| |].
  { intros i Hi. unfold Paging.no_larger. rewrite Hfr1; [rewrite Hm0; done|done|].
    intros j Hj. apply (pfx_apart 0); [lia|nia|cbn; nia|nia]. }
  exists s2, G2, root. split_and!; [|done|eapply lookup_weaken; done| |].
  - cbn [negb]. rewrite (bind_ok _ _ _ _ _ E0).
    erewrite bind_ok; [|rewrite map_linear_seq; [exact E1|..]]; [|unfold PAGE_SIZE; destruct Hkp; lia..].
    erewrite bind_ok; [done|]. rewrite map_direct_seq; [exact E2|lia|lia|fold size; lia|].
    fold size. fold n. rewrite Z2Nat.id by lia. lia.
  - intros i Hi. rewrite pmap_translate_walk. rewrite Hfr2; [|done|].
    + rewrite (Hmap1 i) by done. done.
    + intros j Hj Hx. symmetry in Hx. revert Hx. apply pfx_apart; [apply direct_pred|nia| |nia].
      fold (region_size direct_flags). rewrite Hds. nia.
  - intros j Hj. rewrite pmap_translate_walk. unfold P2V. rewrite u64_small by nia.
    specialize (Hmap2 j Hj). unfold maps_to in Hmap2. rewrite !Z.add_0_l in Hmap2.
    rewrite (Z.add_comm (j * size)), Hmap2. done.
Qed.

End VirtualOk.

(** ** Witnesses *)

Module VirtualExamples.

(** Physical memory from 16 MiB on is free; a root table at 16 MiB. *)
Definition free_memory : bump_state := MkBump 0x1000000 [] ∅.
Definition one_table : bump_state := MkBump 0x1001000 [0x1000000] ∅.
Definition one_typing : gmap Z (nat * Z) := {[0x1000000 := (4%nat, 0)]}.

(** 6 GiB of memory and a reserved region above it. *)
Definition six_gib : list limine_memmap_entry :=
  [MkEntry 0 0x180000000 0; MkEntry 0xfd00000000 0x300000000 1].

End VirtualExamples.
Import VirtualExamples.

Lemma free_memory_ok : ps_ok free_memory.
Proof. constructor; [done|constructor]. Qed.

Lemma one_table_inv : pt_inv false one_table one_typing.
Proof.
  constructor.
  - constructor; [done|]. constructor; [done|constructor].
  - constructor.
    + intros t x. unfold one_typing. rewrite lookup_singleton_Some. intros [<- _]. done.
    + intros t l q. unfold one_typing. rewrite lookup_singleton_Some. intros [<- ?]. simplify_eq.
      cbn. lia.
    + intros t l q i _ _ _. apply zero_wf.
  - intros t x. unfold one_typing. rewrite lookup_singleton_Some. intros [<- _]. by left.
Qed.

Lemma vmm_map_range_correct_witness :
  exists s' (fs : list Z), vmm_map_range false true (Some 0x1000000) 0x400000 4 3 0 one_table = (s', Ok 0) /\
    length fs = 4%nat /\ NoDup fs.
Proof.
  destruct (vmm_map_range_correct false true one_table one_typing 0x1000000 0x400000 4 3 0)
    as (s' & G' & fs & E & Hlen & HR);
    [reflexivity|lia|reflexivity|exact one_table_inv|reflexivity|split; done|lia|lia|done| |].
  { intros i Hi. unfold no_larger, mapping, lookup_at. cbn [walk top].
    unfold rd. cbn [ps_mem bump_source bump_mem one_table]. rewrite !lookup_empty. done. }
  exists s', fs. split; [exact E|]. split; [lia|apply HR].
Defined.

Lemma vmm_init_correct_witness :
  exists s' root,
    vmm_init false true 0xffff800000000000 true 0xffffffff80000000 0x200000 six_gib free_memory = (s', Ok root) /\
    snd (pmap_translate false root 0xffffffff80001000 s') = Ok (Some (MkTrans 0x201000 None VM_PROT_ALL)).
Proof.
  assert (Hn : identity_map_size six_gib / arch_largest_page_size true = 6) by reflexivity.
  destruct (vmm_init_correct false true free_memory 0xffff800000000000 0xffffffff80000000 0x200000 six_gib)
    as (s' & G & root & E & _ & _ & Himg & _); rewrite ?Hn;
    [exact free_memory_ok|split; [done|unfold KERNEL_IMAGE_PAGES, PAGE_SIZE; cbn [bump_next free_memory]; lia]
    |lia|by vm_compute..|].
  exists s', root. split; [exact E|].
  change 0xffffffff80001000 with (0xffffffff80000000 + 1 * PAGE_SIZE).
  rewrite Himg by (unfold KERNEL_IMAGE_PAGES; lia). reflexivity.
Defined.

(** A 2 MiB page is backed by one 4 KiB allocation: the next request is
    answered with a frame inside the page just mapped. *)
Lemma vmm_map_range_overlaps :
  snd (pmap_translate false 0x1000000 0x400000
         (fst (vmm_map_range false false (Some 0x1000000) 0x400000 1 3 VM_LARGE_PAGE one_table)))
    = Ok (Some (MkTrans 0x1200000 (Some VM_LARGE_PAGE) VM_PROT_ALL)) /\
  snd (ps_alloc (fst (vmm_map_range false false (Some 0x1000000) 0x400000 1 3 VM_LARGE_PAGE one_table)) 1 1)
    = Ok 0x1203000.
Proof. split; vm_compute; reflexivity. Qed.

(** Memory above the last full page of the direct map is not mapped: with
    5.5 GiB and 1 GiB pages the direct map ends at 5 GiB. *)
Lemma vmm_init_tail_unmapped :
  identity_map_size [MkEntry 0 0x160000000 0] = 0x160000000 /\
  identity_map_size [MkEntry 0 0x160000000 0] / arch_largest_page_size true * arch_largest_page_size true
    = 0x140000000.
Proof. split; vm_compute; reflexivity. Qed.
