(* ===== verification/Elf.v ===== *)
(** * Program images ([core/elf.c])

    The three callbacks the program loader of [aria] is given: reading and
    writing the image, and mapping a segment into an address space. *)

From S2P Require Import Prelude Aria PageSource Physical Paging Virtual.

(** [struct elf64_file_buffer]: the module's bytes and the root table of its
    address space. *)
Record elf64_file_buffer := MkFile {
  file_data : option (list Z);
  file_length : Z;
  file_pmlt : Z;
}.

(** How many bytes a transfer at [offset] moves; the result is an [int]. *)
Definition transfer (length offset cnt : Z) : Z :=
  s32 (if length <? u64 (offset + cnt) then u64 (length - offset) else cnt).

(** The bytes a [memcpy] of [n] bytes reads from [offset] on; reading outside
    the image ends in [Halt]. *)
Definition slice (data : list Z) (offset n : Z) : cres (list Z) :=
  if (0 <=? offset) && (0 <=? n) && (offset + n <=? Z.of_nat (length data))
  then Ok (take (Z.to_nat n) (drop (Z.to_nat offset) data)) else Halt.

(** [elf64_read]: the count it returns and the bytes it stores; [buffer] says
    whether the destination is set. *)
Definition elf64_read (file : option elf64_file_buffer) (buffer : bool) (offset cnt : Z) : cres (Z * list Z) :=
  match file with
  | None => Err
  | Some f =>
      match file_data f with
      | None => Err
      | Some data =>
          if negb buffer then Err
          else if file_length f <? u64 offset then Ok (0, [])
          else
            let data_to_read := transfer (file_length f) offset cnt in
            match slice data offset (u64 data_to_read) with
            | Ok bytes => Ok (data_to_read, bytes)
            | Err => Err
            | Halt => Halt
            end
      end
  end.

(** [elf64_write]: the image it leaves behind. *)
Definition elf64_write (file : option elf64_file_buffer) (buffer : option (list Z)) (offset cnt : Z)
    : cres (Z * elf64_file_buffer) :=
  match file with
  | None => Err
  | Some f =>
      match file_data f, buffer with
      | Some data, Some bytes =>
          if file_length f <? u64 offset then Ok (0, f)
          else
            let data_to_write := transfer (file_length f) offset cnt in
            match slice bytes 0 (u64 data_to_write), slice data offset (u64 data_to_write) with
            | Ok src, Ok _ =>
                Ok (data_to_write,
                    MkFile (Some (take (Z.to_nat offset) data ++ src ++ drop (Z.to_nat offset + length src) data))
                           (file_length f) (file_pmlt f))
            | _, _ => Halt
            end
      | _, _ => Err
      end
  end.

Section Elf.
Context {S : Type} `{PS : PageSource S} `{AB : AriaBase}.
Context (pml5_supported gib_pages_supported : bool) (HIGH_VMA : Z).
(** Permission bits of [aria/elf.h]. *)
Context (ELF_PF_W ELF_PF_X : Z).

(** The fields of a program or section header that [elf64_map] uses. *)
Record elf_header := MkHdr {
  h_vaddr : Z;
  h_size : Z;
  h_flags : Z;
  h_offset : option Z;    (* [p_offset]; a section header has none here *)
}.

(** Page tables, and the copies made into physical memory: destination and
    bytes, the latest last. *)
Record estate := MkE {
  e_src : S;
  e_copies : list (Z * list Z);
}.

Definition segment_prot (flags : Z) : Z :=
  let prot := Z.lor VM_PROT_PRESENT VM_PROT_USER in
  let prot := if Z.land flags ELF_PF_W =? ELF_PF_W then Z.lor prot VM_PROT_WRITE else prot in
  if Z.land flags ELF_PF_X =? ELF_PF_X then Z.lor prot VM_PROT_EXECUTE else prot.

Definition segment_pages (misalignment size : Z) : Z :=
  let page_cnt := DIV_ROUNDUP (u64 (misalignment + size)) PAGE_SIZE in
  if Z.land (u64 (size + PAGE_SIZE - 1)) (u64 (Z.lnot (PAGE_SIZE - 1))) <? u64 (misalignment + size)
  then page_cnt + 1 else page_cnt.

(** The loop that copies the image into the frames; a remainder by zero
    faults. *)
Fixpoint place_loop (physical : list Z) (j : Z) (file : elf64_file_buffer) (p_offset : option Z) (misalignment size : Z)
    : M estate unit :=
  match physical with
  | [] => mret tt
  | pa :: physical =>
      let partial := size <? u64 (PAGE_SIZE + j * PAGE_SIZE) in
      if partial && (j =? 0) then halt
      else
        let cnt := if partial then size mod (j * PAGE_SIZE) else PAGE_SIZE in
        let skip := if j =? 0 then misalignment else 0 in
        match p_offset with
        | None => halt
        | Some p_offset => fun s =>
            match elf64_read (Some file) true (s32 (p_offset + j * PAGE_SIZE)) (u64 (cnt - skip)) with
            | Ok (_, bytes) =>
                place_loop physical (j + 1) file (Some p_offset) misalignment size
                  (MkE (e_src s) (e_copies s ++ [(u64 (pa + HIGH_VMA + skip), bytes)]))
            | Err => place_loop physical (j + 1) file (Some p_offset) misalignment size s
            | Halt => (s, Halt)
            end
        end
  end.

Definition on_tables {A} (m : M S A) : M estate A := fun s =>
  let '(x, r) := m (e_src s) in (MkE x (e_copies s), r).

(** [elf64_map]; the mapping loop is that of [vmm_map_range] with the frames
    kept, [lower_bound] is that of the image's layout. *)
Definition elf64_map (file : option elf64_file_buffer) (hdr : option elf_header) (lower_bound : Z) (place : bool)
    : M estate unit :=
  match hdr, file with
  | Some hdr, Some f =>
      let addr := u64 (h_vaddr hdr + lower_bound) in
      let size := h_size hdr in
      let misalignment := Z.land addr (PAGE_SIZE - 1) in
      let page_cnt := segment_pages misalignment size in
      if page_cnt =? 0 then mret tt
      else
        physical ← on_tables (map_fresh pml5_supported gib_pages_supported (Z.to_nat page_cnt) (file_pmlt f)
                                (addr - misalignment) 1 PAGE_SIZE (segment_prot (h_flags hdr)) 0);
        if place then place_loop physical 0 f (h_offset hdr) misalignment size else mret tt
  | _, _ => fail
  end.

End Elf.

(** ** Transfers *)

(** An image of [data] bytes that an [int] can index. *)
Definition image (f : elf64_file_buffer) (data : list Z) : Prop :=
  file_data f = Some data /\ file_length f = Z.of_nat (length data) /\ Z.of_nat (length data) < 2 ^ 31.

(** The number of bytes that are there. *)
Definition available (data : list Z) (offset cnt : Z) : Z := Z.max 0 (Z.min cnt (Z.of_nat (length data) - offset)).

Lemma transfer_available data offset cnt :
  Z.of_nat (length data) < 2 ^ 31 -> 0 <= offset <= Z.of_nat (length data) -> 0 <= cnt < 2 ^ 31 ->
  transfer (Z.of_nat (length data)) offset cnt = available data offset cnt.
Proof.
  intros Hd Ho Hc. unfold transfer, available. rewrite u64_small by lia.
  case_if; rewrite ?(u64_small (_ - _)) by lia; rewrite s32_small by lia; lia.
Qed.

Lemma slice_ok data offset n :
  0 <= offset -> 0 <= n -> offset + n <= Z.of_nat (length data) ->
  slice data offset n = Ok (take (Z.to_nat n) (drop (Z.to_nat offset) data)).
Proof.
  intros. unfold slice. by rewrite !(proj2 (Z.leb_le _ _)) by lia.
Qed.

Lemma elf64_read_eq f data offset cnt :
  image f data -> 0 <= offset < 2 ^ 31 -> 0 <= cnt < 2 ^ 31 ->
  elf64_read (Some f) true offset cnt =
    Ok (available data offset cnt, take (Z.to_nat (available data offset cnt)) (drop (Z.to_nat offset) data)).
Proof.
  intros (Hd & Hl & Hb) Ho Hc. unfold elf64_read. rewrite Hd, Hl, u64_small by lia. cbn [negb]. case_if.
  - unfold available. replace (Z.max _ _) with 0 by lia. done.
  - rewrite transfer_available by lia. rewrite u64_small by (unfold available; lia).
    rewrite slice_ok by (unfold available; lia). done.
Qed.

(** writing to an image and reading the same range back gives what was
    written, as far as the image reaches; the image keeps its length and
    every byte outside the range. *)
Theorem elf64_write_read f data bytes offset cnt :
  image f data -> 0 <= offset < 2 ^ 31 -> 0 <= cnt < 2 ^ 31 -> cnt <= Z.of_nat (length bytes) ->
  let n := available data offset cnt in
  exists f' data', elf64_write (Some f) (Some bytes) offset cnt = Ok (n, f') /\ image f' data' /\
    length data' = length data /\
    elf64_read (Some f') true offset cnt = Ok (n, take (Z.to_nat n) bytes) /\
    (forall i, (i < Z.to_nat offset \/ Z.to_nat (offset + n) <= i)%nat -> data' !! i = data !! i).
Proof.
  intros Hf Ho Hc Hb n. pose proof Hf as (Hd & Hl & Hlen). unfold elf64_write. rewrite Hd, Hl, u64_small by lia. case_if.
  - assert (Hn : n = 0) by (unfold n, available; lia). rewrite Hn.
    exists f, data. split_and!; try done. rewrite (elf64_read_eq f data) by done. fold n. rewrite Hn. done.
  - rewrite transfer_available by lia. fold n. assert (Hn : 0 <= n < 2 ^ 31) by (unfold n, available; lia).
    rewrite u64_small by lia. rewrite !slice_ok by (unfold n, available in *; lia). rewrite drop_0.
    set (src := take (Z.to_nat n) bytes).
    assert (Hs : length src = Z.to_nat n) by (unfold src; rewrite length_take; unfold n, available in *; lia).
    set (data' := take (Z.to_nat offset) data ++ src ++ drop (Z.to_nat offset + length src) data).
    assert (Hdl : length data' = length data).
    { unfold data'. rewrite !length_app, length_take, length_drop, Hs. unfold n, available in *. lia. }
    assert (Hto : length (take (Z.to_nat offset) data) = Z.to_nat offset) by (rewrite length_take; lia).
    eexists _, data'. split; [reflexivity|].
    assert (Hi : image (MkFile (Some data') (Z.of_nat (length data)) (file_pmlt f)) data').
    { split_and!; cbn [file_data file_length]; [done|by rewrite Hdl|by rewrite Hdl]. }
    split_and!; [done|done| |].
    + rewrite (elf64_read_eq _ data') by done. unfold available at 1 2. rewrite Hdl. fold (available data offset cnt). fold n.
      unfold data'. rewrite drop_app_length' by done. rewrite take_app_length' by done. done.
    + intros i Hi'. unfold data'. destruct Hi' as [Hi'|Hi'].
      * rewrite lookup_app_l by lia. apply lookup_take_lt. done.
      * rewrite lookup_app_r by lia. rewrite lookup_app_r by (rewrite Hs, Hto; lia).
        rewrite lookup_drop, Hto, Hs. f_equal. lia.
Qed.

(** ** Loading a segment *)

Section ElfOk.
Context {S : Type} {PS : PageSource S} {HPS : PageSourceOk S PS} {AB : AriaBase} {ABO : AriaBaseOk AB}.
Context (pml5_supported gib_pages_supported : bool) (HIGH_VMA ELF_PF_W ELF_PF_X : Z).

Local Abbreviation top := (top pml5_supported).
Local Abbreviation pt_inv := (pt_inv pml5_supported).
Local Abbreviation mapping := (mapping pml5_supported).

(** The bytes of a segment, and those that belong on its page [j]. *)
Definition segment (data : list Z) (p_offset size : Z) : list Z :=
  take (Z.to_nat size) (drop (Z.to_nat p_offset) data).
Definition segment_page (data : list Z) (p_offset size : Z) (j : nat) : list Z :=
  take (Z.to_nat PAGE_SIZE) (drop (j * Z.to_nat PAGE_SIZE) (segment data p_offset size)).

Lemma segment_page_eq data p_offset size j :
  0 <= p_offset -> Z.of_nat j * PAGE_SIZE <= size ->
  segment_page data p_offset size j =
    take (Z.to_nat (Z.min PAGE_SIZE (size - Z.of_nat j * PAGE_SIZE)))
         (drop (Z.to_nat (p_offset + Z.of_nat j * PAGE_SIZE)) data).
Proof.
  intros Ho Hj. unfold segment_page, segment, PAGE_SIZE in *. rewrite drop_take_drop_swap || rewrite skipn_firstn_comm.
  rewrite take_take, drop_drop. f_equal; [lia|f_equal; lia].
Qed.

(** The size of the copy for page [j] of an aligned segment. *)
Lemma page_count size j :
  PAGE_SIZE <= size < 2 ^ 31 -> 0 <= j -> j * PAGE_SIZE < size ->
  let partial := size <? u64 (PAGE_SIZE + j * PAGE_SIZE) in
  partial && (j =? 0) = false /\
  (if partial then size mod (j * PAGE_SIZE) else PAGE_SIZE) = Z.min PAGE_SIZE (size - j * PAGE_SIZE).
Proof.
  unfold PAGE_SIZE. intros Hs Hj Hjs. rewrite u64_small by lia. cbv zeta. case_if.
  - assert (1 <= j) by lia. rewrite (proj2 (Z.eqb_neq j 0)) by lia. split; [done|].
    rewrite Z.min_r by lia. symmetry. apply (Z.mod_unique_pos _ _ 1); lia.
  - cbn [andb]. split; [done|lia].
Qed.

Lemma place_loop_spec data f p_offset size physical : forall (j : nat) (s : estate (S := S)),
  image f data -> 0 <= p_offset -> p_offset + size <= Z.of_nat (length data) -> PAGE_SIZE <= size ->
  (Z.of_nat (j + length physical) - 1) * PAGE_SIZE < size ->
  place_loop HIGH_VMA physical (Z.of_nat j) f (Some p_offset) 0 size s =
    (MkE (e_src s) (e_copies s ++ imap (fun k pa => (u64 (pa + HIGH_VMA), segment_page data p_offset size (j + k))) physical),
     Ok tt).
Proof.
  induction physical as [|pa physical IH]; intros j s Hf Ho He Hs Hj; cbn [place_loop length] in *.
  { cbn [imap]. rewrite app_nil_r. by destruct s. }
  pose proof Hf as (_ & _ & Hlen).
  assert (Hjs : Z.of_nat j * PAGE_SIZE < size) by (unfold PAGE_SIZE in *; lia).
  destruct (page_count size (Z.of_nat j)) as [Hp Hc]; [lia|lia|done|]. cbv zeta in Hp, Hc. rewrite Hp, Hc.
  set (cnt := Z.min PAGE_SIZE (size - Z.of_nat j * PAGE_SIZE)) in *.
  assert (Hcnt : 0 <= cnt <= size - Z.of_nat j * PAGE_SIZE) by (unfold cnt, PAGE_SIZE in *; lia).
  replace (if Z.of_nat j =? 0 then 0 else 0) with 0 by (by case_if).
  rewrite Z.sub_0_r, Z.add_0_r. rewrite s32_small by (unfold PAGE_SIZE in *; lia). rewrite (u64_small cnt) by lia.
  rewrite (elf64_read_eq f data) by (done || (unfold PAGE_SIZE in *; lia)).
  replace (available data (p_offset + Z.of_nat j * PAGE_SIZE) cnt) with cnt by (unfold available, PAGE_SIZE in *; lia).
  unfold cnt. rewrite <- segment_page_eq by lia.
  replace (Z.of_nat j + 1) with (Z.of_nat (Datatypes.S j)) by lia.
  rewrite (IH (Datatypes.S j)); [|done|done|done|done|lia]. cbn [e_src e_copies imap].
  rewrite <- app_assoc. cbn [app]. rewrite Nat.add_0_r. do 4 f_equal.
  apply imap_ext. intros k x _. cbn. do 2 f_equal. lia.
Qed.

Lemma segment_pages_aligned size :
  0 < size < 2 ^ 31 -> segment_pages 0 size = DIV_ROUNDUP size PAGE_SIZE.
Proof.
  intros Hs. unfold segment_pages, PAGE_SIZE in *. rewrite Z.add_0_l, (u64_small size), (u64_small (_ - 1)) by lia.
  change (u64 (Z.lnot (4096 - 1))) with (2 ^ 64 - 2 ^ 12). rewrite land_high by lia.
  pose proof (Z.mod_pos_bound (size + 4096 - 1) (2 ^ 12) ltac:(lia)) as Hm. change (2 ^ 12) with 4096 in *.
  case_if; [lia|done].
Qed.

Lemma segment_prot_ok flags : 0 <= segment_prot ELF_PF_W ELF_PF_X flags < 16 /\
  has (segment_prot ELF_PF_W ELF_PF_X flags) VM_PROT_PRESENT = true.
Proof. unfold segment_prot. do 2 case_if; done. Qed.

(** C39: loading a page-aligned segment of at least a page, present in the
    image and at addresses nothing larger is mapped at, with enough free
    frames, maps every page of it to a frame of its own with the segment's
    protection, copies to each frame exactly the bytes that belong on its
    page, and changes no other page of any address space. *)
Theorem elf64_map_correct (s : estate (S := S)) G f data hdr lower p_offset :
  let addr := u64 (h_vaddr hdr + lower) in
  let size := h_size hdr in
  let n := Z.to_nat (DIV_ROUNDUP size PAGE_SIZE) in
  let prot := segment_prot ELF_PF_W ELF_PF_X (h_flags hdr) in
  image f data -> addr mod PAGE_SIZE = 0 -> PAGE_SIZE <= size -> addr + size + PAGE_SIZE <= 2 ^ 64 ->
  h_offset hdr = Some p_offset -> 0 <= p_offset -> p_offset + size <= Z.of_nat (length data) ->
  pt_inv (e_src s) G -> G !! file_pmlt f = Some (top, 0) -> ps_avail (e_src s) (5 * n) -> Z.of_nat n <= 2 ^ 18 ->
  (forall i, 0 <= i < Z.of_nat n ->
     no_larger pml5_supported (ps_mem (e_src s)) (file_pmlt f) (addr + i * PAGE_SIZE) 1) ->
  exists s' G' fs,
    elf64_map pml5_supported gib_pages_supported HIGH_VMA ELF_PF_W ELF_PF_X (Some f) (Some hdr) lower true s = (s', Ok tt) /\
    length fs = n /\ fresh_range pml5_supported (e_src s) (e_src s') G G' (file_pmlt f) addr prot 0 fs /\
    e_copies s' = e_copies s ++ imap (fun j pa => (u64 (pa + HIGH_VMA), segment_page data p_offset size j)) fs.
Proof.
  intros addr size n prot Hf Hal Hs Hend Ho Hp0 Hpl HI HG Hav Hn Hnl.
  pose proof Hf as (_ & _ & Hlen). assert (Haddr : 0 <= addr) by (apply u64_range).
  assert (Hsz : 0 < size < 2 ^ 31) by (unfold PAGE_SIZE in *; lia).
  pose proof (div_roundup_spec size PAGE_SIZE ltac:(unfold PAGE_SIZE; lia) ltac:(lia) ltac:(unfold PAGE_SIZE; lia)) as Hd.
  assert (Hnz : Z.of_nat n = DIV_ROUNDUP size PAGE_SIZE) by (unfold n, PAGE_SIZE in *; lia).
  destruct (segment_prot_ok (h_flags hdr)) as [Hpr HP]. fold prot in Hpr, HP.
  destruct (map_fresh_spec pml5_supported gib_pages_supported (file_pmlt f) prot 0 n (e_src s) G addr)
    as (src & G' & fs & E & Hfs & HR); try done; [unfold PAGE_SIZE in *; lia|].
  assert (Hland : Z.land addr (PAGE_SIZE - 1) = 0).
  { change (PAGE_SIZE - 1) with (2 ^ 12 - 1). rewrite land_low by lia. exact Hal. }
  eexists (MkE src _), G', fs. split; [|split; [done|split; [exact HR|reflexivity]]].
  unfold elf64_map. fold addr size. rewrite Hland, segment_pages_aligned by done.
  rewrite (proj2 (Z.eqb_neq _ 0)) by (rewrite <- Hnz; unfold PAGE_SIZE in *; lia). fold n. rewrite Z.sub_0_r. fold prot.
  erewrite bind_ok by (unfold on_tables; rewrite E; reflexivity). rewrite Ho.
  rewrite (place_loop_spec data f p_offset size fs 0) by (done || (rewrite ?Hfs; unfold PAGE_SIZE in *; lia)). done.
Qed.

End ElfOk.

(** ** Witnesses and edges *)

Module ElfExamples.

Definition bytes (n : Z) : list Z := replicate (Z.to_nat n) 0x90.
Definition file (n : Z) : elf64_file_buffer := MkFile (Some (bytes n)) n 0x1000000.
Definition start : estate (S := bump_state) := MkE VirtualExamples.one_table [].
Definition load (hdr : elf_header) (f : elf64_file_buffer) : estate (S := bump_state) * cres unit :=
  elf64_map false true 0xffff800000000000 2 1 (Some f) (Some hdr) 0 true start.

End ElfExamples.
Import VirtualExamples ElfExamples.

Lemma file_image n : 0 <= n < 2 ^ 31 -> image (file n) (bytes n).
Proof. intros Hn. unfold image, bytes. rewrite length_replicate, Z2Nat.id by lia. split_and!; done || lia. Qed.

Lemma elf64_write_read_witness :
  exists f', elf64_write (Some (file 6)) (Some [1; 2; 3; 4]) 4 4 = Ok (2, f') /\
    elf64_read (Some f') true 4 4 = Ok (2, [1; 2]).
Proof.
  destruct (elf64_write_read (file 6) (bytes 6) [1; 2; 3; 4] 4 4) as (f' & data' & Ew & _ & _ & Er & _).
  - by apply file_image.
  - lia.
  - lia.
  - cbn. lia.
  - exists f'. split; [exact Ew|exact Er].
Defined.

(** A text segment of one page and a bit. *)
Lemma elf64_map_correct_witness :
  exists s' fs, load (MkHdr 0x400000 5000 1 (Some 512)) (file 6000) = (s', Ok tt) /\ length fs = 2%nat /\
    (e_copies s').*1 = (fun pa => u64 (pa + 0xffff800000000000)) <$> fs.
Proof.
  destruct (elf64_map_correct false true 0xffff800000000000 2 1 start one_typing (file 6000) (bytes 6000)
              (MkHdr 0x400000 5000 1 (Some 512)) 0 512) as (s' & G' & fs & E & Hl & _ & Hc).
  - by apply file_image.
  - reflexivity.
  - done.
  - done.
  - reflexivity.
  - done.
  - unfold bytes. rewrite length_replicate, Z2Nat.id; done.
  - exact one_table_inv.
  - reflexivity.
  - vm_compute. split; [reflexivity|discriminate].
  - vm_compute. discriminate.
  - intros i Hi. unfold no_larger, mapping, lookup_at. cbn [walk top].
    unfold rd. cbn [ps_mem bump_source bump_mem one_table start e_src]. rewrite !lookup_empty. done.
  - exists s', fs. split; [exact E|]. split; [exact Hl|]. rewrite Hc. cbn [e_copies start app].
    rewrite fmap_imap. rewrite <- imap_const. apply imap_ext. done.
Defined.

(** A segment smaller than a page is not loaded: the first copy computes a
    remainder by zero. *)
Lemma small_segment_faults : snd (load (MkHdr 0x400000 100 1 (Some 0)) (file 6000)) = Halt.
Proof. vm_compute. reflexivity. Qed.

(** A misaligned segment of two pages: the copies of the later pages start a
    page apart although the first was shorter, the third page gets nothing,
    and a fourth frame is overrun by a copy of the whole size. *)
Lemma misaligned_segment_overruns :
  (fun c => Z.of_nat (length c.2)) <$> e_copies (fst (load (MkHdr 0x400100 8192 1 (Some 0x100)) (file 32768))) =
    [3840; 4096; 0; 8192].
Proof. vm_compute. reflexivity. Qed.

(** A count that wraps with the offset is not cut to the image. *)
Lemma wrapped_read_overruns : elf64_read (Some (file 64)) true 16 (2 ^ 64 - 8) = Halt.
Proof. vm_compute. reflexivity. Qed.
