(* ===== verification/Portal.v ===== *)
(** * Portals ([mm/portal.c], [mm/portal.h])

    A portal is a region of an address space with a backing policy: direct,
    anonymous, shared, copy-on-write.  Portals hang in a binary search tree
    per page table; anonymous ones are backed page by page when a page fault
    is resolved.  Kernel objects live in a typed heap; a dereference of an
    object that is not there ends in [Halt]. *)

From S2P Require Import Prelude Aria PageSource Physical Paging Virtual.

Definition PORTAL_REQ_SHARE : Z := 2 ^ 0.
Definition PORTAL_REQ_DIRECT : Z := 2 ^ 1.
Definition PORTAL_REQ_ANON : Z := 2 ^ 2.
Definition PORTAL_REQ_COW : Z := 2 ^ 3.
Definition PORTAL_REQ_SP : Z := 2 ^ 4.
Definition PORTAL_REQ_CONTINUOUS : Z := 2 ^ 5.
Definition PORTAL_REQ_PEEK : Z := 2 ^ 6.
Definition PORTAL_RESP_FAILURE : Z := 2 ^ 0.
Definition PORTAL_RESP_SUCCESS : Z := 2 ^ 1.
Definition PORTAL_PROT_READ : Z := 2 ^ 0.
Definition PORTAL_PROT_WRITE : Z := 2 ^ 1.
Definition PORTAL_PROT_EXEC : Z := 2 ^ 2.
Definition LINK_CIRCULAR : Z := 2 ^ 0.
Definition LINK_VECTOR : Z := 2 ^ 1.
Definition LINK_RAW : Z := 2 ^ 2.
Definition LINK_CIRCULAR_MAGIC : Z := 0x9E810F7F.
Definition LINK_RAW_MAGIC : Z := 0xFF6C7D34.
Definition PORTAL_MAP_COW : Z := 2 ^ 9.
Definition PORTAL_MAP_SHARE : Z := 2 ^ 10.
Definition PORTAL_MAP_SP : Z := 2 ^ 11.

(** ** Data *)

Record portal_link := MkLink {
  link_length : Z;
  header_offset : Z;
  header_limit : Z;
  data_offset : Z;
  data_limit : Z;
  magic : Z;
}.

(** [sizeof(struct portal_link)]: eight packed 32-bit fields. *)
Definition sizeof_portal_link : Z := 32.

Record frame := MkFrame { fr_paddr : Z; fr_refcnt : Z }.

(** Pointers are numbers of objects; [None] is [NULL]. *)
Record page := MkPage {
  pg_vaddr : Z;
  pg_paddr : Z;
  pg_flags : Z;
  pg_frame : option Z;
  pg_pmle : option Z;
  pg_refcnt : option Z;
}.

Record gateway_orb := MkOrb {
  orb_identifier : list Z;
  orb_page_cnt : Z;
  orb_pages : Z;
}.

Record portal := MkPortal {
  po_type : Z;
  po_prot : Z;
  po_table : Z;
  po_orb : option Z;
  po_base : Z;
  po_limit : Z;
  po_flags : Z;
  po_pages : option (list (option Z));
}.

Record portal_req := MkReq {
  req_type : Z;
  req_prot : Z;
  share_identifier : option (list Z);
  share_create : bool;
  share_length : Z;
  share_type : Z;
  cow_source_capability : Z;
  cow_source_base : Z;
  cow_destination_base : Z;
  cow_limit : Z;
  morph_addr : Z;
  morph_length : Z;
  morph_paddr : Z;
  morph_pcnt : Z;
}.

Record portal_resp := MkResp {
  resp_base : Z;
  resp_limit : Z;
  resp_flags : Z;
  resp_paddr : Z;
  resp_pcnt : Z;
}.

(** Kernel objects obtained from [alloc]. *)
Inductive kobj :=
| OPage (p : page)
| OFrame (f : frame)
| OCount (n : Z)
| OPortal (p : portal)
| OOrb (o : gateway_orb)
| OBytes (l : list Z).

(** What the portal code stores in the memory of the region itself. *)
Inductive uobj :=
| ULink (l : portal_link)
| UQueue (data_off length obj_size : Z).

Section Portal.
Context {S : Type} `{PS : PageSource S} `{AB : AriaBase} `{AD : AriaDict} `{BS : AriaBst}.
Context (pml5_supported gib_pages_supported : bool).

Record page_table := MkPageTable {
  portal_root : ptree;
  pages : dictionary Z;
  has_page_entry : bool;   (* the function pointer [page_entry] is set *)
  pmlt : Z;
}.

Record pstate := MkP {
  p_src : S;                        (* frames and page tables *)
  p_heap : list bool;               (* which of the coming allocations succeed *)
  p_next : Z;                       (* number of the next object *)
  p_objs : gmap Z kobj;
  p_tables : gmap Z page_table;
  p_gateway : dictionary Z;         (* [portal_gateway_map] *)
  p_user : gmap Z uobj;             (* by virtual address *)
  p_resp : portal_resp;
}.

Definition set_src (s : pstate) x := MkP x (p_heap s) (p_next s) (p_objs s) (p_tables s) (p_gateway s) (p_user s) (p_resp s).
Definition set_objs (s : pstate) x := MkP (p_src s) (p_heap s) (p_next s) x (p_tables s) (p_gateway s) (p_user s) (p_resp s).
Definition set_tables (s : pstate) x := MkP (p_src s) (p_heap s) (p_next s) (p_objs s) x (p_gateway s) (p_user s) (p_resp s).
Definition set_gateway (s : pstate) x := MkP (p_src s) (p_heap s) (p_next s) (p_objs s) (p_tables s) x (p_user s) (p_resp s).
Definition set_user (s : pstate) x := MkP (p_src s) (p_heap s) (p_next s) (p_objs s) (p_tables s) (p_gateway s) x (p_resp s).
Definition set_resp (s : pstate) x := MkP (p_src s) (p_heap s) (p_next s) (p_objs s) (p_tables s) (p_gateway s) (p_user s) x.

Definition with_src {A} (m : M S A) : M pstate A := fun s =>
  let '(x, r) := m (p_src s) in (set_src s x, r).

(** Objects stored at consecutive numbers. *)
Fixpoint put_objs (a : Z) (l : list kobj) (m : gmap Z kobj) : gmap Z kobj :=
  match l with
  | [] => m
  | o :: l => <[a := o]> (put_objs (a + 1) l m)
  end.

(** [alloc]: the block holds whatever [l] says it held. *)
Definition alloc (l : list kobj) : M pstate (option Z) := fun s =>
  match p_heap s with
  | true :: h =>
      (MkP (p_src s) h (p_next s + Z.of_nat (length l)) (put_objs (p_next s) l (p_objs s))
           (p_tables s) (p_gateway s) (p_user s) (p_resp s), Ok (Some (p_next s)))
  | _ :: h =>
      (MkP (p_src s) h (p_next s) (p_objs s) (p_tables s) (p_gateway s) (p_user s) (p_resp s), Ok None)
  | [] => (s, Ok None)
  end.

(** [p = alloc(...); if (p == NULL) RETURN_ERROR;] *)
Definition alloc_or_fail (l : list kobj) : M pstate Z :=
  x ← alloc l; match x with Some a => mret a | None => fail end.

Definition free (a : Z) : M pstate unit := modify (fun s => set_objs s (delete a (p_objs s))).

Definition put (a : Z) (o : kobj) : M pstate unit := modify (fun s => set_objs s (<[a := o]> (p_objs s))).

Definition get_obj {A} (pick : kobj -> option A) (a : Z) : M pstate A := fun s =>
  match p_objs s !! a ≫= pick with Some x => (s, Ok x) | None => (s, Halt) end.

Definition get_page := get_obj (fun o => match o with OPage p => Some p | _ => None end).
Definition get_frame := get_obj (fun o => match o with OFrame p => Some p | _ => None end).
Definition get_count := get_obj (fun o => match o with OCount p => Some p | _ => None end).
Definition get_portal := get_obj (fun o => match o with OPortal p => Some p | _ => None end).
Definition get_orb := get_obj (fun o => match o with OOrb p => Some p | _ => None end).

Definition deref {A} (x : option A) : M pstate A := match x with Some a => mret a | None => halt end.

Definition get_table (t : Z) : M pstate page_table := fun s =>
  match p_tables s !! t with Some x => (s, Ok x) | None => (s, Halt) end.
Definition put_table (t : Z) (x : page_table) : M pstate unit :=
  modify (fun s => set_tables s (<[t := x]> (p_tables s))).

(** The contents of freshly allocated blocks. *)
Context (junk_page : page) (junk_portal : portal) (junk_count : Z).

Definition portal_translate_protections (permission : Z) : Z :=
  let ret := Z.lor (Z.lor X86_FLAGS_P X86_FLAGS_US) X86_FLAGS_NX in
  let ret := if has permission PORTAL_PROT_WRITE then Z.lor ret X86_FLAGS_RW else ret in
  if has permission PORTAL_PROT_EXEC then Z.land ret (u64 (Z.lnot X86_FLAGS_NX)) else ret.

(** [pmm_alloc(cnt, 1)] as the value the callers test. *)
Definition pmm_alloc (cnt : Z) : M S Z := fun s =>
  match ps_alloc s cnt 1 with
  | (s', Ok a) => (s', Ok a)
  | (s', Err) => (s', Ok ERROR_u64)
  | (s', Halt) => (s', Halt)
  end.

(** [dictionary_push(page_table->pages, &page->vaddr, page, 8)] *)
Definition push_page (t : Z) (vaddr pg : Z) : M pstate unit :=
  tbl ← get_table t;
  let '(d, ok) := dictionary_push (pages tbl) vaddr pg in
  put_table t (MkPageTable (portal_root tbl) d (has_page_entry tbl) (pmlt tbl));;
  if negb ok then fail else mret tt.

(** [page_table->page_entry(page_table, vaddr)] *)
Definition page_entry (tbl : page_table) (vaddr : Z) : M pstate (option Z) :=
  if has_page_entry tbl then with_src (amd64_page_entry pml5_supported (pmlt tbl) vaddr) else halt.

(** ** Page faults *)

(** The search of [portal_fault_anon] for the portal of [addr]. *)
Fixpoint fault_walk (objs : gmap Z kobj) (t : ptree) (addr : Z) : cres Z :=
  match t with
  | PLeaf => Err
  | PNode l n r =>
      match objs !! n with
      | Some (OPortal p) =>
          if has (po_type p) PORTAL_REQ_ANON &&
             (po_base p <=? addr) && (addr <=? u64 (po_base p + po_limit p))
          then Ok n
          else fault_walk objs (if addr <? po_base p then l else r) addr
      | _ => Halt
      end
  end.

(** [frame->paddr = pmm_alloc(1, 1); if (!paddr) RETURN_ERROR; frame->refcnt = 1;
    page->vaddr = vaddr], with the frame object allocated first. *)
Definition back_page (pg vaddr : Z) : M pstate unit :=
  f ← alloc_or_fail [OFrame (MkFrame 0 0)];
  p ← get_page pg;
  put pg (OPage (MkPage (pg_vaddr p) (pg_paddr p) (pg_flags p) (Some f) (pg_pmle p) (pg_refcnt p)));;
  paddr ← with_src (pmm_alloc 1);
  put f (OFrame (MkFrame paddr 0));;
  if paddr =? 0 then fail
  else
    put f (OFrame (MkFrame paddr 1));;
    put pg (OPage (MkPage vaddr (pg_paddr p) (pg_flags p) (Some f) (pg_pmle p) (pg_refcnt p))).

Definition fault_flags (prot : Z) : Z :=
  let flags := Z.lor VM_PROT_USER VM_PROT_PRESENT in
  let flags := if has prot PORTAL_PROT_WRITE then Z.lor flags VM_PROT_WRITE else flags in
  if has prot PORTAL_PROT_EXEC then Z.lor flags VM_PROT_EXECUTE else flags.

(** The page that will back [vaddr]: one of the share point's, or a new one. *)
Definition fault_page (root : portal) (vaddr : Z) : M pstate Z :=
  if has (po_type root) PORTAL_REQ_SHARE then
    match po_orb root with
    | None => fail
    | Some o =>
        orb ← get_orb o;
        let page_index := u64 (vaddr - po_base root) / PAGE_SIZE in
        if u64 (orb_page_cnt orb) <=? page_index then fail
        else
          let pg := orb_pages orb + page_index in
          p ← get_page pg;
          match pg_frame p with
          | None => back_page pg vaddr;; mret pg
          | Some f =>
              fr ← get_frame f;
              put f (OFrame (MkFrame (fr_paddr fr) (s32 (fr_refcnt fr + 1))));;
              mret pg
          end
    end
  else
    pg ← alloc_or_fail [OPage junk_page];
    back_page pg vaddr;;
    mret pg.

Definition portal_fault_anon (t : Z) (addr : Z) : M pstate unit :=
  tbl ← get_table t;
  match portal_root tbl with
  | PLeaf => fail
  | root =>
      n ← (fun s => (s, fault_walk (p_objs s) root addr));
      root ← get_portal n;
      let flags := fault_flags (po_prot root) in
      let misalignment := Z.land addr (PAGE_SIZE - 1) in
      let vaddr := addr - misalignment in
      pg ← fault_page root vaddr;
      p ← get_page pg;
      f ← deref (pg_frame p);
      fr ← get_frame f;
      with_src (pmap_map pml5_supported gib_pages_supported (pmlt tbl) (pg_vaddr p) (fr_paddr fr) flags 0);;
      push_page t (pg_vaddr p) pg
  end.

Definition portal_fault_share (t : Z) (pmle : option Z) (addr : Z) : M pstate unit := fail.
Definition portal_fault_sp (t : Z) (pmle : option Z) (addr : Z) : M pstate unit := fail.

(** The out-pointer handed to [dictionary_search] is [NULL]: if the search
    does not reject it, finding the key stores through it; [page] stays
    [NULL] and the function leaves with an error before its main part. *)
Definition portal_fault_cow (null_out_rejected : bool) (t : Z) (pmle : option Z) (addr : Z) : M pstate unit :=
  match pmle with
  | None => fail
  | Some _ =>
      tbl ← get_table t;
      match dictionary_search (pages tbl) addr with
      | Some _ => if null_out_rejected then fail else halt
      | None => fail
      end
  end.

(** [current] is [CORE_LOCAL->current_thread], given by the page table of its
    process's address space. *)
Definition portal_resolve_fault (null_out_rejected : bool) (current : option (option Z))
    (faulting_address error_code : Z) : M pstate unit :=
  match current with
  | None => fail
  | Some None => fail
  | Some (Some t) =>
      tbl ← get_table t;
      let faulting_page := Z.land faulting_address (u64 (Z.lnot 0xfff)) in
      pmle ← page_entry tbl faulting_page;
      entry ← match pmle with
              | None => mret 0
              | Some a => with_src (load a)
              end;
      (if has error_code X86_FLAGS_P then mret tt else portal_fault_anon t faulting_address);;
      (if has entry PORTAL_MAP_COW then portal_fault_cow null_out_rejected t pmle faulting_address else mret tt);;
      (if has entry PORTAL_MAP_SHARE then portal_fault_share t pmle faulting_address else mret tt);;
      (if has entry PORTAL_MAP_SP then portal_fault_sp t pmle faulting_address else mret tt)
  end.

(** ** Requests *)

Definition set_type (p : portal) (ty : Z) : portal :=
  MkPortal ty (po_prot p) (po_table p) (po_orb p) (po_base p) (po_limit p) (po_flags p) (po_pages p).
Definition set_orb (p : portal) (o : option Z) : portal :=
  MkPortal (po_type p) (po_prot p) (po_table p) o (po_base p) (po_limit p) (po_flags p) (po_pages p).

(** [portal->type |= flag] *)
Definition mark (po flag : Z) : M pstate unit :=
  p ← get_portal po; put po (OPortal (set_type p (Z.lor (po_type p) flag))).

(** The loop of [portal_handle_direct]: the page just allocated is used
    before any of its fields is set. *)
Fixpoint direct_loop (n : nat) (root prot : Z) : M pstate unit :=
  match n with
  | O => mret tt
  | Datatypes.S n =>
      pg ← alloc_or_fail [OPage junk_page];
      p ← get_page pg;
      f ← deref (pg_frame p);
      fr ← get_frame f;
      with_src (pmap_map pml5_supported gib_pages_supported root (pg_vaddr p) (fr_paddr fr)
                  (Z.lor prot VM_PROT_USER) 0);;
      direct_loop n root prot
  end.

Definition portal_handle_direct (po : Z) (req : portal_req) : M pstate unit :=
  p ← get_portal po;
  tbl ← get_table (po_table p);
  direct_loop (Z.to_nat (morph_pcnt req)) (pmlt tbl) (req_prot req);;
  mark po PORTAL_REQ_DIRECT.

(** [pmap_map(pmap, vaddr + i * PAGE_SIZE, paddr + i * PAGE_SIZE, prot, 0)] *)
Fixpoint continuous_loop (n : nat) (i root vaddr paddr prot : Z) : M S unit :=
  match n with
  | O => mret tt
  | Datatypes.S n =>
      pmap_map pml5_supported gib_pages_supported root (u64 (vaddr + i * PAGE_SIZE))
        (u64 (paddr + i * PAGE_SIZE)) prot 0;;
      continuous_loop n (i + 1) root vaddr paddr prot
  end.

(** The loop of [portal_handle_anon] that records the pages. *)
Fixpoint anon_loop (n : nat) (i t vaddr paddr permissions : Z) : M pstate unit :=
  match n with
  | O => mret tt
  | Datatypes.S n =>
      pg ← alloc_or_fail [OPage junk_page];
      tbl ← get_table t;
      pmle ← page_entry tbl (u64 (vaddr + i * PAGE_SIZE));
      c ← alloc [OCount junk_count];
      put pg (OPage (MkPage vaddr (if paddr =? 0 then pg_paddr junk_page else u64 (paddr + i * PAGE_SIZE))
                            permissions None pmle c));;
      match c with
      | None => fail
      | Some _ => push_page t vaddr pg;; anon_loop n (i + 1) t vaddr paddr permissions
      end
  end.

Definition portal_handle_anon (po : Z) (req : portal_req) : M pstate unit :=
  p ← get_portal po;
  tbl ← get_table (po_table p);
  let permissions := Z.land (portal_translate_protections (req_prot req)) (u64 (Z.lnot X86_FLAGS_P)) in
  let vaddr := morph_addr req in
  let n := Z.to_nat (morph_pcnt req) in
  paddr ← (if has (req_type req) PORTAL_REQ_CONTINUOUS
           then with_src (pmm_alloc (u64 (morph_pcnt req))) else mret 0);
  (if paddr =? 0 then mret tt
   else
     with_src (continuous_loop n 0 (pmlt tbl) vaddr paddr
                 (Z.land (Z.lor (req_prot req) VM_PROT_USER) (Z.lnot VM_PROT_PRESENT)));;
     mark po PORTAL_REQ_CONTINUOUS;;
     if has (req_type req) PORTAL_REQ_PEEK then
       modify (fun s => set_resp s (MkResp (resp_base (p_resp s)) (resp_limit (p_resp s))
                                           (resp_flags (p_resp s)) paddr (morph_pcnt req)));;
       mark po PORTAL_REQ_PEEK
     else mret tt);;
  anon_loop n 0 (po_table p) vaddr paddr
    (if paddr =? 0 then permissions else Z.lor permissions X86_FLAGS_P);;
  mark po PORTAL_REQ_ANON.

(** A store to [len] bytes of the region, at most a page: an address that is
    not mapped faults, and the fault handler does not resolve it. *)
Definition user_write (tbl : page_table) (addr len : Z) (o : uobj) : M pstate unit :=
  first ← with_src (pmap_translate pml5_supported (pmlt tbl) addr);
  last ← with_src (pmap_translate pml5_supported (pmlt tbl) (u64 (addr + len - 1)));
  match first, last with
  | Some _, Some _ => modify (fun s => set_user s (<[addr := o]> (p_user s)))
  | _, _ => halt
  end.

(** [sizeof(struct circular_queue)] *)
Context (sizeof_circular_queue : Z).

Definition circular_link (req : portal_req) : portal_link :=
  MkLink (u32 (morph_length req)) 0 sizeof_portal_link sizeof_portal_link
    (u32 (morph_length req - sizeof_portal_link - sizeof_circular_queue)) LINK_CIRCULAR_MAGIC.

Definition raw_link (req : portal_req) : portal_link :=
  MkLink (u32 (morph_length req)) 0 0 sizeof_portal_link
    (u32 (morph_length req - sizeof_portal_link)) LINK_RAW_MAGIC.

(** The layout of the link at the start of a new share point. *)
Definition share_link (tbl : page_table) (req : portal_req) : M pstate unit :=
  if has (share_type req) LINK_CIRCULAR then
    user_write tbl (morph_addr req) sizeof_portal_link (ULink (circular_link req));;
    if u64 (share_length req) =? 0 then halt
    else
      let queue_length :=
        s32 (u64 (morph_length req - sizeof_portal_link - sizeof_circular_queue) / u64 (share_length req)) in
      user_write tbl (u64 (morph_addr req + sizeof_portal_link)) sizeof_circular_queue
        (UQueue (sizeof_portal_link + sizeof_circular_queue) queue_length (share_length req))
  else if has (share_type req) LINK_RAW then
    user_write tbl (morph_addr req) sizeof_portal_link (ULink (raw_link req))
  else mret tt.

(** The pages of a direct share point are preset. *)
Fixpoint preset_pages (n : nat) (i pgs addr paddr : Z) : M pstate unit :=
  match n with
  | O => mret tt
  | Datatypes.S n =>
      p ← get_page (pgs + i);
      put (pgs + i) (OPage (MkPage (u64 (addr + i * PAGE_SIZE)) (u64 (paddr + i * PAGE_SIZE)) (pg_flags p)
                                   None (pg_pmle p) (pg_refcnt p)));;
      preset_pages n (i + 1) pgs addr paddr
  end.

(** A new share point, registered under its identifier. *)
Definition share_create_orb (po : Z) (req : portal_req) (identifier : list Z) : M pstate Z :=
  o ← alloc_or_fail [OOrb (MkOrb [] 0 0)];
  alloc_or_fail [OBytes identifier];;
  let page_cnt := s32 (DIV_ROUNDUP (morph_length req) PAGE_SIZE) in
  put o (OOrb (MkOrb identifier page_cnt 0));;
  pgs ← alloc_or_fail (replicate (Z.to_nat page_cnt) (OPage junk_page));
  put o (OOrb (MkOrb identifier page_cnt pgs));;
  d ← gets p_gateway;
  let '(d, ok) := dictionary_push d (bytes_key identifier) o in
  modify (fun s => set_gateway s d);;
  (if negb ok then fail else mret tt);;
  (if has (req_type req) PORTAL_REQ_DIRECT then
     preset_pages (Z.to_nat page_cnt) 0 pgs (morph_addr req) (morph_paddr req);;
     p ← get_portal po;
     if has (po_type p) PORTAL_REQ_DIRECT then mret tt else portal_handle_direct po req
   else mret tt);;
  p ← get_portal po;
  tbl ← get_table (po_table p);
  share_link tbl req;;
  mret o.

(** Every page of the share point is mapped into the requesting space. *)
Fixpoint share_map (n : nat) (i pgs root vaddr prot : Z) : M pstate unit :=
  match n with
  | O => mret tt
  | Datatypes.S n =>
      p ← get_page (pgs + i);
      paddr ← match pg_frame p with
              | None => mret (pg_paddr p)
              | Some f => fr ← get_frame f; mret (fr_paddr fr)
              end;
      with_src (pmap_map pml5_supported gib_pages_supported root vaddr paddr prot 0);;
      share_map n (i + 1) pgs root (u64 (vaddr + PAGE_SIZE)) prot
  end.

Definition portal_handle_share (po : Z) (req : portal_req) : M pstate unit :=
  identifier ← deref (share_identifier req);
  d ← gets p_gateway;
  o ← match dictionary_search d (bytes_key identifier) with
      | Some o => mret o
      | None => if share_create req then share_create_orb po req identifier else fail
      end;
  orb ← get_orb o;
  p ← get_portal po;
  tbl ← get_table (po_table p);
  share_map (Z.to_nat (orb_page_cnt orb)) 0 (orb_pages orb) (pmlt tbl) (morph_addr req) (req_prot req);;
  p ← get_portal po;
  put po (OPortal (set_orb p (Some o)));;
  mark po PORTAL_REQ_SHARE.

(** [abs] of an [unsigned long] difference: the argument is converted to
    [int], the result back. *)
Definition abs_diff (a b : Z) : Z := u64 (s32 (Z.abs (s32 (u64 (a - b))))).

Definition put_range (p : portal) (base limit : Z) : portal :=
  MkPortal (po_type p) (po_prot p) (po_table p) (po_orb p) base limit (po_flags p) (po_pages p).

(** [portal_copy_tree].  The search for the source portal does not move: it
    ends only if the root covers [base]. *)
Fixpoint portal_copy_tree (source_root root : ptree) (base limit : Z) : M pstate ptree :=
  match root with
  | PLeaf => mret PLeaf
  | PNode l n r =>
      let whole := 2 ^ 64 - 1 in
      if (base =? whole) && (limit =? whole) then
        region ← alloc [OPortal junk_portal];
        match region with
        | None => mret PLeaf
        | Some region =>
            p ← get_portal n;
            put region (OPortal p);;
            l' ← portal_copy_tree source_root l base limit;
            r' ← portal_copy_tree source_root r base limit;
            mret (PNode l' region r')
        end
      else if (base =? whole) || (limit =? whole) then mret PLeaf
      else
        match source_root with
        | PLeaf => halt
        | PNode sl sn sr =>
            src ← get_portal sn;
            if negb ((po_base src <=? base) && (base <=? u64 (po_base src + po_limit src))) then halt
            else
              region ← alloc [OPortal junk_portal];
              match region with
              | None => mret PLeaf
              | Some region =>
                  let gap := abs_diff (po_limit src) limit in
                  let limit' := u64 (po_limit src - gap) in
                  put region (OPortal (put_range src base limit'));;
                  if (limit' =? po_limit src) || (limit' =? limit) then mret (PNode sl region sr)
                  else
                    l' ← portal_copy_tree source_root l (u64 (base + gap)) (u64 (limit - gap));
                    r' ← portal_copy_tree source_root r (u64 (base + gap)) (u64 (limit - gap));
                    mret (PNode l' region r')
              end
        end
  end.

(** A page found for copying ends in [panic("not implemented")], unless the
    allocation before it fails.  [refcnt++] moves the pointer; a page without
    a frame skips it in the loop over a range, not in the loop over all
    pages. *)
Definition cow_page (whole : bool) (pg : Z) : M pstate unit :=
  p ← get_page pg;
  match pg_frame p with
  | None => mret tt
  | Some _ =>
      a ← deref (pg_pmle p);
      e ← with_src (load a);
      if has e PORTAL_MAP_SHARE then mret tt
      else
        with_src (store a (Z.lor (Z.land e (u64 (Z.lnot X86_FLAGS_RW))) PORTAL_MAP_COW));;
        put pg (OPage (MkPage (pg_vaddr p) (pg_paddr p)
          (Z.lor (Z.land (pg_flags p) (u64 (Z.lnot X86_FLAGS_RW))) PORTAL_MAP_COW)
          (pg_frame p) (pg_pmle p) (pg_refcnt p)))
  end;;
  (if whole || bool_decide (pg_frame p <> None) then
     p ← get_page pg;
     put pg (OPage (MkPage (pg_vaddr p) (pg_paddr p) (pg_flags p) (pg_frame p) (pg_pmle p)
                           ((fun c => c + 1) <$> pg_refcnt p)))
   else mret tt);;
  dest ← alloc_or_fail [OPage junk_page];
  halt.

(** The slots of a dictionary, [data\[0 .. capacity)]. *)
Context (dictionary_data : dictionary Z -> list (option Z)).

Fixpoint cow_slots (l : list (option Z)) : M pstate unit :=
  match l with
  | [] => mret tt
  | None :: l => cow_slots l
  | Some pg :: l => cow_page true pg;; cow_slots l
  end.

(** The loop over a range: a page that is missing leaves the addresses where
    they are ([src_page] is set by the search or keeps [stale]). *)
Fixpoint cow_range (n : nat) (stale : option Z) (d : dictionary Z) (src_vaddr : Z) : M pstate unit :=
  match n with
  | O => mret tt
  | Datatypes.S n =>
      match dictionary_search d src_vaddr, stale with
      | Some pg, _ | None, Some pg => cow_page false pg;; cow_range n stale d (u64 (src_vaddr + PAGE_SIZE))
      | None, None => cow_range n stale d src_vaddr
      end
  end.

(** [space_of] gives the page table that the object of a capability of the
    current process leads to; both spaces come from the source's. *)
Definition portal_handle_cow (space_of : Z -> option Z) (stale : option Z) (req : portal_req) : M pstate unit :=
  src ← deref (space_of (cow_source_capability req));
  dst ← deref (space_of (cow_source_capability req));
  let whole := 2 ^ 64 - 1 in
  tbl ← get_table src;
  if negb (eqb (cow_source_base req =? whole) (cow_destination_base req =? whole)) then fail
  else
    root ← (if cow_source_base req =? whole then
              cow_slots (dictionary_data (pages tbl));;
              tbl ← get_table src;
              portal_copy_tree (portal_root tbl) (portal_root tbl) whole whole
            else
              cow_range (Z.to_nat (DIV_ROUNDUP (cow_limit req) PAGE_SIZE)) stale (pages tbl) (cow_source_base req);;
              tbl ← get_table src;
              portal_copy_tree (portal_root tbl) (portal_root tbl) (cow_source_base req) (cow_limit req));
    tbl ← get_table dst;
    put_table dst (MkPageTable root (pages tbl) (has_page_entry tbl) (pmlt tbl));;
    match root with PLeaf => fail | _ => mret tt end.

Definition portal_handle_sp (po : Z) : M pstate unit := mark po PORTAL_REQ_SP.

(** [if (req->type & flag) if (handler == -1) goto failure;] *)
Definition on_flag (req : portal_req) (flag : Z) (m : M pstate unit) : M pstate unit :=
  if has (req_type req) flag then m else mret tt.

(** The key of the tree: the field [base] of the node. *)
Definition base_of (objs : gmap Z kobj) (n : Z) : Z :=
  match objs !! n with Some (OPortal p) => po_base p | _ => 0 end.

Definition portal_body (space_of : Z -> option Z) (stale : option Z) (t : option Z) (po : Z) (req : portal_req)
    : M pstate unit :=
  match t with
  | None => fail
  | Some t =>
      p ← get_portal po;
      put po (OPortal (MkPortal (po_type p) (req_prot req) t (po_orb p) (po_base p) (po_limit p)
                                (po_flags p) (po_pages p)));;
      tbl ← get_table t;
      objs ← gets p_objs;
      put_table t (MkPageTable (BST_GENERIC_INSERT (base_of objs) (portal_root tbl) po) (pages tbl)
                               (has_page_entry tbl) (pmlt tbl));;
      on_flag req PORTAL_REQ_DIRECT (portal_handle_direct po req);;
      on_flag req PORTAL_REQ_ANON (portal_handle_anon po req);;
      on_flag req PORTAL_REQ_SHARE (portal_handle_share po req);;
      on_flag req PORTAL_REQ_COW (portal_handle_cow space_of stale req);;
      on_flag req PORTAL_REQ_SP (portal_handle_sp po)
  end.

(** [goto failure]: the node is freed, and stays in the tree. *)
Definition on_failure {A} (m : M pstate A) (h : M pstate A) : M pstate A := fun s =>
  match m s with (s', Err) => h s' | r => r end.

Definition answer_resp (base limit flags : Z) : M pstate unit :=
  modify (fun s => set_resp s (MkResp base limit flags (resp_paddr (p_resp s)) (resp_pcnt (p_resp s)))).

(** [portal]: [current] is the page table of the current thread, [kernel]
    that of [kernel_mappings], used when there is no current thread. *)
Definition portal_call (space_of : Z -> option Z) (stale : option Z)
    (current : option (option Z)) (kernel : option Z) (req : portal_req) : M pstate unit :=
  po ← alloc_or_fail [OPortal junk_portal];
  put po (OPortal (put_range junk_portal (morph_addr req) (morph_length req)));;
  let t := match current with Some t => t | None => kernel end in
  on_failure
    (portal_body space_of stale t po req;;
     p ← get_portal po;
     answer_resp (po_base p) (po_limit p) (Z.lor PORTAL_RESP_SUCCESS (po_flags p)))
    (p ← get_portal po;
     answer_resp 0 0 (Z.lor PORTAL_RESP_FAILURE (po_flags p));;
     free po;;
     fail).

(** ** Destruction *)

(** [pmm_free] of the page source. *)
Context (pmm_free : S -> Z -> Z -> S).

Definition destroy_page (pg : Z) : M pstate unit :=
  p ← get_page pg;
  f ← deref (pg_frame p);
  fr ← get_frame f;
  let n := s32 (fr_refcnt fr - 1) in
  put f (OFrame (MkFrame (fr_paddr fr) n));;
  (if n =? 0 then modify (fun s => set_src s (pmm_free (p_src s) (fr_paddr fr) 1)) else mret tt);;
  c ← deref (pg_refcnt p);
  k ← get_count c;
  let k := s32 (k - 1) in
  put c (OCount k);;
  if k =? 0 then free pg else mret tt.

Fixpoint destroy_pages (l : list (option Z)) : M pstate unit :=
  match l with
  | [] => mret tt
  | None :: l => destroy_pages l
  | Some pg :: l => destroy_page pg;; destroy_pages l
  end.

Fixpoint portal_destroy (t : ptree) : M pstate unit :=
  match t with
  | PLeaf => mret tt
  | PNode l n r =>
      portal_destroy l;;
      portal_destroy r;;
      p ← get_portal n;
      slots ← deref (po_pages p);
      destroy_pages slots;;
      free n
  end.

End Portal.
