(* ===== verification/PortalOk.v ===== *)
(** * Portals: correctness

    The search for the portal of a faulting address agrees with a linear
    search over the portals, an anonymous request keeps the regions of a
    page table in order, and a fault in an anonymous region is answered with
    a fresh frame under the protection of that region. *)

From S2P Require Import Prelude Aria PageSource Physical Paging Virtual Portal.

(** ** The search tree *)

(** The specification of the search: the first portal, in the order of the
    tree, that is anonymous and contains the address. *)
Definition owns (objs : gmap Z kobj) (addr n : Z) : bool :=
  match objs !! n with
  | Some (OPortal p) =>
      has (po_type p) PORTAL_REQ_ANON && (po_base p <=? addr) && (addr <? po_base p + po_limit p)
  | _ => false
  end.

Definition linear_search (objs : gmap Z kobj) (t : ptree) (addr : Z) : cres Z :=
  match list_find (owns objs addr) (nodes t) with
  | Some (_, n) => Ok n
  | None => Err
  end.

(** The regions of a tree: proper portals, none empty, none past the end of
    the address space, no two of them overlapping. *)
Definition span (objs : gmap Z kobj) (n b e : Z) : Prop :=
  exists p, objs !! n = Some (OPortal p) /\ b = po_base p /\ e = po_base p + po_limit p.

Record regions_ok (objs : gmap Z kobj) (t : ptree) : Prop := {
  ro_bst : bst (base_of objs) t;
  ro_nodup : NoDup (nodes t);
  ro_span : forall n, n ∈ nodes t -> exists b e, span objs n b e /\ 0 <= b < e /\ e < 2 ^ 64;
  ro_disjoint : forall n m b e b' e', n ∈ nodes t -> m ∈ nodes t -> n <> m ->
    span objs n b e -> span objs m b' e' -> e <= b' \/ e' <= b;
}.

(** [addr] is not the end of a region. *)
Definition not_an_end (objs : gmap Z kobj) (t : ptree) (addr : Z) : Prop :=
  forall n b e, n ∈ nodes t -> span objs n b e -> addr <> e.

Lemma regions_sub objs l n r :
  regions_ok objs (PNode l n r) -> regions_ok objs l /\ regions_ok objs r.
Proof.
  intros [[Hl [Hr _]] Hnd Hs Hd]. cbn [nodes] in *.
  apply NoDup_app in Hnd as (Hndl & _ & Hndr). apply NoDup_cons in Hndr as [_ Hndr].
  split; constructor; try done; intros; first [apply Hs | eapply Hd]; eauto; set_solver.
Qed.

Lemma not_end_sub objs l n r addr :
  not_an_end objs (PNode l n r) addr -> not_an_end objs l addr /\ not_an_end objs r addr.
Proof. intros H. split; intros m b e Hm; apply (H m); cbn [nodes]; set_solver. Qed.

Lemma owns_span objs addr n : owns objs addr n = true -> exists b e, span objs n b e /\ b <= addr < e.
Proof.
  unfold owns, span. destruct (objs !! n) as [[| | |p| |]|]; try done. intros. zify_bools. eauto 10.
Qed.

(** An owner of the address other than the node lies on the side the search
    takes. *)
Lemma owner_side objs l n r addr m b e :
  regions_ok objs (PNode l n r) -> m ∈ nodes (PNode l n r) -> m <> n -> owns objs addr m = true ->
  span objs n b e -> m ∈ nodes (if addr <? b then l else r).
Proof.
  intros HR Hm Hmn Ho Hn. pose proof HR as [[_ [_ [Hl Hr]]] _ Hs Hd].
  destruct (owns_span _ _ _ Ho) as (b' & e' & Hsm & Ha).
  destruct (Hs n ltac:(cbn [nodes]; set_solver)) as (bn & en & Hsn & Hbn & _).
  assert (bn = b /\ en = e) as [-> ->] by (destruct Hsn as (? & ? & ?), Hn as (? & ? & ?); naive_solver).
  pose proof (Hd m n b' e' b e Hm ltac:(cbn [nodes]; set_solver) Hmn Hsm Hn) as Hdis.
  rewrite Forall_forall in Hl, Hr.
  assert (Hb : base_of objs n = b) by (unfold base_of; destruct Hn as (? & -> & ? & ?); congruence).
  assert (Hb' : base_of objs m = b') by (unfold base_of; destruct Hsm as (? & -> & ? & ?); congruence).
  cbn [nodes] in Hm. apply elem_of_app in Hm as [Hm|[->|Hm]%elem_of_cons]; [|done|].
  - pose proof (Hl m Hm). case_if; [done|]. exfalso. lia.
  - pose proof (Hr m Hm). case_if; [exfalso; lia|done].
Qed.

Lemma owner_unique objs t addr n m :
  regions_ok objs t -> n ∈ nodes t -> m ∈ nodes t -> owns objs addr n = true -> owns objs addr m = true -> n = m.
Proof.
  intros HR Hn Hm Ho Ho'. destruct (decide (n = m)) as [|Hne]; [done|].
  destruct (owns_span _ _ _ Ho) as (b & e & Hs & ?), (owns_span _ _ _ Ho') as (b' & e' & Hs' & ?).
  pose proof (ro_disjoint _ _ HR n m b e b' e' Hn Hm Hne Hs Hs'). lia.
Qed.

(** The search finds the owner, if there is one. *)
Lemma fault_walk_spec objs addr t :
  regions_ok objs t -> not_an_end objs t addr ->
  match fault_walk objs t addr with
  | Ok n => n ∈ nodes t /\ owns objs addr n = true
  | Err => forall n, n ∈ nodes t -> owns objs addr n = false
  | Halt => False
  end.
Proof.
  induction t as [|l IHl n r IHr]; intros HR He; cbn [fault_walk]; [by intros n ?%elem_of_nil|].
  destruct (regions_sub _ _ _ _ HR) as [HRl HRr], (not_end_sub _ _ _ _ _ He) as [Hel Her].
  destruct (ro_span _ _ HR n) as (b & e & Hsn & Hb & Hlt); [cbn [nodes]; set_solver|].
  pose proof Hsn as (p & Hp & -> & ->). rewrite Hp. rewrite u64_small by lia.
  pose proof (He n _ _ ltac:(cbn [nodes]; set_solver) Hsn) as Hne.
  destruct (has (po_type p) PORTAL_REQ_ANON && (po_base p <=? addr) && (addr <=? po_base p + po_limit p)) eqn:E.
  { split; [cbn [nodes]; set_solver|]. unfold owns. rewrite Hp. zify_bools. apply andb_true_iff.
    split; [apply andb_true_iff; split; [done|apply Z.leb_le; lia]|apply Z.ltb_lt; lia]. }
  assert (Hnot : owns objs addr n = false).
  { unfold owns. rewrite Hp. destruct (has _ _); cbn [andb] in *; [|done].
    destruct (po_base p <=? addr); cbn [andb] in *; [|done]. apply Z.ltb_ge. zify_bools. lia. }
  assert (Hside : forall m, m ∈ nodes (PNode l n r) -> owns objs addr m = true ->
            m ∈ nodes (if addr <? po_base p then l else r)).
  { intros m Hm Ho. eapply owner_side; [exact HR|done|intros ->; congruence|done|exact Hsn]. }
  clear E. assert (Hsub : forall m, m ∈ nodes (if addr <? po_base p then l else r) -> m ∈ nodes (PNode l n r)).
  { intros m. cbn [nodes]. case_if; set_solver. }
  assert (IH : match fault_walk objs (if addr <? po_base p then l else r) addr with
               | Ok m => m ∈ nodes (if addr <? po_base p then l else r) /\ owns objs addr m = true
               | Err => forall m, m ∈ nodes (if addr <? po_base p then l else r) -> owns objs addr m = false
               | Halt => False end).
  { destruct (addr <? po_base p); [exact (IHl HRl Hel)|exact (IHr HRr Her)]. }
  destruct (fault_walk objs (if addr <? po_base p then l else r) addr) as [m| |]; [|intros m Hm|done].
  - destruct IH. auto.
  - destruct (owns objs addr m) eqn:Ho; [|done]. rewrite <- Ho. auto.
Qed.

(** C23: for a page table whose portals are not empty, do not overlap and end
    below the top of the address space, the search of [portal_fault_anon]
    through the tree gives the same answer as looking at every portal, for
    every address that is not exactly the end of a region. *)
Theorem fault_walk_linear objs t addr :
  regions_ok objs t -> not_an_end objs t addr ->
  fault_walk objs t addr = linear_search objs t addr.
Proof.
  intros HR He. pose proof (fault_walk_spec objs addr t HR He) as Hw. unfold linear_search.
  destruct (list_find _ _) as [[i m]|] eqn:Ef.
  - apply list_find_Some in Ef as (Hi & Ho & _). apply list_elem_of_lookup_2 in Hi.
    apply Is_true_true_1 in Ho. destruct (fault_walk objs t addr) as [n| |]; [|by rewrite Hw in Ho|done].
    f_equal. destruct Hw. by apply (owner_unique objs t addr).
  - apply list_find_None in Ef. rewrite Forall_forall in Ef.
    destruct (fault_walk objs t addr) as [n| |]; [|done|done]. destruct Hw as [Hn Ho].
    exfalso. apply (Ef n Hn). by apply Is_true_true_2.
Qed.

(** ** Page faults *)

Section FaultOk.
Context {S : Type} {PS : PageSource S} {HPS : PageSourceOk S PS}.
Context {AB : AriaBase} {AD : AriaDict} {ADO : AriaDictOk AD} {BS : AriaBst} {BSO : AriaBstOk BS}.
Context (pml5_supported gib_pages_supported : bool).
Context (junk_page : page) (junk_portal : portal) (junk_count : Z).

Local Abbreviation top := (top pml5_supported).
Local Abbreviation pfx := (pfx pml5_supported).
Local Abbreviation mapping := (mapping pml5_supported).
Local Abbreviation pt_inv := (pt_inv pml5_supported).
Local Abbreviation maps_to := (maps_to pml5_supported).
Local Abbreviation pstate := (pstate (S := S)).

(** Frame zero is never handed out, and the numbers from [p_next] on are free. *)
Record heap_ok (s : pstate) : Prop := {
  ho_zero : ps_used (p_src s) 0;
  ho_fresh : forall i, p_next s <= i -> p_objs s !! i = None;
}.

(** The objects that existed are as they were. *)
Definition objs_kept (s s' : pstate) : Prop := forall i, i < p_next s -> p_objs s' !! i = p_objs s !! i.

Definition page_of (addr : Z) : Z := addr - addr mod PAGE_SIZE.

(** The page table entry that decides an address; zero if there is none. *)
Definition entry_of (s : pstate) (root va : Z) : Z :=
  match walk (ps_mem (p_src s)) top root va 0 with Some (_, a, _) => rd (ps_mem (p_src s)) a | None => 0 end.

Lemma alloc_eq (s : pstate) h l : p_heap s = true :: h ->
  alloc_or_fail l s =
    (MkP (p_src s) h (p_next s + Z.of_nat (length l)) (put_objs (p_next s) l (p_objs s))
         (p_tables s) (p_gateway s) (p_user s) (p_resp s), Ok (p_next s)).
Proof. intros Hh. unfold alloc_or_fail, alloc, mbind, M_bind, mret, M_ret. rewrite Hh. done. Qed.

Lemma get_obj_eq {A} (pick : kobj -> option A) (s : pstate) a o x :
  p_objs s !! a = Some o -> pick o = Some x -> get_obj pick a s = (s, Ok x).
Proof. intros Ho Hx. unfold get_obj. rewrite Ho. cbn. rewrite Hx. done. Qed.

Lemma set_src_same (s : pstate) : set_src s (p_src s) = s.
Proof. by destruct s. Qed.

Lemma with_src_eq {A} (m : M S A) (s : pstate) x r : m (p_src s) = (x, r) -> with_src m s = (set_src s x, r).
Proof. intros E. unfold with_src. rewrite E. done. Qed.

(** A page given a frame of its own. *)
Lemma back_page_spec (s : pstate) G pg p vaddr h n :
  p_heap s = true :: h -> p_objs s !! pg = Some (OPage p) -> pg <> p_next s ->
  pt_inv (p_src s) G -> ps_used (p_src s) 0 -> ps_avail (p_src s) (Datatypes.S n) ->
  exists src f objs,
    back_page pg vaddr s =
      (MkP src h (p_next s + 1) objs (p_tables s) (p_gateway s) (p_user s) (p_resp s), Ok tt) /\
    objs !! pg = Some (OPage (MkPage vaddr (pg_paddr p) (pg_flags p) (Some (p_next s)) (pg_pmle p) (pg_refcnt p))) /\
    objs !! p_next s = Some (OFrame (MkFrame f 1)) /\
    (forall i, i <> pg -> i <> p_next s -> objs !! i = p_objs s !! i) /\
    pt_inv src G /\ frame_addr f /\ ps_avail src n /\ ~ ps_used (p_src s) f /\ ps_used src f /\
    (forall x, ps_used (p_src s) x -> ps_used src x) /\
    (forall r va, G !! r = Some (top, 0) -> mapping (ps_mem src) r va = mapping (ps_mem (p_src s)) r va).
Proof.
  intros Hh Hpg Hne HI H0 Hav.
  destruct (alloc_value_spec pml5_supported (p_src s) G n HI Hav)
    as (src & f & Ea & HI' & Hf & Hav' & Hnew & Hused & Hmono & Hsame).
  assert (Hf0 : f <> 0) by (intros ->; auto).
  eexists src, f, _. split.
  - unfold back_page. rewrite (bind_ok _ _ _ _ _ (alloc_eq s h _ Hh)). cbn [length put_objs].
    erewrite bind_ok; [|eapply get_obj_eq; [cbn [p_objs]; rewrite lookup_insert_ne by done; exact Hpg|reflexivity]].
    erewrite bind_ok by reflexivity. cbn [set_objs p_objs p_src p_heap p_next p_tables p_gateway p_user p_resp].
    erewrite bind_ok by (apply with_src_eq; exact Ea).
    erewrite bind_ok by reflexivity. rewrite (proj2 (Z.eqb_neq f 0) Hf0).
    erewrite bind_ok by reflexivity. reflexivity.
  - cbn [set_objs set_src p_objs]. split_and!; try done.
    + by rewrite lookup_insert_eq.
    + by rewrite lookup_insert_ne, lookup_insert_eq.
    + intros i Hi Hi'. rewrite !lookup_insert_ne by done. done.
Qed.

Lemma walk_decides mem va l : forall t par l' a par',
  walk mem l t va par = Some (l', a, par') -> l' = 1%nat \/ large l' (rd mem a) = true.
Proof.
  induction l as [|l IH]; intros t par l' a par'; cbn [walk]; [done|].
  destruct ((Datatypes.S l =? 1)%nat || large (Datatypes.S l) _) eqn:E.
  - intros [= <- <- <-]. apply orb_true_iff in E as [E|E]; [left; by apply Nat.eqb_eq|by right].
  - destruct (has _ X86_FLAGS_P); [apply IH|done].
Qed.

Lemma entry_zero (s : pstate) root va : entry_of s root va = 0 -> mapping (ps_mem (p_src s)) root va = None.
Proof.
  unfold entry_of, Paging.mapping, lookup_at. destruct (walk _ _ root va 0) as [[[l a] par]|] eqn:E; [|done].
  intros H0. rewrite H0. apply walk_decides in E as [->|Hl]; [done|]. rewrite H0, zero_not_large in Hl. done.
Qed.

Lemma fault_flags_ok prot : 0 <= fault_flags prot < 16 /\ has (fault_flags prot) VM_PROT_PRESENT = true.
Proof. unfold fault_flags. destruct (has prot PORTAL_PROT_WRITE), (has prot PORTAL_PROT_EXEC); done. Qed.

Lemma push_page_spec (s : pstate) t tbl va pg :
  p_tables s !! t = Some tbl -> (dictionary_push (pages tbl) va pg).2 = true ->
  exists d, dictionary_search d va = Some pg /\
    push_page t va pg s =
      (set_tables s (<[t := MkPageTable (portal_root tbl) d (has_page_entry tbl) (pmlt tbl)]> (p_tables s)), Ok tt).
Proof.
  intros Ht Hok. unfold push_page. erewrite bind_ok by (unfold get_table; rewrite Ht; reflexivity).
  destruct (dictionary_push (pages tbl) va pg) as [d ok] eqn:Ed. cbn [snd] in Hok. subst ok.
  exists d. split; [|erewrite bind_ok by reflexivity; done].
  rewrite (dict_search_push _ _ _ _ va _ Ed), Z.eqb_refl. done.
Qed.

(** What a fault leaves behind when a new frame [f] backs the page. *)
Record fault_served (s s' : pstate) (G G' : gmap Z (nat * Z)) (t : Z) (tbl : page_table) (addr prot f : Z) : Prop := {
  fs_sub : G ⊆ G';
  fs_inv : pt_inv (p_src s') G';
  fs_fresh : ~ ps_used (p_src s) f /\ ps_used (p_src s') f;
  fs_map : maps_to (p_src s') (pmlt tbl) (page_of addr) (MkTrans f None (fault_flags prot));
  fs_frame : forall r va, G !! r = Some (top, 0) -> pfx 0 va <> pfx 0 (page_of addr) ->
    mapping (ps_mem (p_src s')) r va = mapping (ps_mem (p_src s)) r va;
  fs_table : exists d pg p fr,
    p_tables s' = <[t := MkPageTable (portal_root tbl) d (has_page_entry tbl) (pmlt tbl)]> (p_tables s) /\
    dictionary_search d (page_of addr) = Some pg /\ p_objs s' !! pg = Some (OPage p) /\
    pg_vaddr p = page_of addr /\ pg_frame p = Some fr /\ p_objs s' !! fr = Some (OFrame (MkFrame f 1));
  fs_objs : objs_kept s s';
  fs_heap : heap_ok s';
}.

(** The portal that owns the address, seen from its page table. *)
Record faults_in (s : pstate) (t : Z) (tbl : page_table) (n addr : Z) (po : portal) : Prop := {
  fi_table : p_tables s !! t = Some tbl;
  fi_regions : regions_ok (p_objs s) (portal_root tbl);
  fi_end : not_an_end (p_objs s) (portal_root tbl) addr;
  fi_node : n ∈ nodes (portal_root tbl);
  fi_portal : p_objs s !! n = Some (OPortal po);
  fi_anon : has (po_type po) PORTAL_REQ_ANON = true;
  fi_range : po_base po <= addr < po_base po + po_limit po;
}.

Lemma faults_walk (s : pstate) t tbl n addr po :
  faults_in s t tbl n addr po -> fault_walk (p_objs s) (portal_root tbl) addr = Ok n.
Proof.
  intros [_ HR He Hn Hp Ha Hr]. pose proof (fault_walk_spec _ _ _ HR He) as Hw.
  assert (Ho : owns (p_objs s) addr n = true).
  { unfold owns. rewrite Hp, Ha. cbn [andb]. apply andb_true_iff. split; [apply Z.leb_le|apply Z.ltb_lt]; lia. }
  destruct (fault_walk _ _ _) as [m| |]; [|by rewrite Hw in Ho|done]. destruct Hw.
  f_equal. by apply (owner_unique (p_objs s) (portal_root tbl) addr).
Qed.

Lemma fault_anon_spec (s : pstate) G t tbl n addr po h :
  faults_in s t tbl n addr po -> has (po_type po) PORTAL_REQ_SHARE = false -> 0 <= addr ->
  heap_ok s -> p_heap s = true :: true :: h ->
  pt_inv (p_src s) G -> G !! pmlt tbl = Some (top, 0) -> ps_avail (p_src s) 5 ->
  entry_of s (pmlt tbl) (page_of addr) = 0 ->
  (dictionary_push (pages tbl) (page_of addr) (p_next s)).2 = true ->
  exists s' G' f,
    portal_fault_anon pml5_supported gib_pages_supported junk_page t addr s = (s', Ok tt) /\
    fault_served s s' G G' t tbl addr (po_prot po) f.
Proof.
  intros HF Hsh Ha [H0 Hfr] Hh HI HG Hav He Hpush.
  pose proof (faults_walk _ _ _ _ _ _ HF) as Hw. destruct HF as [Ht _ _ _ Hpo _ _].
  assert (Hroot : portal_root tbl <> PLeaf) by (intros Hx; rewrite Hx in Hw; done).
  set (s1 := MkP (p_src s) (true :: h) (p_next s + 1) (<[p_next s := OPage junk_page]> (p_objs s))
               (p_tables s) (p_gateway s) (p_user s) (p_resp s)).
  destruct (back_page_spec s1 G (p_next s) junk_page (page_of addr) h 4)
    as (src & f & objs & Eb & Hpg & Hf & Hsame & HI1 & Hfa & Hav1 & Hnew & Hused & Hmono & Hmap);
    [done|by apply lookup_insert_eq|cbn; lia|done|done|done|]. cbn [p_src p_next p_objs s1] in *.
  destruct (fault_flags_ok (po_prot po)) as [Hfl HP].
  destruct (pmap_map_post pml5_supported gib_pages_supported src G (pmlt tbl) (page_of addr) f
              (fault_flags (po_prot po)) 0 0) as (src' & G' & par & E & Hsub & HI' & Hm & Hans & Hframe & _ & _ & Hmono');
    [done..| |done|done|done|].
  { unfold no_larger. rewrite Hmap, (entry_zero s) by done. done. }
  set (s2 := MkP src h (p_next s + 1 + 1) objs (p_tables s) (p_gateway s) (p_user s) (p_resp s)) in *.
  destruct (push_page_spec (set_src s2 src') t tbl (page_of addr) (p_next s) Ht Hpush) as (d & Hd & Ep).
  exists (set_tables (set_src s2 src')
    (<[t := MkPageTable (portal_root tbl) d (has_page_entry tbl) (pmlt tbl)]> (p_tables s))), G', f. split.
  - unfold portal_fault_anon. erewrite bind_ok by (unfold get_table; rewrite Ht; reflexivity).
    destruct (portal_root tbl) as [|l' n' r'] eqn:Er; [done|].
    erewrite bind_ok by (rewrite Hw; reflexivity).
    erewrite bind_ok by (eapply get_obj_eq; [exact Hpo|reflexivity]).
    change (PAGE_SIZE - 1) with (2 ^ 12 - 1). rewrite land_low by lia. change (2 ^ 12) with PAGE_SIZE.
    fold (page_of addr).
    erewrite bind_ok.
    2:{ unfold fault_page. rewrite Hsh. rewrite (bind_ok _ _ _ _ _ (alloc_eq s _ _ Hh)).
        cbn [length put_objs]. rewrite (bind_ok _ _ _ _ _ Eb). reflexivity. }
    erewrite bind_ok by (eapply get_obj_eq; [exact Hpg|reflexivity]).
    erewrite bind_ok by reflexivity.
    erewrite bind_ok by (eapply get_obj_eq; [exact Hf|reflexivity]). cbn [pg_vaddr fr_paddr].
    erewrite bind_ok by (apply with_src_eq; exact E). exact Ep.
  - clear Ep Hw Hroot. constructor; cbn [set_tables set_src s2 p_src p_tables p_objs p_next].
    + done.
    + done.
    + auto.
    + unfold Virtual.maps_to. rewrite Hm. cbn [fmap option_fmap option_map]. rewrite Hans. done.
    + intros r va Hr Hne. rewrite Hframe; auto.
    + eexists d, (p_next s), _, (p_next s + 1). split_and!; done.
    + intros i Hi. cbn [set_tables set_src s2 p_objs]. rewrite Hsame by lia. by rewrite lookup_insert_ne by lia.
    + constructor; cbn [set_tables set_src s2 p_src p_next p_objs]; [auto|]. intros i Hi.
      rewrite Hsame by lia. rewrite lookup_insert_ne by lia. apply Hfr. lia.
Qed.

Lemma page_entry_eq (s : pstate) tbl va :
  has_page_entry tbl = true ->
  page_entry pml5_supported tbl va s = (s, Ok ((fun x => x.1.2) <$> walk (ps_mem (p_src s)) top (pmlt tbl) va 0)).
Proof.
  intros Hp. unfold page_entry, with_src. rewrite Hp, amd64_page_entry_walk. destruct s; done.
Qed.

Lemma low_mask addr : 0 <= addr < 2 ^ 64 -> Z.land addr (u64 (Z.lnot 0xfff)) = page_of addr.
Proof.
  intros Ha. change (u64 (Z.lnot 0xfff)) with (2 ^ 64 - 2 ^ 12). rewrite land_high by lia. done.
Qed.

(** The steps of [portal_resolve_fault] before and after the search. *)
Lemma resolve_steps (s : pstate) rej t tbl addr err :
  p_tables s !! t = Some tbl -> has_page_entry tbl = true -> 0 <= addr < 2 ^ 64 ->
  has err X86_FLAGS_P = false -> entry_of s (pmlt tbl) (page_of addr) = 0 ->
  portal_resolve_fault pml5_supported gib_pages_supported junk_page rej (Some (Some t)) addr err s =
    (portal_fault_anon pml5_supported gib_pages_supported junk_page t addr ≫= (fun _ => mret tt)) s.
Proof.
  intros Ht Hp Ha Herr He. unfold portal_resolve_fault.
  erewrite bind_ok by (unfold get_table; rewrite Ht; reflexivity).
  rewrite low_mask, (bind_ok _ _ _ _ _ (page_entry_eq s tbl _ Hp)) by done.
  unfold entry_of in He. destruct (walk _ _ _ _ _) as [[[l a] par]|]; cbn [fmap option_fmap option_map fst snd];
    (erewrite bind_ok by (destruct s; reflexivity)); rewrite ?He, Herr, ?set_src_same;
    unfold mbind, M_bind; destruct (portal_fault_anon _ _ _ _ _ s) as [s' []]; done.
Qed.

(** A page table without [page_entry]. *)
Lemma resolve_null (s : pstate) rej t tbl addr err :
  p_tables s !! t = Some tbl -> has_page_entry tbl = false ->
  portal_resolve_fault pml5_supported gib_pages_supported junk_page rej (Some (Some t)) addr err s = (s, Halt).
Proof.
  intros Ht Hp. unfold portal_resolve_fault. erewrite bind_ok by (unfold get_table; rewrite Ht; reflexivity).
  unfold page_entry. rewrite Hp. done.
Qed.

(** C22: a page fault at an address inside an anonymous portal that is not
    shared, which is not also the end of a region, at a page nothing is mapped
    at, with memory, heap and dictionary space left.  On a page table without
    its [page_entry], that is on any but the kernel's, it calls a null
    pointer.  On one that has it the fault is resolved: the page is backed by
    a frame nobody used, mapped for user mode with the portal's protection,
    and recorded in the page table's dictionary; no other page translates
    differently in any address space that shares the tables, and no existing
    object changes. *)
Theorem portal_resolve_fault_correct (s : pstate) G rej t tbl n addr err po h :
  faults_in s t tbl n addr po -> has (po_type po) PORTAL_REQ_SHARE = false -> 0 <= addr < 2 ^ 64 ->
  has err X86_FLAGS_P = false ->
  heap_ok s -> p_heap s = true :: true :: h ->
  pt_inv (p_src s) G -> G !! pmlt tbl = Some (top, 0) -> ps_avail (p_src s) 5 ->
  entry_of s (pmlt tbl) (page_of addr) = 0 ->
  (dictionary_push (pages tbl) (page_of addr) (p_next s)).2 = true ->
  if has_page_entry tbl then
    exists s' G' f,
      portal_resolve_fault pml5_supported gib_pages_supported junk_page rej (Some (Some t)) addr err s = (s', Ok tt) /\
      fault_served s s' G G' t tbl addr (po_prot po) f
  else portal_resolve_fault pml5_supported gib_pages_supported junk_page rej (Some (Some t)) addr err s = (s, Halt).
Proof.
  intros HF Hsh Ha Herr Hho Hh HI HG Hav He Hpush.
  destruct (has_page_entry tbl) eqn:Hpe; [|by eapply resolve_null; [apply HF|]].
  destruct (fault_anon_spec s G t tbl n addr po h) as (s' & G' & f & E & Hs); try done; [lia|].
  exists s', G', f. split; [|done].
  rewrite (resolve_steps s rej t tbl addr err), (bind_ok _ _ _ _ _ E) by (try done; apply HF). done.
Qed.

(** What the search accepts as the portal of an address: its closed range. *)
Definition claims (objs : gmap Z kobj) (addr n : Z) : bool :=
  match objs !! n with
  | Some (OPortal p) => has (po_type p) PORTAL_REQ_ANON && (po_base p <=? addr) && (addr <=? u64 (po_base p + po_limit p))
  | _ => false
  end.

Definition all_portals (objs : gmap Z kobj) (t : ptree) : Prop :=
  forall n, n ∈ nodes t -> exists p, objs !! n = Some (OPortal p).

Lemma fault_walk_none objs addr t :
  all_portals objs t -> (forall n, n ∈ nodes t -> claims objs addr n = false) -> fault_walk objs t addr = Err.
Proof.
  intros Hp Hno. induction t as [|l IHl n r IHr]; cbn [fault_walk]; [done|]. unfold all_portals in *. cbn [nodes] in *.
  destruct (Hp n ltac:(set_solver)) as (p & E). pose proof (Hno n ltac:(set_solver)) as H. unfold claims in H. rewrite E in *.
  rewrite H. case_if; [apply IHl|apply IHr]; intros m Hm; [apply Hp|apply Hno|apply Hp|apply Hno]; set_solver.
Qed.

(** C37: a fault on a page nothing is mapped at, at an address that lies in no
    anonymous portal of the tree and is not the end of one either (the search
    takes the end of a region as part of it), changes nothing: it is an error
    when the page table has its [page_entry], as only the kernel's has, and a
    call through a null pointer when it has not. *)
Theorem portal_resolve_fault_error (s : pstate) rej t tbl addr err :
  p_tables s !! t = Some tbl -> 0 <= addr < 2 ^ 64 ->
  has err X86_FLAGS_P = false -> entry_of s (pmlt tbl) (page_of addr) = 0 ->
  all_portals (p_objs s) (portal_root tbl) ->
  (forall n, n ∈ nodes (portal_root tbl) -> claims (p_objs s) addr n = false) ->
  portal_resolve_fault pml5_supported gib_pages_supported junk_page rej (Some (Some t)) addr err s =
    (s, if has_page_entry tbl then Err else Halt).
Proof.
  intros Ht Ha Herr He Hp Hno. destruct (has_page_entry tbl) eqn:Hpe; [|by apply (resolve_null s rej t tbl)].
  rewrite (resolve_steps s rej t tbl addr err) by done.
  unfold portal_fault_anon at 1. unfold mbind at 1, M_bind at 1.
  erewrite bind_ok by (unfold get_table; rewrite Ht; reflexivity).
  pose proof (fault_walk_none _ _ _ Hp Hno) as Hw.
  destruct (portal_root tbl) as [|l n r]; [done|]. unfold mbind at 1, M_bind at 1. by rewrite Hw.
Qed.

(** ** Anonymous requests *)

Lemma bst_ext key key' t : bst key t -> (forall x, x ∈ nodes t -> key x = key' x) -> bst key' t.
Proof.
  induction t as [|l IHl n r IHr]; cbn [bst nodes]; [done|]. intros (Hl & Hr & Hfl & Hfr) Hk.
  split_and!; [apply IHl|apply IHr|..]; try done; try (intros; apply Hk; set_solver);
    rewrite Forall_forall in *; intros x Hx; rewrite <- !Hk by set_solver; auto.
Qed.

(** Adding a region that overlaps no other. *)
Lemma regions_insert objs objs' t n b e key :
  regions_ok objs t -> n ∉ nodes t -> (forall m, m ∈ nodes t -> objs' !! m = objs !! m) ->
  span objs' n b e -> 0 <= b < e -> e < 2 ^ 64 ->
  (forall m b' e', m ∈ nodes t -> span objs m b' e' -> e <= b' \/ e' <= b) ->
  (forall m, m = n \/ m ∈ nodes t -> key m = base_of objs' m) ->
  regions_ok objs' (BST_GENERIC_INSERT key t n).
Proof.
  intros [Hb Hnd Hs Hd] Hn Hk Hsp Hbe He Hdis Hkey. pose proof (bst_insert_nodes key t n) as HP.
  assert (Hmem : forall m, m ∈ nodes (BST_GENERIC_INSERT key t n) <-> m = n \/ m ∈ nodes t).
  { intros m. rewrite HP. apply elem_of_cons. }
  assert (Hspan : forall m b' e', m ∈ nodes t -> span objs' m b' e' <-> span objs m b' e').
  { intros m b' e' Hm. unfold span. rewrite Hk by done. done. }
  assert (Hfun : forall b' e', span objs' n b' e' -> b' = b /\ e' = e).
  { intros b' e' (? & ? & ? & ?). destruct Hsp as (? & ? & ? & ?). naive_solver. }
  constructor.
  - eapply bst_ext; [apply bst_insert_ok|intros m Hm; apply Hkey, Hmem; done].
    eapply bst_ext; [exact Hb|]. intros m Hm. rewrite Hkey by auto. unfold base_of. rewrite Hk by done. done.
  - rewrite HP. by constructor.
  - intros m [->|Hm]%Hmem; [eauto|]. destruct (Hs m Hm) as (b' & e' & ? & ? & ?).
    exists b', e'. rewrite Hspan by done. done.
  - intros m m' b1 e1 b2 e2 Hm Hm' Hne H1 H2. apply Hmem in Hm, Hm'.
    destruct Hm as [->|Hm], Hm' as [->|Hm']; [done| | |].
    + apply Hfun in H1 as [-> ->]. apply (Hdis m' b2 e2 Hm'). by apply Hspan.
    + apply Hfun in H2 as [-> ->]. apply or_comm, (Hdis m b1 e1 Hm). by apply Hspan.
    + apply (Hd m m' b1 e1 b2 e2); try done; by apply Hspan.
Qed.

(** Room in every dictionary. *)
Context (dictionary_room : forall A (d : dictionary A) k v, (dictionary_push d k v).2 = true).

Definition with_pages (tbl : page_table) (d : dictionary Z) : page_table :=
  MkPageTable (portal_root tbl) d (has_page_entry tbl) (pmlt tbl).

(** The records of the pages change the dictionary and new objects only. *)
Lemma anon_loop_spec t vaddr paddr perm h n : forall i (s : pstate) tbl,
  p_tables s !! t = Some tbl -> has_page_entry tbl = true \/ n = 0%nat -> p_heap s = replicate (2 * n) true ++ h ->
  (forall j, p_next s <= j -> p_objs s !! j = None) ->
  exists d next objs,
    anon_loop pml5_supported junk_page junk_count n i t vaddr paddr perm s =
      (MkP (p_src s) h next objs (<[t := with_pages tbl d]> (p_tables s)) (p_gateway s) (p_user s) (p_resp s), Ok tt) /\
    p_next s <= next /\ (forall j, j < p_next s -> objs !! j = p_objs s !! j) /\
    (forall j, next <= j -> objs !! j = None).
Proof.
  induction n as [|n IH]; intros i s tbl Ht Hpe Hh Hfr.
  { exists (pages tbl), (p_next s), (p_objs s). split_and!; [|lia|done|done]. cbn [anon_loop].
    rewrite insert_id by (rewrite Ht; by destruct tbl). destruct s; cbn in *. by subst. }
  destruct Hpe as [Hpe|]; [|done].
  replace (2 * Datatypes.S n)%nat with (Datatypes.S (Datatypes.S (2 * n))) in Hh by lia.
  change (p_heap s = true :: true :: (replicate (2 * n) true ++ h)) in Hh.
  cbn [anon_loop]. rewrite (bind_ok _ _ _ _ _ (alloc_eq s _ _ Hh)). cbn [length put_objs].
  erewrite bind_ok by (unfold get_table; cbn [p_tables]; rewrite Ht; reflexivity).
  erewrite bind_ok by (apply page_entry_eq; done).
  erewrite bind_ok by reflexivity. cbn [length put_objs p_src p_next p_objs p_tables p_gateway p_user p_resp].
  erewrite bind_ok by reflexivity.
  cbv beta iota. match goal with |- context [(push_page t vaddr (p_next s) ≫= _) ?s1] =>
    destruct (push_page_spec s1 t tbl vaddr (p_next s) Ht (dictionary_room _ _ _ _)) as (d & _ & Ep) end.
  unfold mbind at 1, M_bind at 1. rewrite Ep.
  match goal with |- context [anon_loop _ _ _ n (i + 1) t vaddr paddr perm ?s1] =>
    destruct (IH (i + 1) s1 (with_pages tbl d)) as (d' & next & objs & E & Hle & Hk & Hf) end;
    [by apply lookup_insert_eq|by left|done| |].
  { cbn [set_tables set_objs p_next p_objs]. intros j Hj. rewrite !lookup_insert_ne by lia. apply Hfr. lia. }
  exists d', next, objs. split_and!.
  - rewrite E. cbn [set_tables set_objs p_src p_tables p_gateway p_user p_resp]. rewrite insert_insert_eq. done.
  - cbn [set_tables set_objs p_next] in Hle. lia.
  - intros j Hj. rewrite Hk by (cbn [set_tables set_objs p_next]; lia). cbn [set_tables set_objs p_objs].
    rewrite !lookup_insert_ne by lia. done.
  - done.
Qed.

(** Without [page_entry] the first page is one too many. *)
Lemma anon_loop_null t vaddr paddr perm h n i (s : pstate) tbl :
  p_tables s !! t = Some tbl -> has_page_entry tbl = false -> p_heap s = true :: h ->
  exists s', anon_loop pml5_supported junk_page junk_count (Datatypes.S n) i t vaddr paddr perm s = (s', Halt).
Proof.
  intros Ht Hpe Hh. cbn [anon_loop]. rewrite (bind_ok _ _ _ _ _ (alloc_eq s _ _ Hh)).
  erewrite bind_ok by (unfold get_table; cbn [p_tables]; rewrite Ht; reflexivity).
  erewrite bind_halt by (unfold page_entry; rewrite Hpe; reflexivity). by eexists.
Qed.

Lemma mark_eq (s : pstate) po p flag : p_objs s !! po = Some (OPortal p) ->
  mark po flag s = (set_objs s (<[po := OPortal (set_type p (Z.lor (po_type p) flag))]> (p_objs s)), Ok tt).
Proof. intros Hp. unfold mark. erewrite bind_ok by (eapply get_obj_eq; [exact Hp|reflexivity]). done. Qed.

(** A request for demand-paged memory and nothing else. *)
Definition plain_anon (req : portal_req) : Prop :=
  has (req_type req) PORTAL_REQ_ANON = true /\ has (req_type req) PORTAL_REQ_CONTINUOUS = false /\
  has (req_type req) PORTAL_REQ_DIRECT = false /\ has (req_type req) PORTAL_REQ_SHARE = false /\
  has (req_type req) PORTAL_REQ_COW = false /\ has (req_type req) PORTAL_REQ_SP = false.

(** The portal such a request leaves behind. *)
Definition anon_portal (t : Z) (req : portal_req) : portal :=
  MkPortal (Z.lor (po_type junk_portal) PORTAL_REQ_ANON) (req_prot req) t (po_orb junk_portal)
    (morph_addr req) (morph_length req) (po_flags junk_portal) (po_pages junk_portal).

Lemma handle_anon_spec (s : pstate) t tbl po p req h :
  has (req_type req) PORTAL_REQ_CONTINUOUS = false ->
  p_objs s !! po = Some (OPortal p) -> po_table p = t -> po < p_next s ->
  p_tables s !! t = Some tbl -> has_page_entry tbl = true \/ morph_pcnt req <= 0 ->
  p_heap s = replicate (2 * Z.to_nat (morph_pcnt req)) true ++ h ->
  (forall j, p_next s <= j -> p_objs s !! j = None) ->
  exists d next objs,
    portal_handle_anon pml5_supported gib_pages_supported junk_page junk_count po req s =
      (MkP (p_src s) h next objs (<[t := with_pages tbl d]> (p_tables s)) (p_gateway s) (p_user s) (p_resp s), Ok tt) /\
    p_next s <= next /\
    objs !! po = Some (OPortal (set_type p (Z.lor (po_type p) PORTAL_REQ_ANON))) /\
    (forall j, j < p_next s -> j <> po -> objs !! j = p_objs s !! j) /\
    (forall j, next <= j -> objs !! j = None).
Proof.
  intros Hc Hpo Hpt Hlt Ht Hpe Hh Hfr. subst t. unfold portal_handle_anon.
  erewrite bind_ok by (eapply get_obj_eq; [exact Hpo|reflexivity]).
  erewrite bind_ok by (unfold get_table; rewrite Ht; reflexivity). rewrite Hc.
  erewrite bind_ok by reflexivity. erewrite bind_ok by reflexivity.
  destruct (anon_loop_spec (po_table p) (morph_addr req) 0
     (Z.land (portal_translate_protections (req_prot req)) (u64 (Z.lnot X86_FLAGS_P))) h
     (Z.to_nat (morph_pcnt req)) 0 s tbl Ht ltac:(destruct Hpe; [by left|right; lia]) Hh Hfr) as (d & next & objs & E & Hle & Hk & Hf).
  rewrite (bind_ok _ _ _ _ _ E). erewrite mark_eq by (cbn [p_objs]; rewrite Hk by lia; exact Hpo).
  eexists d, next, _. split; [reflexivity|]. split_and!; [done| | |].
  - by rewrite lookup_insert_eq.
  - intros j Hj Hne. rewrite lookup_insert_ne by done. auto.
  - intros j Hj. rewrite lookup_insert_ne by lia. auto.
Qed.

(** The portal with the request's protection and page table. *)
Definition claimed (p : portal) (t : Z) (req : portal_req) : portal :=
  MkPortal (po_type p) (req_prot req) t (po_orb p) (po_base p) (po_limit p) (po_flags p) (po_pages p).

(** For a plain request the body is [portal_handle_anon] once the portal is
    claimed and in the tree. *)
Definition entered (s : pstate) (t : Z) (tbl : page_table) (po : Z) (p : portal) (req : portal_req) : pstate :=
  let objs := <[po := OPortal (claimed p t req)]> (p_objs s) in
  set_tables (set_objs s objs) (<[t := MkPageTable (BST_GENERIC_INSERT (base_of objs) (portal_root tbl) po) (pages tbl)
                                        (has_page_entry tbl) (pmlt tbl)]> (p_tables s)).

Lemma portal_body_plain (s : pstate) cq dd sp st t tbl po p req :
  plain_anon req -> p_objs s !! po = Some (OPortal p) -> p_tables s !! t = Some tbl ->
  portal_body pml5_supported gib_pages_supported junk_page junk_portal junk_count cq dd sp st (Some t) po req s =
    portal_handle_anon pml5_supported gib_pages_supported junk_page junk_count po req (entered s t tbl po p req).
Proof.
  intros (Ha & Hc & Hd & Hs & Hcow & Hsp) Hpo Ht. unfold portal_body.
  erewrite bind_ok by (eapply get_obj_eq; [exact Hpo|reflexivity]).
  erewrite bind_ok by reflexivity.
  erewrite bind_ok by (unfold get_table; cbn [set_objs p_tables]; rewrite Ht; reflexivity).
  erewrite bind_ok by reflexivity. erewrite bind_ok by reflexivity.
  cbn [set_objs set_tables p_objs p_tables]. fold (claimed p t req).
  unfold on_flag. rewrite Ha, Hd, Hs, Hcow, Hsp. erewrite bind_ok by reflexivity.
  unfold mbind at 1, M_bind at 1. fold (entered s t tbl po p req).
  match goal with |- context [portal_handle_anon ?a ?b ?c ?d ?e ?f ?x] => change x with (entered s t tbl po p req) end.
  by destruct (portal_handle_anon _ _ _ _ _ _ _) as [s' [[]| |]].
Qed.

Lemma portal_body_anon (s : pstate) cq dd sp st t tbl po p req h :
  plain_anon req -> p_objs s !! po = Some (OPortal p) -> po < p_next s ->
  p_tables s !! t = Some tbl -> has_page_entry tbl = true \/ morph_pcnt req <= 0 ->
  p_heap s = replicate (2 * Z.to_nat (morph_pcnt req)) true ++ h ->
  (forall j, p_next s <= j -> p_objs s !! j = None) ->
  let key := base_of (<[po := OPortal (claimed p t req)]> (p_objs s)) in
  exists d next objs,
    portal_body pml5_supported gib_pages_supported junk_page junk_portal junk_count cq dd sp st (Some t) po req s =
      (MkP (p_src s) h next objs
        (<[t := MkPageTable (BST_GENERIC_INSERT key (portal_root tbl) po) d (has_page_entry tbl) (pmlt tbl)]> (p_tables s))
        (p_gateway s) (p_user s) (p_resp s), Ok tt) /\
    p_next s <= next /\
    objs !! po = Some (OPortal (set_type (claimed p t req) (Z.lor (po_type p) PORTAL_REQ_ANON))) /\
    (forall j, j < p_next s -> j <> po -> objs !! j = p_objs s !! j) /\
    (forall j, next <= j -> objs !! j = None).
Proof.
  intros Hreq Hpo Hlt Ht Hpe Hh Hfr key. rewrite (portal_body_plain s cq dd sp st t tbl po p req Hreq Hpo Ht).
  set (s1 := entered s t tbl po p req).
  destruct (handle_anon_spec s1 t (MkPageTable (BST_GENERIC_INSERT key (portal_root tbl) po) (pages tbl)
      (has_page_entry tbl) (pmlt tbl)) po (claimed p t req) req h) as (d & next & objs & E & Hle & Hp & Hk & Hf);
    [apply Hreq|by apply lookup_insert_eq|done|done|by apply lookup_insert_eq|done|done| |].
  { cbn. intros j Hj. rewrite lookup_insert_ne by lia. apply Hfr. lia. }
  unfold s1, entered in *. cbn [set_objs set_tables p_next p_objs p_src p_tables p_gateway p_user p_resp] in *.
  rewrite insert_insert_eq in E. exists d, next, objs. split_and!; [exact E|done|done| |done].
  intros j Hj Hne. rewrite Hk by done. by rewrite lookup_insert_ne.
Qed.

(** The same on a table without [page_entry]: the request calls a null
    pointer. *)
Lemma portal_call_null (s : pstate) cq dd sp st cur ker t tbl req h :
  plain_anon req -> match cur with Some t => t | None => ker end = Some t ->
  p_tables s !! t = Some tbl -> has_page_entry tbl = false -> 0 < morph_pcnt req -> p_heap s = true :: true :: h ->
  snd (portal_call pml5_supported gib_pages_supported junk_page junk_portal junk_count cq dd sp st cur ker req s) = Halt.
Proof.
  intros Hreq Hcur Ht Hpe Hn Hh.
  unfold portal_call. rewrite (bind_ok _ _ _ _ _ (alloc_eq s _ _ Hh)). cbn [length put_objs].
  erewrite bind_ok by reflexivity. rewrite Hcur. unfold on_failure.
  match goal with |- context [(portal_body _ _ _ _ _ _ _ _ _ _ _ _ ≫= _) ?x] => set (s1 := x) end.
  set (p0 := put_range junk_portal (morph_addr req) (morph_length req)).
  assert (Hp0 : p_objs s1 !! p_next s = Some (OPortal p0)) by apply lookup_insert_eq.
  set (s2 := entered s1 t tbl (p_next s) p0 req).
  assert (E : exists s', portal_handle_anon pml5_supported gib_pages_supported junk_page junk_count (p_next s) req s2 = (s', Halt)).
  { unfold portal_handle_anon. erewrite bind_ok by (eapply get_obj_eq; [by apply lookup_insert_eq|reflexivity]).
    cbn [po_table claimed]. erewrite bind_ok by (unfold get_table, s2; cbn; rewrite lookup_insert_eq; reflexivity).
    destruct Hreq as (_ & Hc & _). rewrite Hc. erewrite bind_ok by reflexivity. erewrite bind_ok by reflexivity.
    replace (Z.to_nat (morph_pcnt req)) with (Datatypes.S (Z.to_nat (morph_pcnt req - 1))) by lia.
    edestruct (fun perm tbl' => anon_loop_null t (morph_addr req) 0 perm h (Z.to_nat (morph_pcnt req - 1)) 0 s2 tbl') as (s' & Es);
      [unfold s2, entered; cbn; apply lookup_insert_eq|exact Hpe|reflexivity|].
    eexists. eapply bind_halt. exact Es. }
  destruct E as (s' & E). erewrite bind_halt; [done|]. by rewrite (portal_body_plain s1 cq dd sp st t tbl (p_next s) p0 req Hreq Hp0 Ht).
Qed.

(** C38: a request for demand-paged anonymous memory and nothing else
    (neither contiguous nor shared, direct or copied), for a region inside
    the address space that overlaps no region of the page table, with enough
    memory in the heap and the dictionary.  On a page table without its
    [page_entry], that is on any but the kernel's, a request for a page or
    more calls a null pointer.  Otherwise it succeeds: it answers with the
    region, adds one portal with the protection asked for to the search tree,
    keeps the tree's regions in order and apart, and touches neither the page
    tables nor any object that existed. *)
Theorem portal_anon_correct (s : pstate) cq dd sp st cur ker t tbl req h :
  plain_anon req -> match cur with Some t => t | None => ker end = Some t ->
  p_tables s !! t = Some tbl ->
  heap_ok s -> p_heap s = true :: replicate (2 * Z.to_nat (morph_pcnt req)) true ++ h ->
  regions_ok (p_objs s) (portal_root tbl) ->
  0 <= morph_addr req -> 0 < morph_length req -> morph_addr req + morph_length req < 2 ^ 64 ->
  (forall m b e, m ∈ nodes (portal_root tbl) -> span (p_objs s) m b e ->
     morph_addr req + morph_length req <= b \/ e <= morph_addr req) ->
  if has_page_entry tbl || (morph_pcnt req <=? 0) then
  exists s' tbl',
    portal_call pml5_supported gib_pages_supported junk_page junk_portal junk_count cq dd sp st cur ker req s =
      (s', Ok tt) /\
    p_resp s' = MkResp (morph_addr req) (morph_length req) (Z.lor PORTAL_RESP_SUCCESS (po_flags junk_portal))
                       (resp_paddr (p_resp s)) (resp_pcnt (p_resp s)) /\
    p_src s' = p_src s /\ heap_ok s' /\ objs_kept s s' /\
    p_tables s' = <[t := tbl']> (p_tables s) /\ pmlt tbl' = pmlt tbl /\ has_page_entry tbl' = has_page_entry tbl /\
    nodes (portal_root tbl') ≡ₚ p_next s :: nodes (portal_root tbl) /\
    p_objs s' !! p_next s = Some (OPortal (anon_portal t req)) /\
    regions_ok (p_objs s') (portal_root tbl')
  else snd (portal_call pml5_supported gib_pages_supported junk_page junk_portal junk_count cq dd sp st cur ker req s) = Halt.
Proof.
  intros Hreq Hcur Ht [H0 Hfr] Hh HR Hb Hl Hend Hdis. destruct (has_page_entry tbl || _) eqn:Hor.
  2: { apply orb_false_iff in Hor as [Hpe Hn]. zify_bools. destruct (Z.to_nat (morph_pcnt req)) as [|n] eqn:En; [lia|].
       replace (2 * Datatypes.S n)%nat with (Datatypes.S (Datatypes.S (2 * n))) in Hh by lia.
       eapply (portal_call_null s cq dd sp st cur ker t tbl req); [done|done|done|done|lia|exact Hh]. }
  assert (Hpe : has_page_entry tbl = true \/ morph_pcnt req <= 0) by (apply orb_true_iff in Hor; rewrite Z.leb_le in Hor; done).
  assert (Hnew : forall m, m ∈ nodes (portal_root tbl) -> m < p_next s).
  { intros m Hm. destruct (ro_span _ _ HR m Hm) as (b & e & (p & Hp & _) & _).
    destruct (Z.lt_ge_cases m (p_next s)); [done|]. rewrite Hfr in Hp; done. }
  unfold portal_call. rewrite (bind_ok _ _ _ _ _ (alloc_eq s _ _ Hh)). cbn [length put_objs].
  erewrite bind_ok by reflexivity. rewrite Hcur. unfold on_failure.
  cbn [set_objs p_src p_heap p_next p_objs p_tables p_gateway p_user p_resp]. rewrite insert_insert_eq.
  set (p0 := put_range junk_portal (morph_addr req) (morph_length req)).
  match goal with |- context [(portal_body _ _ _ _ _ _ _ _ _ _ _ _ ≫= _) ?x] => set (s1 := x) end.
  destruct (portal_body_anon s1 cq dd sp st t tbl (p_next s) p0 req h) as (d & next & objs & E & Hle & Hpo & Hk & Hf);
    [done|by apply lookup_insert_eq|cbn; lia|done|done|done| |].
  { unfold s1. cbn [set_objs p_next p_objs]. intros j Hj. rewrite lookup_insert_ne by lia. apply Hfr. lia. }
  unfold s1 in *. clear s1. cbn [set_objs p_next p_objs p_src p_tables p_gateway p_user p_resp] in *.
  erewrite bind_ok by exact E.
  erewrite bind_ok by (eapply get_obj_eq; [exact Hpo|reflexivity]).
  eexists _, _. split; [reflexivity|]. cbn [answer_resp].
  cbn [set_resp p_src p_resp p_next p_objs p_tables portal_root pmlt has_page_entry].
  assert (Hkept : forall j, j < p_next s -> objs !! j = p_objs s !! j).
  { intros j Hj. rewrite Hk by lia. by rewrite lookup_insert_ne by lia. }
  split_and!; try done.
  - apply bst_insert_nodes.
  - apply (regions_insert (p_objs s) _ _ _ (morph_addr req) (morph_addr req + morph_length req)); [done|intros ?%Hnew; lia|auto| |lia|exact Hend|eauto|].
    + eexists. split; [exact Hpo|]. done.
    + intros m Hm. unfold base_of. destruct (decide (m = p_next s)) as [->|Hne].
      * rewrite lookup_insert_eq, Hpo. done.
      * destruct Hm as [->|Hm]; [done|]. rewrite !lookup_insert_ne, Hkept by auto. done.
Qed.

End FaultOk.

(** ** Witnesses and consequences *)

Module PortalExamples.

Definition junk_page : page := MkPage 0 0 0 None None None.
Definition junk_portal : portal := MkPortal 0 0 0 None 0 0 0 None.

(** The kernel's table at 16 MiB, no portal yet. *)
Definition table0 : page_table := MkPageTable PLeaf dict_empty true 0x1000000.
Definition boot (heap : list bool) : pstate (S := bump_state) :=
  MkP (MkBump 0x1001000 [0x1000000; 0] ∅) heap 100 ∅ {[1 := table0]} dict_empty ∅ (MkResp 0 0 0 0 0).

Definition anon_req (addr length prot : Z) : portal_req :=
  MkReq PORTAL_REQ_ANON prot None false 0 0 0 0 0 0 addr length 0 0.

Definition slots (d : @dictionary dict_ref Z) : list (option Z) :=
  (fun kv => Some kv.2) <$> map_to_list (M := gmap Z Z) d.

Definition request (req : portal_req) : M (pstate (S := bump_state)) unit :=
  portal_call false true junk_page junk_portal 0 64 slots (fun _ => None) None (Some (Some 1)) (Some 1) req.

End PortalExamples.
Import VirtualExamples PortalExamples.

Lemma boot_inv heap : pt_inv false (p_src (boot heap)) one_typing.
Proof.
  constructor.
  - constructor; [done|]. repeat constructor; done.
  - apply one_table_inv.
  - intros t x. unfold one_typing. rewrite lookup_singleton_Some. intros [<- _]. by left.
Qed.

Lemma boot_heap heap : heap_ok (boot heap).
Proof. constructor; [right; left|]. intros i _. apply lookup_empty. Qed.

Lemma empty_regions objs : regions_ok objs PLeaf.
Proof. constructor; [done|constructor|..]; intros *; intros ?%elem_of_nil; done. Qed.

Lemma dict_room A (d : @dictionary dict_ref A) k v : (dictionary_push d k v).2 = true.
Proof. done. Qed.

Lemma portal_anon_correct_witness :
  exists s', request (anon_req 0x400000 0x4000 7) (boot [true; true; true]) = (s', Ok tt) /\
    p_resp s' = MkResp 0x400000 0x4000 2 0 0.
Proof.
  destruct (portal_anon_correct false true junk_page junk_portal 0 dict_room
              (boot [true; true; true]) 64 slots
              (fun _ => None) None (Some (Some 1)) (Some 1) 1 table0 (anon_req 0x400000 0x4000 7) [true; true])
    as (s' & tbl' & E & Hr & _);
    [done|done|reflexivity|apply boot_heap|reflexivity|apply empty_regions|done|done|done|by intros m b e ?%elem_of_nil|].
  exists s'. split; [exact E|exact Hr].
Defined.

(** One portal of four pages at 4 MiB, readable and writable. *)
Definition one_portal : portal := MkPortal PORTAL_REQ_ANON 3 1 None 0x400000 0x4000 0 None.
Definition one_region : pstate (S := bump_state) :=
  MkP (MkBump 0x1001000 [0x1000000; 0] ∅) [true; true] 101 {[100 := OPortal one_portal]}
    {[1 := MkPageTable (PNode PLeaf 100 PLeaf) dict_empty true 0x1000000]} dict_empty ∅ (MkResp 0 0 0 0 0).
Definition one_region_table : page_table := MkPageTable (PNode PLeaf 100 PLeaf) dict_empty true 0x1000000.

Lemma one_span n b e : span (p_objs one_region) n b e -> n = 100 /\ b = 0x400000 /\ e = 0x404000.
Proof.
  intros (p & Hp & -> & ->). cbn [p_objs one_region] in Hp. apply lookup_singleton_Some in Hp as [<- Hp].
  injection Hp as <-. done.
Qed.

Lemma one_region_ok : regions_ok (p_objs one_region) (PNode PLeaf 100 PLeaf).
Proof.
  constructor.
  - cbn. done.
  - apply NoDup_singleton.
  - intros n ->%list_elem_of_singleton. exists 0x400000, 0x404000. split; [|lia]. exists one_portal. done.
  - intros n m b e b' e' ->%list_elem_of_singleton ->%list_elem_of_singleton. done.
Qed.

Lemma one_not_end addr : addr <> 0x404000 -> not_an_end (p_objs one_region) (PNode PLeaf 100 PLeaf) addr.
Proof. intros Ha n b e _ (_ & _ & ->)%one_span. done. Qed.

Lemma fault_walk_linear_witness :
  fault_walk (p_objs one_region) (PNode PLeaf 100 PLeaf) 0x401234 = Ok 100 /\
  fault_walk (p_objs one_region) (PNode PLeaf 100 PLeaf) 0x401234 =
    linear_search (p_objs one_region) (PNode PLeaf 100 PLeaf) 0x401234.
Proof.
  split; [reflexivity|]. apply fault_walk_linear; [apply one_region_ok|by apply one_not_end].
Defined.

Lemma one_region_entry va : entry_of false one_region 0x1000000 va = 0.
Proof.
  unfold entry_of. cbn [walk top]. unfold rd. cbn [ps_mem bump_source bump_mem one_region p_src].
  rewrite !lookup_empty. done.
Qed.

Lemma portal_resolve_fault_correct_witness :
  exists s' f, portal_resolve_fault false true junk_page true (Some (Some 1)) 0x401234 6 one_region = (s', Ok tt) /\
    maps_to false (p_src s') 0x1000000 0x401000 (MkTrans f None 11).
Proof.
  destruct (portal_resolve_fault_correct false true junk_page one_region one_typing true 1 one_region_table
              100 0x401234 6 one_portal []) as (s' & G' & f & E & Hs); cbn [has_page_entry one_region_table].
  - constructor; [reflexivity|apply one_region_ok|by apply one_not_end|left|reflexivity|reflexivity|cbn; lia].
  - reflexivity.
  - lia.
  - reflexivity.
  - constructor; [right; left|]. cbn [p_next p_objs one_region]. intros i Hi. apply lookup_singleton_None. lia.
  - reflexivity.
  - apply (boot_inv []).
  - reflexivity.
  - split; done.
  - apply one_region_entry.
  - reflexivity.
  - exists s', f. split; [exact E|apply Hs].
Defined.

Lemma portal_resolve_fault_error_witness :
  portal_resolve_fault false true junk_page true (Some (Some 1)) 0x500000 6 one_region = (one_region, Err).
Proof.
  apply (portal_resolve_fault_error false true junk_page one_region true 1 one_region_table 0x500000 6);
    [reflexivity|lia|reflexivity|apply one_region_entry| |]; intros n ->%list_elem_of_singleton; [by eexists|reflexivity].
Defined.

(** *** What the code does at its edges *)

(** A region that starts where another ends: the fault at its first byte is
    served by the lower region when that one is met first. *)
Definition touching : gmap Z kobj :=
  {[100 := OPortal one_portal; 101 := OPortal (MkPortal PORTAL_REQ_ANON 1 1 None 0x404000 0x4000 0 None)]}.

Lemma fault_at_shared_end :
  fault_walk touching (PNode PLeaf 100 (PNode PLeaf 101 PLeaf)) 0x404000 = Ok 100 /\
  linear_search touching (PNode PLeaf 100 (PNode PLeaf 101 PLeaf)) 0x404000 = Ok 101.
Proof. split; reflexivity. Qed.

(** With no frame left, [pmm_alloc] answers -1, the test for zero passes and
    the fault counts as resolved. *)
Lemma fault_without_memory :
  snd (portal_resolve_fault false true junk_page true (Some (Some 1)) 0x401234 6
         (set_src one_region (MkBump (2 ^ 52) [0x1000000; 0] ∅))) = Ok tt.
Proof. vm_compute. reflexivity. Qed.

(** Only the kernel's page table has its [page_entry] set: the same fault
    through another table calls a null pointer. *)
Lemma fault_in_process_table :
  snd (portal_resolve_fault false true junk_page true (Some (Some 1)) 0x401234 6
         (set_tables one_region {[1 := MkPageTable (PNode PLeaf 100 PLeaf) dict_empty false 0x1000000]})) = Halt.
Proof. reflexivity. Qed.

(** A direct request for at least one page dereferences the frame of a page
    whose fields were never set. *)
Lemma direct_uses_unset_page :
  snd (request (MkReq PORTAL_REQ_DIRECT 3 None false 0 0 0 0 0 0 0x400000 0x1000 0xfe000000 1)
               (boot [true; true])) = Halt.
Proof. vm_compute. reflexivity. Qed.

(** A continuous anonymous request answers success, but maps its pages not
    present: none of them translates. *)
Lemma continuous_not_present :
  let r := request (MkReq (Z.lor PORTAL_REQ_ANON PORTAL_REQ_CONTINUOUS) 3 None false 0 0 0 0 0 0 0x400000 0x1000 0 1)
             (boot [true; true; true]) in
  snd r = Ok tt /\ snd (pmap_translate false 0x1000000 0x400000 (p_src (fst r))) = Ok None.
Proof. split; vm_compute; reflexivity. Qed.

(** The pages of an anonymous request are all recorded under its first
    address. *)
Lemma anon_pages_one_key :
  let r := request (MkReq PORTAL_REQ_ANON 3 None false 0 0 0 0 0 0 0x400000 0x3000 0 3)
             (boot [true; true; true; true; true; true; true]) in
  snd r = Ok tt /\ (fun t => map_to_list (M := gmap Z Z) (pages t)) <$> (p_tables (fst r) !! 1) = Some [(0x400000, 105)].
Proof. split; vm_compute; reflexivity. Qed.

(** A failed request frees its portal but leaves it in the tree: the next
    search walks into freed memory. *)
Lemma failure_leaves_node :
  let r := request (MkReq PORTAL_REQ_SHARE 3 (Some [97; 98]) false 0 0 0 0 0 0 0x400000 0x1000 0 0) (boot [true]) in
  snd r = Err /\
  portal_root <$> (p_tables (fst r) !! 1) = Some (PNode PLeaf 100 PLeaf) /\ p_objs (fst r) !! 100 = None /\
  snd (portal_resolve_fault false true junk_page true (Some (Some 1)) 0x500000 6 (fst r)) = Halt.
Proof. split_and!; vm_compute; reflexivity. Qed.

(** The second address space that touches a page of a share point gets it at
    the address of the first. *)
Definition shared_page : gmap Z kobj :=
  {[100 := OPortal (MkPortal (Z.lor PORTAL_REQ_ANON PORTAL_REQ_SHARE) 3 1 (Some 101) 0x400000 0x1000 0 None);
    101 := OOrb (MkOrb [97] 1 102); 102 := OPage (MkPage 0x700000 0 0 (Some 103) None None);
    103 := OFrame (MkFrame 0x1500000 1)]}.

Lemma shared_fault_wrong_address :
  let r := portal_resolve_fault false true junk_page true (Some (Some 1)) 0x400000 6 (set_objs one_region shared_page) in
  snd r = Ok tt /\
  snd (pmap_translate false 0x1000000 0x400000 (p_src (fst r))) = Ok None /\
  snd (pmap_translate false 0x1000000 0x700000 (p_src (fst r))) = Ok (Some (MkTrans 0x1500000 None 11)).
Proof. split_and!; vm_compute; reflexivity. Qed.

(** A copy-on-write fault is never resolved. *)
Lemma cow_fault_never_resolved {S} {PS : PageSource S} {AD : AriaDict} rej t pmle addr (s : pstate (S := S)) :
  snd (portal_fault_cow rej t pmle addr s) <> Ok tt.
Proof.
  unfold portal_fault_cow, get_table, mbind, M_bind. destruct pmle; [|done].
  destruct (p_tables s !! t) as [tbl|]; [|done]. destruct (dictionary_search _ _); [by destruct rej|done].
Qed.

(** Copying a range whose first address the root of the source tree does not
    cover never returns. *)
Lemma copy_tree_endless :
  snd (portal_copy_tree junk_portal (PNode PLeaf 100 PLeaf) (PNode PLeaf 100 PLeaf) 0x600000 0x1000 one_region) = Halt.
Proof. reflexivity. Qed.
