(* ===== verification/Notify.v ===== *)
(** * Notifications ([core/notification.c], [core/notification.h])

    Every thread has a queue of notifications: 32 numbers with room for eight
    pending ones each, a word of pending numbers and a mask.  Dispatching
    turns the first one that may be served into a context that runs the
    handler of its number.  Threads, contexts and notifications are objects
    named by numbers. *)

From S2P Require Import Prelude Aria Physical.

Definition NOTIFICATION_MAX : Z := 32.
Definition NOTIFICATION_PENDING_CAPACITY : Z := 8.
Definition NOTIFICATION_MASK (n : Z) : Z := Z.shiftl 1 (n - 1).
Definition NOTIFICATION_INDEX (n : Z) : Z := n - 1.

(** ** Data *)

Record notification_parameter := MkPar { par_vaddr : Z; par_paddr : Z; par_page_cnt : Z }.

Record notification := MkNot {
  n_refcnt : Z;
  notnum : Z;
  n_weight : Z;
  serviced : bool;
  serviceable : bool;
  n_done : bool;
  parameter : notification_parameter;
  n_info : Z;
  n_queue : option Z;
  source : option Z;
}.

Record nqueue := MkNq {
  slots : list (list (option Z));
  nq_active : bool;
  pending : Z;
  mask : Z;
}.

(** [regs_*] are the registers a new context starts with. *)
Record context := MkCtx {
  ctx_notification : option Z;
  ctx_thread : Z;
  ctx_last : option Z;
  blocking : bool;
  regs_rip : Z;
  regs_rsp : Z;
  regs_rdi : Z;
  regs_rsi : Z;
  regs_rdx : Z;
}.

(** [actions] are the handlers by number. *)
Record nthread := MkNt {
  nt_queue : option Z;
  actions : list Z;
  context_top : option Z;
  context_active : option Z;
}.

(** [struct comm_bridge], as the system calls use it. *)
Record comm_bridge := MkBridge {
  destination : Z;
  br_not : Z;
  br_weight : Z;
  data_base : Z;
  data_limit : Z;
  lnkidx : Z;
}.

Record ustack := MkStack { user_sp : Z; user_size : Z; kernel_sp : Z; kernel_size : Z }.

(** Address spaces, stacks, capabilities and contexts: what the macros and
    routines outside of the file do, and the constants of their headers. *)
Class NotifyEnv (E : Type) := {
  USTACK_CLAIM : Z -> M E (option ustack);
  USTACK_PUSH : Z -> ustack -> M E unit;
  (** maps a page in the address space of a thread *)
  ne_pmap_map : Z -> Z -> Z -> M E unit;
  (** makes an anonymous region and gives its base *)
  ne_portal : Z -> Z -> M E Z;
  ne_pmm_alloc : Z -> M E Z;
  (** access and object of a binding of the current thread *)
  ne_capability_lookup : Z -> M E (option (Z * option Z));
  search_thread : Z -> M E (option Z);
  (** the contexts of a thread; [None] is [-1] *)
  CONTEXT_PUSH : Z -> Z -> gmap Z context -> option (gmap Z context);
  destroy_context : Z -> Z -> gmap Z context -> option (gmap Z context);
  delivery_queue_push : list Z -> Z -> option (list Z);
  delivery_queue_remove : list Z -> Z -> option (list Z);
  CONTEXT_DEFAULT_STACK_SIZE : Z;
  ne_HIGH_VMA : Z;
  NOTIFY_WEIGHT_INSTANTANEOUS : Z;
  NOTIFY_WEIGHT_TICK : Z;
  (** what [alloc] leaves in fresh objects *)
  junk_note : notification;
  junk_context : context;
}.

Section Notify.
Context {AB : AriaBase} {E : Type} {NE : NotifyEnv E}.

Record nstate := MkN {
  notes : gmap Z notification;
  queues : gmap Z nqueue;
  ctxs : gmap Z context;
  threads : gmap Z nthread;
  delivery : list Z;
  n_next : Z;
  n_heap : list bool;   (* which of the coming allocations succeed *)
  current : Z;          (* the thread that runs *)
  n_env : E;
}.

Definition set_notes (s : nstate) x := MkN x (queues s) (ctxs s) (threads s) (delivery s) (n_next s) (n_heap s) (current s) (n_env s).
Definition set_queues (s : nstate) x := MkN (notes s) x (ctxs s) (threads s) (delivery s) (n_next s) (n_heap s) (current s) (n_env s).
Definition set_ctxs (s : nstate) x := MkN (notes s) (queues s) x (threads s) (delivery s) (n_next s) (n_heap s) (current s) (n_env s).
Definition set_threads (s : nstate) x := MkN (notes s) (queues s) (ctxs s) x (delivery s) (n_next s) (n_heap s) (current s) (n_env s).
Definition set_delivery (s : nstate) x := MkN (notes s) (queues s) (ctxs s) (threads s) x (n_next s) (n_heap s) (current s) (n_env s).
Definition set_env (s : nstate) x := MkN (notes s) (queues s) (ctxs s) (threads s) (delivery s) (n_next s) (n_heap s) (current s) x.

Definition with_env {A} (m : M E A) : M nstate A := fun s => let '(e, r) := m (n_env s) in (set_env s e, r).

(** A pointer dereference; a pointer to nothing is wild. *)
Definition deref {A} (f : nstate -> gmap Z A) (n : Z) : M nstate A := fun s =>
  match f s !! n with Some x => (s, Ok x) | None => (s, Halt) end.
Definition put_note (n : Z) (x : notification) : M nstate unit := modify (fun s => set_notes s (<[n := x]> (notes s))).
Definition put_queue (q : Z) (x : nqueue) : M nstate unit := modify (fun s => set_queues s (<[q := x]> (queues s))).
Definition put_ctx (c : Z) (x : context) : M nstate unit := modify (fun s => set_ctxs s (<[c := x]> (ctxs s))).
Definition put_thread (t : Z) (x : nthread) : M nstate unit := modify (fun s => set_threads s (<[t := x]> (threads s))).

(** [if (x == NULL) RETURN_ERROR] after an [alloc]: the number of the new
    object. *)
Definition alloc : M nstate Z := fun s =>
  let next h n := MkN (notes s) (queues s) (ctxs s) (threads s) (delivery s) n h (current s) (n_env s) in
  match n_heap s with
  | true :: h => (next h (n_next s + 1), Ok (n_next s))
  | false :: h => (next h (n_next s), Err)
  | [] => (s, Err)
  end.

(** ** The queue *)

Definition notification_is_valid (n : Z) : bool := negb ((n <? 0) || (NOTIFICATION_MAX <? n)).

(** The row of a number; a number from outside 1 to 32 indexes outside the
    array. *)
Definition row (q : nqueue) (n : Z) : option (list (option Z)) :=
  if NOTIFICATION_INDEX n <? 0 then None else slots q !! Z.to_nat (NOTIFICATION_INDEX n).

Definition set_row (q : nqueue) (n : Z) (r : list (option Z)) : nqueue :=
  MkNq (<[Z.to_nat (NOTIFICATION_INDEX n) := r]> (slots q)) (nq_active q) (pending q) (mask q).

(** The first slot with a property. *)
Fixpoint find_slot (f : option Z -> bool) (r : list (option Z)) (i : nat) : option nat :=
  match r with
  | [] => None
  | x :: r => if f x then Some i else find_slot f r (S i)
  end.

Definition is_free (x : option Z) : bool := match x with None => true | Some _ => false end.

Definition notification_push (queue : option Z) (note : Z) : M nstate unit :=
  match queue with
  | None => fail
  | Some qn =>
      n ← deref notes note;
      q ← deref queues qn;
      match row q (notnum n) with
      | None => halt
      | Some r =>
          match find_slot is_free r 0 with
          | None => fail
          | Some i =>
              let q := set_row q (notnum n) (<[i := Some note]> r) in
              put_queue qn (MkNq (slots q) (nq_active q) (Z.lor (pending q) (NOTIFICATION_MASK (notnum n))) (mask q))
          end
      end
  end.

(** A slot whose notification may be served. *)
Definition ready (notes : gmap Z notification) (x : option Z) : bool :=
  match x with
  | None => false
  | Some n => match notes !! n with Some x => serviceable x | None => false end
  end.

Definition notification_pop (qn : Z) (num : Z) : M nstate (option Z) :=
  q ← deref queues qn;
  ns ← gets notes;
  match row q num with
  | None => halt
  | Some r =>
      match find_slot (ready ns) r 0 with
      | None => mret None
      | Some i =>
          put_queue qn (set_row q num (<[i := None]> r));;
          mret (mjoin (r !! i))
      end
  end.

(** [if (queue[...][i] == notification) queue[...][i] = NULL], for all [i]. *)
Definition clear_slots (note : Z) (r : list (option Z)) : list (option Z) :=
  (fun x => if bool_decide (x = Some note) then None else x) <$> r.

Definition clear_from (qn note num : Z) : M nstate unit :=
  q ← deref queues qn;
  match row q num with
  | None => halt
  | Some r => put_queue qn (set_row q num (clear_slots note r))
  end.

Definition notification_destroy (note : Z) : M nstate unit :=
  n ← deref notes note;
  match n_queue n with
  | None => fail
  | Some qn =>
      clear_from qn note (notnum n);;
      let n := MkNot (n_refcnt n - 1) (notnum n) (n_weight n) (serviced n) (serviceable n) (n_done n)
                 (parameter n) (n_info n) (n_queue n) (source n) in
      if n_refcnt n <=? 0 then modify (fun s => set_notes s (delete note (notes s)))
      else put_note note n
  end.

(** ** Contexts *)

(** [notification_context_instantiate]; the allocation is that of the buffer
    of the floating point state. *)
Definition notification_context_instantiate (thread c note handler : Z) : M nstate unit :=
  st ← with_env (USTACK_CLAIM thread);
  match st with
  | None => fail
  | Some st =>
      _ ← alloc;
      n ← deref notes note;
      x ← deref ctxs c;
      let length := s32 (par_page_cnt (parameter n) * PAGE_SIZE) in
      let rsp := if length =? 0 then user_sp st else u64 (user_sp st - length) in
      put_ctx c (MkCtx (ctx_notification x) (ctx_thread x) (ctx_last x) (blocking x) handler rsp (n_info n)
                   (if length =? 0 then 0 else rsp) (notnum n));;
      (if length =? 0 then mret tt else with_env (ne_pmap_map thread rsp (par_paddr (parameter n))));;
      base ← with_env (ne_portal rsp (u64 (user_size st - length)));
      if base =? rsp then mret tt else fail
  end.

(** The weight asks for delivery now or at the next tick. *)
Definition delivered_soon (weight : Z) : bool :=
  negb (Z.land weight NOTIFY_WEIGHT_INSTANTANEOUS =? 0) || negb (Z.land weight NOTIFY_WEIGHT_TICK =? 0).

Definition set_service (x : notification) (ready served : bool) : notification :=
  MkNot (n_refcnt x) (notnum x) (n_weight x) served ready (n_done x) (parameter x) (n_info x) (n_queue x) (source x).

(** [context->thread = t; context->notification = n] for a new context with
    its event trigger. *)
Definition new_context (thread note : Z) : M nstate Z :=
  c ← alloc;
  put_ctx c (MkCtx (ctx_notification junk_context) (ctx_thread junk_context) (ctx_last junk_context) (blocking junk_context)
    (regs_rip junk_context) (regs_rsp junk_context) (regs_rdi junk_context) (regs_rsi junk_context) (regs_rdx junk_context));;
  _ ← alloc;
  put_ctx c (MkCtx (Some note) thread (ctx_last junk_context) (blocking junk_context)
    (regs_rip junk_context) (regs_rsp junk_context) (regs_rdi junk_context) (regs_rsi junk_context) (regs_rdx junk_context));;
  mret c.

(** [CONTEXT_PUSH(thread, context)], then [thread->context_top = context]. *)
Definition push_context (thread c : Z) : M nstate unit :=
  cs ← gets ctxs;
  match CONTEXT_PUSH thread c cs with
  | None => fail
  | Some cs =>
      modify (fun s => set_ctxs s cs);;
      t ← deref threads thread;
      put_thread thread (MkNt (nt_queue t) (actions t) (Some c) (context_active t))
  end.

Definition update_delivery (f : list Z -> option (list Z)) : M nstate unit :=
  d ← gets delivery;
  match f d with
  | None => fail
  | Some d => modify (fun s => set_delivery s d)
  end.
Definition push_delivery (thread : Z) : M nstate unit := update_delivery (fun d => delivery_queue_push d thread).

(** A fresh notification with its first fields; [info] is allocated next. *)
Definition new_notification (num weight : Z) (par : notification_parameter) (queue src : option Z) : M nstate Z :=
  note ← alloc;
  put_note note (MkNot 1 num weight (serviced junk_note) (serviceable junk_note) (n_done junk_note) par
    (n_info junk_note) (n_queue junk_note) (source junk_note));;
  info ← alloc;
  put_note note (MkNot 1 num weight (serviced junk_note) (serviceable junk_note) (n_done junk_note) par info queue src);;
  mret note.

(** ** Sending *)

(** [notification_queue] up to its [yield]. *)
Definition notification_queue (sender target : option Z) (num weight : Z) (service : bool) (vaddr paddr page_cnt : Z) : M nstate unit :=
  match target with
  | None => fail
  | Some target =>
      if negb (notification_is_valid num) then fail
      else
        t ← deref threads target;
        let shared := negb (page_cnt =? 0) && negb (paddr =? 0) in
        let par := parameter junk_note in
        let par := if shared then MkPar (if vaddr =? 0 then par_vaddr par else vaddr) paddr page_cnt else par in
        note ← new_notification num weight par (nt_queue t) sender;
        (if shared && negb (vaddr =? 0) then
           match sender with
           | None => halt
           | Some s => with_env (ne_pmap_map s vaddr paddr)
           end
         else mret tt);;
        notification_push (nt_queue t) note;;
        if delivered_soon weight then
          c ← new_context target note;
          n ← deref notes note;
          put_note note (set_service n service (serviced n));;
          push_context target c;;
          push_delivery target
        else mret tt
  end.

(** ** Dispatching *)

Definition action_of (t : nthread) (num : Z) : M nstate Z :=
  if num - 1 <? 0 then halt
  else match actions t !! Z.to_nat (num - 1) with Some h => mret h | None => halt end.

(** The loop over the numbers, [n] of them from [i] on. *)
Fixpoint dispatch_loop (n : nat) (i : Z) (thread qn : Z) : M nstate unit :=
  match n with
  | O => mret tt
  | S n =>
      q ← deref queues qn;
      if (Z.land (pending q) (NOTIFICATION_MASK i) =? 0) || negb (Z.land (mask q) (NOTIFICATION_MASK i) =? 0)
      then dispatch_loop n (i + 1) thread qn
      else
        t ← deref threads thread;
        handler ← action_of t i;
        popped ← notification_pop qn i;
        match popped with
        | None => dispatch_loop n (i + 1) thread qn
        | Some note =>
            c ← new_context thread note;
            x ← deref notes note;
            put_note note (set_service x false true);;
            notification_context_instantiate thread c note handler;;
            push_context thread c
        end
  end.

Definition notification_dispatch (thread : option Z) : M nstate unit :=
  match thread with
  | None => fail
  | Some thread =>
      t ← deref threads thread;
      match nt_queue t with
      | None => fail
      | Some qn =>
          q ← deref queues qn;
          if negb (nq_active q) || (pending q =? 0) then mret tt
          else
            match context_top t with
            | None => halt
            | Some top =>
                x ← deref ctxs top;
                n ← match ctx_notification x with
                    | None => mret None
                    | Some note => n ← deref notes note; mret (if serviceable n && negb (serviced n) then Some (note, n) else None)
                    end;
                match n with
                | Some (note, n) =>
                    handler ← action_of t (notnum n);
                    notification_context_instantiate thread top note handler;;
                    n ← deref notes note;
                    put_note note (set_service n false true);;
                    clear_from qn note (notnum n)
                | None => dispatch_loop (Z.to_nat NOTIFICATION_MAX) 1 thread qn
                end
            end
      end
  end.

(** ** System calls *)

Definition CAPABILITY_ACCESS_WRITE_bit : Z := 1.

Definition bridge_to_destination (bridge : comm_bridge) : M nstate Z :=
  binding ← with_env (ne_capability_lookup (destination bridge));
  match binding with
  | None => fail
  | Some (access, obj) =>
      match obj with
      | None => fail
      | Some cap =>
          if negb (Z.testbit access CAPABILITY_ACCESS_WRITE_bit) then fail
          else
            dest ← with_env (search_thread cap);
            match dest with None => fail | Some d => mret d end
      end
  end.

(** The system call returns the bridge with its link index. *)
Definition notification_build (bridge : comm_bridge) : M nstate comm_bridge :=
  dest ← bridge_to_destination bridge;
  thread ← gets current;
  let page_cnt := s32 (DIV_ROUNDUP (data_limit bridge) PAGE_SIZE) in
  t ← deref threads dest;
  match nt_queue t with
  | None => fail
  | Some qn =>
      note ← alloc;
      put_note note junk_note;;
      let shared := negb (data_base bridge =? 0) && negb (page_cnt =? 0) in
      paddr ← (if shared then
                 p ← with_env (ne_pmm_alloc page_cnt);
                 if p =? 0 then fail else with_env (ne_pmap_map thread (data_base bridge) p);; mret p
               else mret 0);
      let par := parameter junk_note in
      let par := if shared then MkPar (par_vaddr par) paddr page_cnt else par in
      info ← alloc;
      put_note note (MkNot 1 (br_not bridge) (br_weight bridge) (serviced junk_note) false (n_done junk_note) par info (Some qn) (Some thread));;
      notification_push (Some qn) note;;
      mret (MkBridge (destination bridge) (br_not bridge) (br_weight bridge) (data_base bridge) (data_limit bridge) 0)
  end.

(** [queue->queue[NOTIFICATION_INDEX(not)][lnkidx]]: the rows lie one after
    the other. *)
Definition bridge_slot (q : nqueue) (bridge : comm_bridge) : option (option Z) :=
  let i := NOTIFICATION_INDEX (br_not bridge) * NOTIFICATION_PENDING_CAPACITY + lnkidx bridge in
  if i <? 0 then None else concat (slots q) !! Z.to_nat i.

(** The destination and the notification a bridge names. *)
Definition bridge_note (bridge : comm_bridge) : M nstate (Z * Z) :=
  dest ← bridge_to_destination bridge;
  if (lnkidx bridge <? 0) || (NOTIFICATION_PENDING_CAPACITY <? lnkidx bridge) then fail
  else
    t ← deref threads dest;
    match nt_queue t with
    | None => fail
    | Some qn =>
        q ← deref queues qn;
        match bridge_slot q bridge with
        | None => halt
        | Some None => fail
        | Some (Some note) => mret (dest, note)
        end
    end.

(** [notification_broadcast] up to the wait of an instantaneous one, which
    never returns: [equeue_block] panics. *)
Definition notification_broadcast (bridge : comm_bridge) : M nstate unit :=
  named ← bridge_note bridge;
  let '(dest, note) := named in
  n ← deref notes note;
  put_note note (set_service n true (serviced n));;
  (if delivered_soon (br_weight bridge) then push_delivery dest else mret tt);;
  if Z.land (br_weight bridge) NOTIFY_WEIGHT_INSTANTANEOUS =? 0 then mret tt
  else
    thread ← gets current;
    t ← deref threads thread;
    match context_active t with None => fail | Some _ => halt end.

Definition notify (bridge : option comm_bridge) : M nstate unit :=
  match bridge with
  | None => fail
  | Some b => _ ← bridge_to_destination b; mret tt
  end.

(** The handler that was set before is returned. *)
Definition notification_action (num : Z) (action : option Z) : M nstate Z :=
  thread ← gets current;
  if negb (notification_is_valid num) then fail
  else
    t ← deref threads thread;
    old ← action_of t num;
    (match action with
     | None => mret tt
     | Some h => put_thread thread (MkNt (nt_queue t) (<[Z.to_nat (num - 1) := h]> (actions t)) (context_top t) (context_active t))
     end);;
    mret old.

Definition syscall_notification_destroy (bridge : comm_bridge) : M nstate unit :=
  named ← bridge_note bridge;
  notification_destroy named.2.

(** Up to the loop that yields until another thread clears the flag. *)
Definition notification_wait (bridge : comm_bridge) : M nstate unit :=
  _ ← bridge_note bridge;
  thread ← gets current;
  t ← deref threads thread;
  match context_active t with
  | None => fail
  | Some c =>
      x ← deref ctxs c;
      put_ctx c (MkCtx (ctx_notification x) (ctx_thread x) (ctx_last x) true (regs_rip x) (regs_rsp x) (regs_rdi x) (regs_rsi x) (regs_rdx x))
  end.

Definition set_active (on : bool) : M nstate unit :=
  thread ← gets current;
  t ← deref threads thread;
  match nt_queue t with
  | None => fail
  | Some qn =>
      q ← deref queues qn;
      put_queue qn (MkNq (slots q) on (pending q) (mask q))
  end.
Definition notification_unmute : M nstate unit := set_active true.
Definition notification_mute : M nstate unit := set_active false.

(** The check of the kernel stack comes after two constants are added to
    it. *)
Definition notification_define_stack (sp sp_size : Z) : M nstate unit :=
  thread ← gets current;
  _ ← alloc;
  p ← with_env (ne_pmm_alloc (DIV_ROUNDUP CONTEXT_DEFAULT_STACK_SIZE PAGE_SIZE));
  let kernel := u64 (p + CONTEXT_DEFAULT_STACK_SIZE + ne_HIGH_VMA) in
  if kernel =? 0 then fail
  else with_env (USTACK_PUSH thread (MkStack sp sp_size kernel CONTEXT_DEFAULT_STACK_SIZE)).

(** The context that [notification_return] goes to: down the contexts of the
    thread, to the first that waits for an instantaneous notification to be
    served, or the last one.  A chain longer than there are contexts is
    circular. *)
Fixpoint return_context (fuel : nat) (c : option Z) : M nstate (option Z) :=
  match c with
  | None => mret None
  | Some c =>
      match fuel with
      | O => halt
      | S fuel =>
          x ← deref ctxs c;
          waits ← match ctx_notification x with
                  | None => mret None
                  | Some note => n ← deref notes note; mret (if serviceable n && negb (serviced n) then Some (n_weight n) else None)
                  end;
          match waits with
          | Some w => if w =? NOTIFY_WEIGHT_INSTANTANEOUS then mret (Some c) else return_context fuel (ctx_last x)
          | None =>
              match ctx_last x with
              | Some l => return_context fuel (Some l)
              | None => mret (Some c)
              end
          end
      end
  end.

Definition set_flags (x : notification) (served finished : bool) : notification :=
  MkNot (n_refcnt x) (notnum x) (n_weight x) served (serviceable x) finished (parameter x) (n_info x) (n_queue x) (source x).

(** [notification_return] up to the restoring of the registers of the
    context it returns; the context that ends must belong to a notification
    that was sent by a thread. *)
Definition notification_return : M nstate Z :=
  me ← gets current;
  t ← deref threads me;
  match context_active t with
  | None => fail
  | Some active =>
      x ← deref ctxs active;
      match ctx_notification x with
      | None => halt
      | Some note =>
          n ← deref notes note;
          match source n with
          | None => halt
          | Some rthread =>
              r ← deref threads rthread;
              fuel ← gets (fun s => S (size (ctxs s)));
              rc ← return_context fuel (context_top r);
              match rc with
              | None => fail
              | Some rc =>
                  rx ← deref ctxs rc;
                  (match ctx_notification rx with
                   | None => mret tt
                   | Some rn => y ← deref notes rn; put_note rn (set_flags y true (n_done y))
                   end);;
                  y ← deref notes note;
                  put_note note (set_flags y (serviced y) true);;
                  cs ← gets ctxs;
                  match destroy_context me active cs with
                  | None => fail
                  | Some cs =>
                      modify (fun s => set_ctxs s cs);;
                      (match ctx_notification rx with
                       | None => mret tt
                       | Some rn =>
                           y ← deref notes rn;
                           handler ← action_of r (notnum y);
                           notification_context_instantiate rthread rc rn handler
                       end);;
                      update_delivery (fun d => delivery_queue_remove d me);;
                      r ← deref threads rthread;
                      put_thread rthread (MkNt (nt_queue r) (actions r) (context_top r) (Some rc));;
                      modify (fun s => MkN (notes s) (queues s) (ctxs s) (threads s) (delivery s) (n_next s) (n_heap s) rthread (n_env s));;
                      rx ← deref ctxs rc;
                      put_ctx rc (MkCtx (ctx_notification rx) (ctx_thread rx) (ctx_last rx) false (regs_rip rx) (regs_rsp rx) (regs_rdi rx) (regs_rsi rx) (regs_rdx rx));;
                      mret rc
                  end
              end
          end
      end
  end.

End Notify.
