(* ===== verification/NotifyOk.v ===== *)
(** * Notifications: correctness

    A Hoare-style reading of the operations over an invariant (every pending
    notification is alive, of the number of its row, of its queue, and in one
    slot), then the choice dispatching makes. *)

From S2P Require Import Prelude Aria Physical Notify.

Create HintDb notify.

Section NotifyOk.
Context {E : Type}.
#[local] Abbreviation nstate := (nstate (E := E)).

(** ** Well-formed queues *)

(** Notification [n] is pending in queue [q] under row [r], slot [i]. *)
Definition in_slot (s : nstate) (q : Z) (r i : nat) (n : Z) : Prop :=
  exists x l, queues s !! q = Some x /\ slots x !! r = Some l /\ l !! i = Some (Some n).

Record typed (s : nstate) : Prop := {
  ty_shape q x : queues s !! q = Some x -> length (slots x) = 32%nat /\ Forall (fun l => length l = 8%nat) (slots x);
  ty_slot q r i n : in_slot s q r i n ->
    exists y, notes s !! n = Some y /\ notnum y = Z.of_nat r + 1 /\ n_queue y = Some q;
  ty_once q r i i' n : in_slot s q r i n -> in_slot s q r i' n -> i = i';
  ty_pending q x r i n : in_slot s q r i n -> queues s !! q = Some x -> Z.testbit (pending x) (Z.of_nat r) = true;
  ty_fresh n y : notes s !! n = Some y -> n < n_next s;
}.

(** An allocated number that is in no slot. *)
Definition off (n : Z) (s : nstate) : Prop := n < n_next s /\ forall q r i, ~ in_slot s q r i n.

(** ** Triples

    A run from a well-formed state ends in one, whatever its result; a value
    comes with a postcondition. *)
Definition triple {A} (P : nstate -> Prop) (m : M nstate A) (Q : A -> nstate -> Prop) : Prop :=
  forall s, typed s -> P s -> typed (m s).1 /\ forall a, (m s).2 = Ok a -> Q a (m s).1.

Definition keeps {A} (m : M nstate A) : Prop := triple (fun _ => True) m (fun _ _ => True).

Lemma triple_ret {A} (a : A) (P : nstate -> Prop) (Q : A -> nstate -> Prop) :
  (forall s, P s -> Q a s) -> triple P (mret a) Q.
Proof. intros HQ s Hs HP. split; [done|]. intros a' [= <-]. auto. Qed.

Lemma triple_bind {A B} (P : nstate -> Prop) (m : M nstate A) (Q : A -> nstate -> Prop) (f : A -> M nstate B) (R : B -> nstate -> Prop) :
  triple P m Q -> (forall a, triple (Q a) (f a) R) -> triple P (m ≫= f) R.
Proof.
  intros Hm Hf s Hs HP. destruct (Hm s Hs HP) as (Hs' & HQ). unfold mbind, M_bind.
  destruct (m s) as [s' [a| |]]; cbn in *; [|done..]. apply Hf; auto.
Qed.

Lemma triple_fail {A} P (Q : A -> nstate -> Prop) : triple P fail Q.
Proof. by intros s Hs _. Qed.

Lemma triple_halt {A} P (Q : A -> nstate -> Prop) : triple P halt Q.
Proof. by intros s Hs _. Qed.

Lemma triple_gets {A} (f : nstate -> A) P : triple P (gets f) (fun a s => P s /\ a = f s).
Proof. intros s Hs HP. split; [done|]. by intros a [= <-]. Qed.

Lemma triple_deref {A} (f : nstate -> gmap Z A) n P : triple P (deref f n) (fun a s => P s /\ f s !! n = Some a).
Proof. intros s Hs HP. unfold deref. destruct (f s !! n) eqn:Ef; cbn; [|done]. split; [done|]. by intros ? [= <-]. Qed.

Lemma triple_weaken {A} (P P' : nstate -> Prop) (m : M nstate A) (Q Q' : A -> nstate -> Prop) :
  triple P' m Q' -> (forall s, P s -> P' s) -> (forall a s, Q' a s -> Q a s) -> triple P m Q.
Proof. intros Hm HP HQ s Hs Hp. destruct (Hm s Hs (HP s Hp)) as (? & Hq). split; auto. Qed.

(** Steps that leave queues and notifications alone. *)
Definition same_notes (s s' : nstate) : Prop :=
  notes s' = notes s /\ queues s' = queues s /\ n_next s <= n_next s'.

Lemma same_typed s s' : same_notes s s' -> typed s -> typed s'.
Proof.
  intros (En & Eq & Hn) [H1 H2 H3 H4 H5]. unfold in_slot in *.
  split; unfold in_slot; rewrite ?Eq, ?En; auto. intros n y Hy. specialize (H5 n y Hy). lia.
Qed.

Lemma same_off s s' n : same_notes s s' -> off n s -> off n s'.
Proof. intros (_ & Eq & Hn) [H1 H2]. unfold off, in_slot in *. rewrite Eq. split; [lia|done]. Qed.

Definition quiet {A} (m : M nstate A) : Prop := forall s, same_notes s (m s).1.

(** Assertions that only look at what quiet steps leave alone. *)
Definition stable (P : nstate -> Prop) : Prop := forall s s', same_notes s s' -> P s -> P s'.

Lemma quiet_triple {A} (m : M nstate A) P : quiet m -> stable P -> triple P m (fun _ => P).
Proof. intros Hm HP s Hs Hp. split; [by eapply same_typed|]. intros a _. by eapply HP. Qed.

Lemma quiet_bind {A B} (m : M nstate A) (f : A -> M nstate B) : quiet m -> (forall a, quiet (f a)) -> quiet (m ≫= f).
Proof.
  intros Hm Hf s. specialize (Hm s). unfold mbind, M_bind. destruct (m s) as [s' [a| |]]; cbn in *; [|done..].
  specialize (Hf a s'). unfold same_notes in *. intuition (congruence || lia).
Qed.

Lemma quiet_modify (f : nstate -> nstate) : (forall s, same_notes s (f s)) -> quiet (modify f).
Proof. done. Qed.

Ltac quiet_done := unfold same_notes; cbn; auto with lia.
Lemma quiet_ret {A} (a : A) : quiet (mret a).
Proof. intros s. quiet_done. Qed.
Lemma quiet_fail {A} : quiet (A := A) fail.
Proof. intros s. quiet_done. Qed.
Lemma quiet_halt {A} : quiet (A := A) halt.
Proof. intros s. quiet_done. Qed.
Lemma quiet_gets {A} (f : nstate -> A) : quiet (gets f).
Proof. intros s. quiet_done. Qed.
Lemma quiet_deref {A} (f : nstate -> gmap Z A) n : quiet (deref f n).
Proof. intros s. unfold deref. destruct (f s !! n); quiet_done. Qed.
Lemma quiet_env {A} (m : M E A) : quiet (with_env m).
Proof. intros s. unfold with_env. destruct (m (n_env s)). quiet_done. Qed.
Lemma quiet_alloc : quiet alloc.
Proof. intros s. unfold alloc. destruct (n_heap s) as [|[] ?]; quiet_done. Qed.
Lemma quiet_ctx c x : quiet (put_ctx c x).
Proof. intros s. quiet_done. Qed.
Lemma quiet_thread t x : quiet (put_thread t x).
Proof. intros s. quiet_done. Qed.
Lemma quiet_set_ctxs x : quiet (modify (fun s => set_ctxs s x)).
Proof. intros s. quiet_done. Qed.
Lemma quiet_set_delivery x : quiet (modify (fun s => set_delivery s x)).
Proof. intros s. quiet_done. Qed.

(** ** Steps on notifications and queues *)

Lemma alloc_off : triple (fun _ => True) alloc (fun n s => off n s).
Proof.
  intros s Hs _. split; [eapply same_typed; [apply quiet_alloc|done]|]. intros n. unfold alloc.
  destruct (n_heap s) as [|[] h]; cbn; [done| |done]. intros [= <-]. split; [cbn; lia|].
  intros q r i Hin. destruct (ty_slot _ Hs q r i (n_next s) Hin) as (y & Hy & _).
  pose proof (ty_fresh _ Hs _ y Hy). lia.
Qed.

Lemma put_note_off n x : triple (off n) (put_note n x) (fun _ s => off n s /\ notes s !! n = Some x).
Proof.
  intros s [H1 H2 H3 H4 H5] [Hn Hoff]. cbn. split; [|intros _ _; split; [done|apply lookup_insert_eq]].
  split; cbn; try done.
  - intros q r i m Hin. destruct (H2 q r i m Hin) as (y & Hy & ?). exists y.
    rewrite lookup_insert_ne by (intros ->; by apply (Hoff q r i)). done.
  - intros m y. destruct (decide (n = m)) as [->|Hne]; [done|]. rewrite lookup_insert_ne by done. apply H5.
Qed.

Lemma put_note_same n x :
  triple (fun s => exists y, notes s !! n = Some y /\ notnum x = notnum y /\ n_queue x = n_queue y) (put_note n x) (fun _ _ => True).
Proof.
  intros s [H1 H2 H3 H4 H5] (y & Hy & En & Eq). split; [|done]. cbn. split; cbn; try done.
  - intros q r i m Hin. destruct (H2 q r i m Hin) as (z & Hz & ? & ?). destruct (decide (n = m)) as [->|Hne].
    + exists x. rewrite lookup_insert_eq. split; [done|]. split; congruence.
    + exists z. by rewrite lookup_insert_ne.
  - intros m z. destruct (decide (n = m)) as [->|Hne]; [|rewrite lookup_insert_ne by done; apply H5].
    rewrite lookup_insert_eq. intros _. by apply (H5 m y).
Qed.

Lemma in_slot_row (s : nstate) q x r l l' act pend q' r' i n :
  queues s !! q = Some x -> slots x !! r = Some l ->
  in_slot (set_queues s (<[q := MkNq (<[r := l']> (slots x)) act pend (mask x)]> (queues s))) q' r' i n <->
  (if decide (q' = q /\ r' = r) then l' !! i = Some (Some n) else in_slot s q' r' i n).
Proof.
  intros Hq Hr. pose proof (lookup_lt_Some _ _ _ Hr). unfold in_slot. cbn.
  destruct (decide (q' = q)) as [->|Hq'].
  - rewrite lookup_insert_eq. destruct (decide (r' = r)) as [->|Hr'].
    + rewrite decide_True by done. split.
      * intros (x' & m & [= <-] & Hm & Hi). cbn in Hm. rewrite list_lookup_insert_eq in Hm by done. by simplify_eq.
      * intros Hi. eexists _, l'. split; [done|]. cbn. by rewrite list_lookup_insert_eq.
    + rewrite decide_False by tauto. split.
      * intros (x' & m & [= <-] & Hm & Hi). cbn in Hm. rewrite list_lookup_insert_ne in Hm by done. by exists x, m.
      * intros (x' & m & Hx & Hm & Hi). simplify_eq. eexists _, m. split; [done|]. cbn. by rewrite list_lookup_insert_ne.
  - rewrite decide_False by tauto. by rewrite lookup_insert_ne.
Qed.

(** A row whose slots are as before, emptied, or hold a notification of the
    row's number that was in no slot. *)
Definition row_extends (s : nstate) (q : Z) (r : nat) (l l' : list (option Z)) (pend : Z) : Prop :=
  length l' = length l /\
  (forall i i' n, l' !! i = Some (Some n) -> l' !! i' = Some (Some n) -> i = i') /\
  forall i n, l' !! i = Some (Some n) ->
    l !! i = Some (Some n) \/
    (Z.testbit pend (Z.of_nat r) = true /\ exists y, notes s !! n = Some y /\ notnum y = Z.of_nat r + 1 /\ n_queue y = Some q).

Lemma typed_row (s : nstate) q x r l l' act pend :
  typed s -> queues s !! q = Some x -> slots x !! r = Some l -> row_extends s q r l l' pend ->
  (forall b, Z.testbit (pending x) b = true -> Z.testbit pend b = true) ->
  typed (set_queues s (<[q := MkNq (<[r := l']> (slots x)) act pend (mask x)]> (queues s))).
Proof.
  intros [H1 H2 H3 H4 H5] Hq Hr (Hlen & Hone & Hl) Hp.
  assert (Hold : forall i n, l !! i = Some (Some n) -> in_slot s q r i n) by (intros i n Hi; by exists x, l).
  split; cbn.
  - intros q' x'. destruct (decide (q' = q)) as [->|]; [rewrite lookup_insert_eq|rewrite lookup_insert_ne by done; apply H1].
    intros [= <-]. destruct (H1 q x Hq) as (Hs & Hf). cbn. rewrite length_insert. split; [done|].
    apply Forall_insert; [done|]. rewrite Hlen. by eapply Forall_lookup_1 in Hf.
  - intros q' r' i n. rewrite (in_slot_row s q x r l) by done. case_decide as Hd; [|apply H2].
    destruct Hd as (-> & ->). intros Hi. destruct (Hl i n Hi) as [Ho|(_ & Ho)]; [|done]. by apply (H2 q r i), Hold.
  - intros q' r' i i' n. rewrite !(in_slot_row s q x r l) by done. case_decide; [apply Hone|apply H3].
  - intros q' x' r' i n. rewrite (in_slot_row s q x r l) by done. case_decide as Hd.
    + destruct Hd as (-> & ->). rewrite lookup_insert_eq. intros Hi [= <-]. cbn.
      destruct (Hl i n Hi) as [Ho|(Ho & _)]; [|done]. apply Hp. by eapply H4; [apply Hold|].
    + intros Hin. destruct (decide (q' = q)) as [->|].
      * rewrite lookup_insert_eq. intros [= <-]. apply Hp. by eapply H4.
      * rewrite lookup_insert_ne by done. by eapply H4.
  - done.
Qed.

Lemma find_slot_spec f (l : list (option Z)) k i :
  find_slot f l k = Some i ->
  (k <= i)%nat /\ exists x, l !! (i - k)%nat = Some x /\ f x = true /\
    forall i' y, (i' < i - k)%nat -> l !! i' = Some y -> f y = false.
Proof.
  revert k. induction l as [|x l IH]; intros k; cbn [find_slot]; [done|]. destruct (f x) eqn:Ef.
  - intros [= <-]. split; [lia|]. exists x. rewrite Nat.sub_diag. split_and!; try done. lia.
  - intros (Hk & y & Hy & Hf & Hfirst)%IH. split; [lia|]. exists y. replace (i - k)%nat with (S (i - S k)) by lia.
    split_and!; try done. intros [|i'] z Hi; cbn; [by intros [= <-]|apply Hfirst; lia].
Qed.

Lemma row_index q num l : row q num = Some l -> slots q !! Z.to_nat (num - 1) = Some l /\ Z.of_nat (Z.to_nat (num - 1)) + 1 = num.
Proof. unfold row, NOTIFICATION_INDEX. destruct (Z.ltb_spec (num - 1) 0); [done|]. split; [done|lia]. Qed.

Lemma mask_bit num : 1 <= num -> Z.testbit (NOTIFICATION_MASK num) (num - 1) = true.
Proof. intros Hn. unfold NOTIFICATION_MASK. rewrite Z.shiftl_1_l. apply Z.pow2_bits_true. lia. Qed.

Lemma row_once (s : nstate) q x r l i i' n :
  typed s -> queues s !! q = Some x -> slots x !! r = Some l -> l !! i = Some (Some n) -> l !! i' = Some (Some n) -> i = i'.
Proof. intros Hs Hq Hr Hi Hi'. apply (ty_once _ Hs q r i i' n); by exists x, l. Qed.

Lemma row_fewer (s : nstate) q x r l l' pend :
  typed s -> queues s !! q = Some x -> slots x !! r = Some l -> length l' = length l ->
  (forall i n, l' !! i = Some (Some n) -> l !! i = Some (Some n)) -> row_extends s q r l l' pend.
Proof. intros Hs Hq Hr Hl Hi. split; [done|]. split; [intros i i' n H1 H2; eapply row_once; eauto|]. eauto. Qed.

Lemma push_typed queue note :
  triple (fun s => off note s /\ exists y, notes s !! note = Some y /\ n_queue y = queue) (notification_push queue note) (fun _ _ => True).
Proof.
  intros s Hs ([Hlt Hoff] & y & Hy & Eq). unfold notification_push. destruct queue as [q|]; [|done].
  unfold mbind, M_bind, deref. rewrite Hy. destruct (queues s !! q) as [x|] eqn:Hx; [|done].
  destruct (row x (notnum y)) as [l|] eqn:Er; [|done]. apply row_index in Er as (Er & Hnum).
  destruct (find_slot is_free l 0) as [i|] eqn:Ef; [|done]. apply find_slot_spec in Ef as (_ & z & Hz & Hfree & _).
  rewrite Nat.sub_0_r in Hz. destruct z as [z|]; [done|]. split; [|done].
  assert (Hnot : forall i', l !! i' <> Some (Some note)) by (intros i' Hi'; eapply (Hoff q _ i'); by exists x, l).
  pose proof (lookup_lt_Some _ _ _ Hz) as Hi.
  apply (typed_row s q x (Z.to_nat (notnum y - 1)) l); [done|done|exact Er| |intros b Hb; cbn; by rewrite Z.lor_spec, Hb].
  split; [apply length_insert|]. split.
  - intros i1 i2 n. destruct (decide (i1 = i)) as [->|H1], (decide (i2 = i)) as [->|H2];
      rewrite ?list_lookup_insert_eq, ?list_lookup_insert_ne by done; intros E1 E2; simplify_eq; try done;
      [by destruct (Hnot i2)|by destruct (Hnot i1)|eapply row_once; eauto].
  - intros i1 n. destruct (decide (i1 = i)) as [->|H1].
    + rewrite list_lookup_insert_eq by done. intros [= <-]. right.
      split; [rewrite Z.lor_spec; apply orb_true_iff; right; replace (Z.of_nat _) with (notnum y - 1) by lia; apply mask_bit; lia|].
      exists y. split; [done|]. split; [lia|done].
    + rewrite list_lookup_insert_ne by done. by left.
Qed.

Lemma pop_typed qn num : keeps (notification_pop qn num).
Proof.
  intros s Hs _. split; [|done]. unfold notification_pop, mbind, M_bind, deref, gets.
  destruct (queues s !! qn) as [x|] eqn:Hx; [|done]. destruct (row x num) as [l|] eqn:Er; [|done].
  destruct (find_slot _ l 0) as [i|]; [|done]. apply row_index in Er as (Er & _).
  eapply typed_row; try done. eapply row_fewer; try done; [apply length_insert|].
  intros i' n. rewrite list_lookup_insert_Some. intros [(_ & ? & _)|(_ & ?)]; done.
Qed.

Lemma clear_slots_lookup note l i n : clear_slots note l !! i = Some (Some n) <-> l !! i = Some (Some n) /\ n <> note.
Proof.
  unfold clear_slots. rewrite list_lookup_fmap. destruct (l !! i) as [x|]; cbn; [|naive_solver].
  case_bool_decide; subst; naive_solver.
Qed.

Lemma clear_from_spec qn note num n :
  triple (fun s => notes s !! note = Some n /\ notnum n = num /\ n_queue n = Some qn)
    (clear_from qn note num) (fun _ s => notes s !! note = Some n /\ off note s).
Proof.
  intros s Hs (Hn & En & Eq). unfold clear_from, mbind, M_bind, deref. destruct (queues s !! qn) as [x|] eqn:Hx; [|done].
  destruct (row x num) as [l|] eqn:Er; [|done]. apply row_index in Er as (Er & Hnum). split.
  - eapply typed_row; try done. eapply row_fewer; try done; [apply length_fmap|]. intros i m Hi. by apply clear_slots_lookup in Hi as [].
  - intros _ _. split; [done|]. split; [by apply (ty_fresh _ Hs note n)|]. intros q r i.
    unfold set_row, NOTIFICATION_INDEX. cbn [put_queue modify fst]. rewrite (in_slot_row s qn x _ l) by done. case_decide as Hd.
    + intros (_ & ?)%clear_slots_lookup. done.
    + intros Hin. destruct (ty_slot _ Hs q r i note Hin) as (y & Hy & ? & ?). apply Hd. simplify_eq. split; [done|lia].
Qed.

Lemma clear_from_keeps qn note num : keeps (clear_from qn note num).
Proof.
  intros s Hs _. split; [|done]. unfold clear_from, mbind, M_bind, deref. destruct (queues s !! qn) as [x|] eqn:Hx; [|done].
  destruct (row x num) as [l|] eqn:Er; [|done]. apply row_index in Er as (Er & _).
  eapply typed_row; try done. eapply row_fewer; try done; [apply length_fmap|]. intros i m Hi. by apply clear_slots_lookup in Hi as [].
Qed.

Lemma delete_off note : triple (off note) (modify (fun s => set_notes s (delete note (notes s)))) (fun _ _ => True).
Proof.
  intros s [H1 H2 H3 H4 H5] [_ Hoff]. split; [|done]. cbn. split; cbn; try done.
  - intros q r i n Hin. rewrite lookup_delete_ne by (intros ->; by apply (Hoff q r i)). by apply (H2 q r i).
  - intros n y. rewrite lookup_delete_Some. intros [_ ?]. by apply (H5 n y).
Qed.

Lemma destroy_keeps note : keeps (notification_destroy note).
Proof.
  eapply triple_bind; [apply triple_deref|]. intros n. destruct (n_queue n) as [qn|] eqn:Eq; [|apply triple_fail].
  apply (triple_bind _ _ (fun _ s => notes s !! note = Some n /\ off note s)).
  - eapply triple_weaken; [apply (clear_from_spec qn note (notnum n) n)|cbn; tauto|done].
  - intros _. cbn [n_refcnt]. case_if.
    + eapply triple_weaken; [apply delete_off|cbn; tauto|done].
    + eapply triple_weaken; [apply put_note_off|cbn; tauto|done].
Qed.

Lemma quiet_keeps {A} (m : M nstate A) : quiet m -> keeps m.
Proof. intros Hm. eapply triple_weaken; [apply (quiet_triple m (fun _ => True)); done|done|done]. Qed.

Lemma keeps_bind {A B} (m : M nstate A) (f : A -> M nstate B) : keeps m -> (forall a, keeps (f a)) -> keeps (m ≫= f).
Proof. intros Hm Hf. eapply triple_bind; [exact Hm|]. intros a. apply Hf. Qed.

End NotifyOk.

#[export] Hint Resolve quiet_ret quiet_fail quiet_halt quiet_gets quiet_deref quiet_env quiet_alloc
  quiet_ctx quiet_thread quiet_set_ctxs quiet_set_delivery : notify.

(** Goes through the binds and case splits of an operation. *)
Ltac quiet_steps :=
  repeat (first
    [ solve [auto with notify]
    | apply quiet_bind; [|intros ?]
    | match goal with |- quiet (match ?x with _ => _ end) => destruct x end
    | match goal with |- quiet (if ?x then _ else _) => destruct x end ]).

Section NotifyOps.
Context {AB : AriaBase} {E : Type} {NE : NotifyEnv E}.
#[local] Abbreviation nstate := (nstate (E := E)).

(** ** Operations that leave the queues alone *)

Lemma quiet_action t num : quiet (E := E) (action_of t num).
Proof. unfold action_of. quiet_steps. Qed.
#[local] Hint Resolve quiet_action : notify.

Lemma quiet_instantiate thread c note handler : quiet (E := E) (notification_context_instantiate thread c note handler).
Proof. unfold notification_context_instantiate. quiet_steps. Qed.
#[local] Hint Resolve quiet_instantiate : notify.

Lemma quiet_new_context thread note : quiet (E := E) (new_context thread note).
Proof. unfold new_context. quiet_steps. Qed.
#[local] Hint Resolve quiet_new_context : notify.

Lemma quiet_push_context thread c : quiet (E := E) (push_context thread c).
Proof. unfold push_context. quiet_steps. Qed.
#[local] Hint Resolve quiet_push_context : notify.

Lemma quiet_update_delivery f : quiet (E := E) (update_delivery f).
Proof. unfold update_delivery. quiet_steps. Qed.
#[local] Hint Resolve quiet_update_delivery : notify.

Lemma quiet_bridge b : quiet (E := E) (bridge_to_destination b).
Proof. unfold bridge_to_destination. quiet_steps. Qed.
#[local] Hint Resolve quiet_bridge : notify.

Lemma quiet_bridge_note b : quiet (E := E) (bridge_note b).
Proof. unfold bridge_note. quiet_steps. Qed.
#[local] Hint Resolve quiet_bridge_note : notify.

Lemma quiet_calls b num action sp n :
  quiet (E := E) (notify b) /\ quiet (E := E) (notification_action num action) /\
  quiet (E := E) (notification_define_stack sp n) /\ (forall b, quiet (E := E) (notification_wait b)).
Proof.
  unfold notify, notification_action, notification_define_stack, notification_wait.
  split_and!; [..|intros ?]; quiet_steps.
Qed.

Lemma quiet_return_context fuel c : quiet (E := E) (return_context fuel c).
Proof. revert c. induction fuel as [|fuel IH]; intros [c|]; cbn [return_context]; quiet_steps; apply IH. Qed.
#[local] Hint Resolve quiet_return_context : notify.

(** ** Operations that change them *)

(** Reading a notification and writing it back with other flags. *)
Lemma keeps_update {A} note (f : notification -> notification) (k : notification -> M nstate A) :
  (forall x, notnum (f x) = notnum x /\ n_queue (f x) = n_queue x) -> (forall x, keeps (k x)) ->
  keeps (x ← deref notes note; put_note note (f x);; k x).
Proof.
  intros Hf Hk. eapply triple_bind; [apply triple_deref|]. intros x.
  apply (triple_bind _ _ (fun _ _ => True)); [|intros _; apply Hk].
  eapply triple_weaken; [apply put_note_same| |done]. intros s [_ Hx]. exists x. split; [done|apply Hf].
Qed.

Lemma keeps_update_last note (f : notification -> notification) :
  (forall x, notnum (f x) = notnum x /\ n_queue (f x) = n_queue x) -> keeps (x ← deref notes note; put_note note (f x) : M nstate unit).
Proof.
  intros Hf. eapply triple_bind; [apply triple_deref|]. intros x.
  eapply triple_weaken; [apply put_note_same| |done]. intros s [_ Hx]. exists x. split; [done|apply Hf].
Qed.

Lemma set_active_keeps on : keeps (E := E) (set_active on).
Proof.
  apply keeps_bind; [apply quiet_keeps; auto with notify|intros me].
  apply keeps_bind; [apply quiet_keeps; auto with notify|intros t].
  destruct (nt_queue t) as [qn|]; [|apply triple_fail].
  intros s Hs _. split; [|done]. unfold mbind, M_bind, deref. destruct (queues s !! qn) as [x|] eqn:Hx; [|done].
  assert (Hin : forall q r i n, in_slot (set_queues s (<[qn := MkNq (slots x) on (pending x) (mask x)]> (queues s))) q r i n <-> in_slot s q r i n).
  { intros q r i n. unfold in_slot. cbn. destruct (decide (q = qn)) as [->|]; [rewrite lookup_insert_eq, Hx|by rewrite lookup_insert_ne].
    split; intros (y & l & [= <-] & ? & ?); [by exists x, l|]. by eexists _, l. }
  destruct Hs as [H1 H2 H3 H4 H5]. cbn. split; [|setoid_rewrite Hin; done|setoid_rewrite Hin; done| |done].
  - cbn. intros q y. destruct (decide (q = qn)) as [->|]; [rewrite lookup_insert_eq|rewrite lookup_insert_ne by done; apply H1].
    intros [= <-]. by apply (H1 qn x).
  - cbn. intros q y r i n. rewrite Hin. destruct (decide (q = qn)) as [->|]; [rewrite lookup_insert_eq|rewrite lookup_insert_ne by done; apply H4].
    intros Hi [= <-]. by apply (H4 qn x r i n).
Qed.

Definition new_note (queue : option Z) (note : Z) (s : nstate) : Prop :=
  off note s /\ exists y, notes s !! note = Some y /\ n_queue y = queue.

Lemma off_stable note : stable (E := E) (off note).
Proof. intros s s' Hs. by apply same_off. Qed.

Lemma new_note_stable queue note : stable (new_note queue note).
Proof. intros s s' Hs (Ho & y & Hy & Eq). split; [by eapply same_off|]. exists y. destruct Hs as (-> & _). done. Qed.

(** Steps that only touch other parts carry what is known about a new
    notification. *)
Lemma carry {A} (P : nstate -> Prop) (m : M nstate A) (f : A -> M nstate unit) :
  quiet m -> stable P -> (forall a, triple P (f a) (fun _ _ => True)) -> triple P (m ≫= f) (fun _ _ => True).
Proof. intros Hm HP Hf. eapply triple_bind; [by apply quiet_triple|]. exact Hf. Qed.

Lemma new_notification_spec num weight par queue src :
  triple (E := E) (fun _ => True) (new_notification num weight par queue src) (new_note queue).
Proof.
  eapply triple_bind; [apply alloc_off|]. intros note.
  apply (triple_bind _ _ (fun _ => off note)); [eapply triple_weaken; [apply put_note_off|done|cbn; tauto]|intros ?].
  eapply triple_bind; [apply quiet_triple; [apply quiet_alloc|apply off_stable]|]. intros info.
  eapply triple_bind; [apply put_note_off|]. intros ?. apply triple_ret. intros s (Ho & Hn). split; [done|]. eexists. split; [exact Hn|done].
Qed.

Lemma keeps_push queue note (k : M nstate unit) : keeps k -> triple (new_note queue note) (notification_push queue note;; k) (fun _ _ => True).
Proof. intros Hk. eapply triple_bind; [apply push_typed|]. intros ?. exact Hk. Qed.

Lemma notification_queue_keeps sender target num weight service vaddr paddr page_cnt :
  keeps (E := E) (notification_queue sender target num weight service vaddr paddr page_cnt).
Proof.
  unfold notification_queue. destruct target as [target|]; [|apply triple_fail]. destruct (negb _); [apply triple_fail|].
  apply keeps_bind; [apply quiet_keeps; auto with notify|intros t].
  eapply triple_bind; [apply new_notification_spec|]. intros note. apply carry; [quiet_steps|apply new_note_stable|intros ?].
  apply keeps_push. destruct (delivered_soon weight); [|by apply quiet_keeps, quiet_ret].
  apply keeps_bind; [apply quiet_keeps; auto with notify|intros c].
  apply (keeps_update note (fun n => set_service n service (serviced n))); [done|]. intros _.
  apply quiet_keeps. quiet_steps.
Qed.

Lemma notification_build_keeps b : keeps (E := E) (notification_build b).
Proof.
  unfold notification_build. apply keeps_bind; [apply quiet_keeps; auto with notify|intros dest].
  apply keeps_bind; [apply quiet_keeps; auto with notify|intros me].
  apply keeps_bind; [apply quiet_keeps; auto with notify|intros t].
  destruct (nt_queue t) as [qn|]; [|apply triple_fail].
  eapply triple_bind; [apply alloc_off|]. intros note.
  apply (triple_bind _ _ (fun _ => off note)); [eapply triple_weaken; [apply put_note_off|done|cbn; tauto]|intros ?].
  apply (triple_bind _ _ (fun _ => off note)); [apply quiet_triple; [quiet_steps|apply off_stable]|intros paddr].
  apply (triple_bind _ _ (fun _ => off note)); [apply quiet_triple; [quiet_steps|apply off_stable]|intros info].
  apply (triple_bind _ _ (fun _ => new_note (Some qn) note)).
  { eapply triple_weaken; [apply put_note_off|done|]. cbn. intros _ s (Ho & Hn). split; [done|]. eexists. split; [exact Hn|done]. }
  intros ?. eapply triple_bind; [apply push_typed|]. intros ?. by apply triple_ret.
Qed.

Lemma notification_broadcast_keeps b : keeps (E := E) (notification_broadcast b).
Proof.
  unfold notification_broadcast. apply keeps_bind; [apply quiet_keeps; auto with notify|]. intros [dest note].
  apply (keeps_update note (fun n => set_service n true (serviced n))); [done|]. intros _. apply quiet_keeps. quiet_steps.
Qed.

Lemma dispatch_loop_keeps n i thread qn : keeps (E := E) (dispatch_loop n i thread qn).
Proof.
  revert i. induction n as [|n IH]; intros i; cbn [dispatch_loop]; [by apply quiet_keeps, quiet_ret|].
  apply keeps_bind; [apply quiet_keeps; auto with notify|intros q]. destruct (_ || _); [apply IH|].
  apply keeps_bind; [apply quiet_keeps; auto with notify|intros t].
  apply keeps_bind; [apply quiet_keeps; auto with notify|intros h].
  apply keeps_bind; [apply pop_typed|intros [note|]; [|apply IH]].
  apply keeps_bind; [apply quiet_keeps; auto with notify|intros c].
  apply (keeps_update note (fun x => set_service x false true)); [done|]. intros _. apply quiet_keeps. quiet_steps.
Qed.

Lemma notification_dispatch_keeps thread : keeps (E := E) (notification_dispatch thread).
Proof.
  unfold notification_dispatch. destruct thread as [thread|]; [|apply triple_fail].
  apply keeps_bind; [apply quiet_keeps; auto with notify|intros t]. destruct (nt_queue t) as [qn|]; [|apply triple_fail].
  apply keeps_bind; [apply quiet_keeps; auto with notify|intros q]. destruct (_ || _); [by apply quiet_keeps, quiet_ret|].
  destruct (context_top t) as [top|]; [|apply triple_halt].
  apply keeps_bind; [apply quiet_keeps; auto with notify|intros x].
  apply keeps_bind; [apply quiet_keeps; quiet_steps|intros [[note n]|]; [|apply dispatch_loop_keeps]].
  apply keeps_bind; [apply quiet_keeps; auto with notify|intros h].
  apply keeps_bind; [apply quiet_keeps; auto with notify|intros _].
  apply (keeps_update note (fun x => set_service x false true) (fun x => clear_from qn note (notnum x))); [done|].
  intros y. apply clear_from_keeps.
Qed.

Lemma notification_return_keeps : keeps (E := E) notification_return.
Proof.
  unfold notification_return. do 2 (apply keeps_bind; [apply quiet_keeps; auto with notify|intros ?]).
  destruct (context_active _) as [active|]; [|apply triple_fail].
  apply keeps_bind; [apply quiet_keeps; auto with notify|intros x]. destruct (ctx_notification x) as [note|]; [|apply triple_halt].
  apply keeps_bind; [apply quiet_keeps; auto with notify|intros n]. destruct (source n) as [rthread|]; [|apply triple_halt].
  do 3 (apply keeps_bind; [apply quiet_keeps; auto with notify|intros ?]).
  match goal with |- keeps (match ?rc with _ => _ end) => destruct rc as [rc|]; [|apply triple_fail] end.
  apply keeps_bind; [apply quiet_keeps; auto with notify|intros rx].
  apply keeps_bind.
  { destruct (ctx_notification rx) as [rn|]; [|by apply quiet_keeps, quiet_ret].
    by apply (keeps_update_last rn (fun y => set_flags y true (n_done y))). }
  intros _. apply (keeps_update note (fun y => set_flags y (serviced y) true)); [done|]. intros _.
  apply keeps_bind; [apply quiet_keeps; auto with notify|intros cs]. destruct (destroy_context _ _ _); [|apply triple_fail].
  apply quiet_keeps. quiet_steps. intros s. unfold same_notes; cbn; auto with lia.
Qed.

(** ** Every reachable state is well-formed *)

(** What threads and the scheduler can do; the last one is a switch to
    another thread. *)
Inductive nop :=
| OQueue (sender target : option Z) (num weight : Z) (service : bool) (vaddr paddr page_cnt : Z)
| ODispatch (thread : option Z)
| OBuild (b : comm_bridge)
| OBroadcast (b : comm_bridge)
| ONotify (b : option comm_bridge)
| OAction (num : Z) (action : option Z)
| ODefineStack (sp size : Z)
| ODestroy (b : comm_bridge)
| OReturn
| OWait (b : comm_bridge)
| OActive (on : bool)
| OSwitch (thread : Z).

Definition run_nop (op : nop) (s : nstate) : nstate :=
  match op with
  | OQueue sender target num weight service vaddr paddr page_cnt =>
      (notification_queue sender target num weight service vaddr paddr page_cnt s).1
  | ODispatch t => (notification_dispatch t s).1
  | OBuild b => (notification_build b s).1
  | OBroadcast b => (notification_broadcast b s).1
  | ONotify b => (notify b s).1
  | OAction num a => (notification_action num a s).1
  | ODefineStack sp n => (notification_define_stack sp n s).1
  | ODestroy b => (syscall_notification_destroy b s).1
  | OReturn => (notification_return s).1
  | OWait b => (notification_wait b s).1
  | OActive true => (notification_unmute s).1
  | OActive false => (notification_mute s).1
  | OSwitch t => MkN (notes s) (queues s) (ctxs s) (threads s) (delivery s) (n_next s) (n_heap s) t (n_env s)
  end.

Lemma keeps_run {A} (m : M nstate A) s : keeps m -> typed s -> typed (m s).1.
Proof. intros Hm Hs. by apply Hm. Qed.

Lemma run_nop_typed op s : typed s -> typed (run_nop op s).
Proof.
  intros Hs. destruct op; cbn [run_nop].
  1-12: try apply keeps_run; try done.
  - apply notification_queue_keeps.
  - apply notification_dispatch_keeps.
  - apply notification_build_keeps.
  - apply notification_broadcast_keeps.
  - apply quiet_keeps, (quiet_calls b 0 None 0 0).
  - apply quiet_keeps, (quiet_calls None num action 0 0).
  - apply quiet_keeps, (quiet_calls None 0 None sp size).
  - apply keeps_bind; [apply quiet_keeps; auto with notify|]. intros [d n]. apply destroy_keeps.
  - apply notification_return_keeps.
  - apply quiet_keeps, (quiet_calls None 0 None 0 0).
  - destruct on; apply keeps_run; (done || apply set_active_keeps).
  - eapply same_typed; [|exact Hs]. unfold same_notes. cbn. auto with lia.
Qed.

Definition empty_rows : list (list (option Z)) := replicate 32 (replicate 8 None).

(** Threads before the first notification: queues are empty. *)
Definition no_notifications (s : nstate) : Prop :=
  notes s = ∅ /\ forall q x, queues s !! q = Some x -> slots x = empty_rows.

Lemma empty_no_slot s q r i n : no_notifications s -> ~ in_slot s q r i n.
Proof.
  intros (_ & Hq) (x & l & Hx & Hl & Hi). rewrite (Hq q x Hx) in Hl.
  apply lookup_replicate in Hl as (-> & _). by apply lookup_replicate in Hi as (? & _).
Qed.

Lemma no_notifications_typed s : no_notifications s -> typed s.
Proof.
  intros Hs. split; try by intros * H%empty_no_slot.
  - intros q x Hx. destruct Hs as (_ & Hq). rewrite (Hq q x Hx). split; [done|]. by apply Forall_replicate.
  - intros n y. destruct Hs as (-> & _). by rewrite lookup_empty.
Qed.

(** C13: Whatever threads send, build, dispatch, destroy, mask or wait for,
    in any order and whichever of their calls fail, the queues stay
    well-formed: 32 rows of 8 slots, and every notification in a slot is
    alive, has the number of its row, belongs to that queue, is in no other
    slot, and its number is marked as pending. *)
Theorem notification_typed (s : nstate) (ops : list nop) :
  no_notifications s -> typed (foldl (fun s op => run_nop op s) s ops).
Proof.
  intros Hs. apply no_notifications_typed in Hs. revert s Hs.
  induction ops as [|op ops IH]; intros s Hs; cbn; [done|]. by apply IH, run_nop_typed.
Qed.

(** ** The notification that is served *)

Lemma mask_test w i : 1 <= i -> (Z.land w (NOTIFICATION_MASK i) =? 0) = negb (Z.testbit w (i - 1)).
Proof. intros Hi. unfold NOTIFICATION_MASK. rewrite Z.shiftl_1_l. apply land_bit. lia. Qed.

(** Number [i] has a notification that may be served, in slot [j] first. *)
Definition can_serve (s : nstate) (q : Z) (x : nqueue) (i : Z) (j : nat) (n : Z) : Prop :=
  Z.testbit (mask x) (i - 1) = false /\ in_slot s q (Z.to_nat (i - 1)) j n /\ ready (notes s) (Some n) = true /\
  forall j' m, (j' < j)%nat -> in_slot s q (Z.to_nat (i - 1)) j' m -> ready (notes s) (Some m) = false.

Lemma typed_row_at (s : nstate) q x i : typed s -> queues s !! q = Some x -> 1 <= i <= 32 ->
  exists l, row x i = Some l /\ slots x !! Z.to_nat (i - 1) = Some l.
Proof.
  intros Hs Hx Hi. destruct (ty_shape _ Hs q x Hx) as (Hl & _).
  destruct (lookup_lt_is_Some_2 (slots x) (Z.to_nat (i - 1))) as (l & Hr); [lia|]. exists l. split; [|done].
  unfold row, NOTIFICATION_INDEX. destruct (Z.ltb_spec (i - 1) 0); [lia|done].
Qed.

(** Numbers that cannot be served are passed over. *)
Lemma dispatch_loop_skip (s : nstate) q x thread t n i :
  typed s -> queues s !! q = Some x -> threads s !! thread = Some t -> length (actions t) = 32%nat -> 1 <= i <= 32 ->
  (forall j m, ~ can_serve s q x i j m) ->
  dispatch_loop (S n) i thread q s = dispatch_loop n (i + 1) thread q s.
Proof.
  intros Hs Hx Ht Hact Hi Hno. cbn [dispatch_loop].
  rewrite (bind_ok _ _ s s x) by (unfold deref; by rewrite Hx). rewrite !mask_test by lia.
  destruct (Z.testbit (pending x) (i - 1)), (Z.testbit (mask x) (i - 1)) eqn:Em; cbn [negb orb]; try done.
  rewrite (bind_ok _ _ s s t) by (unfold deref; by rewrite Ht).
  destruct (lookup_lt_is_Some_2 (actions t) (Z.to_nat (i - 1))) as (h & Hh); [lia|].
  rewrite (bind_ok _ _ s s h) by (unfold action_of; destruct (Z.ltb_spec (i - 1) 0); [lia|by rewrite Hh]).
  destruct (typed_row_at s q x i Hs Hx Hi) as (l & Hrow & Hl).
  rewrite (bind_ok _ _ s s None); [done|]. unfold notification_pop, mbind, M_bind, deref, gets. rewrite Hx, Hrow.
  destruct (find_slot (ready (notes s)) l 0) as [j|] eqn:Ef; [|done]. exfalso.
  apply find_slot_spec in Ef as (_ & y & Hy & Hf & Hfirst). rewrite Nat.sub_0_r in *. destruct y as [m|]; [|done].
  apply (Hno j m). split; [done|]. split; [by exists x, l|]. split; [done|].
  intros j' m' Hj (x' & l' & ? & ? & Hm'). simplify_eq. by apply (Hfirst j').
Qed.


Lemma find_slot_first f (l : list (option Z)) j x :
  l !! j = Some x -> f x = true -> (forall i y, (i < j)%nat -> l !! i = Some y -> f y = false) -> forall k, find_slot f l k = Some (k + j)%nat.
Proof.
  revert j. induction l as [|y l IH]; intros j Hx Hf Hfirst k; [done|]. cbn [find_slot]. destruct j as [|j]; cbn in Hx; simplify_eq.
  - rewrite Hf. f_equal. lia.
  - rewrite (Hfirst 0%nat y) by (done || lia). rewrite (IH j) by (try done; intros i z Hi; apply (Hfirst (S i)); lia). f_equal. lia.
Qed.

Lemma pop_served (s : nstate) q x i j n :
  typed s -> queues s !! q = Some x -> 1 <= i <= 32 -> can_serve s q x i j n ->
  exists l, row x i = Some l /\ l !! j = Some (Some n) /\
    notification_pop q i s = (set_queues s (<[q := set_row x i (<[j := None]> l)]> (queues s)), Ok (Some n)).
Proof.
  intros Hs Hx Hi (_ & (x' & l & Hx' & Hl & Hj) & Hr & Hfirst). simplify_eq.
  assert (Hrow : row x i = Some l) by (unfold row, NOTIFICATION_INDEX; destruct (Z.ltb_spec (i - 1) 0); [lia|done]).
  exists l. split_and!; try done. unfold notification_pop, mbind, M_bind, deref, gets. rewrite Hx, Hrow.
  rewrite (find_slot_first _ l j (Some n) Hj Hr). 2:{ intros j' [m|] Hlt Hm; [|done]. apply (Hfirst j' m Hlt). by exists x, l. }
  cbn. by rewrite Hj.
Qed.

(** What the parts outside the file have to grant. *)
Class NotifyEnvOk : Prop := {
  claim_ok t e : exists e' st, USTACK_CLAIM t e = (e', Ok (Some st));
  map_ok t v p e : exists e', ne_pmap_map t v p e = (e', Ok tt);
  portal_ok b l e : exists e', ne_portal b l e = (e', Ok b);
  context_push_ok t c cs z : cs !! c = Some z ->
    exists cs' z', CONTEXT_PUSH t c cs = Some cs' /\ cs' !! c = Some z' /\
      ctx_notification z' = ctx_notification z /\ regs_rip z' = regs_rip z /\ regs_rdi z' = regs_rdi z /\ regs_rdx z' = regs_rdx z;
}.
Context {NEO : NotifyEnvOk}.

(** The fields a new context gets from its notification. *)
Definition context_for (z : context) (n : Z) (y : notification) (handler : Z) : Prop :=
  ctx_notification z = Some n /\ regs_rip z = handler /\ regs_rdi z = n_info y /\ regs_rdx z = notnum y.

Lemma instantiate_ok (s : nstate) thread c n y z handler h :
  notes s !! n = Some y -> ctxs s !! c = Some z -> ctx_notification z = Some n -> n_heap s = true :: h ->
  exists s' z', notification_context_instantiate thread c n handler s = (s', Ok tt) /\
    notes s' = notes s /\ queues s' = queues s /\ threads s' = threads s /\
    ctxs s' = <[c := z']> (ctxs s) /\ context_for z' n y handler.
Proof.
  intros Hn Hc Hz Hh. unfold notification_context_instantiate. destruct (claim_ok thread (n_env s)) as (e1 & st & E1).
  rewrite (bind_ok _ _ s (set_env s e1) (Some st)) by (unfold with_env; by rewrite E1).
  erewrite (bind_ok alloc) by (unfold alloc; cbn; rewrite Hh; reflexivity). cbn [set_env notes queues ctxs threads delivery n_next n_heap current n_env].
  erewrite (bind_ok (deref notes n)) by (unfold deref; cbn; rewrite Hn; reflexivity).
  erewrite (bind_ok (deref ctxs c)) by (unfold deref; cbn; rewrite Hc; reflexivity).
  erewrite (bind_ok (put_ctx _ _)) by reflexivity. set (len := s32 _). set (rsp := if len =? 0 then _ else _).
  set (z' := MkCtx _ _ _ _ _ _ _ _ _). set (s1 := set_ctxs _ _).
  assert (E2 : exists s2, (if len =? 0 then mret tt else with_env (ne_pmap_map thread rsp (par_paddr (parameter y)))) s1 = (set_env s1 s2, Ok tt)).
  { destruct (len =? 0); [by exists e1|]. destruct (map_ok thread rsp (par_paddr (parameter y)) (n_env s1)) as (e2 & E2).
    exists e2. unfold with_env. by rewrite E2. }
  destruct E2 as (e2 & E2). rewrite (bind_ok _ _ _ _ _ E2).
  destruct (portal_ok rsp (u64 (user_size st - len)) e2) as (e3 & E3).
  rewrite (bind_ok _ _ _ (set_env s1 e3) rsp) by (unfold with_env; cbn; by rewrite E3). rewrite Z.eqb_refl.
  by exists (set_env s1 e3), z'.
Qed.

Lemma push_context_ok (s : nstate) thread t c z :
  threads s !! thread = Some t -> ctxs s !! c = Some z ->
  exists s' z', push_context thread c s = (s', Ok tt) /\ notes s' = notes s /\ queues s' = queues s /\
    threads s' = <[thread := MkNt (nt_queue t) (actions t) (Some c) (context_active t)]> (threads s) /\
    ctxs s' !! c = Some z' /\ ctx_notification z' = ctx_notification z /\ regs_rip z' = regs_rip z /\
    regs_rdi z' = regs_rdi z /\ regs_rdx z' = regs_rdx z.
Proof.
  intros Ht Hc. destruct (context_push_ok thread c (ctxs s) z Hc) as (cs' & z' & Ep & Hz & Hk).
  unfold push_context. rewrite (bind_ok _ _ s s (ctxs s)) by done. rewrite Ep.
  rewrite (bind_ok _ _ s (set_ctxs s cs') tt) by done. rewrite (bind_ok _ _ _ (set_ctxs s cs') t) by (unfold deref; cbn; by rewrite Ht).
  eexists _, z'. split; [reflexivity|]. done.
Qed.

(** The state after notification [n] of number [i] was served: it left its
    slot, is marked, and the thread's top context runs the handler. *)
Record served (s s' : nstate) (thread q : Z) (x : nqueue) (t : nthread) (i : Z) (j : nat) (n handler : Z) : Prop := {
  sv_queues : exists l, row x i = Some l /\ l !! j = Some (Some n) /\
    queues s' = <[q := set_row x i (<[j := None]> l)]> (queues s);
  sv_notes : exists y, notes s !! n = Some y /\ notes s' = <[n := set_service y false true]> (notes s) /\
    exists c z, ctxs s' !! c = Some z /\ context_for z n y handler /\
      threads s' = <[thread := MkNt (nt_queue t) (actions t) (Some c) (context_active t)]> (threads s);
}.

Lemma dispatch_loop_serve (s : nstate) thread q x t i j n handler h k :
  typed s -> queues s !! q = Some x -> threads s !! thread = Some t -> 1 <= i <= 32 ->
  actions t !! Z.to_nat (i - 1) = Some handler -> can_serve s q x i j n -> n_heap s = true :: true :: true :: h ->
  exists s', dispatch_loop (S k) i thread q s = (s', Ok tt) /\ served s s' thread q x t i j n handler.
Proof.
  intros Hs Hx Ht Hi Hact Hcan Hh. pose proof Hcan as (Hmask & Hin & _).
  destruct (ty_slot _ Hs q _ j n Hin) as (y & Hy & Hnum & _). pose proof (ty_pending _ Hs q x _ j n Hin Hx) as Hpend.
  rewrite Z2Nat.id in Hpend by lia. cbn [dispatch_loop].
  rewrite (bind_ok _ _ s s x) by (unfold deref; by rewrite Hx). rewrite !mask_test, Hpend, Hmask by lia. cbn [negb orb].
  rewrite (bind_ok _ _ s s t) by (unfold deref; by rewrite Ht).
  rewrite (bind_ok _ _ s s handler) by (unfold action_of; destruct (Z.ltb_spec (i - 1) 0); [lia|by rewrite Hact]).
  destruct (pop_served s q x i j n Hs Hx Hi Hcan) as (l & Hrow & Hj & Hpop). rewrite (bind_ok _ _ _ _ _ Hpop).
  set (s1 := set_queues s _). set (c := n_next s).
  erewrite (bind_ok (new_context thread n)).
  2:{ unfold new_context. erewrite (bind_ok alloc) by (unfold alloc; cbn; rewrite Hh; reflexivity).
      erewrite (bind_ok (put_ctx _ _)) by reflexivity.
      erewrite (bind_ok alloc) by reflexivity. erewrite (bind_ok (put_ctx _ _)) by reflexivity. reflexivity. }
  cbn [set_ctxs set_queues s1 notes queues ctxs threads delivery n_next n_heap current n_env].
  erewrite (bind_ok (deref notes n)) by (unfold deref; cbn; rewrite Hy; reflexivity).
  erewrite (bind_ok (put_note _ _)) by reflexivity. set (s2 := set_notes _ _).
  destruct (instantiate_ok s2 thread c n (set_service y false true) (MkCtx (Some n) thread (ctx_last junk_context) (blocking junk_context)
      (regs_rip junk_context) (regs_rsp junk_context) (regs_rdi junk_context) (regs_rsi junk_context) (regs_rdx junk_context)) handler h)
    as (s3 & z & E3 & N3 & Q3 & T3 & C3 & Hz); [apply lookup_insert_eq|apply lookup_insert_eq|done|done|].
  rewrite (bind_ok _ _ _ _ _ E3).
  destruct (push_context_ok s3 thread t c z) as (s4 & z' & E4 & N4 & Q4 & T4 & C4 & Hz'); [by rewrite T3|by rewrite C3, lookup_insert_eq|].
  exists s4. split; [done|]. split.
  - exists l. by rewrite Q4, Q3.
  - exists y. rewrite N4, N3. split_and!; [done|done|]. exists c, z'. split; [done|]. rewrite T4, T3. split; [|done].
    unfold context_for in *. cbn in Hz. intuition congruence.
Qed.

Lemma dispatch_loop_reach (s : nstate) thread q x t m i n :
  typed s -> queues s !! q = Some x -> threads s !! thread = Some t -> length (actions t) = 32%nat ->
  1 <= i -> i + Z.of_nat m <= 33 -> (forall k j n, i <= k < i + Z.of_nat m -> ~ can_serve s q x k j n) ->
  dispatch_loop (m + n) i thread q s = dispatch_loop n (i + Z.of_nat m) thread q s.
Proof.
  intros Hs Hx Ht Hact. revert i. induction m as [|m IH]; intros i Hi Hm Hno; [by rewrite Z.add_0_r|].
  cbn [Nat.add]. rewrite (dispatch_loop_skip s q x thread t) by (done || lia || (intros j' n'; apply Hno; lia)).
  rewrite IH by (lia || (intros k j' n' Hk; apply Hno; lia)). f_equal. lia.
Qed.

(** The thread's queue may be served and its top context does not itself
    wait for a notification. *)
Definition ready_to_serve (s : nstate) (thread q : Z) (x : nqueue) (t : nthread) : Prop :=
  threads s !! thread = Some t /\ nt_queue t = Some q /\ queues s !! q = Some x /\ length (actions t) = 32%nat /\
  nq_active x = true /\ pending x <> 0 /\
  exists top z, context_top t = Some top /\ ctxs s !! top = Some z /\ ctx_notification z = None.

Lemma dispatch_is_loop s thread q x t :
  ready_to_serve s thread q x t -> notification_dispatch (Some thread) s = dispatch_loop 32 1 thread q s.
Proof.
  intros (Ht & Hq & Hx & _ & Ha & Hp & top & z & Htop & Hz & Hn). unfold notification_dispatch.
  rewrite (bind_ok _ _ s s t) by (unfold deref; by rewrite Ht). rewrite Hq.
  rewrite (bind_ok _ _ s s x) by (unfold deref; by rewrite Hx). rewrite Ha. destruct (Z.eqb_spec (pending x) 0); [done|]. cbn [negb orb].
  rewrite Htop. rewrite (bind_ok _ _ s s z) by (unfold deref; by rewrite Hz). rewrite Hn. by rewrite (bind_ok _ _ s s None).
Qed.

(** Dispatching serves the lowest number that is not masked and has a
    notification that may be served, and of that number the one in the first
    slot: it leaves its slot and nothing else does, it is marked as served,
    and the thread's new top context runs the handler of the number with the
    notification's arguments.  When there is none nothing changes. *)
Theorem notification_dispatch_lowest (s : nstate) thread q x t h :
  typed s -> ready_to_serve s thread q x t -> n_heap s = true :: true :: true :: h ->
  ((forall i j n, 1 <= i <= 32 -> ~ can_serve s q x i j n) -> notification_dispatch (Some thread) s = (s, Ok tt)) /\
  (forall i j n, 1 <= i <= 32 -> can_serve s q x i j n -> (forall k j' n', 1 <= k < i -> ~ can_serve s q x k j' n') ->
   exists s' handler, actions t !! Z.to_nat (i - 1) = Some handler /\
     notification_dispatch (Some thread) s = (s', Ok tt) /\ served s s' thread q x t i j n handler).
Proof.
  intros Hs Hr Hh. rewrite (dispatch_is_loop s thread q x t Hr). destruct Hr as (Ht & _ & Hx & Hact & _). split.
  - intros Hno. change 32%nat with (32 + 0)%nat.
    rewrite (dispatch_loop_reach s thread q x t) by (done || lia || (intros; apply Hno; lia)). done.
  - intros i j n Hi Hcan Hlow. destruct (lookup_lt_is_Some_2 (actions t) (Z.to_nat (i - 1))) as (handler & Hh'); [lia|].
    replace 32%nat with (Z.to_nat (i - 1) + S (Z.to_nat (32 - i)))%nat by lia.
    rewrite (dispatch_loop_reach s thread q x t) by (done || lia || (intros; apply Hlow; lia)).
    replace (1 + Z.of_nat (Z.to_nat (i - 1))) with i by lia.
    destruct (dispatch_loop_serve s thread q x t i j n handler h (Z.to_nat (32 - i))) as (s' & Ed & Hsv); try done.
    by exists s', handler.
Qed.

End NotifyOps.

(** ** A thread with two notifications *)

Definition demo_note : notification := MkNot 0 0 0 false false false (MkPar 0 0 0) 0 None None.
Definition demo_context : context := MkCtx None 0 None false 0 0 0 0 0.

(** Thread 1 is reachable through capability 3; stacks and regions are always
    there. *)
#[export] Instance demo_env : NotifyEnv unit := {
  USTACK_CLAIM _ e := (e, Ok (Some (MkStack 0x9000 0x1000 0 0)));
  USTACK_PUSH _ _ e := (e, Ok tt);
  ne_pmap_map _ _ _ e := (e, Ok tt);
  ne_portal b _ e := (e, Ok b);
  ne_pmm_alloc _ e := (e, Ok 0x5000);
  ne_capability_lookup c e := (e, Ok (if c =? 3 then Some (3, Some 7) else None));
  search_thread _ e := (e, Ok (Some 1));
  CONTEXT_PUSH _ _ cs := Some cs;
  destroy_context _ _ cs := Some cs;
  delivery_queue_push d t := Some (d ++ [t]);
  delivery_queue_remove d _ := Some d;
  CONTEXT_DEFAULT_STACK_SIZE := 0x4000;
  ne_HIGH_VMA := 0xffff800000000000;
  NOTIFY_WEIGHT_INSTANTANEOUS := 1;
  NOTIFY_WEIGHT_TICK := 2;
  junk_note := demo_note;
  junk_context := demo_context;
}.

#[export] Instance demo_env_ok : NotifyEnvOk.
Proof.
  split; cbn; eauto. intros t c cs z Hz. exists cs, z. done.
Qed.

Definition demo_nstate : nstate := {|
  notes := ∅;
  queues := {[10 := MkNq empty_rows true 0 0]};
  ctxs := {[20 := demo_context]};
  threads := {[1 := MkNt (Some 10) (seqZ 100 32) (Some 20) (Some 20)]};
  delivery := []; n_next := 50; n_heap := replicate 20 true; current := 1; n_env := tt;
|}.

Lemma demo_empty : no_notifications demo_nstate.
Proof. split; [done|]. intros q x Hx. cbn in Hx. by apply lookup_singleton_Some in Hx as [_ <-]. Qed.

Definition bridge (num : Z) : comm_bridge := MkBridge 3 num 4 0 0 0.

(** Numbers 7 and 5 are built and broadcast. *)
Definition demo_ops : list nop := [OBuild (bridge 7); OBuild (bridge 5); OBroadcast (bridge 7); OBroadcast (bridge 5)].
Definition demo_pending : nstate := foldl (fun s op => run_nop op s) demo_nstate demo_ops.

Lemma notification_typed_witness :
  typed demo_pending /\ in_slot demo_pending 10 6 0 50 /\ in_slot demo_pending 10 4 0 52.
Proof.
  split; [exact (notification_typed demo_nstate demo_ops demo_empty)|].
  split; eexists _, _; (split; [vm_compute; reflexivity|split; reflexivity]).
Defined.

Lemma demo_pending_typed : typed demo_pending.
Proof.
  unfold demo_pending, demo_ops. cbn [foldl]. do 4 apply run_nop_typed. apply no_notifications_typed, demo_empty.
Qed.

Definition demo_queue : nqueue :=
  MkNq (<[4%nat := Some 52 :: replicate 7 None]> (<[6%nat := Some 50 :: replicate 7 None]> empty_rows)) true 80 0.

Lemma demo_pending_queue : queues demo_pending !! 10 = Some demo_queue.
Proof. by vm_compute. Qed.

(** Number 5 is served first; its handler is the fifth. *)
Lemma notification_dispatch_lowest_witness :
  exists s' t, notification_dispatch (Some 1) demo_pending = (s', Ok tt) /\ served demo_pending s' 1 10 demo_queue t 5 0 52 104.
Proof.
  set (t := MkNt (Some 10) (seqZ 100 32) (Some 20) (Some 20)).
  assert (Hr : ready_to_serve demo_pending 1 10 demo_queue t).
  { split; [by vm_compute|]. split; [done|]. split; [apply demo_pending_queue|]. split; [done|]. split; [done|]. split; [done|].
    exists 20, demo_context. split; [done|]. split; [by vm_compute|done]. }
  destruct (notification_dispatch_lowest demo_pending 1 10 demo_queue t (replicate 13 true) demo_pending_typed Hr ltac:(by vm_compute))
    as (_ & H).
  destruct (H 5 0%nat 52 ltac:(lia)) as (s' & h & Hh & Ed & Hsv).
  - split; [by vm_compute|]. split; [eexists _, _; split; [apply demo_pending_queue|split; reflexivity]|]. split; [by vm_compute|lia].
  - intros k j' n' Hk (_ & (x & l & Hx & Hl & Hj) & _). rewrite demo_pending_queue in Hx. injection Hx as <-.
    assert (Hrow : l = replicate 8 None).
    { assert (Hc : Z.to_nat (k - 1) ∈ [0; 1; 2; 3]%nat) by (rewrite !elem_of_cons; lia).
      repeat (apply elem_of_cons in Hc as [Hc|Hc]; [rewrite Hc in Hl; by injection Hl as <-|]). by apply elem_of_nil in Hc. }
    rewrite Hrow in Hj. by apply lookup_replicate in Hj as (? & _).
  - exists s', t. split; [exact Ed|]. by injection Hh as <-.
Defined.

(** ** What goes wrong *)

(** Number 0 passes the check and indexes in front of the queue. *)
Lemma number_zero_is_wild :
  (notification_queue None (Some 1) 0 4 true 0 0 0 demo_nstate).2 = Halt.
Proof. by vm_compute. Qed.

(** The link index of a bridge is always the first slot: the second
    notification of a number cannot be named. *)
Lemma second_build_same_link :
  match notification_build (bridge 7) (run_nop (OBuild (bridge 7)) demo_nstate) with
  | (s, Ok b) => lnkidx b = 0 /\ in_slot s 10 6 1 52 /\ (bridge_note b s).2 = Ok (1, 50)
  | _ => False
  end.
Proof.
  vm_compute. split_and!; [done| |done]. eexists _, _. split; [reflexivity|]. split; reflexivity.
Qed.

(** Link index 8 passes the check and names the first slot of the next
    number. *)
Lemma link_eight_is_next_number :
  (bridge_note (MkBridge 3 6 4 0 0 8) demo_pending).2 = Ok (1, 50).
Proof. by vm_compute. Qed.

(** The ninth notification of a number is refused, and leaks. *)
Lemma ninth_is_refused :
  let s := foldl (fun s op => run_nop op s) demo_nstate (replicate 8 (OBuild (bridge 7))) in
  let r := notification_build (bridge 7) s in r.2 = Err /\ size (notes r.1) = 9%nat.
Proof. by vm_compute. Qed.

(** An allocation that fails while a notification is served loses it. *)
Lemma served_without_memory :
  let s := MkN (notes demo_pending) (queues demo_pending) (ctxs demo_pending) (threads demo_pending) [] 60 [false] 1 tt in
  let r := notification_dispatch (Some 1) s in
  r.2 = Err /\ ~ in_slot r.1 10 4 0 52.
Proof.
  split; [by vm_compute|]. intros (x & l & Hx & Hl & Hi). vm_compute in Hx. injection Hx as <-.
  vm_compute in Hl. injection Hl as <-. vm_compute in Hi. discriminate.
Qed.
