(* ===== verification/Lock.v ===== *)
(** * Spin locks ([core/lock.h])

    The wrappers around the lock word of aria: one saves and disables
    interrupts, the others raise the interrupt priority level.  Processors
    take their steps in any order; waiting for the word is not a step.  The
    calls deferred until the level drops ([ipl_lower]) are in [Clock]. *)

From S2P Require Import Prelude.

Definition DISPATCH_LEVEL : Z := 1.

(** [Irq] is [spinlock_irqsave], [Ipl old] is [spinlock_acquire] or
    [spinlock_acquire_at] with the level to go back to. *)
Inductive holding := Irq | Ipl (old : Z).

Inductive lpc :=
| Out
| Saved                   (* the interrupt state is stored in the lock *)
| Spin (h : holding)      (* in [raw_spinlock] *)
| In (h : holding)
| Left (h : holding).     (* after [raw_spinrelease] *)

Record lcpu := MkLcpu { pc : lpc; irqs : bool; level : Z }.
Record spinlock := MkLock { taken : bool; interrupts : bool; lcpus : list lcpu }.

Definition set_lcpu (s : spinlock) (i : nat) (c : lcpu) : spinlock := MkLock (taken s) (interrupts s) (<[i := c]> (lcpus s)).

(** The calls a processor can make; [Go] is the next step of the one it is
    in. *)
Inductive lcall := SpinlockIrqsave | SpinlockAcquireAt (ipl : Z) | Release | Go.

Definition SpinlockAcquire : lcall := SpinlockAcquireAt DISPATCH_LEVEL.

(** [None]: the call does not apply, the processor waits, or an assertion
    fails. *)
Definition lock_step (i : nat) (call : lcall) (s : spinlock) : option spinlock :=
  c ← lcpus s !! i;
  match pc c, call with
  | Out, SpinlockIrqsave => Some (MkLock (taken s) (irqs c) (<[i := MkLcpu Saved (irqs c) (level c)]> (lcpus s)))
  | Saved, Go => Some (set_lcpu s i (MkLcpu (Spin Irq) false (level c)))
  | Out, SpinlockAcquireAt ipl =>
      if level c <=? ipl
      then Some (set_lcpu s i (MkLcpu (Spin (Ipl (level c))) (if DISPATCH_LEVEL <? ipl then false else irqs c) ipl))
      else None
  | Spin h, Go =>
      if taken s then None
      else Some (MkLock true (interrupts s) (<[i := MkLcpu (In h) (irqs c) (level c)]> (lcpus s)))
  | In h, Release => Some (MkLock false (interrupts s) (<[i := MkLcpu (Left h) (irqs c) (level c)]> (lcpus s)))
  | Left Irq, Go => Some (set_lcpu s i (MkLcpu Out (interrupts s) (level c)))
  | Left (Ipl old), Go =>
      if old <=? level c
      then Some (set_lcpu s i (MkLcpu Out (if old <=? DISPATCH_LEVEL then true else irqs c) old))
      else None
  | _, _ => None
  end.

Definition lock_steps (s s' : spinlock) : Prop := exists i call, lock_step i call s = Some s'.

(** ** Mutual exclusion *)

Definition inside (c : lcpu) : bool := match pc c with In _ => true | _ => false end.

(** What holds of one processor that started at level [home]. *)
Definition lcpu_ok (home : Z) (c : lcpu) : Prop :=
  match pc c with
  | Out | Saved => level c = home
  | Spin Irq | In Irq => irqs c = false /\ level c = home
  | Left Irq => level c = home
  | Spin (Ipl old) | In (Ipl old) | Left (Ipl old) => old = home /\ home <= level c
  end.

(** [levels] are the levels the processors started at. *)
Record lock_inv (levels : list Z) (s : spinlock) : Prop := {
  li_cpus : Forall2 lcpu_ok levels (lcpus s);
  li_taken : taken s = true <-> exists i c, lcpus s !! i = Some c /\ inside c = true;
  li_one i j c d : lcpus s !! i = Some c -> lcpus s !! j = Some d -> inside c = true -> inside d = true -> i = j;
}.

(** A processor that is not inside before or after its step. *)
Lemma lock_move levels s s' i c c' :
  lock_inv levels s -> lcpus s !! i = Some c -> lcpus s' = <[i := c']> (lcpus s) -> taken s' = taken s ->
  inside c = false -> inside c' = false -> (forall home, lcpu_ok home c -> lcpu_ok home c') -> lock_inv levels s'.
Proof.
  intros [H1 H2 H3] Hc Hs Ht Hi Hi' Hok. apply lookup_lt_Some in Hc as Hlt.
  assert (Hin : forall j d, lcpus s' !! j = Some d -> inside d = true -> lcpus s !! j = Some d).
  { intros j d. rewrite Hs, list_lookup_insert_Some. intros [(<- & -> & _)|(_ & ?)]; [congruence|done]. }
  assert (Hout : forall j d, lcpus s !! j = Some d -> inside d = true -> lcpus s' !! j = Some d).
  { intros j d Hj Hd. rewrite Hs, list_lookup_insert_ne; [done|]. intros <-. congruence. }
  split.
  - rewrite Hs. destruct (Forall2_lookup_r _ _ _ _ _ H1 Hc) as (home & Hh & Hokc).
    rewrite <- (list_insert_id levels i home Hh). apply Forall2_insert; auto.
  - rewrite Ht, H2. split; intros (j & d & Hj & Hd); eauto.
  - intros j k d e Hj Hk Hd He. eapply H3; eauto.
Qed.

Lemma lock_enter levels s s' i c c' :
  lock_inv levels s -> lcpus s !! i = Some c -> lcpus s' = <[i := c']> (lcpus s) -> taken s = false -> taken s' = true ->
  inside c' = true -> (forall home, lcpu_ok home c -> lcpu_ok home c') -> lock_inv levels s'.
Proof.
  intros [H1 H2 H3] Hc Hs Hf Ht Hi' Hok. apply lookup_lt_Some in Hc as Hlt.
  assert (Hno : forall j d, lcpus s !! j = Some d -> inside d = false).
  { intros j d Hj. destruct (inside d) eqn:E; [|done]. rewrite Hf in H2. enough (false = true) by done. apply H2. eauto. }
  assert (Hone : forall j d, lcpus s' !! j = Some d -> inside d = true -> j = i).
  { intros j d. rewrite Hs, list_lookup_insert_Some. intros [(-> & _)|(_ & Hj)]; [done|]. by rewrite (Hno j d Hj). }
  split.
  - rewrite Hs. destruct (Forall2_lookup_r _ _ _ _ _ H1 Hc) as (home & Hh & Hokc).
    rewrite <- (list_insert_id levels i home Hh). apply Forall2_insert; auto.
  - rewrite Ht. split; [|done]. intros _. exists i, c'. rewrite Hs, list_lookup_insert_eq by done. done.
  - intros j k d e Hj Hk Hd He. rewrite (Hone j d Hj Hd), (Hone k e Hk He). done.
Qed.

Lemma lock_leave levels s s' i c c' :
  lock_inv levels s -> lcpus s !! i = Some c -> lcpus s' = <[i := c']> (lcpus s) -> taken s' = false ->
  inside c = true -> inside c' = false -> (forall home, lcpu_ok home c -> lcpu_ok home c') -> lock_inv levels s'.
Proof.
  intros [H1 H2 H3] Hc Hs Ht Hi Hi' Hok. apply lookup_lt_Some in Hc as Hlt.
  assert (Hno : forall j d, lcpus s' !! j = Some d -> inside d = false).
  { intros j d. rewrite Hs, list_lookup_insert_Some. intros [(_ & <- & _)|(Hne & Hj)]; [done|].
    destruct (inside d) eqn:E; [|done]. destruct Hne. by eapply H3. }
  split.
  - rewrite Hs. destruct (Forall2_lookup_r _ _ _ _ _ H1 Hc) as (home & Hh & Hokc).
    rewrite <- (list_insert_id levels i home Hh). apply Forall2_insert; auto.
  - rewrite Ht. split; [done|]. intros (j & d & Hj & Hd). by rewrite (Hno j d Hj) in Hd.
  - intros j k d e Hj _ Hd. by rewrite (Hno j d Hj) in Hd.
Qed.

Lemma lock_step_inv levels s s' : lock_inv levels s -> lock_steps s s' -> lock_inv levels s'.
Proof.
  intros I (i & call & E). unfold lock_step in E. destruct (lcpus s !! i) as [[p q l]|] eqn:Hc; [|done]. cbn in E.
  destruct p as [| |h|h|[|old]], call as [|ipl| |]; try done; try (case_if_in E; [|done]); try (case_if_in E; [done|]); injection E as <-.
  - by eapply lock_move.
  - eapply lock_move; try done; intros home Hh; cbn in *; subst; split; (done || lia).
  - by eapply lock_move.
  - eapply lock_enter; try done; by destruct h.
  - eapply lock_leave; try done; intros home; destruct h; cbn; intuition.
  - by eapply lock_move.
  - eapply lock_move; try done; by intros home (-> & _).
Qed.

Definition all_out (s : spinlock) : Prop := taken s = false /\ forall i c, lcpus s !! i = Some c -> pc c = Out.

Lemma all_out_inv s : all_out s -> lock_inv (level <$> lcpus s) s.
Proof.
  intros (Ht & Ho). assert (Hin : forall i c, lcpus s !! i = Some c -> inside c = false) by (intros i c Hc; unfold inside; by rewrite (Ho i c Hc)).
  split.
  - apply Forall2_fmap_l, Forall_Forall2_diag, Forall_lookup. intros i c Hc. cbn. unfold lcpu_ok. by rewrite (Ho i c Hc).
  - rewrite Ht. split; [done|]. intros (i & c & Hc & Hi). by rewrite (Hin i c Hc) in Hi.
  - intros i j c d Hc _ Hi. by rewrite (Hin i c Hc) in Hi.
Qed.

Lemma lock_reach levels s s' : lock_inv levels s -> rtc lock_steps s s' -> lock_inv levels s'.
Proof. intros I Hr. induction Hr as [|s1 s2 s3 Hs _ IH]; [done|]. by apply IH, (lock_step_inv levels s1). Qed.

(** C17: However the processors interleave, at most one of them is between
    taking the lock and releasing it; one that took it with [spinlock_irqsave]
    has interrupts disabled there; one outside of the calls is at the level it
    started with; and one that waits can go on, or the processor inside can
    release. *)
Theorem spinlock_exclusion (s0 s : spinlock) :
  all_out s0 -> rtc lock_steps s0 s ->
  (forall i j c d h k, lcpus s !! i = Some c -> lcpus s !! j = Some d -> pc c = In h -> pc d = In k -> i = j) /\
  (forall i c, lcpus s !! i = Some c -> pc c = In Irq -> irqs c = false) /\
  (forall i c, lcpus s !! i = Some c -> pc c = Out -> level <$> lcpus s0 !! i = Some (level c)) /\
  (forall i c h, lcpus s !! i = Some c -> pc c = Spin h ->
     (exists s', lock_step i Go s = Some s') \/ (exists j s', lock_step j Release s = Some s')).
Proof.
  intros H0 Hr. destruct (lock_reach _ s0 s (all_out_inv s0 H0) Hr) as [H1 H2 H3].
  assert (Hat : forall i c, lcpus s !! i = Some c -> exists c0, lcpus s0 !! i = Some c0 /\ lcpu_ok (level c0) c).
  { intros i c Hc. destruct (Forall2_lookup_r _ _ _ _ _ H1 Hc) as (l & Hl & Hok).
    rewrite list_lookup_fmap in Hl. destruct (lcpus s0 !! i) as [c0|]; [|done]. injection Hl as <-. by exists c0. }
  split_and!.
  - intros i j c d h k Hc Hd Ec Ed. eapply H3; eauto; unfold inside; [by rewrite Ec|by rewrite Ed].
  - intros i c Hc Ec. destruct (Hat i c Hc) as (c0 & _ & Hok). unfold lcpu_ok in Hok. rewrite Ec in Hok. tauto.
  - intros i c Hc Ec. destruct (Hat i c Hc) as (c0 & -> & Hok). unfold lcpu_ok in Hok. rewrite Ec in Hok. cbn. congruence.
  - intros i c h Hc Ec. destruct (taken s) eqn:Et.
    + right. destruct (proj1 H2 eq_refl) as (j & d & Hd & Hi). exists j. unfold lock_step. rewrite Hd. cbn.
      unfold inside in Hi. destruct (pc d); try done. by eexists.
    + left. unfold lock_step. rewrite Hc. cbn. rewrite Ec, Et. by eexists.
Qed.

(** ** Runs *)

Fixpoint run_lock (l : list (nat * lcall)) (s : spinlock) : option spinlock :=
  match l with
  | [] => Some s
  | (i, call) :: l => match lock_step i call s with Some s => run_lock l s | None => None end
  end.

Lemma run_lock_reach l s s' : run_lock l s = Some s' -> rtc lock_steps s s'.
Proof.
  revert s. induction l as [|[i call] l IH]; intros s; cbn; [by intros [= <-]|].
  destruct (lock_step i call s) as [s1|] eqn:E; [|done]. intros H. eapply rtc_l; [by exists i, call|by apply IH].
Qed.

(** Two processors, the second with interrupts off. *)
Definition demo_lock : spinlock := MkLock false false [MkLcpu Out true 0; MkLcpu Out false 0].

Lemma demo_lock_out : all_out demo_lock.
Proof. split; [done|]. intros [|[|i]] c; cbn; [by intros [= <-]|by intros [= <-]|done]. Qed.

Lemma spinlock_exclusion_witness :
  exists s, run_lock [(0%nat, SpinlockIrqsave); (0%nat, Go); (0%nat, Go); (1%nat, SpinlockAcquire)] demo_lock = Some s /\
    (forall i c, lcpus s !! i = Some c -> pc c = In Irq -> irqs c = false) /\
    exists j s', lock_step j Release s = Some s'.
Proof.
  eexists. split; [reflexivity|].
  destruct (spinlock_exclusion demo_lock _ demo_lock_out (run_lock_reach
    [(0%nat, SpinlockIrqsave); (0%nat, Go); (0%nat, Go); (1%nat, SpinlockAcquire)] demo_lock _ eq_refl)) as (_ & Hi & _ & Hw).
  split; [exact Hi|]. destruct (Hw 1%nat _ (Ipl 0) eq_refl eq_refl) as [(s' & E)|H]; [by vm_compute in E|exact H].
Defined.

(** The saved interrupt state is in the lock and is written before the lock
    is taken: a processor that waits with interrupts off makes the one inside
    come out with interrupts off. *)
Lemma irq_state_overwritten :
  match run_lock [(0%nat, SpinlockIrqsave); (0%nat, Go); (0%nat, Go); (1%nat, SpinlockIrqsave); (0%nat, Release); (0%nat, Go)] demo_lock with
  | Some s => (fun c => (pc c, irqs c)) <$> lcpus s !! 0%nat = Some (Out, false)
  | None => False
  end.
Proof. by vm_compute. Qed.

(** Releasing a lock taken by level enables interrupts, whatever they were. *)
Lemma level_release_enables :
  match run_lock [(1%nat, SpinlockAcquire); (1%nat, Go); (1%nat, Release); (1%nat, Go)] demo_lock with
  | Some s => (fun c => (pc c, irqs c)) <$> lcpus s !! 1%nat = Some (Out, true)
  | None => False
  end.
Proof. by vm_compute. Qed.
