(* ===== verification/Smp.v ===== *)
(** * Processor bring-up and set-up
      ([arch/amd64/smp.c], [arch/amd64/gdt.c], [arch/amd64/cpu.c], [core/init.c])

    Processors start one after the other: each wakes the next entry of the
    description table and hands it the lock it holds; the woken processor
    releases it.  The steps of all processors interleave.  The stack, the
    timer and the registers of a processor, set on the way, do not decide who
    goes next and are not part of the state. *)

From S2P Require Import Prelude Aria.

(** ** Bring-up *)

(** Where a processor is.  [Boot k] and [Up k] are [core_bootstrap] with
    local data [k], before and after it releases the lock; [Wait] and [Held]
    are the second [spinlock] of [chain_aps] and the [spinrelease] after
    it. *)
Inductive phase :=
| Off
| Boot (k : nat)
| Up (k : nat)
| Chain
| Wait
| Held
| Done.

#[export] Instance phase_eq_dec : EqDecision phase.
Proof. solve_decision. Defined.

Record smp := MkSmp {
  logical_processor_cnt : nat;
  cpus_up : nat;
  core_init_lock : bool;
  low_mapped : bool;             (* the identity mapping of page 0 *)
  cores : gmap Z phase;          (* by the identifier of the processor *)
  core_ids : gmap nat Z;         (* [logical_processor_locales[k].core_id] *)
  gs_base : gmap Z nat;          (* which local data a processor uses *)
}.

(** [apics] are the identifiers of the entries of [madt_ent0_list]. *)
Section Smp.
Context (apics : list Z).

Definition phase_of (s : smp) (c : Z) : phase := default Off (cores s !! c).
Definition set_phase (s : smp) (c : Z) (p : phase) : smp :=
  MkSmp (logical_processor_cnt s) (cpus_up s) (core_init_lock s) (low_mapped s) (<[c := p]> (cores s)) (core_ids s) (gs_base s).
Definition set_lock (s : smp) (b : bool) : smp :=
  MkSmp (logical_processor_cnt s) (cpus_up s) b (low_mapped s) (cores s) (core_ids s) (gs_base s).

(** One turn of [chain_aps] on processor [c]; [None] while the lock is
    taken.  The start-up sequence resets the processor it is sent to. *)
Definition chain_aps (c : Z) (s : smp) : option smp :=
  let k := logical_processor_cnt s in
  if (length apics <=? k)%nat
  then Some (set_phase (MkSmp k (cpus_up s) (core_init_lock s) false (cores s) (core_ids s) (gs_base s)) c Done)
  else
    match apics !! k with
    | None => None
    | Some apic_id =>
        let ids := <[k := apic_id]> (core_ids s) in
        if apic_id =? c
        then Some (MkSmp (S k) (cpus_up s) (core_init_lock s) (low_mapped s) (cores s) ids (<[c := k]> (gs_base s)))
        else if core_init_lock s then None
        else Some (set_phase (set_phase (MkSmp k (cpus_up s) true (low_mapped s) (cores s) ids (gs_base s)) c Wait) apic_id (Boot k))
    end.

(** The next step of processor [c]; [None] when it has none or spins. *)
Definition core_step (c : Z) (s : smp) : option smp :=
  match phase_of s c with
  | Off | Done => None
  | Boot k => Some (set_phase (set_lock s false) c (Up k))
  | Up k =>
      Some (set_phase (MkSmp (S (logical_processor_cnt s)) (S (cpus_up s)) (core_init_lock s) (low_mapped s) (cores s)
                         (core_ids s) (<[c := k]> (gs_base s))) c Chain)
  | Chain => chain_aps c s
  | Wait => if core_init_lock s then None else Some (set_phase (set_lock s true) c Held)
  | Held => Some (set_phase (set_lock s false) c Done)
  end.


(** [boot_aps] on processor [bsp], up to its call of [chain_aps]. *)
Definition boot_aps (bsp : Z) : smp := MkSmp 0 1 false true {[bsp := Chain]} ∅ ∅.

(** ** All processors come up *)



(** The processor whose turn it is: it goes through the table, was just
    woken, or is about to count itself. *)
Inductive token := TChain | TBoot | TUp | TEnd.

#[local] Instance token_eq_dec : EqDecision token.
Proof. solve_decision. Defined.







Hypothesis distinct : NoDup apics.

































End Smp.

(** Three processors, to the end. *)
Fixpoint run_cores (apics : list Z) (cs : list Z) (s : smp) : option smp :=
  match cs with
  | [] => Some s
  | c :: cs => match core_step apics c s with Some s => run_cores apics cs s | None => None end
  end.



(** When the processor that boots is not the first entry, the one that was
    woken first resets it. *)
Lemma boot_resets_itself :
  match run_cores [4; 0] [0; 4; 4; 4] (boot_aps 0) with
  | Some s => phase_of s 0 = Boot 1 /\ phase_of s 4 = Wait
  | None => False
  end.
Proof. by vm_compute. Qed.

(** ** Segments *)

Record segment_descriptor := MkSeg {
  seg_limit : Z;
  seg_base : Z;
  seg_access : Z;
  seg_granularity : Z;
}.

Record tss_descriptor := MkTssDesc {
  tss_length : Z;
  base_low : Z;
  base_mid : Z;
  tss_flags : Z;
  base_high : Z;
  base_high32 : Z;
}.

(** The table by selector, and the descriptor of the task state at 0x48. *)
Record gdt := MkGdt { segments : list segment_descriptor; gdt_tss : tss_descriptor }.

Definition seg (limit access granularity : Z) : segment_descriptor := MkSeg limit 0 access granularity.

Definition tss_entry (tss : Z) : tss_descriptor :=
  MkTssDesc 104 (Z.land tss 0xffff) (u8 (Z.land (Z.shiftr tss 16) 0xffff)) 0x89 (Z.land (Z.shiftr tss 24) 0xff)
    (Z.land (Z.shiftr tss 32) 0xffffffff).

(** [gdt_init], with the address of the task state; the unset fields are
    those of zeroed memory. *)
Definition gdt_init (tss : Z) : gdt :=
  MkGdt
    [ seg 0 0 0;                         (* null *)
      seg 0xffff 0x9a 0;                 (* code16 *)
      seg 0xffff 0x92 0;                 (* data16 *)
      seg 0xffff 0x9a 0xcf;              (* code32 *)
      seg 0xffff 0x92 0xcf;              (* data32 *)
      seg 0 0x98 0x20;                   (* kernel_code64 *)
      seg 0 0x96 0;                      (* kernel_data64 *)
      seg 0 0xf2 0;                      (* user_data64 *)
      seg 0 0xfa 0x20 ]                  (* user_code64 *)
    (tss_entry tss).

Definition segment (g : gdt) (selector : Z) : option segment_descriptor := segments g !! Z.to_nat (selector / 8).
Definition seg_present (d : segment_descriptor) : bool := Z.testbit (seg_access d) 7.
Definition seg_dpl (d : segment_descriptor) : Z := Z.land (Z.shiftr (seg_access d) 5) 3.
Definition seg_code (d : segment_descriptor) : bool := Z.testbit (seg_access d) 3.
Definition seg_long (d : segment_descriptor) : bool := Z.testbit (seg_granularity d) 5.

(** [wrmsr(MSR_STAR, 0x33ull << 48 | 0x28ull << 32)] in
    [amd64_system_init] *)
Definition msr_star : Z := Z.lor (Z.shiftl 0x33 48) (Z.shiftl 0x28 32).

(** The selectors the processor derives from it: [syscall] loads bits 32 to
    47 and the next one, [sysret] bits 48 to 63 plus 16 and plus 8. *)
Definition syscall_cs : Z := Z.land (Z.shiftr msr_star 32) 0xfffc.
Definition syscall_ss : Z := syscall_cs + 8.
Definition sysret_cs : Z := Z.lor (Z.shiftr msr_star 48 + 16) 3.
Definition sysret_ss : Z := Z.lor (Z.shiftr msr_star 48 + 8) 3.

(** System calls enter and leave with the right segments of the table. *)
Lemma syscall_segments tss :
  let g := gdt_init tss in
  (exists d, segment g syscall_cs = Some d /\ seg_present d = true /\ seg_dpl d = 0 /\ seg_code d = true /\ seg_long d = true) /\
  (exists d, segment g syscall_ss = Some d /\ seg_present d = true /\ seg_dpl d = 0 /\ seg_code d = false) /\
  (exists d, segment g sysret_cs = Some d /\ seg_present d = true /\ seg_dpl d = 3 /\ seg_code d = true /\ seg_long d = true) /\
  (exists d, segment g sysret_ss = Some d /\ seg_present d = true /\ seg_dpl d = 3 /\ seg_code d = false) /\
  sysret_cs = 0x43 /\ sysret_ss = 0x3b.
Proof. split_and!; try (eexists; split; [reflexivity|]); by vm_compute. Qed.

Definition tss_base (d : tss_descriptor) : Z :=
  base_low d + base_mid d * 2 ^ 16 + base_high d * 2 ^ 24 + base_high32 d * 2 ^ 32.

(** The descriptor holds the whole address of the task state. *)
Lemma tss_base_entry a : 0 <= a < 2 ^ 64 -> tss_base (tss_entry a) = a.
Proof.
  intros Ha. unfold tss_base, tss_entry, u8. cbn [base_low base_mid base_high base_high32].
  change 0xffffffff with (Z.ones 32). change 0xffff with (Z.ones 16). change 0xff with (Z.ones 8).
  rewrite !Z.land_ones, !Z.shiftr_div_pow2 by lia.
  rewrite (Z.mod_small (a / 2 ^ 32)) by (split; [apply Z.div_pos; lia|apply Z.div_lt_upper_bound; lia]).
  assert (H16 : (a / 2 ^ 16 mod 2 ^ 16) mod 2 ^ 8 = a / 2 ^ 16 mod 2 ^ 8).
  { change (2 ^ 16) with (2 ^ 8 * 2 ^ 8) at 2. rewrite Z.rem_mul_r by lia. rewrite Z.mul_comm, Z.mod_add by lia. apply Z.mod_mod. lia. }
  rewrite H16. pose proof (Z.div_mod a (2 ^ 16)). pose proof (Z.div_mod (a / 2 ^ 16) (2 ^ 8)). pose proof (Z.div_mod (a / 2 ^ 24) (2 ^ 8)).
  assert (E24 : a / 2 ^ 24 = a / 2 ^ 16 / 2 ^ 8) by (by rewrite Z.div_div by lia).
  assert (E32 : a / 2 ^ 32 = a / 2 ^ 24 / 2 ^ 8) by (by rewrite Z.div_div by lia). lia.
Qed.

(** ** Other set-up *)

(** The registers [arch_context_init] leaves on the stack of a new thread. *)
Record thread_regs := MkRegs { regs_r12 : Z; thread_rip : Z }.
Definition sizeof_arch_thread_regs : Z := 56.
Definition arch_context_init (kernel_stack entry thread_entry : Z) : Z * thread_regs :=
  (u64 (kernel_stack - sizeof_arch_thread_regs), MkRegs entry thread_entry).

(** [cpuid]: leaves above the highest one of their range read as zero. *)
Definition cpuid (hardware : Z -> Z -> Z * Z * Z * Z) (leaf subleaf : Z) : Z * Z * Z * Z :=
  let '(cpuid_max, _, _, _) := hardware (Z.land leaf 0x80000000) 0 in
  if cpuid_max <? leaf then (0, 0, 0, 0) else hardware leaf subleaf.

(** [amd64_system_init] gives up without SSE or FXSAVE. *)
Definition amd64_system_supported (hardware : Z -> Z -> Z * Z * Z * Z) : bool :=
  let '(_, _, _, d1) := cpuid hardware 1 0 in
  let '(_, _, _, d2) := cpuid hardware 0x80000001 0 in
  Z.testbit d1 25 && Z.testbit d2 24.

(** The control registers it writes: emulation off, the coprocessor
    monitored; global pages, FXSAVE and its exceptions on. *)
Definition system_cr0 (cr0 : Z) : Z := Z.setbit (Z.clearbit cr0 2) 1.
Definition system_cr4 (cr4 : Z) : Z := Z.setbit (Z.setbit (Z.setbit (Z.clearbit cr4 2) 7) 9) 10.

(** [amd64_tsc_calibrate]: ticks during 50 microseconds over 50000000. *)
Definition tsc_freq (a b : Z) : Z := u64 (b - a) / 50000000.

(** The calibration gives 0 for every processor slower than a terahertz. *)
Lemma tsc_freq_zero a f : 0 <= a -> 0 <= f < 10 ^ 12 -> a + f * 50 / 10 ^ 6 < 2 ^ 64 -> tsc_freq a (a + f * 50 / 10 ^ 6) = 0.
Proof.
  intros Ha Hf Hs. unfold tsc_freq. replace (a + f * 50 / 10 ^ 6 - a) with (f * 50 / 10 ^ 6) by lia.
  assert (0 <= f * 50 / 10 ^ 6 < 50000000) by (split; [apply Z.div_pos; lia|apply Z.div_lt_upper_bound; lia]).
  rewrite u64_small by lia. by apply Z.div_small.
Qed.
