(* ===== verification/Resource.v ===== *)
(** * Resource pools ([core/resource.c], [core/resource.h])

    A pool hands out pieces of a range.  Free pieces hang in lists by size
    class, allocated ones in a dictionary by their base and in a tree by
    their neighbours.  Boundaries live in a heap and are named by numbers. *)

From S2P Require Import Prelude Aria.

(** ** Data *)

Record rboundary := MkRb {
  rb_base : Z;
  rb_length : Z;
  rb_allocated : Z;
  rb_next : option Z;
  rb_last : option Z;
}.

Section Resource.
Context {AD : AriaDict} {RB : AriaRb}.
(** What [alloc] leaves in a fresh boundary and in a fresh array. *)
Context (junk_boundary : rboundary) (junk_segments : nat -> list (option Z)).

Record rpool := MkPool {
  pool_base : Z;
  pool_total : Z;
  total_depth : Z;
  pool_free : Z;
  boundary_table : dictionary Z;
  boundary_prospects : ptree;
  boundary_segments : list (option Z);
}.

Record rstate := MkR {
  r_pool : rpool;
  r_objs : gmap Z rboundary;
  r_next : Z;
  r_heap : list bool;   (* which of the coming allocations succeed *)
}.

Definition set_pool (s : rstate) (p : rpool) : rstate := MkR p (r_objs s) (r_next s) (r_heap s).

Definition set_segments (p : rpool) l := MkPool (pool_base p) (pool_total p) (total_depth p) (pool_free p) (boundary_table p) (boundary_prospects p) l.
Definition set_prospects (p : rpool) t := MkPool (pool_base p) (pool_total p) (total_depth p) (pool_free p) (boundary_table p) t (boundary_segments p).
Definition set_table (p : rpool) d := MkPool (pool_base p) (pool_total p) (total_depth p) (pool_free p) d (boundary_prospects p) (boundary_segments p).
Definition set_free (p : rpool) n := MkPool (pool_base p) (pool_total p) (total_depth p) n (boundary_table p) (boundary_prospects p) (boundary_segments p).

(** ** Memory *)

(** [if (unlikely(x == NULL)) RETURN_ERROR] after an [alloc] *)
Definition alloc_boundary : M rstate Z := fun s =>
  match r_heap s with
  | true :: h => (MkR (r_pool s) (<[r_next s := junk_boundary]> (r_objs s)) (r_next s + 1) h, Ok (r_next s))
  | false :: h => (MkR (r_pool s) (r_objs s) (r_next s) h, Err)
  | [] => (s, Err)
  end.

Definition get_boundary (b : Z) : M rstate rboundary := fun s =>
  match r_objs s !! b with Some x => (s, Ok x) | None => (s, Halt) end.

Definition put_boundary (b : Z) (x : rboundary) : M rstate unit :=
  modify (fun s => MkR (r_pool s) (<[b := x]> (r_objs s)) (r_next s) (r_heap s)).

Definition free_boundary (b : Z) : M rstate unit :=
  modify (fun s => MkR (r_pool s) (delete b (r_objs s)) (r_next s) (r_heap s)).

Definition set_next (b : option Z) (n : option Z) : M rstate unit :=
  match b with
  | None => mret tt
  | Some b => x ← get_boundary b; put_boundary b (MkRb (rb_base x) (rb_length x) (rb_allocated x) n (rb_last x))
  end.

Definition set_last (b : option Z) (l : option Z) : M rstate unit :=
  match b with
  | None => mret tt
  | Some b => x ← get_boundary b; put_boundary b (MkRb (rb_base x) (rb_length x) (rb_allocated x) (rb_next x) l)
  end.

(** A slot of the array of lists; outside of the array is a wild access. *)
Definition get_segment (i : Z) : M rstate (option Z) := fun s =>
  match (if i <? 0 then None else boundary_segments (r_pool s) !! Z.to_nat i) with
  | Some x => (s, Ok x)
  | None => (s, Halt)
  end.

Definition put_segment (i : Z) (b : option Z) : M rstate unit := fun s =>
  if (i <? 0) || (Z.of_nat (length (boundary_segments (r_pool s))) <=? i) then (s, Halt)
  else (set_pool s (set_segments (r_pool s) (<[Z.to_nat i := b]> (boundary_segments (r_pool s)))), Ok tt).

(** ** Size classes *)

(** [for (; n;) { ret++; n >>= 1; }] *)
Fixpoint depth_loop (fuel : nat) (n ret : Z) : Z :=
  match fuel with
  | O => ret
  | Datatypes.S fuel => if n =? 0 then ret else depth_loop fuel (Z.shiftr n 1) (ret + 1)
  end.

(** 64 turns shift any [size_t] to zero. *)
Definition depth_of (n : Z) : Z := depth_loop 64 n 0.

(** [-1] is the error. *)
Definition rpool_boundary_index (pool : rpool) (n : Z) : Z :=
  if n =? 0 then 0
  else if total_depth pool <=? depth_of n then -1 else depth_of n.

(** Takes [node] out of the list of segment [src] and puts it at the head of
    the list of [dest]. *)
Definition rpool_boundary_move (src dest : Z) (node : Z) : M rstate unit :=
  head ← get_segment src;
  match head with
  | None => fail
  | Some h =>
      x ← get_boundary node;
      set_last (rb_next x) (rb_last x);;
      x ← get_boundary node;
      set_next (rb_last x) (rb_next x);;
      x ← get_boundary node;
      (if h =? node then put_segment src (rb_next x) else mret tt);;
      d ← get_segment dest;
      match d with
      | None =>
          set_last (Some node) None;;
          set_next (Some node) None;;
          put_segment dest (Some node)
      | Some d =>
          set_next (Some node) (Some d);;
          set_last (Some node) None;;
          set_last (Some d) (Some node);;
          put_segment dest (Some node)
      end
  end.

(** ** Operations *)

Definition rinit (base length : Z) : M rstate unit := fun s =>
  let p := r_pool s in
  let depth := depth_of length in
  let p := MkPool base length depth length (boundary_table p) (boundary_prospects p) (boundary_segments p) in
  let s := set_pool s p in
  if depth =? 0 then (s, Err)
  else
    match r_heap s with
    | true :: h =>
        let p := MkPool base length depth length dict_empty (boundary_prospects p) (junk_segments (Z.to_nat depth)) in
        let s := MkR p (r_objs s) (r_next s) h in
        (b ← alloc_boundary;
         put_boundary b (MkRb base length 0 None None);;
         put_segment (depth - 1) (Some b)) s
    | false :: h => (MkR p (r_objs s) (r_next s) h, Err)
    | [] => (s, Err)
    end.

(** The first class from [i] on whose list is not empty. *)
Fixpoint find_segment (n : nat) (i : Z) : M rstate (Z * Z) :=
  match n with
  | O => fail
  | Datatypes.S n =>
      b ← get_segment i;
      match b with Some b => mret (i, b) | None => find_segment n (i + 1) end
  end.

Definition rb_key (s : rstate) (b : Z) : Z := match r_objs s !! b with Some x => rb_base x | None => 0 end.

Definition insert_prospect (b : Z) : M rstate unit := fun s =>
  match RB_GENERIC_INSERT (rb_key s) (boundary_prospects (r_pool s)) b with
  | Some t => (set_pool s (set_prospects (r_pool s) t), Ok tt)
  | None => (s, Err)
  end.

Definition delete_prospect (b : Z) : M rstate unit := fun s =>
  match RB_GENERIC_DELETE (boundary_prospects (r_pool s)) b with
  | Some t => (set_pool s (set_prospects (r_pool s) t), Ok tt)
  | None => (s, Err)
  end.

Definition push_table (key b : Z) : M rstate unit := fun s =>
  let '(d, ok) := dictionary_push (boundary_table (r_pool s)) key b in
  (set_pool s (set_table (r_pool s) d), if ok then Ok tt else Err).

Definition add_free (n : Z) : M rstate unit :=
  modify (fun s => set_pool s (set_free (r_pool s) (u64 (pool_free (r_pool s) + n)))).

Definition ralloc (length : Z) : M rstate Z :=
  p ← gets r_pool;
  let boundary_index := rpool_boundary_index p length in
  if boundary_index =? -1 then fail
  else if u64 (pool_free p - length) <=? 0 then fail
  else
    ib ← find_segment (Z.to_nat (total_depth p - boundary_index)) boundary_index;
    let '(boundary_index, boundary) := ib in
    nr ← alloc_boundary;
    x ← get_boundary boundary;
    put_boundary nr (MkRb (rb_base x) (rb_base x) 1 (rb_next junk_boundary) (rb_last junk_boundary));;
    put_boundary boundary (MkRb (u64 (rb_base x + length)) (u64 (rb_length x - length)) (rb_allocated x) (rb_next x) (rb_last x));;
    (let new_boundary_index := rpool_boundary_index p (u64 (rb_length x - length)) in
     if boundary_index =? new_boundary_index then mret tt
     else rpool_boundary_move boundary_index new_boundary_index boundary);;
    insert_prospect nr;;
    push_table (rb_base x) nr;;
    add_free (- length);;
    mret (rb_base x).

(** The children of a node in the tree. *)
Fixpoint children (t : ptree) (n : Z) : option (option Z * option Z) :=
  let root t := match t with PLeaf => None | PNode _ m _ => Some m end in
  match t with
  | PLeaf => None
  | PNode l m r =>
      if m =? n then Some (root l, root r)
      else match children l n with Some c => Some c | None => children r n end
  end.

(** One side of the coalescing in [rfree]: [adjacent] says whether the child
    borders on the boundary, [merge] how the new boundary grows. *)
Definition coalesce_side (child : option Z) (adjacent : rboundary -> bool) (merge : rboundary -> rboundary -> rboundary)
    (rb co : Z) : M rstate unit :=
  match child with
  | None => mret tt
  | Some c =>
      x ← get_boundary c;
      if adjacent x then
        y ← get_boundary co;
        put_boundary co (merge x y);;
        set_next (Some rb) None;;
        set_last (Some rb) None;;
        delete_prospect c;;
        free_boundary c
      else mret tt
  end.

(** The end of [rfree]: [rb] becomes the head of the list of its class. *)
Definition push_free (rb : Z) : M rstate unit :=
  p ← gets r_pool;
  x ← get_boundary rb;
  let boundary_index := rpool_boundary_index p (rb_length x) in
  if boundary_index =? -1 then fail
  else
    head ← get_segment boundary_index;
    put_boundary rb (MkRb (rb_base x) (rb_length x) 0 head None);;
    set_last head (Some rb);;
    put_segment boundary_index (Some rb).

Definition rfree (resource : Z) : M rstate unit :=
  p ← gets r_pool;
  match dictionary_search (boundary_table p) resource with
  | None => mret tt
  | Some rb =>
      x ← get_boundary rb;
      let '(lc, rc) := default (None, None) (children (boundary_prospects p) rb) in
      add_free (rb_length x);;
      match lc, rc with
      | None, None => push_free rb
      | _, _ =>
          co ← alloc_boundary;
          coalesce_side lc
            (fun l => u64 (rb_base l + rb_length l) =? rb_base x)
            (fun l y => MkRb (rb_base l) (u64 (rb_length l + rb_length x)) 0 (rb_next y) (rb_last y)) rb co;;
          coalesce_side rc
            (fun r => u64 (rb_base x + rb_length x) =? rb_base r)
            (fun r y => MkRb (rb_base y) (u64 (rb_length y + rb_length r)) 0 (rb_next y) (rb_last y)) rb co;;
          delete_prospect rb;;
          free_boundary rb;;
          push_free co
      end
  end.

(** Frees the boundaries of one list; a list longer than the number of
    objects is circular or wild. *)
Fixpoint destroy_list (fuel : nat) (node : option Z) : M rstate unit :=
  match node with
  | None => mret tt
  | Some n =>
      match fuel with
      | O => halt
      | Datatypes.S fuel =>
          x ← get_boundary n;
          free_boundary n;;
          destroy_list fuel (rb_next x)
      end
  end.

Fixpoint destroy_segments (l : list (option Z)) : M rstate unit :=
  match l with
  | [] => mret tt
  | b :: l =>
      n ← gets (fun s => size (r_objs s));
      destroy_list (Datatypes.S n) b;;
      destroy_segments l
  end.

Definition rdestroy : M rstate unit :=
  p ← gets r_pool;
  destroy_segments (take (Z.to_nat (total_depth p)) (boundary_segments p)).

End Resource.

(** ** Size classes are bit lengths *)


Lemma depth_of_zero : depth_of 0 = 0.
Proof. done. Qed.




(** ** Pools and requests that are powers of two

    The classes promise that a block found is large enough only when the
    request is the smallest length of its class, and the first block is in
    the last class only when the total is. *)

Section ResourceOk.
Context {AD : AriaDict} {RB : AriaRb}.
Context (junk_boundary : rboundary) (junk_segments : nat -> list (option Z)).
(** [alloc] gives zeroed memory, and the containers have room. *)
Hypothesis segments_zeroed : forall n, junk_segments n = replicate n None.
Hypothesis tree_room : forall key t n, exists t', RB_GENERIC_INSERT key t n = Some t'.
Hypothesis table_room : forall (d : dictionary Z) k v, (dictionary_push d k v).2 = true.










(** The state of a pool of [2 ^ k] from which [used] has been handed out. *)
Definition class_of (k used : Z) : Z := if used =? 0 then k else depth_of (2 ^ k - used).


Context (k base : Z).
Hypothesis pool_small : 0 < k < 64 /\ 0 <= base /\ base + 2 ^ k <= 2 ^ 64.




(** After the allocation the block's class is that of what is left. *)
Lemma class_of_next used j :
  0 <= used < 2 ^ k -> 0 <= j < k -> 2 ^ j < 2 ^ k - used -> class_of k (used + 2 ^ j) = depth_of (2 ^ k - used - 2 ^ j).
Proof.
  intros Hu Hj Hl. unfold class_of. case_if; [lia|]. by rewrite Z.sub_add_distr.
Qed.













End ResourceOk.

(** ** A run and what goes wrong *)

Definition demo_junk : rboundary := MkRb 0 0 0 None None.
Definition demo_segments (n : nat) : list (option Z) := replicate n None.
Definition empty_pool : rpool := MkPool 0 0 0 0 dict_empty PLeaf [].
Definition demo_rstate (n : nat) : rstate := MkR empty_pool ∅ 1 (replicate n true).


(** A request run after [rinit], to its result. *)
Definition after_init {A} (base length : Z) (m : M rstate A) : cres A :=
  ((rinit demo_junk demo_segments base length;; m) (demo_rstate 10)).2.

(** A pool whose size is not a power of two: what is left after the first
    piece has no class, and the write goes in front of the array. *)
Lemma odd_pool_writes_wild : after_init 0x1000 24 (ralloc demo_junk 4) = Halt.
Proof. by vm_compute. Qed.

(** The first block of a class may be smaller than the request: 16 - 9 = 7
    bytes are left, a request for 5 takes the block, and a request for 3
    takes the 2 that remain: the length wraps around and has no class. *)
Lemma block_too_small :
  after_init 0x1000 16 (ralloc demo_junk 1;; ralloc demo_junk 8;; ralloc demo_junk 5;; ralloc demo_junk 3) = Halt.
Proof. by vm_compute. Qed.

(** The allocated boundary records its base as its length: giving a piece
    back adds the base to the free count. *)
Lemma free_adds_the_base :
  after_init 0x10 16 (a ← ralloc demo_junk 4; rfree demo_junk a;; gets (fun s => pool_free (r_pool s))) = Err /\
  after_init 2 16 (a ← ralloc demo_junk 4; rfree demo_junk a;; gets (fun s => pool_free (r_pool s))) = Ok 14.
Proof. by vm_compute. Qed.

(** Giving a piece back does not take it out of the table: it can be given
    back again. *)
Lemma free_twice :
  after_init 2 16 (a ← ralloc demo_junk 4; rfree demo_junk a;; rfree demo_junk a;; gets (fun s => pool_free (r_pool s))) = Ok 16.
Proof. by vm_compute. Qed.

(** A piece with a neighbour in the tree that it does not border on is
    replaced by a boundary that was never filled in. *)
Lemma unrelated_neighbour_loses_piece :
  after_init 4 16
    (a ← ralloc demo_junk 2; _ ← ralloc demo_junk 2; rfree demo_junk a;;
     gets (fun s => (r_objs s !! 2, r_objs s !! 4))) = Ok (None, Some demo_junk).
Proof. by vm_compute. Qed.
