(* ===== verification/Queue.v ===== *)
(** * Tail queues ([external/sys/queue.h])

    The kernel keeps every queue (run queues, DPC queues, wait lists, port
    messages) in the intrusive doubly linked tail queues of [sys/queue.h].
    This file models the macros at the level of their pointers and shows that
    they implement lists, so that the components above use lists. *)

From S2P Require Import Prelude.

(** The address of a [next] pointer: [&head->tqh_first] or
    [&elm->field.tqe_next]. *)
Inductive slot := HeadFirst (h : Z) | NextOf (e : Z).

#[global] Instance slot_eq_dec : EqDecision slot.
Proof. solve_decision. Defined.

(** Heads hold [tqh_first] and [tqh_last], elements [tqe_next] and
    [tqe_prev]. *)
Record qheap := MkHeap {
  heads : gmap Z (option Z * slot);
  elems : gmap Z (option Z * slot);
}.

Definition head_of (hp : qheap) (h : Z) : option Z * slot := default (None, HeadFirst h) (heads hp !! h).
Definition elem_of_heap (hp : qheap) (e : Z) : option Z * slot := default (None, NextOf e) (elems hp !! e).

Definition set_head (hp : qheap) (h : Z) (v : option Z * slot) : qheap :=
  MkHeap (<[h := v]> (heads hp)) (elems hp).
Definition set_elem (hp : qheap) (e : Z) (v : option Z * slot) : qheap :=
  MkHeap (heads hp) (<[e := v]> (elems hp)).

(** [*p] and [*p = v] for the address of a [next] pointer. *)
Definition deref (hp : qheap) (p : slot) : option Z :=
  match p with HeadFirst h => (head_of hp h).1 | NextOf e => (elem_of_heap hp e).1 end.
Definition assign (hp : qheap) (p : slot) (v : option Z) : qheap :=
  match p with
  | HeadFirst h => set_head hp h (v, (head_of hp h).2)
  | NextOf e => set_elem hp e (v, (elem_of_heap hp e).2)
  end.

Definition set_tqh_last (hp : qheap) (h : Z) (p : slot) : qheap :=
  set_head hp h ((head_of hp h).1, p).
Definition set_tqe_prev (hp : qheap) (e : Z) (p : slot) : qheap :=
  set_elem hp e ((elem_of_heap hp e).1, p).

Definition TAILQ_FIRST (hp : qheap) (h : Z) : option Z := (head_of hp h).1.
Definition TAILQ_NEXT (hp : qheap) (e : Z) : option Z := (elem_of_heap hp e).1.
Definition TAILQ_EMPTY (hp : qheap) (h : Z) : bool := bool_decide (TAILQ_FIRST hp h = None).

(** [TAILQ_FOREACH], with [fuel] for the number of steps. *)
Fixpoint TAILQ_FOREACH (fuel : nat) (hp : qheap) (var : option Z) : list Z :=
  match fuel, var with
  | S fuel, Some e => e :: TAILQ_FOREACH fuel hp (TAILQ_NEXT hp e)
  | _, _ => []
  end.

Definition TAILQ_INIT (hp : qheap) (h : Z) : qheap := set_head hp h (None, HeadFirst h).

Definition TAILQ_INSERT_HEAD (hp : qheap) (h e : Z) : qheap :=
  let hp := assign hp (NextOf e) (TAILQ_FIRST hp h) in
  let hp := match TAILQ_NEXT hp e with
            | Some f => set_tqe_prev hp f (NextOf e)
            | None => set_tqh_last hp h (NextOf e)
            end in
  let hp := assign hp (HeadFirst h) (Some e) in
  set_tqe_prev hp e (HeadFirst h).

Definition TAILQ_INSERT_TAIL (hp : qheap) (h e : Z) : qheap :=
  let hp := assign hp (NextOf e) None in
  let hp := set_tqe_prev hp e (head_of hp h).2 in
  let hp := assign hp (head_of hp h).2 (Some e) in
  set_tqh_last hp h (NextOf e).

Definition TAILQ_REMOVE (hp : qheap) (h e : Z) : qheap :=
  let hp := match TAILQ_NEXT hp e with
            | Some n => set_tqe_prev hp n (elem_of_heap hp e).2
            | None => set_tqh_last hp h (elem_of_heap hp e).2
            end in
  assign hp (elem_of_heap hp e).2 (TAILQ_NEXT hp e).

Definition TAILQ_INSERT_AFTER (hp : qheap) (h listelm e : Z) : qheap :=
  let hp := assign hp (NextOf e) (TAILQ_NEXT hp listelm) in
  let hp := match TAILQ_NEXT hp e with
            | Some n => set_tqe_prev hp n (NextOf e)
            | None => set_tqh_last hp h (NextOf e)
            end in
  let hp := assign hp (NextOf listelm) (Some e) in
  set_tqe_prev hp e (NextOf listelm).

Definition TAILQ_INSERT_BEFORE (hp : qheap) (listelm e : Z) : qheap :=
  let hp := set_tqe_prev hp e (elem_of_heap hp listelm).2 in
  let hp := assign hp (NextOf e) (Some listelm) in
  let hp := assign hp (elem_of_heap hp listelm).2 (Some e) in
  set_tqe_prev hp listelm (NextOf e).

Definition TAILQ_REPLACE (hp : qheap) (h e e2 : Z) : qheap :=
  let hp := assign hp (NextOf e2) (TAILQ_NEXT hp e) in
  let hp := match TAILQ_NEXT hp e2 with
            | Some n => set_tqe_prev hp n (NextOf e2)
            | None => set_tqh_last hp h (NextOf e2)
            end in
  let hp := set_tqe_prev hp e2 (elem_of_heap hp e).2 in
  assign hp (elem_of_heap hp e2).2 (Some e2).

Definition TAILQ_CONCAT (hp : qheap) (h1 h2 : Z) : qheap :=
  match TAILQ_FIRST hp h2 with
  | None => hp
  | Some f =>
      let hp := assign hp (head_of hp h1).2 (Some f) in
      let hp := set_tqe_prev hp f (head_of hp h1).2 in
      let hp := set_tqh_last hp h1 (head_of hp h2).2 in
      TAILQ_INIT hp h2
  end.

(** The second field of the structure whose first field is at [p]: the
    macros below cast an element's links to a head. *)
Definition second (hp : qheap) (p : slot) : slot :=
  match p with HeadFirst h => (head_of hp h).2 | NextOf e => (elem_of_heap hp e).2 end.

Definition TAILQ_LAST (hp : qheap) (h : Z) : option Z := deref hp (second hp (head_of hp h).2).
Definition TAILQ_PREV (hp : qheap) (e : Z) : option Z := deref hp (second hp (elem_of_heap hp e).2).

Fixpoint TAILQ_FOREACH_REVERSE (fuel : nat) (hp : qheap) (var : option Z) : list Z :=
  match fuel, var with
  | S fuel, Some e => e :: TAILQ_FOREACH_REVERSE fuel hp (TAILQ_PREV hp e)
  | _, _ => []
  end.

(** The successor is read before the body of the loop runs. *)
Fixpoint TAILQ_FOREACH_SAFE (fuel : nat) (body : qheap -> Z -> qheap) (hp : qheap) (var : option Z) : qheap :=
  match fuel, var with
  | S fuel, Some e => let next := TAILQ_NEXT hp e in TAILQ_FOREACH_SAFE fuel body (body hp e) next
  | _, _ => hp
  end.

(** The checks of a diagnostic build; [false] is [QUEUEDEBUG_ABORT]. *)
Definition QUEUEDEBUG_TAILQ_INSERT_HEAD (hp : qheap) (h : Z) : bool :=
  match TAILQ_FIRST hp h with Some f => bool_decide ((elem_of_heap hp f).2 = HeadFirst h) | None => true end.
Definition QUEUEDEBUG_TAILQ_INSERT_TAIL (hp : qheap) (h : Z) : bool := bool_decide (deref hp (head_of hp h).2 = None).
Definition QUEUEDEBUG_TAILQ_OP (hp : qheap) (e : Z) : bool :=
  match TAILQ_NEXT hp e with Some n => bool_decide ((elem_of_heap hp n).2 = NextOf e) | None => true end &&
  bool_decide (deref hp (elem_of_heap hp e).2 = Some e).
Definition QUEUEDEBUG_TAILQ_PREREMOVE (hp : qheap) (h e : Z) : bool :=
  match TAILQ_NEXT hp e with None => bool_decide ((head_of hp h).2 = NextOf e) | Some _ => true end.

(** ** Lists behind the pointers *)

(** The elements [l] hang off the pointer at [p], and [q] is the last
    [next] pointer of the segment. *)
Fixpoint seg (hp : qheap) (p : slot) (l : list Z) (q : slot) : Prop :=
  match l with
  | [] => q = p
  | e :: l => deref hp p = Some e /\ (elem_of_heap hp e).2 = p /\ seg hp (NextOf e) l q
  end.

Record is_tailq (hp : qheap) (h : Z) (l : list Z) : Prop := {
  tq_nodup : NoDup l;
  tq_seg : seg hp (HeadFirst h) l (head_of hp h).2;
  tq_end : deref hp (head_of hp h).2 = None;
}.

Lemma head_of_set_head hp h v h' :
  head_of (set_head hp h v) h' = if decide (h' = h) then v else head_of hp h'.
Proof.
  unfold head_of, set_head. cbn [heads]. case_decide as Hd; [subst; rewrite lookup_insert_eq; done|].
  rewrite lookup_insert_ne by done. done.
Qed.

Lemma elem_of_set_elem hp e v e' :
  elem_of_heap (set_elem hp e v) e' = if decide (e' = e) then v else elem_of_heap hp e'.
Proof.
  unfold elem_of_heap, set_elem. cbn [elems]. case_decide as Hd; [subst; rewrite lookup_insert_eq; done|].
  rewrite lookup_insert_ne by done. done.
Qed.

Lemma head_of_set_elem hp e v h : head_of (set_elem hp e v) h = head_of hp h.
Proof. done. Qed.

Lemma elem_of_set_head hp h v e : elem_of_heap (set_head hp h v) e = elem_of_heap hp e.
Proof. done. Qed.

Lemma deref_assign hp p v p' : deref (assign hp p v) p' = if decide (p' = p) then v else deref hp p'.
Proof.
  destruct p as [h|e], p' as [h'|e']; cbn [deref assign];
    rewrite ?head_of_set_head, ?elem_of_set_elem, ?head_of_set_elem, ?elem_of_set_head; 
    repeat case_decide; subst; cbn [fst snd]; try congruence; done.
Qed.

Lemma prev_assign hp p v e : (elem_of_heap (assign hp p v) e).2 = (elem_of_heap hp e).2.
Proof.
  destruct p as [h|e']; cbn [assign]; [done|]. rewrite elem_of_set_elem. case_decide; subst; done.
Qed.

Lemma last_assign hp p v h : (head_of (assign hp p v) h).2 = (head_of hp h).2.
Proof.
  destruct p as [h'|e']; cbn [assign]; [|done]. rewrite head_of_set_head. case_decide; subst; done.
Qed.

Lemma deref_set_prev hp e p p' : deref (set_tqe_prev hp e p) p' = deref hp p'.
Proof.
  unfold set_tqe_prev. destruct p' as [h|e']; cbn [deref]; [done|]. rewrite elem_of_set_elem.
  case_decide; [subst|]; done.
Qed.

Lemma prev_set_prev hp e p e' :
  (elem_of_heap (set_tqe_prev hp e p) e').2 = if decide (e' = e) then p else (elem_of_heap hp e').2.
Proof. unfold set_tqe_prev. rewrite elem_of_set_elem. case_decide; done. Qed.

Lemma last_set_prev hp e p h : (head_of (set_tqe_prev hp e p) h).2 = (head_of hp h).2.
Proof. done. Qed.

Lemma deref_set_last hp h p p' : deref (set_tqh_last hp h p) p' = deref hp p'.
Proof.
  unfold set_tqh_last. destruct p' as [h'|e]; cbn [deref]; [|done]. rewrite head_of_set_head.
  case_decide; [subst|]; done.
Qed.

Lemma last_set_last hp h p h' :
  (head_of (set_tqh_last hp h p) h').2 = if decide (h' = h) then p else (head_of hp h').2.
Proof. unfold set_tqh_last. rewrite head_of_set_head. case_decide; done. Qed.

Lemma prev_set_last hp h p e : (elem_of_heap (set_tqh_last hp h p) e).2 = (elem_of_heap hp e).2.
Proof. done. Qed.

Lemma deref_init hp h p : deref (TAILQ_INIT hp h) p = if decide (p = HeadFirst h) then None else deref hp p.
Proof.
  unfold TAILQ_INIT. destruct p as [h'|e]; cbn [deref]; [|done]. rewrite head_of_set_head. repeat case_decide; congruence || done.
Qed.

Lemma last_init hp h h' : (head_of (TAILQ_INIT hp h) h').2 = if decide (h' = h) then HeadFirst h else (head_of hp h').2.
Proof. unfold TAILQ_INIT. rewrite head_of_set_head. case_decide; done. Qed.

Lemma prev_init hp h e : (elem_of_heap (TAILQ_INIT hp h) e).2 = (elem_of_heap hp e).2.
Proof. done. Qed.

Create Rewrite HintDb queue.
#[export] Hint Rewrite deref_init last_init prev_init deref_assign prev_assign last_assign deref_set_prev prev_set_prev last_set_prev
  deref_set_last last_set_last prev_set_last : queue.

(** Read through a sequence of writes. *)
Ltac qsimp := autorewrite with queue; repeat case_decide; subst; try congruence; try done.

Lemma seg_app hp l1 l2 : forall p q,
  seg hp p (l1 ++ l2) q <-> exists m, seg hp p l1 m /\ seg hp m l2 q.
Proof.
  induction l1 as [|e l1 IH]; intros p q; cbn [app seg].
  - split; [intros Hs; exists p; done|]. intros (m & -> & Hs). done.
  - rewrite IH. split.
    + intros (? & ? & m & ? & ?). exists m. done.
    + intros (m & (? & ? & ?) & ?). split_and!; try done. exists m. done.
Qed.

(** The slots a segment starts from or passes through. *)
Definition slots (p : slot) (l : list Z) : list slot := p :: (NextOf <$> l).

Lemma seg_last hp l : forall p q, seg hp p l q -> q ∈ slots p l.
Proof.
  induction l as [|e l IH]; intros p q; cbn [seg slots fmap list_fmap].
  - intros ->. constructor.
  - intros (_ & _ & Hs). apply IH in Hs. by constructor.
Qed.

Lemma elem_of_slots s p l : s ∈ slots p l <-> s = p \/ exists x, x ∈ l /\ s = NextOf x.
Proof.
  unfold slots. rewrite elem_of_cons, list_elem_of_fmap. split; intros [?|(x & ? & ?)]; eauto.
Qed.

(** A segment only depends on its own pointers, the last one excepted. *)
Lemma seg_frame hp hp' l : forall p q,
  NoDup (slots p l) ->
  (forall x, x ∈ l -> (elem_of_heap hp' x).2 = (elem_of_heap hp x).2) ->
  (forall s, s ∈ slots p l -> s <> q -> deref hp' s = deref hp s) ->
  seg hp p l q -> seg hp' p l q.
Proof.
  induction l as [|e l IH]; intros p q Hnd Hp Hd; cbn [seg]; [done|].
  intros (H1 & H2 & H3). unfold slots in Hnd. cbn [fmap list_fmap] in Hnd.
  apply NoDup_cons in Hnd as [Hni Hnd]. split_and!.
  - rewrite Hd; [done|constructor|]. intros ->. apply seg_last in H3. done.
  - rewrite Hp by constructor. done.
  - apply IH; [done|intros x Hx; apply Hp; by constructor| |done].
    intros s Hs. apply Hd. unfold slots. cbn [fmap list_fmap]. by constructor.
Qed.

Lemma slots_nodup h l : NoDup l -> NoDup (slots (HeadFirst h) l).
Proof.
  intros Hl. unfold slots. constructor.
  - rewrite list_elem_of_fmap. intros (x & ? & _). done.
  - apply NoDup_fmap_2; [|done]. intros x y Hxy. congruence.
Qed.

(** *** Splicing

    Every operation cuts a queue in two and puts something between. *)

Definition tail_seg (hp : qheap) (l : list Z) (r : slot) : Prop :=
  match l with [] => True | n :: l => seg hp (NextOf n) l r end.

Lemma seg_start hp p l q :
  seg hp p l q -> deref hp q = None ->
  deref hp p = head l /\ tail_seg hp l q /\ (l = [] -> q = p) /\ forall n, head l = Some n -> (elem_of_heap hp n).2 = p.
Proof. destruct l as [|n l]; cbn; [intros -> ->|intros (-> & Hp & Hs) _]; naive_solver. Qed.

(** [hp'] is [hp] away from the cut between [l1] and [l2] at [p]. *)
Record spliced (hp hp' : qheap) (start : slot) (l1 : list Z) (p : slot) (l2 : list Z) : Prop := {
  sp_start : start <> p -> deref hp' start = deref hp start;
  sp_before x : x ∈ l1 -> NextOf x <> p -> deref hp' (NextOf x) = deref hp (NextOf x);
  sp_after x : x ∈ l2 -> deref hp' (NextOf x) = deref hp (NextOf x);
  sp_prev x : x ∈ l1 -> (elem_of_heap hp' x).2 = (elem_of_heap hp x).2;
  sp_prev' x : x ∈ tail l2 -> (elem_of_heap hp' x).2 = (elem_of_heap hp x).2;
}.

Lemma slots_nodup_next n l : NoDup (n :: l) -> NoDup (slots (NextOf n) l).
Proof. intros Hnd. change (NoDup (NextOf <$> (n :: l))). apply NoDup_fmap_2; [|done]. intros x y Hxy. congruence. Qed.

Lemma seg_splice hp hp' h l1 p mid q l2 r :
  NoDup l1 -> NoDup l2 -> spliced hp hp' (HeadFirst h) l1 p l2 ->
  seg hp (HeadFirst h) l1 p -> tail_seg hp l2 r -> (l2 <> [] -> deref hp r = None) ->
  seg hp' p mid q -> deref hp' q = head l2 -> (forall n, head l2 = Some n -> (elem_of_heap hp' n).2 = q) ->
  let r' := match l2 with [] => q | _ => r end in
  seg hp' (HeadFirst h) (l1 ++ mid ++ l2) r' /\ deref hp' r' = None.
Proof.
  intros Hn1 Hn2 [Hst Hbe Haf Hpr Hpr'] H1 H2 Hr Hm Hq Hpn r'.
  assert (H1' : seg hp' (HeadFirst h) l1 p).
  { apply (seg_frame hp); [by apply slots_nodup|auto| |done].
    intros s [->|(x & Hx & ->)]%elem_of_slots Hne; auto. }
  destruct l2 as [|n l2]; cbn [tail_seg head tail] in *.
  - rewrite app_nil_r. split; [|done]. apply seg_app. by exists p.
  - assert (Hend : deref hp' r = None).
    { rewrite <- Hr by done. pose proof (seg_last _ _ _ _ H2) as [->|(x & Hx & ->)]%elem_of_slots; apply Haf; set_solver. }
    split; [|done]. apply seg_app. exists p. split; [done|]. apply seg_app. exists q. split; [done|].
    cbn [seg]. split_and!; [done|by apply Hpn|]. apply (seg_frame hp); [by apply slots_nodup_next|auto| |done].
    intros s [->|(x & Hx & ->)]%elem_of_slots _; apply Haf; set_solver.
Qed.

Lemma tailq_splice hp hp' h l1 p mid q l2 r :
  NoDup (l1 ++ mid ++ l2) -> spliced hp hp' (HeadFirst h) l1 p l2 ->
  seg hp (HeadFirst h) l1 p -> tail_seg hp l2 r -> (l2 <> [] -> deref hp r = None) ->
  seg hp' p mid q -> deref hp' q = head l2 -> (forall n, head l2 = Some n -> (elem_of_heap hp' n).2 = q) ->
  (head_of hp' h).2 = match l2 with [] => q | _ => r end ->
  is_tailq hp' h (l1 ++ mid ++ l2).
Proof.
  intros Hnd Hsp H1 H2 Hr Hm Hq Hpn Hl. pose proof Hnd as (Hn1 & _ & (_ & _ & Hn2)%NoDup_app)%NoDup_app.
  destruct (seg_splice hp hp' h l1 p mid q l2 r Hn1 Hn2 Hsp H1 H2 Hr Hm Hq Hpn) as (Hs & He).
  by split; [|rewrite Hl..].
Qed.

(** A queue cut at one of its elements. *)
Lemma tailq_cut hp h l1 e l2 :
  is_tailq hp h (l1 ++ e :: l2) ->
  exists p, seg hp (HeadFirst h) l1 p /\ deref hp p = Some e /\ (elem_of_heap hp e).2 = p /\
    TAILQ_NEXT hp e = head l2 /\ tail_seg hp l2 (head_of hp h).2 /\ (l2 = [] -> (head_of hp h).2 = NextOf e) /\
    (forall n, head l2 = Some n -> (elem_of_heap hp n).2 = NextOf e) /\
    e ∉ l1 /\ e ∉ l2 /\ (forall x, x ∈ l1 -> x ∉ l2) /\ NoDup l1 /\ NoDup l2.
Proof.
  intros [Hnd Hs He]. apply seg_app in Hs as (p & H1 & Hp & Hpe & H2). exists p.
  destruct (seg_start _ _ _ _ H2 He) as (Hn & Ht & Hl & Hpn).
  apply NoDup_app in Hnd as (Hn1 & Hdis & (He2 & Hn2)%NoDup_cons). split_and!; try done; set_solver.
Qed.

(** The place of a cut is a slot of the part before it. *)
Definition slot_in (hs l : list Z) (s : slot) : Prop := match s with HeadFirst h => h ∈ hs | NextOf x => x ∈ l end.

Lemma seg_slot_in hp h l p : seg hp (HeadFirst h) l p -> slot_in [h] l p.
Proof. intros [->|(x & Hx & ->)]%seg_last%elem_of_slots; cbn; set_solver. Qed.

(** *** Queue operations on one queue *)

Lemma tailq_init hp h : is_tailq (TAILQ_INIT hp h) h [].
Proof.
  unfold TAILQ_INIT. constructor; [constructor|..]; rewrite head_of_set_head, decide_True by done; cbn; [done|].
  rewrite head_of_set_head, decide_True by done. done.
Qed.

Lemma tailq_first hp h l : is_tailq hp h l -> TAILQ_FIRST hp h = head l.
Proof. intros [_ Hs He]. exact (proj1 (seg_start _ _ _ _ Hs He)). Qed.

Lemma tailq_next hp h l1 e l2 : is_tailq hp h (l1 ++ e :: l2) -> TAILQ_NEXT hp e = head l2.
Proof. intros Hq. by destruct (tailq_cut _ _ _ _ _ Hq) as (p & _ & _ & _ & Hn & _). Qed.

Lemma tailq_empty hp h l : is_tailq hp h l -> TAILQ_EMPTY hp h = bool_decide (l = []).
Proof.
  intros Hq. unfold TAILQ_EMPTY. rewrite (tailq_first _ _ _ Hq). destruct l; done.
Qed.

(** Read the new heap: every slot and element is compared with the written
    ones, and membership in the lists decides. *)
Ltac qread :=
  intros; cbn [slot_in fst snd head tail seg tail_seg] in *; autorewrite with queue; repeat case_decide; simplify_eq;
  try done; try congruence; try (exfalso; set_solver).

(** A slot of the part before a cut is the head or one of its elements. *)
Ltac slot_of p Hp :=
  destruct p as [?|?]; cbn [slot_in] in Hp; [apply list_elem_of_singleton in Hp; subst|].

Lemma tailq_insert_tail hp h l e :
  is_tailq hp h l -> e ∉ l -> is_tailq (TAILQ_INSERT_TAIL hp h e) h (l ++ [e]).
Proof.
  intros [Hnd Hs He] Hni. unfold TAILQ_INSERT_TAIL. cbv zeta. pose proof (seg_slot_in _ _ _ _ Hs) as Hq.
  autorewrite with queue. generalize dependent (head_of hp h).2. intros q Hs He Hq.
  apply (tailq_splice hp _ h l q [e] (NextOf e) [] q).
  - apply NoDup_app. split_and!; [done|set_solver|apply NoDup_singleton].
  - slot_of q Hq; split; qread.
  - done.
  - done.
  - done.
  - slot_of q Hq; split_and!; qread.
  - slot_of q Hq; qread.
  - done.
  - slot_of q Hq; qread.
Qed.

Lemma tailq_insert_head hp h l e :
  is_tailq hp h l -> e ∉ l -> is_tailq (TAILQ_INSERT_HEAD hp h e) h (e :: l).
Proof.
  intros Hq Hni. pose proof (tailq_first _ _ _ Hq) as Hf. destruct Hq as [Hnd Hs He].
  destruct (seg_start _ _ _ _ Hs He) as (_ & Ht & Hl & Hp).
  unfold TAILQ_INSERT_HEAD. cbv zeta. change (TAILQ_NEXT ?hp e) with (deref hp (NextOf e)).
  rewrite deref_assign, decide_True, Hf by done. change (e :: l) with ([] ++ [e] ++ l).
  eapply (tailq_splice hp _ h [] (HeadFirst h) [e] (NextOf e) l (head_of hp h).2); try done; [by constructor|..].
  - destruct l as [|f l]; split; qread; apply NoDup_cons in Hnd as [? _]; done.
  - destruct l; split_and!; qread.
  - destruct l; qread.
  - destruct l; qread.
  - destruct l; qread.
Qed.

Lemma tailq_insert_after hp h l1 p l2 e :
  is_tailq hp h (l1 ++ p :: l2) -> e ∉ l1 ++ p :: l2 -> is_tailq (TAILQ_INSERT_AFTER hp h p e) h (l1 ++ p :: e :: l2).
Proof.
  intros Hq Hni. pose proof (tq_end _ _ _ Hq) as He. pose proof (tq_nodup _ _ _ Hq) as Hnd.
  destruct (tailq_cut _ _ _ _ _ Hq) as (s & H1 & Hs & Hp & Hn & Ht & Hl & Hpn & Hp1 & Hp2 & Hd & Hn1 & Hn2).
  unfold TAILQ_INSERT_AFTER. cbv zeta. change (TAILQ_NEXT ?hp e) with (deref hp (NextOf e)).
  rewrite deref_assign, decide_True, Hn by done.
  replace (l1 ++ p :: e :: l2) with ((l1 ++ [p]) ++ [e] ++ l2) by (by rewrite <- app_assoc).
  eapply (tailq_splice hp _ h (l1 ++ [p]) (NextOf p) [e] (NextOf e) l2 (head_of hp h).2).
  - rewrite <- app_assoc. cbn. apply NoDup_app in Hnd as (? & ? & Hnd). apply NoDup_app. split_and!; [done|set_solver|].
    apply NoDup_cons in Hnd as [? Hnd]. constructor; [set_solver|]. by constructor; [set_solver|].
  - destruct l2 as [|n l2]; [|apply NoDup_cons in Hn2 as [? _]]; split; qread.
  - apply seg_app. exists s. by split_and!; cbn.
  - done.
  - done.
  - destruct l2; split_and!; qread.
  - destruct l2; qread.
  - destruct l2; qread.
  - destruct l2; qread.
Qed.

Lemma tailq_insert_before hp h l1 n l2 e :
  is_tailq hp h (l1 ++ n :: l2) -> e ∉ l1 ++ n :: l2 -> is_tailq (TAILQ_INSERT_BEFORE hp n e) h (l1 ++ e :: n :: l2).
Proof.
  intros Hq Hni. pose proof (tq_end _ _ _ Hq) as He. pose proof (tq_nodup _ _ _ Hq) as Hnd.
  destruct (tailq_cut _ _ _ _ _ Hq) as (s & H1 & Hs & Hp & Hn & Ht & Hl & Hpn & Hp1 & Hp2 & Hd & Hn1 & Hn2).
  pose proof (seg_slot_in _ _ _ _ H1) as Hin.
  unfold TAILQ_INSERT_BEFORE. cbv zeta. autorewrite with queue. rewrite decide_False by set_solver. rewrite Hp.
  eapply (tailq_splice hp _ h l1 s [e] (NextOf e) (n :: l2) (head_of hp h).2).
  - apply NoDup_app in Hnd as (? & ? & Hnd). apply NoDup_app. split_and!; [done|set_solver|]. by constructor; [set_solver|].
  - slot_of s Hin; split; qread.
  - done.
  - cbn [tail_seg]. destruct l2; cbn in *; [by rewrite Hl|]. split_and!; auto.
  - done.
  - slot_of s Hin; split_and!; qread.
  - slot_of s Hin; qread.
  - slot_of s Hin; qread.
  - slot_of s Hin; qread.
Qed.

Lemma tailq_remove hp h l1 e l2 :
  is_tailq hp h (l1 ++ e :: l2) -> is_tailq (TAILQ_REMOVE hp h e) h (l1 ++ l2).
Proof.
  intros Hq. pose proof (tq_end _ _ _ Hq) as He. pose proof (tq_nodup _ _ _ Hq) as Hnd.
  destruct (tailq_cut _ _ _ _ _ Hq) as (s & H1 & Hs & Hp & Hn & Ht & Hl & Hpn & Hp1 & Hp2 & Hd & Hn1 & Hn2).
  pose proof (seg_slot_in _ _ _ _ H1) as Hin. unfold TAILQ_REMOVE. cbv zeta. rewrite Hn, Hp.
  set (hp1 := match head l2 with Some n => set_tqe_prev hp n s | None => set_tqh_last hp h s end).
  assert (E1 : (elem_of_heap hp1 e).2 = s).
  { clear -Hp Hp2. unfold hp1. destruct l2 as [|n l2]; cbn [head]; autorewrite with queue; [done|]. by rewrite decide_False by set_solver. }
  assert (E2 : TAILQ_NEXT hp1 e = head l2).
  { unfold hp1, TAILQ_NEXT in *. change ((elem_of_heap ?hp e).1) with (deref hp (NextOf e)) in *.
    by destruct l2; cbn [head] in *; autorewrite with queue. }
  rewrite E1, E2. unfold hp1. change (l1 ++ l2) with (l1 ++ [] ++ l2).
  eapply (tailq_splice hp _ h l1 s [] s l2 (head_of hp h).2).
  - apply NoDup_app. by split_and!.
  - destruct l2 as [|n l2]; [|apply NoDup_cons in Hn2 as [? _]]; slot_of s Hin; split; qread.
  - done.
  - done.
  - done.
  - done.
  - destruct l2; qread.
  - destruct l2; qread.
  - destruct l2; qread.
Qed.

Lemma tailq_replace hp h l1 e l2 e2 :
  is_tailq hp h (l1 ++ e :: l2) -> e2 ∉ l1 ++ e :: l2 -> is_tailq (TAILQ_REPLACE hp h e e2) h (l1 ++ e2 :: l2).
Proof.
  intros Hq Hni. pose proof (tq_end _ _ _ Hq) as He. pose proof (tq_nodup _ _ _ Hq) as Hnd.
  destruct (tailq_cut _ _ _ _ _ Hq) as (s & H1 & Hs & Hp & Hn & Ht & Hl & Hpn & Hp1 & Hp2 & Hd & Hn1 & Hn2).
  pose proof (seg_slot_in _ _ _ _ H1) as Hin. unfold TAILQ_REPLACE. cbv zeta.
  change (TAILQ_NEXT ?hp e2) with (deref hp (NextOf e2)). rewrite deref_assign, decide_True, Hn by done.
  set (hp1 := match head l2 with Some n => set_tqe_prev _ n _ | None => set_tqh_last _ h _ end).
  assert (E1 : (elem_of_heap hp1 e).2 = s).
  { clear -Hp Hp2. unfold hp1. destruct l2 as [|n l2]; cbn [head]; autorewrite with queue; [done|]. by rewrite decide_False by set_solver. }
  rewrite E1, prev_set_prev, decide_True by done. unfold hp1.
  eapply (tailq_splice hp _ h l1 s [e2] (NextOf e2) l2 (head_of hp h).2).
  - apply NoDup_app. split_and!; [done|set_solver|]. by constructor; [set_solver|].
  - destruct l2 as [|n l2]; [|apply NoDup_cons in Hn2 as [? _]]; slot_of s Hin; split; qread.
  - done.
  - done.
  - done.
  - destruct l2; slot_of s Hin; split_and!; qread.
  - destruct l2; slot_of s Hin; qread.
  - destruct l2; qread.
  - destruct l2; qread.
Qed.

(** Reading backwards: the slot a segment ends at belongs to its last
    element. *)
Lemma seg_second hp h l p : seg hp (HeadFirst h) l p -> l <> [] -> deref hp (second hp p) = last l.
Proof.
  destruct l as [|x l _] using rev_ind; [done|]. intros (m & _ & Hm & Hx & ->)%seg_app _. cbn [second].
  by rewrite Hx, last_snoc.
Qed.

Lemma tailq_last hp h l : is_tailq hp h l -> TAILQ_LAST hp h = last l.
Proof.
  intros [_ Hs He]. unfold TAILQ_LAST. destruct (decide (l = [])) as [->|Hl]; [|by eapply seg_second].
  cbn [seg] in Hs. rewrite Hs. cbn [second]. done.
Qed.

Lemma tailq_prev hp h l1 e l2 : is_tailq hp h (l1 ++ e :: l2) -> TAILQ_PREV hp e = last l1.
Proof.
  intros Hq. pose proof (tq_end _ _ _ Hq) as He. destruct (tailq_cut _ _ _ _ _ Hq) as (p & H1 & _ & Hp & _).
  unfold TAILQ_PREV. rewrite Hp. destruct (decide (l1 = [])) as [->|Hl]; [|by eapply seg_second].
  cbn [seg] in H1. rewrite H1. cbn [second]. done.
Qed.

Lemma foreach_reverse hp h l : is_tailq hp h l ->
  forall fuel, (length l <= fuel)%nat -> TAILQ_FOREACH_REVERSE fuel hp (TAILQ_LAST hp h) = reverse l.
Proof.
  intros Hq. rewrite (tailq_last _ _ _ Hq).
  assert (Hgen : forall l1 l2, l = l1 ++ l2 -> forall fuel, (length l1 <= fuel)%nat ->
            TAILQ_FOREACH_REVERSE fuel hp (last l1) = reverse l1).
  { induction l1 as [|e l1 IH] using rev_ind; intros l2 -> fuel Hf; [by destruct fuel|].
    rewrite length_app in Hf. cbn [length] in Hf. destruct fuel; [lia|]. rewrite last_snoc, reverse_snoc. cbn [TAILQ_FOREACH_REVERSE].
    rewrite <- app_assoc in Hq. rewrite (tailq_prev _ _ _ _ _ Hq). f_equal.
    apply (IH (e :: l2)); [by rewrite <- app_assoc|lia]. }
  apply (Hgen l []). by rewrite app_nil_r.
Qed.

(** The checks of a diagnostic build do not fire on a queue. *)
Lemma tailq_checks hp h l :
  is_tailq hp h l -> QUEUEDEBUG_TAILQ_INSERT_HEAD hp h = true /\ QUEUEDEBUG_TAILQ_INSERT_TAIL hp h = true /\
  forall e, e ∈ l -> QUEUEDEBUG_TAILQ_OP hp e = true /\ QUEUEDEBUG_TAILQ_PREREMOVE hp h e = true.
Proof.
  intros Hq. pose proof Hq as [_ Hs He]. destruct (seg_start _ _ _ _ Hs He) as (_ & _ & _ & Hp).
  unfold QUEUEDEBUG_TAILQ_INSERT_HEAD, QUEUEDEBUG_TAILQ_INSERT_TAIL, QUEUEDEBUG_TAILQ_OP, QUEUEDEBUG_TAILQ_PREREMOVE.
  rewrite (tailq_first _ _ _ Hq), bool_decide_eq_true, He. split_and!; [|done|].
  - destruct (head l) eqn:E; [|done]. by rewrite bool_decide_eq_true, Hp.
  - intros e (l1 & l2 & ->)%list_elem_of_split. destruct (tailq_cut _ _ _ _ _ Hq) as (p & _ & Hd & -> & -> & _ & Hl & Hn & _).
    rewrite Hd, bool_decide_true, andb_true_r by done. destruct l2 as [|n l2]; cbn [head] in *.
    + by rewrite Hl, bool_decide_true by done.
    + by rewrite Hn, bool_decide_true by done.
Qed.

(** *** Frame: an operation leaves other queues alone *)

Record touches (hp hp' : qheap) (hs l : list Z) : Prop := {
  to_head h : h ∉ hs -> head_of hp' h = head_of hp h;
  to_elem x : x ∉ l -> elem_of_heap hp' x = elem_of_heap hp x;
}.

Lemma touches_refl hp hs l : touches hp hp hs l.
Proof. done. Qed.

Lemma touches_trans hp1 hp2 hp3 hs l : touches hp1 hp2 hs l -> touches hp2 hp3 hs l -> touches hp1 hp3 hs l.
Proof. intros [H1 H2] [H3 H4]. split; intros; [rewrite H3, H1|rewrite H4, H2]; done. Qed.

Lemma touches_assign hp p v hs l : slot_in hs l p -> touches hp (assign hp p v) hs l.
Proof.
  intros Hp. destruct p as [h|e]; cbn [assign slot_in] in *; split; intros; rewrite ?head_of_set_head, ?elem_of_set_elem; try done;
    (rewrite decide_False; [done|]; by intros ->).
Qed.

Lemma touches_set_prev hp e p hs l : e ∈ l -> touches hp (set_tqe_prev hp e p) hs l.
Proof. split; [done|]. intros. unfold set_tqe_prev. rewrite elem_of_set_elem, decide_False; [done|]. by intros ->. Qed.

Lemma touches_set_last hp h p hs l : h ∈ hs -> touches hp (set_tqh_last hp h p) hs l.
Proof. split; [|done]. intros. unfold set_tqh_last. rewrite head_of_set_head, decide_False; [done|]. by intros ->. Qed.

Lemma touches_init hp h hs l : h ∈ hs -> touches hp (TAILQ_INIT hp h) hs l.
Proof. split; [|done]. intros. unfold TAILQ_INIT. rewrite head_of_set_head, decide_False; [done|]. by intros ->. Qed.

(** Through a sequence of writes, one at a time. *)
Ltac touch := repeat (eapply touches_trans; [|solve [apply touches_assign; assumption || (cbn [slot_in]; set_solver)
  | apply touches_set_prev; set_solver | apply touches_set_last; set_solver | apply touches_init; set_solver]]); try apply touches_refl.

Lemma touches_frame hp hp' hs l h' l' :
  touches hp hp' hs l -> h' ∉ hs -> (forall x, x ∈ l' -> x ∉ l) -> is_tailq hp h' l' -> is_tailq hp' h' l'.
Proof.
  intros [Hh Hx] Hne Hdis [Hnd Hs He].
  assert (Hd : forall s, s ∈ slots (HeadFirst h') l' -> deref hp' s = deref hp s).
  { intros s [->|(x & Hin & ->)]%elem_of_slots; cbn [deref]; [by rewrite Hh|by rewrite Hx by auto]. }
  constructor; [done| |]; rewrite (Hh h') by done.
  - apply (seg_frame hp); [apply slots_nodup; done| |auto|done]. intros x Hin. by rewrite Hx by auto.
  - rewrite Hd; [done|]. eapply seg_last; eauto.
Qed.

Lemma slot_in_mono hs hs' l l' s : hs ⊆ hs' -> l ⊆ l' -> slot_in hs l s -> slot_in hs' l' s.
Proof. intros ? ? Hs. destruct s; cbn in *; set_solver. Qed.

Lemma insert_tail_touches hp h l e : is_tailq hp h l -> touches hp (TAILQ_INSERT_TAIL hp h e) [h] (e :: l).
Proof.
  intros [_ Hs _]. apply seg_slot_in, (slot_in_mono _ [h] _ (e :: l)) in Hs; [|set_solver..].
  unfold TAILQ_INSERT_TAIL. cbv zeta. autorewrite with queue. touch.
Qed.

Lemma insert_head_touches hp h l e : is_tailq hp h l -> touches hp (TAILQ_INSERT_HEAD hp h e) [h] (e :: l).
Proof.
  intros Hq. pose proof (tailq_first _ _ _ Hq) as Hf. unfold TAILQ_INSERT_HEAD. cbv zeta.
  change (TAILQ_NEXT ?hp e) with (deref hp (NextOf e)). rewrite deref_assign, decide_True, Hf by done.
  destruct l; cbn [head]; touch.
Qed.

Lemma insert_after_touches hp h l1 p l2 e :
  is_tailq hp h (l1 ++ p :: l2) -> touches hp (TAILQ_INSERT_AFTER hp h p e) [h] (e :: l1 ++ p :: l2).
Proof.
  intros Hq. unfold TAILQ_INSERT_AFTER. cbv zeta.
  change (TAILQ_NEXT ?hp e) with (deref hp (NextOf e)). rewrite deref_assign, decide_True, (tailq_next _ _ _ _ _ Hq) by done.
  destruct l2; cbn [head]; touch.
Qed.

Lemma cut_slot_in hp h l1 e l2 : is_tailq hp h (l1 ++ e :: l2) -> slot_in [h] (l1 ++ e :: l2) (elem_of_heap hp e).2.
Proof.
  intros Hq. destruct (tailq_cut _ _ _ _ _ Hq) as (p & H1 & _ & -> & _).
  eapply slot_in_mono; [..|by eapply seg_slot_in]; set_solver.
Qed.

Lemma insert_before_touches hp h l1 n l2 e :
  is_tailq hp h (l1 ++ n :: l2) -> e <> n -> touches hp (TAILQ_INSERT_BEFORE hp n e) [h] (e :: l1 ++ n :: l2).
Proof.
  intros Hq Hne. pose proof (cut_slot_in _ _ _ _ _ Hq) as Hs. apply (slot_in_mono _ [h] _ (e :: l1 ++ n :: l2)) in Hs; [|set_solver..].
  unfold TAILQ_INSERT_BEFORE. cbv zeta. autorewrite with queue. rewrite decide_False by done. touch.
Qed.

Lemma remove_touches hp h l1 e l2 :
  is_tailq hp h (l1 ++ e :: l2) -> touches hp (TAILQ_REMOVE hp h e) [h] (l1 ++ e :: l2).
Proof.
  intros Hq. pose proof (cut_slot_in _ _ _ _ _ Hq) as Hs. pose proof (tq_nodup _ _ _ Hq) as (_ & _ & (Hne & _)%NoDup_cons)%NoDup_app.
  unfold TAILQ_REMOVE. cbv zeta. rewrite (tailq_next _ _ _ _ _ Hq).
  destruct l2 as [|n l2]; cbn [head]; autorewrite with queue; [|rewrite decide_False by set_solver]; touch.
Qed.

Lemma replace_touches hp h l1 e l2 e2 :
  is_tailq hp h (l1 ++ e :: l2) -> e2 <> e -> touches hp (TAILQ_REPLACE hp h e e2) [h] (e2 :: l1 ++ e :: l2).
Proof.
  intros Hq Hne2. pose proof (cut_slot_in _ _ _ _ _ Hq) as Hs. apply (slot_in_mono _ [h] _ (e2 :: l1 ++ e :: l2)) in Hs; [|set_solver..].
  pose proof (tq_nodup _ _ _ Hq) as (_ & _ & (Hne & _)%NoDup_cons)%NoDup_app. unfold TAILQ_REPLACE. cbv zeta.
  change (TAILQ_NEXT ?hp e2) with (deref hp (NextOf e2)). rewrite deref_assign, decide_True, (tailq_next _ _ _ _ _ Hq) by done.
  destruct l2 as [|n l2]; cbn [head]; autorewrite with queue; rewrite (decide_True (P := e2 = e2)) by done;
    [|rewrite decide_False by set_solver]; touch.
Qed.

(** *** Two queues into one *)

Lemma tailq_concat hp h1 h2 l1 l2 :
  is_tailq hp h1 l1 -> is_tailq hp h2 l2 -> h1 <> h2 -> (forall x, x ∈ l1 -> x ∉ l2) ->
  is_tailq (TAILQ_CONCAT hp h1 h2) h1 (l1 ++ l2) /\ is_tailq (TAILQ_CONCAT hp h1 h2) h2 [] /\
  touches hp (TAILQ_CONCAT hp h1 h2) [h1; h2] (l1 ++ l2).
Proof.
  intros Hq1 Hq2 Hne Hd. unfold TAILQ_CONCAT. rewrite (tailq_first _ _ _ Hq2).
  destruct l2 as [|f l2]; cbn [head]; [rewrite app_nil_r; split_and!; [done|done|apply touches_refl]|].
  destruct Hq1 as [Hn1 Hs1 He1], Hq2 as [Hn2 Hs2 He2]. cbn [seg] in Hs2. destruct Hs2 as (Hf & Hp & Hs2).
  pose proof (seg_slot_in _ _ _ _ Hs1) as Hin. cbv zeta. autorewrite with queue. rewrite ?last_set_prev, ?last_assign.
  assert (Hin' : slot_in [h1; h2] (l1 ++ f :: l2) (head_of hp h1).2) by (eapply slot_in_mono; [..|exact Hin]; set_solver).
  split_and!; [|apply tailq_init|touch]. change (l1 ++ f :: l2) with (l1 ++ [] ++ f :: l2).
  generalize dependent (head_of hp h1).2. intros q Hs1 He1 Hin Hin'.
  eapply (tailq_splice hp _ h1 l1 q [] q (f :: l2) (head_of hp h2).2).
  - apply NoDup_app. split_and!; [done|cbn; set_solver|done].
  - apply NoDup_cons in Hn2 as [? _]. slot_of q Hin; split; qread.
  - done.
  - done.
  - done.
  - done.
  - slot_of q Hin; qread.
  - qread.
  - qread.
Qed.

(** ** Refinement

    Programs that use several queues: a sequence of operations, run on the
    pointers and on a map from heads to lists. *)

Inductive qop :=
| OpInit (h : Z)
| OpInsertHead (h e : Z)
| OpInsertTail (h e : Z)
| OpInsertAfter (h p e : Z)
| OpInsertBefore (h n e : Z)
| OpRemove (h e : Z)
| OpReplace (h e e2 : Z)
| OpConcat (h1 h2 : Z).

Definition run_ptr (hp : qheap) (op : qop) : qheap :=
  match op with
  | OpInit h => TAILQ_INIT hp h
  | OpInsertHead h e => TAILQ_INSERT_HEAD hp h e
  | OpInsertTail h e => TAILQ_INSERT_TAIL hp h e
  | OpInsertAfter h p e => TAILQ_INSERT_AFTER hp h p e
  | OpInsertBefore _ n e => TAILQ_INSERT_BEFORE hp n e
  | OpRemove h e => TAILQ_REMOVE hp h e
  | OpReplace h e e2 => TAILQ_REPLACE hp h e e2
  | OpConcat h1 h2 => TAILQ_CONCAT hp h1 h2
  end.

Definition qdel (e : Z) (l : list Z) : list Z := filter (fun x => x <> e) l.

(** The first [x] of a list becomes [ys]. *)
Fixpoint subst_first (x : Z) (ys l : list Z) : list Z :=
  match l with
  | [] => []
  | y :: l => if decide (y = x) then ys ++ l else y :: subst_first x ys l
  end.

Definition queue (Q : gmap Z (list Z)) (h : Z) : list Z := default [] (Q !! h).

Definition run_list (Q : gmap Z (list Z)) (op : qop) : gmap Z (list Z) :=
  match op with
  | OpInit h => <[h := []]> Q
  | OpInsertHead h e => <[h := e :: queue Q h]> Q
  | OpInsertTail h e => <[h := queue Q h ++ [e]]> Q
  | OpInsertAfter h p e => <[h := subst_first p [p; e] (queue Q h)]> Q
  | OpInsertBefore h n e => <[h := subst_first n [e; n] (queue Q h)]> Q
  | OpRemove h e => <[h := qdel e (queue Q h)]> Q
  | OpReplace h e e2 => <[h := subst_first e [e2] (queue Q h)]> Q
  | OpConcat h1 h2 => <[h1 := queue Q h1 ++ queue Q h2]> (<[h2 := []]> Q)
  end.

(** The contract of the macros: an element is inserted while it is on no
    queue, and next to, in place of or removed from the queue it is on. *)
Definition valid (Q : gmap Z (list Z)) (op : qop) : Prop :=
  match op with
  | OpInit _ => True
  | OpInsertHead h e | OpInsertTail h e => is_Some (Q !! h) /\ map_Forall (fun _ l => e ∉ l) Q
  | OpInsertAfter h x e | OpInsertBefore h x e | OpReplace h x e =>
      is_Some (Q !! h) /\ x ∈ queue Q h /\ map_Forall (fun _ l => e ∉ l) Q
  | OpRemove h e => is_Some (Q !! h) /\ e ∈ queue Q h
  | OpConcat h1 h2 => is_Some (Q !! h1) /\ is_Some (Q !! h2) /\ h1 <> h2
  end.

Fixpoint valid_seq (Q : gmap Z (list Z)) (ops : list qop) : Prop :=
  match ops with [] => True | op :: ops => valid Q op /\ valid_seq (run_list Q op) ops end.

#[export] Instance valid_dec Q op : Decision (valid Q op).
Proof. destruct op; cbn [valid]; apply _. Defined.

#[export] Instance valid_seq_dec ops : forall Q, Decision (valid_seq Q ops).
Proof. induction ops as [|op ops IH]; intros Q; cbn [valid_seq]; apply _. Defined.

Record repr (hp : qheap) (Q : gmap Z (list Z)) : Prop := {
  re_queue : forall h l, Q !! h = Some l -> is_tailq hp h l;
  re_disj : forall h h' l l' x, h <> h' -> Q !! h = Some l -> Q !! h' = Some l' -> x ∈ l -> x ∉ l';
}.

Lemma qdel_notin e l : e ∉ l -> qdel e l = l.
Proof.
  induction l as [|x l IH]; intros Hni; [done|]. apply not_elem_of_cons in Hni as [Hne Hni].
  unfold qdel in *. rewrite filter_cons_True by congruence. rewrite IH by done. done.
Qed.

Lemma qdel_split l1 e l2 : NoDup (l1 ++ e :: l2) -> qdel e (l1 ++ e :: l2) = l1 ++ l2.
Proof.
  intros Hnd. apply NoDup_app in Hnd as (_ & Hd & Hnd). apply NoDup_cons in Hnd as [Hni _].
  unfold qdel. rewrite filter_app, filter_cons_False by congruence.
  fold (qdel e l1) (qdel e l2). rewrite !qdel_notin; [done|done|]. intros Hx. apply (Hd e Hx). constructor.
Qed.

Lemma subst_first_split l1 x ys l2 : NoDup (l1 ++ x :: l2) -> subst_first x ys (l1 ++ x :: l2) = l1 ++ ys ++ l2.
Proof.
  induction l1 as [|y l1 IH]; cbn; [by rewrite decide_True|]. intros [Hy Hnd]%NoDup_cons.
  rewrite decide_False by set_solver. by rewrite IH.
Qed.

(** The queues at [hs] change, within the elements [l]; the others are not
    touched. *)
Lemma repr_update hp hp' Q Q' hs l :
  repr hp Q -> touches hp hp' hs l -> (forall h, h ∉ hs -> Q' !! h = Q !! h) ->
  (forall h l', h ∈ hs -> Q' !! h = Some l' -> is_tailq hp' h l' /\ l' ⊆ l) ->
  (forall h l' x, h ∉ hs -> Q !! h = Some l' -> x ∈ l' -> x ∉ l) ->
  (forall h h' l1 l2 x, h ∈ hs -> h' ∈ hs -> h <> h' -> Q' !! h = Some l1 -> Q' !! h' = Some l2 -> x ∈ l1 -> x ∉ l2) ->
  repr hp' Q'.
Proof.
  intros [Hq Hd] Ht Hs Hin Hout Hdin. constructor.
  - intros h l' Hl. destruct (decide (h ∈ hs)) as [Hh|Hh]; [by apply (Hin h l')|]. rewrite Hs in Hl by done.
    eapply touches_frame; eauto.
  - intros h1 h2 l1 l2 x Hne E1 E2 Hx Hx2. destruct (decide (h1 ∈ hs)) as [H1|H1], (decide (h2 ∈ hs)) as [H2|H2].
    + by apply (Hdin h1 h2 l1 l2 x).
    + destruct (Hin h1 l1 H1 E1) as [_ Hsub]. rewrite Hs in E2 by done. by apply (Hout h2 l2 x), Hsub.
    + destruct (Hin h2 l2 H2 E2) as [_ Hsub]. rewrite Hs in E1 by done. by apply (Hout h1 l1 x), Hsub.
    + rewrite Hs in E1, E2 by done. by apply (Hd h1 h2 l1 l2 x).
Qed.

Lemma repr_one hp hp' Q h l l' :
  repr hp Q -> touches hp hp' [h] l -> is_tailq hp' h l' -> l' ⊆ l ->
  (forall h1 l1 x, h1 ∉ [h] -> Q !! h1 = Some l1 -> x ∈ l1 -> x ∉ l) -> repr hp' (<[h := l']> Q).
Proof.
  intros HR Ht Hq Hsub Hout. eapply repr_update; [done|exact Ht| | |done|].
  - intros h1 Hh. apply lookup_insert_ne. set_solver.
  - intros h1 l1 ->%list_elem_of_singleton. rewrite lookup_insert_eq. by intros [= <-].
  - intros h1 h2 l1 l2 x ->%list_elem_of_singleton ->%list_elem_of_singleton. done.
Qed.

(** Elements of other queues are neither the new one nor in this one. *)
Lemma outside_old hp Q h l : repr hp Q -> Q !! h = Some l -> forall h1 l1 x, h1 ∉ [h] -> Q !! h1 = Some l1 -> x ∈ l1 -> x ∉ l.
Proof. intros HR Hl h1 l1 x Hne H1 Hx. eapply (re_disj _ _ HR h1 h); eauto. set_solver. Qed.

Lemma outside_new hp Q h l e :
  repr hp Q -> Q !! h = Some l -> map_Forall (fun _ l => e ∉ l) Q ->
  forall h1 l1 x, h1 ∉ [h] -> Q !! h1 = Some l1 -> x ∈ l1 -> x ∉ e :: l.
Proof.
  intros HR Hl Hni h1 l1 x Hne H1 Hx. apply not_elem_of_cons. split; [|by eapply outside_old].
  intros ->. by apply (Hni h1 l1 H1).
Qed.

Lemma repr_concat hp Q h1 h2 :
  repr hp Q -> valid Q (OpConcat h1 h2) -> repr (TAILQ_CONCAT hp h1 h2) (run_list Q (OpConcat h1 h2)).
Proof.
  intros HR ([l1 E1] & [l2 E2] & Hne). cbn [run_list]. unfold queue. rewrite E1, E2. cbn [default].
  destruct (tailq_concat hp h1 h2 l1 l2) as (Q1 & Q2 & Ht); [by apply (re_queue _ _ HR)..|done|intros x Hx; by eapply (re_disj _ _ HR h1 h2)|].
  eapply repr_update; [done|exact Ht|..].
  - intros h Hh. rewrite !lookup_insert_ne by set_solver. done.
  - intros h l' Hh. rewrite lookup_insert_Some, lookup_insert_Some. intros [[<- <-]|[Hn [[<- <-]|[? _]]]]; [done| |set_solver].
    split; [done|apply list_subseteq_nil].
  - intros h l' x Hh Hl Hx. rewrite elem_of_app. intros [Hx'|Hx']; revert Hx'; eapply (re_disj _ _ HR h); eauto; set_solver.
  - intros h h' l3 l4 x Hh Hh' Hhh. rewrite !lookup_insert_Some. intros [[<- <-]|[Hn [[<- <-]|[? _]]]]; [|set_solver..].
    intros [[<- <-]|[Hn [[<- <-]|[? _]]]]; [done|set_solver|set_solver].
Qed.

Lemma repr_step hp Q op : repr hp Q -> valid Q op -> repr (run_ptr hp op) (run_list Q op).
Proof.
  intros HR Hv. destruct op as [h|h e|h e|h p e|h n e|h e|h e e2|h1 h2]; [..|by apply repr_concat]; cbn [run_ptr run_list valid] in *.
  { apply (repr_one hp _ Q h []); [done|apply touches_init; set_solver|apply tailq_init|done|set_solver]. }
  all: destruct Hv as [[l Hl] Hv]; unfold queue in *; rewrite Hl in *; simpl in Hv |- *; pose proof (re_queue _ _ HR _ _ Hl) as Hq.
  - apply (repr_one hp _ Q h (e :: l)); [done|by apply insert_head_touches|apply tailq_insert_head; eauto|done|by eapply outside_new].
  - apply (repr_one hp _ Q h (e :: l)); [done|by apply insert_tail_touches|apply tailq_insert_tail; eauto|set_solver|by eapply outside_new].
  - destruct Hv as [Hin Hni]. pose proof (Hni _ _ Hl) as He. apply list_elem_of_split in Hin as (l1 & l2 & ->).
    rewrite subst_first_split by apply Hq. eapply repr_one; [done|by apply insert_after_touches|by apply tailq_insert_after|set_solver|by eapply outside_new].
  - destruct Hv as [Hin Hni]. pose proof (Hni _ _ Hl) as He. apply list_elem_of_split in Hin as (l1 & l2 & ->).
    rewrite subst_first_split by apply Hq. eapply repr_one; [done|apply insert_before_touches; [done|set_solver]|by apply tailq_insert_before|set_solver|by eapply outside_new].
  - apply list_elem_of_split in Hv as (l1 & l2 & ->). rewrite qdel_split by apply Hq.
    eapply repr_one; [done|by apply remove_touches|by apply tailq_remove|set_solver|by eapply outside_old].
  - destruct Hv as [Hin Hni]. pose proof (Hni _ _ Hl) as He. apply list_elem_of_split in Hin as (l1 & l2 & ->).
    rewrite subst_first_split by apply Hq. eapply repr_one; [done|apply replace_touches; [done|set_solver]|by apply tailq_replace|set_solver|by eapply outside_new].
Qed.

Lemma repr_run ops : forall hp Q,
  repr hp Q -> valid_seq Q ops -> repr (foldl run_ptr hp ops) (foldl run_list Q ops).
Proof.
  induction ops as [|op ops IH]; intros hp Q HR Hv; cbn [foldl]; [done|].
  destruct Hv as [Hv Hvs]. apply IH; [apply repr_step; done|done].
Qed.

Lemma foreach_list hp h l : is_tailq hp h l ->
  forall fuel, (length l <= fuel)%nat -> TAILQ_FOREACH fuel hp (TAILQ_FIRST hp h) = l.
Proof.
  intros Hq. rewrite (tailq_first _ _ _ Hq).
  assert (Hgen : forall l2 l1, l = l1 ++ l2 -> forall fuel, (length l2 <= fuel)%nat ->
            TAILQ_FOREACH fuel hp (head l2) = l2).
  { induction l2 as [|e l2 IH]; intros l1 -> fuel Hf; destruct fuel; cbn [length] in Hf; try done; [lia|].
    cbn [head TAILQ_FOREACH]. rewrite (tailq_next _ _ _ _ _ Hq). f_equal.
    apply (IH (l1 ++ [e])); [rewrite <- app_assoc; done|lia]. }
  apply (Hgen l []). done.
Qed.

(** A loop that removes each element it visits empties the queue. *)
Lemma foreach_safe_drains h l : forall hp fuel, is_tailq hp h l -> (length l <= fuel)%nat ->
  is_tailq (TAILQ_FOREACH_SAFE fuel (fun hp e => TAILQ_REMOVE hp h e) hp (TAILQ_FIRST hp h)) h [].
Proof.
  induction l as [|e l IH]; intros hp fuel Hq Hf; rewrite (tailq_first _ _ _ Hq); cbn [head]; [by destruct fuel|].
  cbn [length] in Hf. destruct fuel; [lia|]. cbn [TAILQ_FOREACH_SAFE]. rewrite (tailq_next _ _ [] _ _ Hq).
  pose proof (tailq_remove hp h [] e l Hq) as Hr. cbn in Hr. rewrite <- (tailq_first _ _ _ Hr). apply IH; [done|lia].
Qed.

(** C12: from an empty heap, any sequence of [TAILQ_INIT], the four
    insertions, [TAILQ_REMOVE], [TAILQ_REPLACE] and [TAILQ_CONCAT] that keeps
    the macros' contract leaves every queue in the list state the operations
    describe: [TAILQ_FIRST], [TAILQ_LAST], [TAILQ_EMPTY], [TAILQ_NEXT],
    [TAILQ_PREV] and the loops in both directions read that list, and none of
    the checks of a diagnostic build fires. *)
Theorem tailq_refines_lists ops h l :
  valid_seq ∅ ops -> foldl run_list ∅ ops !! h = Some l ->
  let hp := foldl run_ptr (MkHeap ∅ ∅) ops in
  TAILQ_FIRST hp h = head l /\ TAILQ_LAST hp h = last l /\ TAILQ_EMPTY hp h = bool_decide (l = []) /\
  (forall l1 e l2, l = l1 ++ e :: l2 -> TAILQ_NEXT hp e = head l2 /\ TAILQ_PREV hp e = last l1) /\
  (forall fuel, (length l <= fuel)%nat ->
     TAILQ_FOREACH fuel hp (TAILQ_FIRST hp h) = l /\ TAILQ_FOREACH_REVERSE fuel hp (TAILQ_LAST hp h) = reverse l) /\
  QUEUEDEBUG_TAILQ_INSERT_HEAD hp h = true /\ QUEUEDEBUG_TAILQ_INSERT_TAIL hp h = true /\
  (forall e, e ∈ l -> QUEUEDEBUG_TAILQ_OP hp e = true /\ QUEUEDEBUG_TAILQ_PREREMOVE hp h e = true).
Proof.
  intros Hv Hl hp.
  assert (HR : repr hp (foldl run_list ∅ ops)).
  { apply repr_run; [|done]. constructor; intros *; rewrite ?lookup_empty; done. }
  pose proof (re_queue _ _ HR _ _ Hl) as Hq. destruct (tailq_checks _ _ _ Hq) as (? & ? & ?). split_and!; try done.
  - by apply tailq_first.
  - by apply tailq_last.
  - by apply tailq_empty.
  - intros l1 e l2 ->. split; [by eapply tailq_next|by eapply tailq_prev].
  - intros fuel Hf. split; [by apply foreach_list|by apply foreach_reverse].
Qed.

(** Two queues; elements move within one, and the other is joined to it. *)
Definition queue_demo : list qop :=
  [OpInit 1; OpInit 2; OpInsertTail 1 10; OpInsertTail 1 11; OpInsertHead 1 12; OpRemove 1 10;
   OpInsertTail 2 10; OpInsertAfter 2 10 13; OpInsertBefore 1 11 14; OpReplace 1 12 15; OpConcat 1 2].

Lemma tailq_refines_lists_witness :
  TAILQ_FOREACH 5 (foldl run_ptr (MkHeap ∅ ∅) queue_demo) (Some 15) = [15; 14; 11; 10; 13] /\
  TAILQ_FOREACH_REVERSE 5 (foldl run_ptr (MkHeap ∅ ∅) queue_demo) (Some 13) = [13; 10; 11; 14; 15].
Proof.
  destruct (tailq_refines_lists queue_demo 1 [15; 14; 11; 10; 13]) as (Hf & Hl & _ & _ & H & _).
  - apply (bool_decide_unpack _). vm_compute. exact I.
  - reflexivity.
  - rewrite Hf, Hl in H. apply H. cbn [length]. lia.
Defined.
