(* ===== verification/Lists.v ===== *)
(** * The other lists of [external/sys/queue.h]

    Lists, singly linked lists, simple queues and singly linked tail queues
    are tail queues that keep less: no address of the previous link, no
    address of the last one, or neither.  The macros are modelled on the heap
    of [Queue], and each family is shown to run in step with the tail queue
    macros up to the fields it does not have; that they implement lists
    follows from [Queue].  [None] is an access through a null pointer. *)

From S2P Require Import Prelude Queue.

(** ** Singly linked lists *)

Definition SLIST_FIRST (hp : qheap) (h : Z) : option Z := deref hp (HeadFirst h).
Definition SLIST_EMPTY (hp : qheap) (h : Z) : bool := bool_decide (SLIST_FIRST hp h = None).
Definition SLIST_NEXT (hp : qheap) (e : Z) : option Z := deref hp (NextOf e).

Fixpoint SLIST_FOREACH (fuel : nat) (hp : qheap) (var : option Z) : list Z :=
  match fuel, var with
  | S fuel, Some e => e :: SLIST_FOREACH fuel hp (SLIST_NEXT hp e)
  | _, _ => []
  end.

Definition SLIST_INIT (hp : qheap) (h : Z) : qheap := assign hp (HeadFirst h) None.

Definition SLIST_INSERT_AFTER (hp : qheap) (slistelm e : Z) : qheap :=
  let hp := assign hp (NextOf e) (SLIST_NEXT hp slistelm) in
  assign hp (NextOf slistelm) (Some e).

Definition SLIST_INSERT_HEAD (hp : qheap) (h e : Z) : qheap :=
  let hp := assign hp (NextOf e) (SLIST_FIRST hp h) in
  assign hp (HeadFirst h) (Some e).

Definition SLIST_REMOVE_AFTER (hp : qheap) (slistelm : Z) : option qheap :=
  n ← SLIST_NEXT hp slistelm;
  Some (assign hp (NextOf slistelm) (SLIST_NEXT hp n)).

Definition SLIST_REMOVE_HEAD (hp : qheap) (h : Z) : option qheap :=
  f ← SLIST_FIRST hp h;
  Some (assign hp (HeadFirst h) (SLIST_NEXT hp f)).

(** [while (curelm->field.sle_next != elm) curelm = curelm->field.sle_next] *)
Fixpoint find_before (fuel : nat) (hp : qheap) (curelm : option Z) (e : Z) : option Z :=
  match fuel, curelm with
  | S fuel, Some c => if decide (deref hp (NextOf c) = Some e) then Some c else find_before fuel hp (deref hp (NextOf c)) e
  | _, _ => None
  end.

Definition SLIST_REMOVE (fuel : nat) (hp : qheap) (h e : Z) : option qheap :=
  if decide (SLIST_FIRST hp h = Some e) then SLIST_REMOVE_HEAD hp h
  else
    curelm ← find_before fuel hp (SLIST_FIRST hp h) e;
    n ← SLIST_NEXT hp curelm;
    Some (assign hp (NextOf curelm) (SLIST_NEXT hp n)).

(** ** Lists *)

Definition LIST_FIRST (hp : qheap) (h : Z) : option Z := deref hp (HeadFirst h).
Definition LIST_EMPTY (hp : qheap) (h : Z) : bool := bool_decide (LIST_FIRST hp h = None).
Definition LIST_NEXT (hp : qheap) (e : Z) : option Z := deref hp (NextOf e).

Fixpoint LIST_FOREACH (fuel : nat) (hp : qheap) (var : option Z) : list Z :=
  match fuel, var with
  | S fuel, Some e => e :: LIST_FOREACH fuel hp (LIST_NEXT hp e)
  | _, _ => []
  end.

Definition LIST_INIT (hp : qheap) (h : Z) : qheap := assign hp (HeadFirst h) None.

Definition LIST_INSERT_AFTER (hp : qheap) (listelm e : Z) : qheap :=
  let hp := assign hp (NextOf e) (LIST_NEXT hp listelm) in
  let hp := match LIST_NEXT hp listelm with Some n => set_tqe_prev hp n (NextOf e) | None => hp end in
  let hp := assign hp (NextOf listelm) (Some e) in
  set_tqe_prev hp e (NextOf listelm).

Definition LIST_INSERT_BEFORE (hp : qheap) (listelm e : Z) : qheap :=
  let hp := set_tqe_prev hp e (elem_of_heap hp listelm).2 in
  let hp := assign hp (NextOf e) (Some listelm) in
  let hp := assign hp (elem_of_heap hp listelm).2 (Some e) in
  set_tqe_prev hp listelm (NextOf e).

Definition LIST_INSERT_HEAD (hp : qheap) (h e : Z) : qheap :=
  let hp := assign hp (NextOf e) (LIST_FIRST hp h) in
  let hp := match LIST_FIRST hp h with Some f => set_tqe_prev hp f (NextOf e) | None => hp end in
  let hp := assign hp (HeadFirst h) (Some e) in
  set_tqe_prev hp e (HeadFirst h).

Definition LIST_REMOVE (hp : qheap) (e : Z) : qheap :=
  let hp := match LIST_NEXT hp e with Some n => set_tqe_prev hp n (elem_of_heap hp e).2 | None => hp end in
  assign hp (elem_of_heap hp e).2 (LIST_NEXT hp e).

Definition LIST_REPLACE (hp : qheap) (e e2 : Z) : qheap :=
  let hp := assign hp (NextOf e2) (LIST_NEXT hp e) in
  let hp := match LIST_NEXT hp e2 with Some n => set_tqe_prev hp n (NextOf e2) | None => hp end in
  let hp := set_tqe_prev hp e2 (elem_of_heap hp e).2 in
  assign hp (elem_of_heap hp e2).2 (Some e2).

Definition LIST_MOVE (hp : qheap) (h1 h2 : Z) : qheap :=
  let hp := LIST_INIT hp h2 in
  match LIST_FIRST hp h1 with
  | None => hp
  | Some f =>
      let hp := assign hp (HeadFirst h2) (Some f) in
      let hp := set_tqe_prev hp f (HeadFirst h2) in
      LIST_INIT hp h1
  end.

Definition QUEUEDEBUG_LIST_INSERT_HEAD (hp : qheap) (h : Z) : bool :=
  match LIST_FIRST hp h with Some f => bool_decide ((elem_of_heap hp f).2 = HeadFirst h) | None => true end.
Definition QUEUEDEBUG_LIST_OP (hp : qheap) (e : Z) : bool :=
  match LIST_NEXT hp e with Some n => bool_decide ((elem_of_heap hp n).2 = NextOf e) | None => true end &&
  bool_decide (deref hp (elem_of_heap hp e).2 = Some e).

(** ** Singly linked tail queues *)

Definition STAILQ_FIRST (hp : qheap) (h : Z) : option Z := deref hp (HeadFirst h).
Definition STAILQ_NEXT (hp : qheap) (e : Z) : option Z := deref hp (NextOf e).
Definition STAILQ_EMPTY (hp : qheap) (h : Z) : bool := bool_decide (STAILQ_FIRST hp h = None).

Fixpoint STAILQ_FOREACH (fuel : nat) (hp : qheap) (var : option Z) : list Z :=
  match fuel, var with
  | S fuel, Some e => e :: STAILQ_FOREACH fuel hp (STAILQ_NEXT hp e)
  | _, _ => []
  end.

Definition STAILQ_INIT (hp : qheap) (h : Z) : qheap :=
  let hp := assign hp (HeadFirst h) None in set_tqh_last hp h (HeadFirst h).

Definition STAILQ_INSERT_HEAD (hp : qheap) (h e : Z) : qheap :=
  let hp := assign hp (NextOf e) (STAILQ_FIRST hp h) in
  let hp := match STAILQ_NEXT hp e with None => set_tqh_last hp h (NextOf e) | Some _ => hp end in
  assign hp (HeadFirst h) (Some e).

Definition STAILQ_INSERT_TAIL (hp : qheap) (h e : Z) : qheap :=
  let hp := assign hp (NextOf e) None in
  let hp := assign hp (head_of hp h).2 (Some e) in
  set_tqh_last hp h (NextOf e).

Definition STAILQ_INSERT_AFTER (hp : qheap) (h listelm e : Z) : qheap :=
  let hp := assign hp (NextOf e) (STAILQ_NEXT hp listelm) in
  let hp := match STAILQ_NEXT hp e with None => set_tqh_last hp h (NextOf e) | Some _ => hp end in
  assign hp (NextOf listelm) (Some e).

Definition STAILQ_REMOVE_HEAD (hp : qheap) (h : Z) : option qheap :=
  f ← STAILQ_FIRST hp h;
  let hp := assign hp (HeadFirst h) (STAILQ_NEXT hp f) in
  Some (match STAILQ_FIRST hp h with None => set_tqh_last hp h (HeadFirst h) | Some _ => hp end).

(** The link of [c] skips its successor. *)
Definition skip_after (hp : qheap) (h c : Z) : option qheap :=
  n ← deref hp (NextOf c);
  let hp := assign hp (NextOf c) (deref hp (NextOf n)) in
  Some (match deref hp (NextOf c) with None => set_tqh_last hp h (NextOf c) | Some _ => hp end).

Definition STAILQ_REMOVE (fuel : nat) (hp : qheap) (h e : Z) : option qheap :=
  if decide (STAILQ_FIRST hp h = Some e) then STAILQ_REMOVE_HEAD hp h
  else curelm ← find_before fuel hp (STAILQ_FIRST hp h) e; skip_after hp h curelm.

Definition STAILQ_CONCAT (hp : qheap) (h1 h2 : Z) : qheap :=
  if STAILQ_EMPTY hp h2 then hp
  else
    let hp := assign hp (head_of hp h1).2 (STAILQ_FIRST hp h2) in
    let hp := set_tqh_last hp h1 (head_of hp h2).2 in
    STAILQ_INIT hp h2.

(** The element around the last link. *)
Definition STAILQ_LAST (hp : qheap) (h : Z) : option Z :=
  if STAILQ_EMPTY hp h then None
  else match (head_of hp h).2 with NextOf e => Some e | HeadFirst _ => None end.

(** ** Simple queues: the same links, and one operation more *)

Definition SIMPLEQ_FIRST := STAILQ_FIRST.
Definition SIMPLEQ_EMPTY := STAILQ_EMPTY.
Definition SIMPLEQ_NEXT := STAILQ_NEXT.
Definition SIMPLEQ_FOREACH := STAILQ_FOREACH.
Definition SIMPLEQ_INIT := STAILQ_INIT.
Definition SIMPLEQ_INSERT_HEAD := STAILQ_INSERT_HEAD.
Definition SIMPLEQ_INSERT_TAIL := STAILQ_INSERT_TAIL.
Definition SIMPLEQ_INSERT_AFTER := STAILQ_INSERT_AFTER.
Definition SIMPLEQ_REMOVE_HEAD := STAILQ_REMOVE_HEAD.
Definition SIMPLEQ_REMOVE_AFTER := skip_after.
Definition SIMPLEQ_REMOVE := STAILQ_REMOVE.
Definition SIMPLEQ_CONCAT := STAILQ_CONCAT.
Definition SIMPLEQ_LAST := STAILQ_LAST.

(** ** In step with tail queues *)

(** Equal links; [p] and [l] say whether the addresses of the previous and of
    the last links count. *)
Record agree (p l : bool) (hp hp' : qheap) : Prop := {
  ag_deref s : deref hp s = deref hp' s;
  ag_prev e : p = true -> (elem_of_heap hp e).2 = (elem_of_heap hp' e).2;
  ag_last h : l = true -> (head_of hp h).2 = (head_of hp' h).2;
}.

#[export] Instance agree_equiv p l : Equivalence (agree p l).
Proof.
  split.
  - by intros hp.
  - intros hp hp' [H1 H2 H3]. split; intros; symmetry; auto.
  - intros hp1 hp2 hp3 [H1 H2 H3] [H4 H5 H6]. split; intros; [rewrite H1|rewrite H2|rewrite H3]; auto.
Qed.

#[export] Instance agree_deref p l : Proper (agree p l ==> eq ==> eq) deref.
Proof. intros hp hp' H s _ <-. apply H. Qed.

#[export] Instance agree_assign p l : Proper (agree p l ==> eq ==> eq ==> agree p l) assign.
Proof.
  intros hp hp' [H1 H2 H3] s _ <- v _ <-. split; intros; rewrite ?deref_assign, ?prev_assign, ?last_assign; auto.
  by case_decide.
Qed.

#[export] Instance agree_set_prev p l : Proper (agree p l ==> eq ==> eq ==> agree p l) set_tqe_prev.
Proof.
  intros hp hp' [H1 H2 H3] e _ <- s _ <-. split; intros; rewrite ?deref_set_prev, ?prev_set_prev, ?last_set_prev; auto.
  case_decide; auto.
Qed.

#[export] Instance agree_set_last p l : Proper (agree p l ==> eq ==> eq ==> agree p l) set_tqh_last.
Proof.
  intros hp hp' [H1 H2 H3] h _ <- s _ <-. split; intros; rewrite ?deref_set_last, ?prev_set_last, ?last_set_last; auto.
  case_decide; auto.
Qed.

(** Fields that are not kept can be written. *)
Lemma agree_no_prev l hp e s : agree false l (set_tqe_prev hp e s) hp.
Proof. split; intros; [apply deref_set_prev|done|apply last_set_prev]. Qed.

Lemma agree_no_last p hp h s : agree p false (set_tqh_last hp h s) hp.
Proof. split; intros; [apply deref_set_last|apply prev_set_last|done]. Qed.

Lemma agree_init p l hp h : agree p l (TAILQ_INIT hp h) (set_tqh_last (assign hp (HeadFirst h) None) h (HeadFirst h)).
Proof.
  split; intros; autorewrite with queue; repeat case_decide; subst; try done; try congruence.
Qed.

(** Drops the writes to the fields a family does not keep. *)
Ltac drop_writes := repeat first [rewrite agree_no_prev | rewrite agree_no_last].

Lemma deref_assign_eq hp p v : deref (assign hp p v) p = v.
Proof. by rewrite deref_assign, decide_True. Qed.
Lemma deref_assign_ne hp p v p' : p' <> p -> deref (assign hp p v) p' = deref hp p'.
Proof. intros. by rewrite deref_assign, decide_False. Qed.

(** The accessors of tail queues as reads of links. *)
Ltac links :=
  repeat match goal with
  | |- context [TAILQ_NEXT ?hp ?e] => change (TAILQ_NEXT hp e) with (deref hp (NextOf e))
  | |- context [TAILQ_FIRST ?hp ?h] => change (TAILQ_FIRST hp h) with (deref hp (HeadFirst h))
  end.

(** *** Lists *)

Section ListSim.
Context (hp hp' : qheap) (H : agree true false hp hp').

Lemma list_init_sim h : agree true false (LIST_INIT hp h) (TAILQ_INIT hp' h).
Proof. unfold LIST_INIT. rewrite agree_init, agree_no_last, H. done. Qed.

Lemma list_insert_head_sim h e : agree true false (LIST_INSERT_HEAD hp h e) (TAILQ_INSERT_HEAD hp' h e).
Proof.
  unfold LIST_INSERT_HEAD, TAILQ_INSERT_HEAD, LIST_FIRST. cbv zeta. links.
  rewrite deref_assign_eq, deref_assign_ne, (ag_deref _ _ _ _ H) by done.
  destruct (deref hp' (HeadFirst h)); [|rewrite agree_no_last]; by rewrite H.
Qed.

Lemma list_insert_after_sim h x e : agree true false (LIST_INSERT_AFTER hp x e) (TAILQ_INSERT_AFTER hp' h x e).
Proof.
  unfold LIST_INSERT_AFTER, TAILQ_INSERT_AFTER, LIST_NEXT. cbv zeta. links.
  assert (E : deref (assign hp (NextOf e) (deref hp (NextOf x))) (NextOf x) = deref hp (NextOf x)) by (rewrite deref_assign; by case_decide).
  rewrite E, deref_assign_eq, (ag_deref _ _ _ _ H). destruct (deref hp' (NextOf x)); [|rewrite agree_no_last]; by rewrite H.
Qed.

Lemma list_insert_before_sim n e : agree true false (LIST_INSERT_BEFORE hp n e) (TAILQ_INSERT_BEFORE hp' n e).
Proof.
  unfold LIST_INSERT_BEFORE, TAILQ_INSERT_BEFORE. cbv zeta. autorewrite with queue.
  rewrite (ag_prev _ _ _ _ H) by done. by rewrite H.
Qed.

Lemma list_remove_sim h e : agree true false (LIST_REMOVE hp e) (TAILQ_REMOVE hp' h e).
Proof.
  unfold LIST_REMOVE, TAILQ_REMOVE, LIST_NEXT. cbv zeta. links. rewrite (ag_deref _ _ _ _ H (NextOf e)), (ag_prev _ _ _ _ H) by done.
  destruct (deref hp' (NextOf e)) as [n|] eqn:E; autorewrite with queue; rewrite (ag_prev _ _ _ _ H), (ag_deref _ _ _ _ H), E by done.
  - by rewrite H.
  - rewrite agree_no_last. by rewrite H.
Qed.

Lemma list_replace_sim h e e2 : agree true false (LIST_REPLACE hp e e2) (TAILQ_REPLACE hp' h e e2).
Proof.
  unfold LIST_REPLACE, TAILQ_REPLACE, LIST_NEXT. cbv zeta. links. rewrite !deref_assign_eq, (ag_deref _ _ _ _ H (NextOf e)).
  destruct (deref hp' (NextOf e)) as [n|] eqn:E; rewrite ?prev_set_prev, ?prev_set_last, ?prev_assign, (ag_prev _ _ _ _ H), !(decide_True (P := e2 = e2)) by done.
  - by rewrite H.
  - rewrite agree_no_last. by rewrite H.
Qed.

Lemma list_move_sim h1 h2 : h1 <> h2 -> agree true false (LIST_MOVE hp h1 h2) (TAILQ_CONCAT (TAILQ_INIT hp' h2) h2 h1).
Proof.
  intros Hne. unfold LIST_MOVE, TAILQ_CONCAT, LIST_FIRST, LIST_INIT. cbv zeta. links.
  rewrite deref_init, deref_assign_ne, decide_False, (ag_deref _ _ _ _ H) by congruence.
  destruct (deref hp' (HeadFirst h1)) as [f|]; [|rewrite agree_init, agree_no_last; by rewrite H].
  rewrite agree_init, !agree_no_last. autorewrite with queue. rewrite !(decide_True (P := h2 = h2)) by done.
  rewrite agree_init, agree_no_last. by rewrite H.
Qed.
End ListSim.

(** *** Singly linked *)

Lemma agree_weaken p l hp hp' : agree p l hp hp' -> agree false false hp hp'.
Proof. by intros [H1 _ _]. Qed.

(** The link at [p] skips to [v]; the last one is remembered in the head. *)
Definition unlink (hp : qheap) (h : Z) (p : slot) (v : option Z) : qheap :=
  let hp := assign hp p v in match v with None => set_tqh_last hp h p | Some _ => hp end.

#[export] Instance agree_unlink p l : Proper (agree p l ==> eq ==> eq ==> eq ==> agree p l) unlink.
Proof. intros hp hp' H h _ <- s _ <- v _ <-. unfold unlink. destruct v; by rewrite H. Qed.

Lemma agree_last_assign p l hp h s s' v : agree p l (assign (set_tqh_last hp h s) s' v) (set_tqh_last (assign hp s' v) h s).
Proof. split; intros; autorewrite with queue; done. Qed.

(** Removal from a tail queue, without the previous links. *)
Lemma remove_links hp h l1 e l2 :
  is_tailq hp h (l1 ++ e :: l2) -> agree false true (TAILQ_REMOVE hp h e) (unlink hp h (elem_of_heap hp e).2 (head l2)).
Proof.
  intros Hq. pose proof (tailq_next _ _ _ _ _ Hq) as Hn. pose proof (tq_nodup _ _ _ Hq) as (_ & _ & (Hne & _)%NoDup_cons)%NoDup_app.
  revert Hn. unfold TAILQ_REMOVE, unlink. cbv zeta. change (TAILQ_NEXT hp e) with (deref hp (NextOf e)). intros Hn. rewrite Hn.
  destruct l2 as [|n l2]; cbn [head] in *; autorewrite with queue; links; autorewrite with queue; rewrite Hn.
  - by rewrite agree_last_assign.
  - rewrite decide_False by set_solver. by rewrite agree_no_prev.
Qed.

Lemma find_before_spec hp hp' h c e l2 lb : forall la fuel,
  (forall s, deref hp s = deref hp' s) -> is_tailq hp' h (la ++ lb ++ c :: e :: l2) -> (length lb < fuel)%nat ->
  find_before fuel hp (head (lb ++ c :: e :: l2)) e = Some c.
Proof.
  induction lb as [|x lb IH]; intros la fuel Hd Hq Hf; (destruct fuel as [|fuel]; [cbn in Hf; lia|]); cbn [app head find_before].
  - pose proof (tailq_next _ _ _ _ _ Hq) as Hn. rewrite Hd. rewrite decide_True; [done|exact Hn].
  - pose proof (tailq_next _ _ _ _ _ Hq) as Hn. rewrite Hd. change (deref hp' (NextOf x)) with (TAILQ_NEXT hp' x). rewrite Hn, decide_False.
    + apply (IH (la ++ [x])); [done|by rewrite <- app_assoc|cbn in Hf; lia].
    + apply tq_nodup, NoDup_app in Hq as (_ & _ & [_ Hnd]%NoDup_cons). destruct lb as [|y lb]; cbn; intros [= ->].
      * apply NoDup_cons in Hnd as [Hx _]. set_solver.
      * apply NoDup_cons in Hnd as [Hx _]. set_solver.
Qed.

Section SinglySim.
Context (l : bool) (hp hp' : qheap) (H : agree false l hp hp').

Lemma unlink_none h p v : agree false false (assign hp p v) (unlink hp' h p v).
Proof. unfold unlink. destruct v; rewrite ?agree_no_last, (agree_weaken _ _ _ _ H); done. Qed.

Lemma slist_insert_after_sim h x e : agree false false (SLIST_INSERT_AFTER hp x e) (TAILQ_INSERT_AFTER hp' h x e).
Proof.
  unfold SLIST_INSERT_AFTER, TAILQ_INSERT_AFTER, SLIST_NEXT. cbv zeta. links.
  rewrite deref_assign_eq, (ag_deref _ _ _ _ H). destruct (deref hp' (NextOf x)); drop_writes; by rewrite (agree_weaken _ _ _ _ H).
Qed.

Lemma slist_insert_head_sim h e : agree false false (SLIST_INSERT_HEAD hp h e) (TAILQ_INSERT_HEAD hp' h e).
Proof.
  unfold SLIST_INSERT_HEAD, TAILQ_INSERT_HEAD, SLIST_FIRST. cbv zeta. links.
  rewrite deref_assign_eq, (ag_deref _ _ _ _ H). destruct (deref hp' (HeadFirst h)); drop_writes; by rewrite (agree_weaken _ _ _ _ H).
Qed.

Lemma slist_init_sim h : agree false false (SLIST_INIT hp h) (TAILQ_INIT hp' h).
Proof. unfold SLIST_INIT. rewrite agree_init, agree_no_last, (agree_weaken _ _ _ _ H). done. Qed.
End SinglySim.

Section StailqSim.
Context (hp hp' : qheap) (H : agree false true hp hp').

Lemma stailq_init_sim h : agree false true (STAILQ_INIT hp h) (TAILQ_INIT hp' h).
Proof. unfold STAILQ_INIT. rewrite agree_init, H. done. Qed.

Lemma stailq_insert_head_sim h e : agree false true (STAILQ_INSERT_HEAD hp h e) (TAILQ_INSERT_HEAD hp' h e).
Proof.
  unfold STAILQ_INSERT_HEAD, TAILQ_INSERT_HEAD, STAILQ_FIRST, STAILQ_NEXT. cbv zeta. links. rewrite !deref_assign_eq, (ag_deref _ _ _ _ H).
  destruct (deref hp' (HeadFirst h)); rewrite !agree_no_prev; by rewrite H.
Qed.

Lemma stailq_insert_after_sim h x e : agree false true (STAILQ_INSERT_AFTER hp h x e) (TAILQ_INSERT_AFTER hp' h x e).
Proof.
  unfold STAILQ_INSERT_AFTER, TAILQ_INSERT_AFTER, STAILQ_NEXT. cbv zeta. links. rewrite !deref_assign_eq, (ag_deref _ _ _ _ H).
  destruct (deref hp' (NextOf x)); rewrite !agree_no_prev; by rewrite H.
Qed.

Lemma stailq_insert_tail_sim h e : agree false true (STAILQ_INSERT_TAIL hp h e) (TAILQ_INSERT_TAIL hp' h e).
Proof.
  unfold STAILQ_INSERT_TAIL, TAILQ_INSERT_TAIL. cbv zeta. autorewrite with queue. rewrite (ag_last _ _ _ _ H), agree_no_prev by done.
  by rewrite H.
Qed.

Lemma stailq_concat_sim h1 h2 : agree false true (STAILQ_CONCAT hp h1 h2) (TAILQ_CONCAT hp' h1 h2).
Proof.
  unfold STAILQ_CONCAT, TAILQ_CONCAT, STAILQ_EMPTY, STAILQ_FIRST. links. rewrite (ag_deref _ _ _ _ H).
  destruct (deref hp' (HeadFirst h2)) as [f|]; [rewrite bool_decide_false by done|by rewrite bool_decide_true by done]. cbv zeta.
  unfold STAILQ_INIT. autorewrite with queue. rewrite (ag_last _ _ _ _ H h1), (ag_last _ _ _ _ H h2) by done.
  rewrite agree_init, agree_no_prev. by rewrite H.
Qed.
End StailqSim.

(** Removal by search. *)
Section RemoveSim.
Context (hp hp' : qheap) (h : Z).

Lemma next_links l1 e l2 : (forall s, deref hp s = deref hp' s) -> is_tailq hp' h (l1 ++ e :: l2) -> deref hp (NextOf e) = head l2.
Proof. intros Hd Hq. rewrite Hd. exact (tailq_next _ _ _ _ _ Hq). Qed.

Lemma first_links l : (forall s, deref hp s = deref hp' s) -> is_tailq hp' h l -> deref hp (HeadFirst h) = head l.
Proof. intros Hd Hq. rewrite Hd. exact (tailq_first _ _ _ Hq). Qed.

(** The link in front of an element, and what the removal leaves. *)
Lemma remove_first e l2 p l :
  agree p l hp hp' -> is_tailq hp' h (e :: l2) -> agree false l (unlink hp h (HeadFirst h) (head l2)) (TAILQ_REMOVE hp' h e).
Proof.
  intros H Hq. pose proof (remove_links _ _ [] _ _ Hq) as Hr. destruct (tailq_cut _ _ [] _ _ Hq) as (s & Hs & _ & Hp & _).
  cbn in Hs. rewrite Hp, Hs in Hr. assert (Hr' : agree false l (TAILQ_REMOVE hp' h e) (unlink hp' h (HeadFirst h) (head l2))).
  { destruct Hr as [R1 _ R3]. by split; auto. }
  rewrite Hr'. assert (H' : agree false l hp hp') by (destruct H; by split). by rewrite H'.
Qed.

Lemma remove_later l1 c e l2 p l :
  agree p l hp hp' -> is_tailq hp' h (l1 ++ c :: e :: l2) -> agree false l (unlink hp h (NextOf c) (head l2)) (TAILQ_REMOVE hp' h e).
Proof.
  intros H Hq. assert (Hq' : is_tailq hp' h ((l1 ++ [c]) ++ e :: l2)) by (by rewrite <- app_assoc).
  pose proof (remove_links _ _ _ _ _ Hq') as Hr. destruct (tailq_cut _ _ _ _ _ Hq') as (s & Hs & _ & Hp & _).
  apply seg_app in Hs as (m & _ & _ & _ & Hs). cbn in Hs. rewrite Hp, Hs in Hr.
  assert (Hr' : agree false l (TAILQ_REMOVE hp' h e) (unlink hp' h (NextOf c) (head l2))).
  { destruct Hr as [R1 _ R3]. by split; auto. }
  rewrite Hr'. assert (H' : agree false l hp hp') by (destruct H; by split). by rewrite H'.
Qed.

Lemma stailq_remove_head_sim e l2 :
  agree false true hp hp' -> is_tailq hp' h (e :: l2) ->
  exists hp1, STAILQ_REMOVE_HEAD hp h = Some hp1 /\ agree false true hp1 (TAILQ_REMOVE hp' h e).
Proof.
  intros H Hq. exists (unlink hp h (HeadFirst h) (head l2)). split; [|by eapply remove_first].
  unfold STAILQ_REMOVE_HEAD, STAILQ_FIRST, STAILQ_NEXT. rewrite (first_links _ (ag_deref _ _ _ _ H) Hq). cbn [head mbind option_bind].
  cbv zeta. rewrite (next_links [] _ _ (ag_deref _ _ _ _ H) Hq), deref_assign_eq. by destruct (head l2).
Qed.

Lemma skip_after_sim l1 c e l2 :
  agree false true hp hp' -> is_tailq hp' h (l1 ++ c :: e :: l2) ->
  exists hp1, skip_after hp h c = Some hp1 /\ agree false true hp1 (TAILQ_REMOVE hp' h e).
Proof.
  intros H Hq. exists (unlink hp h (NextOf c) (head l2)). split; [|by eapply remove_later].
  unfold skip_after. rewrite (next_links _ _ _ (ag_deref _ _ _ _ H) Hq). cbn [head mbind option_bind]. cbv zeta.
  rewrite (next_links (l1 ++ [c]) e l2 (ag_deref _ _ _ _ H)), deref_assign_eq by (by rewrite <- app_assoc). by destruct (head l2).
Qed.

Lemma slist_remove_head_sim e l2 :
  agree false false hp hp' -> is_tailq hp' h (e :: l2) ->
  exists hp1, SLIST_REMOVE_HEAD hp h = Some hp1 /\ agree false false hp1 (TAILQ_REMOVE hp' h e).
Proof.
  intros H Hq. exists (assign hp (HeadFirst h) (head l2)). split.
  - unfold SLIST_REMOVE_HEAD, SLIST_FIRST, SLIST_NEXT. rewrite (first_links _ (ag_deref _ _ _ _ H) Hq). cbn [head mbind option_bind].
    by rewrite (next_links [] _ _ (ag_deref _ _ _ _ H) Hq).
  - rewrite <- (remove_first e l2 false false H Hq). by apply (unlink_none false).
Qed.

Lemma slist_remove_after_sim l1 c e l2 :
  agree false false hp hp' -> is_tailq hp' h (l1 ++ c :: e :: l2) ->
  exists hp1, SLIST_REMOVE_AFTER hp c = Some hp1 /\ agree false false hp1 (TAILQ_REMOVE hp' h e).
Proof.
  intros H Hq. exists (assign hp (NextOf c) (head l2)). split.
  - unfold SLIST_REMOVE_AFTER, SLIST_NEXT. rewrite (next_links _ _ _ (ag_deref _ _ _ _ H) Hq). cbn [head mbind option_bind].
    by rewrite (next_links (l1 ++ [c]) e l2 (ag_deref _ _ _ _ H)) by (by rewrite <- app_assoc).
  - rewrite <- (remove_later l1 c e l2 false false H Hq). by apply (unlink_none false).
Qed.

(** Any element is the first or has one in front. *)
Lemma in_front (l : list Z) e : e ∈ l -> (exists l2, l = e :: l2) \/ exists l1 c l2, l = l1 ++ c :: e :: l2.
Proof.
  intros (l1 & l2 & ->)%list_elem_of_split. destruct l1 as [|c l1 _] using rev_ind; [left; by exists l2|].
  right. exists l1, c, l2. by rewrite <- app_assoc.
Qed.

Lemma later_not_first l1 c e l2 : is_tailq hp' h (l1 ++ c :: e :: l2) -> head (l1 ++ c :: e :: l2) <> Some e.
Proof.
  intros Hnd%tq_nodup. destruct l1 as [|x l1]; cbn; intros [= ->]; apply NoDup_cons in Hnd as [Hx _]; set_solver.
Qed.

Lemma stailq_remove_sim l e fuel :
  agree false true hp hp' -> is_tailq hp' h l -> e ∈ l -> (length l <= fuel)%nat ->
  exists hp1, STAILQ_REMOVE fuel hp h e = Some hp1 /\ agree false true hp1 (TAILQ_REMOVE hp' h e).
Proof.
  intros H Hq Hin Hf. unfold STAILQ_REMOVE, STAILQ_FIRST. rewrite (first_links _ (ag_deref _ _ _ _ H) Hq).
  destruct (in_front l e Hin) as [(l2 & ->)|(l1 & c & l2 & ->)].
  - rewrite decide_True by done. by eapply stailq_remove_head_sim.
  - rewrite decide_False by (by apply later_not_first). rewrite length_app in Hf. cbn in Hf.
    rewrite (find_before_spec hp hp' h c e l2 l1 []); [|apply (ag_deref _ _ _ _ H)|done|lia]. cbn [mbind option_bind].
    by eapply skip_after_sim.
Qed.

Lemma slist_remove_sim l e fuel :
  agree false false hp hp' -> is_tailq hp' h l -> e ∈ l -> (length l <= fuel)%nat ->
  exists hp1, SLIST_REMOVE fuel hp h e = Some hp1 /\ agree false false hp1 (TAILQ_REMOVE hp' h e).
Proof.
  intros H Hq Hin Hf. unfold SLIST_REMOVE, SLIST_FIRST. rewrite (first_links _ (ag_deref _ _ _ _ H) Hq).
  destruct (in_front l e Hin) as [(l2 & ->)|(l1 & c & l2 & ->)].
  - rewrite decide_True by done. by eapply slist_remove_head_sim.
  - rewrite decide_False by (by apply later_not_first). rewrite length_app in Hf. cbn in Hf.
    rewrite (find_before_spec hp hp' h c e l2 l1 []); [|apply (ag_deref _ _ _ _ H)|done|lia]. cbn [mbind option_bind].
    by eapply slist_remove_after_sim.
Qed.
End RemoveSim.

(** ** Refinement *)

Inductive family := FSlist | FList | FStailq | FSimpleq.

Definition keeps_prev (f : family) : bool := match f with FList => true | _ => false end.
Definition keeps_last (f : family) : bool := match f with FStailq | FSimpleq => true | _ => false end.

Inductive sop :=
| SInit (h : Z)
| SInsertHead (h e : Z)
| SInsertTail (h e : Z)
| SInsertAfter (h x e : Z)
| SInsertBefore (h x e : Z)
| SRemoveHead (h : Z)
| SRemoveAfter (h x : Z)
| SRemove (h e : Z)
| SReplace (h e e2 : Z)
| SMove (h1 h2 : Z)
| SConcat (h1 h2 : Z).

(** The macro of a family for an operation; [None] when it has none. *)
Definition run_family (f : family) (fuel : nat) (hp : qheap) (op : sop) : option qheap :=
  match f, op with
  | FSlist, SInit h => Some (SLIST_INIT hp h)
  | FSlist, SInsertHead h e => Some (SLIST_INSERT_HEAD hp h e)
  | FSlist, SInsertAfter _ x e => Some (SLIST_INSERT_AFTER hp x e)
  | FSlist, SRemoveHead h => SLIST_REMOVE_HEAD hp h
  | FSlist, SRemoveAfter _ x => SLIST_REMOVE_AFTER hp x
  | FSlist, SRemove h e => SLIST_REMOVE fuel hp h e
  | FList, SInit h => Some (LIST_INIT hp h)
  | FList, SInsertHead h e => Some (LIST_INSERT_HEAD hp h e)
  | FList, SInsertAfter _ x e => Some (LIST_INSERT_AFTER hp x e)
  | FList, SInsertBefore _ x e => Some (LIST_INSERT_BEFORE hp x e)
  | FList, SRemove _ e => Some (LIST_REMOVE hp e)
  | FList, SReplace _ e e2 => Some (LIST_REPLACE hp e e2)
  | FList, SMove h1 h2 => Some (LIST_MOVE hp h1 h2)
  | FStailq, SInit h => Some (STAILQ_INIT hp h)
  | FStailq, SInsertHead h e => Some (STAILQ_INSERT_HEAD hp h e)
  | FStailq, SInsertTail h e => Some (STAILQ_INSERT_TAIL hp h e)
  | FStailq, SInsertAfter h x e => Some (STAILQ_INSERT_AFTER hp h x e)
  | FStailq, SRemoveHead h => STAILQ_REMOVE_HEAD hp h
  | FStailq, SRemove h e => STAILQ_REMOVE fuel hp h e
  | FStailq, SConcat h1 h2 => Some (STAILQ_CONCAT hp h1 h2)
  | FSimpleq, SInit h => Some (SIMPLEQ_INIT hp h)
  | FSimpleq, SInsertHead h e => Some (SIMPLEQ_INSERT_HEAD hp h e)
  | FSimpleq, SInsertTail h e => Some (SIMPLEQ_INSERT_TAIL hp h e)
  | FSimpleq, SInsertAfter h x e => Some (SIMPLEQ_INSERT_AFTER hp h x e)
  | FSimpleq, SRemoveHead h => SIMPLEQ_REMOVE_HEAD hp h
  | FSimpleq, SRemoveAfter h x => SIMPLEQ_REMOVE_AFTER hp h x
  | FSimpleq, SRemove h e => SIMPLEQ_REMOVE fuel hp h e
  | FSimpleq, SConcat h1 h2 => Some (SIMPLEQ_CONCAT hp h1 h2)
  | _, _ => None
  end.

Definition supported (f : family) (op : sop) : bool :=
  match op with
  | SInit _ | SInsertHead _ _ | SInsertAfter _ _ _ | SRemove _ _ => true
  | SInsertTail _ _ | SConcat _ _ => keeps_last f
  | SInsertBefore _ _ _ | SReplace _ _ _ | SMove _ _ => keeps_prev f
  | SRemoveHead _ => negb (keeps_prev f)
  | SRemoveAfter _ _ => match f with FSlist | FSimpleq => true | _ => false end
  end.

Fixpoint run_ops (f : family) (fuel : nat) (hp : qheap) (ops : list sop) : option qheap :=
  match ops with
  | [] => Some hp
  | op :: ops => hp ← run_family f fuel hp op; run_ops f fuel hp ops
  end.

Fixpoint remove_after (x : Z) (l : list Z) : list Z :=
  match l with
  | [] => []
  | y :: l => y :: if decide (y = x) then tail l else remove_after x l
  end.

Definition run_abs (Q : gmap Z (list Z)) (op : sop) : gmap Z (list Z) :=
  match op with
  | SInit h => <[h := []]> Q
  | SInsertHead h e => <[h := e :: queue Q h]> Q
  | SInsertTail h e => <[h := queue Q h ++ [e]]> Q
  | SInsertAfter h x e => <[h := subst_first x [x; e] (queue Q h)]> Q
  | SInsertBefore h x e => <[h := subst_first x [e; x] (queue Q h)]> Q
  | SRemoveHead h => <[h := tail (queue Q h)]> Q
  | SRemoveAfter h x => <[h := remove_after x (queue Q h)]> Q
  | SRemove h e => <[h := qdel e (queue Q h)]> Q
  | SReplace h e e2 => <[h := subst_first e [e2] (queue Q h)]> Q
  | SMove h1 h2 => <[h2 := queue Q h1]> (<[h1 := []]> Q)
  | SConcat h1 h2 => <[h1 := queue Q h1 ++ queue Q h2]> (<[h2 := []]> Q)
  end.

(** The contract; the search of a removal has [fuel] steps. *)
Definition svalid (f : family) (fuel : nat) (Q : gmap Z (list Z)) (op : sop) : Prop :=
  supported f op = true /\
  match op with
  | SInit _ => True
  | SInsertHead h e | SInsertTail h e => is_Some (Q !! h) /\ map_Forall (fun _ l => e ∉ l) Q
  | SInsertAfter h x e | SInsertBefore h x e | SReplace h x e =>
      is_Some (Q !! h) /\ x ∈ queue Q h /\ map_Forall (fun _ l => e ∉ l) Q
  | SRemoveHead h => is_Some (Q !! h) /\ queue Q h <> []
  | SRemoveAfter h x => is_Some (Q !! h) /\ x ∈ queue Q h /\ last (queue Q h) <> Some x
  | SRemove h e => is_Some (Q !! h) /\ e ∈ queue Q h /\ (length (queue Q h) <= fuel)%nat
  | SMove h1 h2 => is_Some (Q !! h1) /\ h1 <> h2
  | SConcat h1 h2 => is_Some (Q !! h1) /\ is_Some (Q !! h2) /\ h1 <> h2
  end.

Fixpoint svalid_seq (f : family) (fuel : nat) (Q : gmap Z (list Z)) (ops : list sop) : Prop :=
  match ops with [] => True | op :: ops => svalid f fuel Q op /\ svalid_seq f fuel (run_abs Q op) ops end.

#[export] Instance svalid_dec f fuel Q op : Decision (svalid f fuel Q op).
Proof. destruct op; unfold svalid; cbn; apply _. Defined.

#[export] Instance svalid_seq_dec f fuel ops : forall Q, Decision (svalid_seq f fuel Q ops).
Proof. induction ops as [|op ops IH]; intros Q; cbn [svalid_seq]; apply _. Defined.

(** The tail queue operations with the same effect. *)
Fixpoint after (x : Z) (l : list Z) : option Z :=
  match l with [] => None | y :: l => if decide (y = x) then head l else after x l end.

Definition to_q (Q : gmap Z (list Z)) (op : sop) : list qop :=
  match op with
  | SInit h => [OpInit h]
  | SInsertHead h e => [OpInsertHead h e]
  | SInsertTail h e => [OpInsertTail h e]
  | SInsertAfter h x e => [OpInsertAfter h x e]
  | SInsertBefore h x e => [OpInsertBefore h x e]
  | SRemoveHead h => match queue Q h with e :: _ => [OpRemove h e] | [] => [] end
  | SRemoveAfter h x => match after x (queue Q h) with Some e => [OpRemove h e] | None => [] end
  | SRemove h e => [OpRemove h e]
  | SReplace h e e2 => [OpReplace h e e2]
  | SMove h1 h2 => [OpInit h2; OpConcat h2 h1]
  | SConcat h1 h2 => [OpConcat h1 h2]
  end.

Lemma has_successor x (l : list Z) : x ∈ l -> last l <> Some x -> exists l1 e l2, l = l1 ++ x :: e :: l2.
Proof.
  intros (l1 & l2 & ->)%list_elem_of_split Hl. destruct l2 as [|e l2]; [|by exists l1, e, l2]. by rewrite last_snoc in Hl.
Qed.

Lemma after_split l1 x e l2 : NoDup (l1 ++ x :: e :: l2) ->
  after x (l1 ++ x :: e :: l2) = Some e /\ remove_after x (l1 ++ x :: e :: l2) = l1 ++ x :: l2.
Proof.
  induction l1 as [|y l1 IH]; cbn; [by rewrite !decide_True by done|]. intros [Hy Hnd]%NoDup_cons.
  rewrite !decide_False by set_solver. destruct (IH Hnd) as [-> ->]. done.
Qed.

Lemma to_q_spec f fuel hp Q op :
  repr hp Q -> svalid f fuel Q op -> valid_seq Q (to_q Q op) /\ foldl run_list Q (to_q Q op) = run_abs Q op.
Proof.
  intros HR (_ & Hv). destruct op as [h|h e|h e|h x e|h x e|h|h x|h e|h e e2|h1 h2|h1 h2]; cbn [to_q run_abs] in *; try (cbn; tauto).
  - destruct Hv as [[l Hl] Hne]. assert (Hql : queue Q h = l) by (unfold queue; by rewrite Hl). rewrite Hql in *. destruct l as [|e l]; [done|].
    pose proof (re_queue _ _ HR _ _ Hl) as [Hnd _ _]. cbn [foldl run_list valid_seq valid]. rewrite Hql. split_and!; [by eexists|constructor|done|].
    change (e :: l) with ([] ++ e :: l). by rewrite qdel_split.
  - destruct Hv as ([l Hl] & Hin & Hla). assert (Hql : queue Q h = l) by (unfold queue; by rewrite Hl). rewrite Hql in *.
    destruct (has_successor x l Hin Hla) as (l1 & e & l2 & ->). pose proof (re_queue _ _ HR _ _ Hl) as [Hnd _ _].
    destruct (after_split _ _ _ _ Hnd) as [-> ->]. cbn [foldl run_list valid_seq valid]. rewrite Hql. split_and!; [by eexists|set_solver|done|].
    replace (l1 ++ x :: e :: l2) with ((l1 ++ [x]) ++ e :: l2) in * by (by rewrite <- app_assoc).
    rewrite qdel_split by done. by rewrite <- app_assoc.
  - destruct Hv as ([l Hl] & Hne). cbn [foldl run_list valid_seq valid]. unfold queue. rewrite lookup_insert_eq, lookup_insert_ne, Hl by done. cbn [default app].
    split; [split_and!; first [done|by eexists]|]. by rewrite (insert_insert_ne _ h1 h2), insert_insert_eq by done.
Qed.

Lemma family_step f fuel hp hp' Q op :
  agree (keeps_prev f) (keeps_last f) hp hp' -> repr hp' Q -> svalid f fuel Q op ->
  exists hp1, run_family f fuel hp op = Some hp1 /\ agree (keeps_prev f) (keeps_last f) hp1 (foldl run_ptr hp' (to_q Q op)).
Proof.
  intros H HR (Hs & Hv).
  assert (Hq : forall h, is_Some (Q !! h) -> is_tailq hp' h (queue Q h)).
  { intros h [l Hl]. unfold queue. rewrite Hl. by apply (re_queue _ _ HR). }
  destruct op as [h|h e|h e|h x e|h x e|h|h x|h e|h e e2|h1 h2|h1 h2]; destruct f; cbn [keeps_prev keeps_last] in *; try discriminate Hs;
    cbn [run_family to_q foldl run_ptr];
    try (eexists; split; [reflexivity|]; first
      [ by eapply slist_init_sim | by eapply list_init_sim | by eapply stailq_init_sim
      | by eapply slist_insert_head_sim | by eapply list_insert_head_sim | by eapply stailq_insert_head_sim
      | by eapply slist_insert_after_sim | by eapply list_insert_after_sim | by eapply stailq_insert_after_sim
      | by eapply stailq_insert_tail_sim | by eapply list_insert_before_sim | by eapply list_remove_sim | by eapply list_replace_sim
      | by eapply list_move_sim; [|apply Hv] | by eapply stailq_concat_sim ]);
    destruct Hv as (Hl & Hv); specialize (Hq _ Hl).
  all: try (destruct (queue Q h) as [|e l]; [done|]; cbn [foldl run_ptr];
            first [by eapply slist_remove_head_sim | by eapply stailq_remove_head_sim]).
  all: try (destruct Hv as (Hin & Hf); first [by eapply slist_remove_sim | by eapply stailq_remove_sim]).
  all: destruct Hv as (Hin & Hla); destruct (has_successor _ _ Hin Hla) as (l1 & e & l2 & E); rewrite E in *;
    destruct (after_split _ _ _ _ (tq_nodup _ _ _ Hq)) as [-> _]; cbn [foldl run_ptr];
    first [by eapply slist_remove_after_sim | by eapply skip_after_sim].
Qed.

Lemma family_run f fuel ops : forall hp hp' Q,
  agree (keeps_prev f) (keeps_last f) hp hp' -> repr hp' Q -> svalid_seq f fuel Q ops ->
  exists hp1 hp1', run_ops f fuel hp ops = Some hp1 /\ agree (keeps_prev f) (keeps_last f) hp1 hp1' /\ repr hp1' (foldl run_abs Q ops).
Proof.
  induction ops as [|op ops IH]; intros hp hp' Q H HR Hv; cbn [run_ops foldl]; [by exists hp, hp'|].
  destruct Hv as [Hv Hvs]. destruct (family_step f fuel hp hp' Q op H HR Hv) as (hp1 & E & H1).
  destruct (to_q_spec f fuel hp' Q op HR Hv) as (Hvq & Hrun). rewrite E. cbn [mbind option_bind].
  eapply IH; [exact H1| |done]. rewrite <- Hrun. by apply repr_run.
Qed.

(** The accessors of a family. *)
Definition FIRST (f : family) : qheap -> Z -> option Z :=
  match f with FSlist => SLIST_FIRST | FList => LIST_FIRST | FStailq => STAILQ_FIRST | FSimpleq => SIMPLEQ_FIRST end.
Definition NEXT (f : family) : qheap -> Z -> option Z :=
  match f with FSlist => SLIST_NEXT | FList => LIST_NEXT | FStailq => STAILQ_NEXT | FSimpleq => SIMPLEQ_NEXT end.
Definition EMPTY (f : family) : qheap -> Z -> bool :=
  match f with FSlist => SLIST_EMPTY | FList => LIST_EMPTY | FStailq => STAILQ_EMPTY | FSimpleq => SIMPLEQ_EMPTY end.
Definition FOREACH (f : family) : nat -> qheap -> option Z -> list Z :=
  match f with FSlist => SLIST_FOREACH | FList => LIST_FOREACH | FStailq => STAILQ_FOREACH | FSimpleq => SIMPLEQ_FOREACH end.

Lemma first_eq f hp h : FIRST f hp h = deref hp (HeadFirst h).
Proof. by destruct f. Qed.
Lemma next_eq f hp e : NEXT f hp e = deref hp (NextOf e).
Proof. by destruct f. Qed.
Lemma foreach_eq f p l hp hp' : agree p l hp hp' -> forall fuel v, FOREACH f fuel hp v = TAILQ_FOREACH fuel hp' v.
Proof.
  intros H. induction fuel as [|fuel IH]; intros v; [by destruct f, v|]. destruct v as [e|]; [|by destruct f].
  cbn [TAILQ_FOREACH]. rewrite <- IH. change (TAILQ_NEXT hp' e) with (deref hp' (NextOf e)). rewrite <- (ag_deref _ _ _ _ H). by destruct f.
Qed.

Lemma stailq_last p hp hp' h l : agree p true hp hp' -> is_tailq hp' h l -> STAILQ_LAST hp h = last l.
Proof.
  intros H Hq. unfold STAILQ_LAST, STAILQ_EMPTY, STAILQ_FIRST. rewrite (first_links hp hp' h l (ag_deref _ _ _ _ H) Hq), (ag_last _ _ _ _ H) by done.
  destruct Hq as [_ Hs He]. destruct l as [|e l _] using rev_ind; [done|]. rewrite last_snoc.
  apply seg_app in Hs as (m & _ & _ & _ & ->). by destruct l.
Qed.

(** C26: for singly linked lists, lists, singly linked tail queues and simple
    queues, any sequence of the family's operations that keeps their contract
    runs without following a null pointer and leaves every head with the list
    the operations describe: the accessors and the loop read it, the last
    element is found where the family keeps it, and the checks of a diagnostic
    build of lists do not fire. *)
Theorem lists_refine (f : family) (fuel : nat) (ops : list sop) (h : Z) (l : list Z) :
  svalid_seq f fuel ∅ ops -> foldl run_abs ∅ ops !! h = Some l ->
  exists hp, run_ops f fuel (MkHeap ∅ ∅) ops = Some hp /\
    FIRST f hp h = head l /\ EMPTY f hp h = bool_decide (l = []) /\
    (forall l1 e l2, l = l1 ++ e :: l2 -> NEXT f hp e = head l2) /\
    (forall n, (length l <= n)%nat -> FOREACH f n hp (FIRST f hp h) = l) /\
    (keeps_last f = true -> STAILQ_LAST hp h = last l) /\
    (keeps_prev f = true -> QUEUEDEBUG_LIST_INSERT_HEAD hp h = true /\ forall e, e ∈ l -> QUEUEDEBUG_LIST_OP hp e = true).
Proof.
  intros Hv Hl. destruct (family_run f fuel ops (MkHeap ∅ ∅) (MkHeap ∅ ∅) ∅) as (hp & hp' & E & H & HR); [done|by split|done|].
  exists hp. pose proof (re_queue _ _ HR _ _ Hl) as Hq. split; [done|].
  assert (Hf : FIRST f hp h = head l) by (rewrite first_eq; by apply (first_links hp hp' h l (ag_deref _ _ _ _ H))).
  split_and!; [done| | | | |].
  - destruct f, l; cbn [EMPTY FIRST] in *; unfold SLIST_EMPTY, LIST_EMPTY, SIMPLEQ_EMPTY, STAILQ_EMPTY, SIMPLEQ_FIRST in *; by rewrite Hf.
  - intros l1 e l2 ->. rewrite next_eq. by apply (next_links hp hp' h l1 e l2 (ag_deref _ _ _ _ H)).
  - intros n Hn. rewrite Hf, (foreach_eq f _ _ hp hp' H), <- (tailq_first _ _ _ Hq). by apply foreach_list.
  - intros Hk. rewrite Hk in H. by eapply stailq_last.
  - intros Hk. rewrite Hk in H. destruct (tailq_checks _ _ _ Hq) as (C1 & _ & C2).
    unfold QUEUEDEBUG_LIST_INSERT_HEAD, QUEUEDEBUG_LIST_OP, LIST_FIRST, LIST_NEXT. split.
    + rewrite (ag_deref _ _ _ _ H). destruct (deref hp' (HeadFirst h)) eqn:Ed; [|done].
      rewrite (ag_prev _ _ _ _ H) by done. revert C1. unfold QUEUEDEBUG_TAILQ_INSERT_HEAD. links. by rewrite Ed.
    + intros e [C3 _]%C2. rewrite !(ag_deref _ _ _ _ H), (ag_prev _ _ _ _ H) by done. revert C3. unfold QUEUEDEBUG_TAILQ_OP. links.
      destruct (deref hp' (NextOf e)); rewrite ?(ag_prev _ _ _ _ H); done.
Qed.

Definition lists_demo : list sop :=
  [SInit 1; SInit 2; SInsertTail 1 10; SInsertTail 1 11; SInsertHead 1 12; SInsertAfter 1 10 13; SRemove 1 11; SRemoveAfter 1 12;
   SInsertTail 2 14; SConcat 1 2; SRemoveHead 1].

Lemma lists_refine_witness :
  exists hp, run_ops FSimpleq 4 (MkHeap ∅ ∅) lists_demo = Some hp /\ FOREACH FSimpleq 2 hp (Some 13) = [13; 14] /\ STAILQ_LAST hp 1 = Some 14.
Proof.
  destruct (lists_refine FSimpleq 4 lists_demo 1 [13; 14]) as (hp & E & Hf & _ & _ & Hl & Hla & _).
  - apply (bool_decide_unpack _). vm_compute. exact I.
  - reflexivity.
  - exists hp. split; [exact E|]. split; [|exact (Hla eq_refl)]. rewrite Hf in Hl. apply (Hl 2%nat). cbn [length]. lia.
Defined.
