(* ===== verification/Ule.v ===== *)
(** * The ULE scheduler ([core/sched/ule.c], [core/thread.c])

    The machine is the processors and the threads.  A queue is the list
    [Queue.v] shows a tail queue to be; removing a thread from a queue it is
    not on has no list-level meaning and is [Halt].  The source's spin locks
    are not modelled: each routine below is the part of the source that runs
    with the locks it takes held.  [CORE_LOCAL] is the index [me]. *)

From S2P Require Import Prelude Queue.

(** [core/sched.h] *)
Definition PRIO_IDLE : Z := 0.
Definition PRIO_LOW_BATCH : Z := 1.
Definition PRIO_HIGH_BATCH : Z := 32.
Definition PRIO_BATCH_RANGE : Z := PRIO_HIGH_BATCH - PRIO_LOW_BATCH + 1.
Definition PRIO_REALTIME : Z := 33.
Definition PRIO_MAX : Z := 63.
Definition PRIO_DEFAULT : Z := 16.
Definition PRIO_INTERACTIVE : Z := 20.
Definition RUNQUEUES_N : Z := 64.
Definition HZ : Z := 100.

Definition PRIO_IS_BATCH (prio : Z) : bool := (PRIO_LOW_BATCH <=? prio) && (prio <=? PRIO_HIGH_BATCH).

Inductive thread_state := READY | RUNNING | WAITING | ZOMBIE | TERMINATED.
Inductive preemption_reason := PREEMPT_NONE | PREEMPT_QUANTUM_END | PREEMPT_HIGHER_PRIORITY | PREEMPT_MIGRATION.

#[global] Instance thread_state_eq_dec : EqDecision thread_state.
Proof. solve_decision. Defined.

(** Which run queue a thread points to: the processor, and realtime
    ([true]) or calendar. *)
Definition runq_ref : Type := nat * bool.

(** The scheduler's fields of [struct thread]; [pmap] is
    [process->as->page_table->pmap]. *)
Record thread := MkThread {
  nice : Z;
  priority : Z;
  priority_class : Z;
  sleep_start : Z;
  sleeptime : Z;
  runtime : Z;
  ticks : Z;
  interactive : bool;
  pinned : bool;
  state : thread_state;
  runq : option runq_ref;
  last_cpu : option nat;
  pmap : Z;
}.

Definition set_times (t : thread) (rt st : Z) : thread :=
  MkThread (nice t) (priority t) (priority_class t) (sleep_start t) st rt (ticks t)
    (interactive t) (pinned t) (state t) (runq t) (last_cpu t) (pmap t).
Definition set_priority (t : thread) (p : Z) (i : bool) : thread :=
  MkThread (nice t) p (priority_class t) (sleep_start t) (sleeptime t) (runtime t) (ticks t)
    i (pinned t) (state t) (runq t) (last_cpu t) (pmap t).
Definition set_ticks (t : thread) (n : Z) : thread :=
  MkThread (nice t) (priority t) (priority_class t) (sleep_start t) (sleeptime t) (runtime t) n
    (interactive t) (pinned t) (state t) (runq t) (last_cpu t) (pmap t).
Definition set_sleep_start (t : thread) (n : Z) : thread :=
  MkThread (nice t) (priority t) (priority_class t) n (sleeptime t) (runtime t) (ticks t)
    (interactive t) (pinned t) (state t) (runq t) (last_cpu t) (pmap t).
Definition set_state (t : thread) (st : thread_state) : thread :=
  MkThread (nice t) (priority t) (priority_class t) (sleep_start t) (sleeptime t) (runtime t) (ticks t)
    (interactive t) (pinned t) st (runq t) (last_cpu t) (pmap t).
Definition set_runq (t : thread) (r : option runq_ref) : thread :=
  MkThread (nice t) (priority t) (priority_class t) (sleep_start t) (sleeptime t) (runtime t) (ticks t)
    (interactive t) (pinned t) (state t) r (last_cpu t) (pmap t).
Definition set_cpu (t : thread) (pin : bool) (c : option nat) : thread :=
  MkThread (nice t) (priority t) (priority_class t) (sleep_start t) (sleeptime t) (runtime t) (ticks t)
    (interactive t) pin (state t) (runq t) c (pmap t).

(** A thread is known by its address. *)
Definition tid : Type := Z.

(** [struct runqueue]: a 64-bit map of the non-empty queues, and the queues. *)
Record runqueue := MkRunq {
  status : Z;
  queues : list (list tid);
}.

(** [struct cpu_local] with its [struct sched_percpu]; [idle_thread] is the
    address of the embedded idle thread, [cr3] the active address space. *)
Record cpu_local := MkCpu {
  core_ticks : Z;
  current_thread : tid;
  current_thread_status : Z;
  next_thread : option tid;
  load : Z;
  realtime_runq : runqueue;
  calendar_queue : runqueue;
  calendar_queue_runidx : Z;
  calendar_queue_insidx : Z;
  idle_queue : list tid;
  idle_thread : tid;
  preempt_reason : preemption_reason;
  pending_softints : Z;
  cr3 : Z;
}.

Definition set_realtime (c : cpu_local) (q : runqueue) : cpu_local :=
  MkCpu (core_ticks c) (current_thread c) (current_thread_status c) (next_thread c) (load c) q
    (calendar_queue c) (calendar_queue_runidx c) (calendar_queue_insidx c) (idle_queue c) (idle_thread c)
    (preempt_reason c) (pending_softints c) (cr3 c).
Definition set_calendar (c : cpu_local) (q : runqueue) : cpu_local :=
  MkCpu (core_ticks c) (current_thread c) (current_thread_status c) (next_thread c) (load c) (realtime_runq c)
    q (calendar_queue_runidx c) (calendar_queue_insidx c) (idle_queue c) (idle_thread c)
    (preempt_reason c) (pending_softints c) (cr3 c).
Definition set_indices (c : cpu_local) (r i : Z) : cpu_local :=
  MkCpu (core_ticks c) (current_thread c) (current_thread_status c) (next_thread c) (load c) (realtime_runq c)
    (calendar_queue c) r i (idle_queue c) (idle_thread c) (preempt_reason c) (pending_softints c) (cr3 c).
Definition set_idle (c : cpu_local) (q : list tid) : cpu_local :=
  MkCpu (core_ticks c) (current_thread c) (current_thread_status c) (next_thread c) (load c) (realtime_runq c)
    (calendar_queue c) (calendar_queue_runidx c) (calendar_queue_insidx c) q (idle_thread c)
    (preempt_reason c) (pending_softints c) (cr3 c).
Definition set_load (c : cpu_local) (n : Z) : cpu_local :=
  MkCpu (core_ticks c) (current_thread c) (current_thread_status c) (next_thread c) n (realtime_runq c)
    (calendar_queue c) (calendar_queue_runidx c) (calendar_queue_insidx c) (idle_queue c) (idle_thread c)
    (preempt_reason c) (pending_softints c) (cr3 c).
Definition set_next (c : cpu_local) (t : option tid) : cpu_local :=
  MkCpu (core_ticks c) (current_thread c) (current_thread_status c) t (load c) (realtime_runq c)
    (calendar_queue c) (calendar_queue_runidx c) (calendar_queue_insidx c) (idle_queue c) (idle_thread c)
    (preempt_reason c) (pending_softints c) (cr3 c).
Definition set_reason (c : cpu_local) (r : preemption_reason) : cpu_local :=
  MkCpu (core_ticks c) (current_thread c) (current_thread_status c) (next_thread c) (load c) (realtime_runq c)
    (calendar_queue c) (calendar_queue_runidx c) (calendar_queue_insidx c) (idle_queue c) (idle_thread c)
    r (pending_softints c) (cr3 c).
Definition set_pending (c : cpu_local) (p : Z) : cpu_local :=
  MkCpu (core_ticks c) (current_thread c) (current_thread_status c) (next_thread c) (load c) (realtime_runq c)
    (calendar_queue c) (calendar_queue_runidx c) (calendar_queue_insidx c) (idle_queue c) (idle_thread c)
    (preempt_reason c) p (cr3 c).
Definition set_current (c : cpu_local) (t : tid) (st : Z) (pm : Z) : cpu_local :=
  MkCpu (core_ticks c) t st None (load c) (realtime_runq c)
    (calendar_queue c) (calendar_queue_runidx c) (calendar_queue_insidx c) (idle_queue c) (idle_thread c)
    (preempt_reason c) (pending_softints c) pm.

(** The machine: processors, threads, and the inter-processor interrupts
    sent so far. *)
Record machine := MkMachine {
  cpus : list cpu_local;
  threads : gmap tid thread;
  ipis : list nat;
}.

(** ** Run queues *)

Definition rq_queue (q : runqueue) (i : Z) : list tid := default [] (queues q !! Z.to_nat i).
Definition rq_set (q : runqueue) (i : Z) (l : list tid) : runqueue :=
  MkRunq (status q) (<[Z.to_nat i := l]> (queues q)).
Definition rq_bit (q : runqueue) (i : Z) : bool := negb (Z.land (status q) (Z.shiftl 1 i) =? 0).
Definition rq_set_bit (q : runqueue) (i : Z) : runqueue :=
  MkRunq (Z.lor (status q) (Z.shiftl 1 i)) (queues q).
Definition rq_clear_bit (q : runqueue) (i : Z) : runqueue :=
  MkRunq (Z.land (status q) (u64 (Z.lnot (Z.shiftl 1 i)))) (queues q).

(** [TAILQ_REMOVE] of [td] from queue [i], and the status bit. *)
Definition rq_remove (q : runqueue) (i : Z) (td : tid) : runqueue :=
  let q := rq_set q i (qdel td (rq_queue q i)) in
  if bool_decide (rq_queue q i = []) then rq_clear_bit q i else q.

Definition calendar_queue_increment (c : cpu_local) : cpu_local :=
  let runidx := (calendar_queue_runidx c + 1) mod RUNQUEUES_N in
  if runidx =? calendar_queue_insidx c
  then set_indices c runidx ((calendar_queue_insidx c + 1) mod RUNQUEUES_N)
  else set_indices c runidx (calendar_queue_insidx c).

(** The walk over a queue for the first thread that is not pinned. *)
Fixpoint first_unpinned (pin : tid -> bool) (l : list tid) : option tid :=
  match l with
  | [] => None
  | td :: l => if pin td then first_unpinned pin l else Some td
  end.

(** The thread taken from a non-empty queue: [Ok None] is the [goto retry].
    An empty queue whose status bit is set is a null dereference. *)
Definition pick_from (pin : tid -> bool) (migrate : bool) (l : list tid) : cres (option tid) :=
  match l with
  | [] => Halt
  | td :: _ => if migrate then Ok (first_unpinned pin l) else Ok (Some td)
  end.

Fixpoint pick_realtime_loop (n : nat) (i : Z) (pin : tid -> bool) (migrate : bool) (c : cpu_local)
    : cpu_local * cres (option tid) :=
  match n with
  | O => (c, Ok None)
  | S n =>
      if rq_bit (realtime_runq c) i then
        match pick_from pin migrate (rq_queue (realtime_runq c) i) with
        | Ok (Some td) => (set_realtime c (rq_remove (realtime_runq c) i td), Ok (Some td))
        | Ok None => pick_realtime_loop n (i + 1) pin migrate c
        | Err => (c, Err)
        | Halt => (c, Halt)
        end
      else pick_realtime_loop n (i + 1) pin migrate c
  end.

Definition pick_realtime_thread (c : cpu_local) (pin : tid -> bool) (minprio : Z) (migrate : bool)
    : cpu_local * cres (option tid) :=
  if status (realtime_runq c) =? 0 then (c, Ok None)
  else pick_realtime_loop (Z.to_nat (PRIO_MAX + 1 - minprio)) minprio pin migrate c.

(** The index wraps at the top of the loop body; [cnt] counts up to 64. *)
Fixpoint pick_batch_loop (n : nat) (i : Z) (pin : tid -> bool) (migrate : bool) (c : cpu_local)
    : cpu_local * cres (option tid) :=
  match n with
  | O => (c, Ok None)
  | S n =>
      let i := if RUNQUEUES_N <=? i then 0 else i in
      if rq_bit (calendar_queue c) i then
        match pick_from pin migrate (rq_queue (calendar_queue c) i) with
        | Ok (Some td) =>
            let q := rq_remove (calendar_queue c) i td in
            let c := set_calendar c q in
            let c := if bool_decide (rq_queue q i = []) && negb migrate
                     then calendar_queue_increment c else c in
            (c, Ok (Some td))
        | Ok None => pick_batch_loop n (i + 1) pin migrate c
        | Err => (c, Err)
        | Halt => (c, Halt)
        end
      else pick_batch_loop n (i + 1) pin migrate c
  end.

Definition pick_batch_thread (c : cpu_local) (pin : tid -> bool) (migrate : bool)
    : cpu_local * cres (option tid) :=
  if status (calendar_queue c) =? 0 then (c, Ok None)
  else pick_batch_loop (Z.to_nat RUNQUEUES_N) (calendar_queue_runidx c) pin migrate c.

Definition pick_idle_thread (c : cpu_local) (pin : tid -> bool) (migrate : bool)
    : cpu_local * cres (option tid) :=
  match idle_queue c with
  | td :: _ =>
      if negb (migrate && pin td) then (set_idle c (qdel td (idle_queue c)), Ok (Some td))
      else (c, Ok None)
  | [] => (c, Ok None)
  end.

(** ** Priorities *)

Definition SCALING_FACTOR : Z := 50.
Definition INTERACTIVITY_THRESHOLD : Z := 30.
Definition TICKS_TO_MS (t : Z) : Z := u64 (t * 1000) / HZ.

Definition interactive_score (td : thread) : Z :=
  if sleeptime td =? 0 then 100
  else if runtime td =? 0 then 0
  else
    let penalty :=
      if runtime td <? sleeptime td
      then SCALING_FACTOR / (sleeptime td / runtime td)
      else SCALING_FACTOR / (runtime td / sleeptime td) + SCALING_FACTOR in
    s32 (penalty + nice td).

Definition sched_clamp_time (td : thread) : thread :=
  let max := 5 * 1000 in
  let sum := u64 (runtime td + sleeptime td) in
  if sum <? max then td
  else if max * 2 <? sum then
    if sleeptime td <? runtime td then set_times td max 1 else set_times td 1 max
  else if max / 5 * 6 <? sum then set_times td (runtime td / 2) (sleeptime td / 2)
  else set_times td (runtime td / 5 * 4) (sleeptime td / 5 * 4).

Definition sched_update_interactivity (td : thread) : thread :=
  let td := sched_clamp_time td in
  set_priority td (priority td) (interactive_score td <? INTERACTIVITY_THRESHOLD).

Definition DIV_ROUND_UP (n d : Z) : Z := u64 (n + d - 1) / d.

(** [cpu_ticks] is [cpu->ticks].  The divisor is zero only after 2^60 ticks
    of one thread. *)
Definition sched_recompute_priority (cpu_ticks : Z) (td : thread) : thread :=
  let score := interactive_score td in
  if score <? INTERACTIVITY_THRESHOLD then
    set_priority td (u8 (PRIO_INTERACTIVE + (INTERACTIVITY_THRESHOLD - score) / 4)) true
  else
    let t := if ticks td =? 0 then 1 else ticks td in
    let p := u8 (DIV_ROUND_UP cpu_ticks (u64 (t * (PRIO_BATCH_RANGE / 2))) - nice td) in
    let p := if p <? PRIO_LOW_BATCH then PRIO_LOW_BATCH
             else if PRIO_HIGH_BATCH <? p then PRIO_HIGH_BATCH else p in
    set_priority td p false.

(** ** Insertion and removal *)

Definition insert_calendar_queue (c : cpu_local) (id : tid) (td : thread) : cpu_local :=
  let idx := (calendar_queue_insidx c + (PRIO_HIGH_BATCH - priority td)) mod RUNQUEUES_N in
  let q := rq_set_bit (calendar_queue c) idx in
  set_calendar c (rq_set q idx (rq_queue q idx ++ [id])).

Definition insert_realtime_queue (c : cpu_local) (id : tid) (td : thread) : cpu_local :=
  let q := rq_set_bit (realtime_runq c) (priority td) in
  set_realtime c (rq_set q (priority td) (rq_queue q (priority td) ++ [id])).

(** [cpu] is the processor's index.  A priority of 64 or more writes outside
    the array of queues. *)
Definition sched_insert_in_queue (cpu : nat) (c : cpu_local) (id : tid) (td : thread)
    : cres (cpu_local * thread) :=
  let finish c td := Ok (set_load c (u64 (load c + 1)), set_state td READY) in
  if (priority_class td =? PRIO_REALTIME) || interactive td then
    if RUNQUEUES_N <=? priority td then Halt
    else finish (insert_realtime_queue c id td) (set_runq td (Some (cpu, true)))
  else if priority_class td =? PRIO_LOW_BATCH then
    finish (insert_calendar_queue c id td) (set_runq td (Some (cpu, false)))
  else if priority_class td =? PRIO_IDLE then
    finish (set_idle c (idle_queue c ++ [id])) td
  else finish c td.

(** [1 << priority] is computed in 32 bits, where the shift count is taken
    modulo 32, and its complement is sign extended. *)
Definition clear_bit_int (st p : Z) : Z :=
  Z.land st (u64 (s32 (Z.lnot (s32 (Z.shiftl 1 (p mod 32)))))).

Definition runq_remove_int (q : runqueue) (td : thread) (id : tid) : cres runqueue :=
  let i := priority td in
  if bool_decide (id ∈ rq_queue q i) then
    let q := rq_set q i (qdel id (rq_queue q i)) in
    Ok (if bool_decide (rq_queue q i = []) then MkRunq (clear_bit_int (status q) i) (queues q) else q)
  else Halt.

(** ** Selection *)

Definition should_preempt (td : thread) (c : cpu_local) : bool :=
  let prio := Z.land (Z.shiftr (current_thread_status c) 1) 0x7f in
  let interact := Z.testbit (current_thread_status c) 0 in
  if prio =? PRIO_IDLE then true
  else if PRIO_IS_BATCH prio && negb interact && interactive td then true
  else (PRIO_REALTIME <=? priority td) && (prio <? priority td).

(** [sched_select_thread]: [cur] is the current thread or [NULL]. *)
Definition sched_select_thread (pin : tid -> bool) (cur : option thread) (c : cpu_local) (migrate : bool)
    : cpu_local * cres (option tid) :=
  let take c td := (set_load c (u64 (load c - 1)), Ok (Some td)) in
  match pick_realtime_thread c pin (match cur with Some t => priority t | None => 0 end) migrate with
  | (c, Ok (Some td)) => take c td
  | (c, Ok None) =>
      if match cur with
         | Some t => (priority_class t =? PRIO_REALTIME) || interactive t
         | None => false
         end then (c, Ok None)
      else
        match pick_batch_thread c pin migrate with
        | (c, Ok (Some td)) => take c td
        | (c, Ok None) =>
            if match cur with Some t => priority t =? PRIO_IDLE | None => false end then (c, Ok None)
            else
              match pick_idle_thread c pin migrate with
              | (c, Ok (Some td)) => take c td
              | r => r
              end
        | r => r
        end
  | r => r
  end.

Definition most_least_step (most least : nat * cpu_local) (i : nat) (c : cpu_local)
    : (nat * cpu_local) * (nat * cpu_local) :=
  let least' := if load c <? load least.2 then (i, c) else least in
  let most' := if load most.2 <? load c then (i, c) else most in
  (most', least').

Fixpoint most_least_loop (most least : nat * cpu_local) (i : nat) (l : list cpu_local)
    : (nat * cpu_local) * (nat * cpu_local) :=
  match l with
  | [] => (most, least)
  | c :: l => let '(most, least) := most_least_step most least i c in most_least_loop most least (S i) l
  end.

(** The indices of the most and the least loaded processor. *)
Definition find_most_and_least_loaded_cpu (l : list cpu_local) : option (nat * nat) :=
  match l with
  | [] => None
  | c0 :: _ => let '(most, least) := most_least_loop (0%nat, c0) (0%nat, c0) 0 l in Some (most.1, least.1)
  end.

Definition keep_least (best : option (nat * cpu_local)) (i : nat) (c : cpu_local) : option (nat * cpu_local) :=
  match best with
  | None => Some (i, c)
  | Some b => if load c <? load b.2 then Some (i, c) else best
  end.

Fixpoint pick_cpu_loop (td : thread) (i : nat) (l : list cpu_local) (least least_preempt : option (nat * cpu_local))
    : option (nat * cpu_local) * option (nat * cpu_local) :=
  match l with
  | [] => (least, least_preempt)
  | c :: l =>
      pick_cpu_loop td (S i) l (keep_least least i c)
        (if should_preempt td c then keep_least least_preempt i c else least_preempt)
  end.

Definition pick_cpu (l : list cpu_local) (td : thread) : option nat :=
  let search :=
    let '(least, least_preempt) := pick_cpu_loop td 0 l None None in
    match least_preempt with Some b => Some b.1 | None => fst <$> least end in
  match last_cpu td with
  | Some i =>
      match l !! i with
      | Some c => if should_preempt td c || pinned td then Some i else search
      | None => search
      end
  | None => search
  end.

(** ** The machine *)

Definition get_cpu (i : nat) : M machine cpu_local := fun m =>
  match cpus m !! i with Some c => (m, Ok c) | None => (m, Halt) end.
Definition put_cpu (i : nat) (c : cpu_local) : M machine unit := fun m =>
  (MkMachine (<[i := c]> (cpus m)) (threads m) (ipis m), Ok tt).
Definition get_thread (id : tid) : M machine thread := fun m =>
  match threads m !! id with Some t => (m, Ok t) | None => (m, Halt) end.
Definition put_thread (id : tid) (t : thread) : M machine unit := fun m =>
  (MkMachine (cpus m) (<[id := t]> (threads m)) (ipis m), Ok tt).
Definition arch_send_ipi (i : nat) : M machine unit := fun m =>
  (MkMachine (cpus m) (threads m) (ipis m ++ [i]), Ok tt).
Definition lift {A} (r : cres A) : M machine A := fun m => (m, r).

(** [td->pinned], read while a queue is searched. *)
Definition is_pinned (m : machine) (id : tid) : bool :=
  match threads m !! id with Some t => pinned t | None => false end.

(** [core/ipl.c] *)
Definition IPL_ZERO : Z := 0.
Definition IPL_DISPATCH : Z := 1.
Definition IPL_DEVICE : Z := 13.
Definition IPL_HIGH : Z := 15.

Definition set_softint_pending (c : cpu_local) (ipl : Z) : cpu_local :=
  set_pending c (u8 (Z.lor (pending_softints c) (Z.shiftl 1 ipl))).
Definition clear_softint_pending (c : cpu_local) (ipl : Z) : cpu_local :=
  set_pending c (Z.land (pending_softints c) (u8 (Z.lnot (Z.shiftl 1 ipl)))).
Definition is_softint_pending (c : cpu_local) (ipl : Z) : bool :=
  negb (Z.shiftr (pending_softints c) ipl =? 0).

Definition insert_in_queue (cpu : nat) (id : tid) : M machine unit :=
  c ← get_cpu cpu;
  t ← get_thread id;
  r ← lift (sched_insert_in_queue cpu c id t);
  put_cpu cpu r.1;;
  put_thread id r.2.

Definition select_thread (cur : option tid) (cpu : nat) (migrate : bool) : M machine (option tid) :=
  c ← get_cpu cpu;
  t ← match cur with Some id => x ← get_thread id; mret (Some x) | None => mret None end;
  pin ← gets is_pinned;
  let '(c, r) := sched_select_thread pin t c migrate in
  put_cpu cpu c;;
  lift r.

Definition sched_try_preempt (me cpu : nat) (id : tid) : M machine unit :=
  c ← get_cpu cpu;
  td ← get_thread id;
  if should_preempt td c then
    put_cpu cpu (set_reason (set_next c (Some id)) PREEMPT_HIGHER_PRIORITY);;
    match next_thread c with
    | Some next => insert_in_queue cpu next
    | None => mret tt
    end;;
    c ← get_cpu cpu;
    put_cpu cpu (set_softint_pending c IPL_DISPATCH);;
    if bool_decide (cpu = me) then mret tt else arch_send_ipi cpu
  else insert_in_queue cpu id.

Definition sched_remove_from_queue (cpu : nat) (id : tid) : M machine unit :=
  td ← get_thread id;
  c ← get_cpu cpu;
  put_cpu cpu (set_load c (u64 (load c - 1)));;
  match runq td with
  | None =>
      c ← get_cpu cpu;
      if bool_decide (id ∈ idle_queue c) then put_cpu cpu (set_idle c (qdel id (idle_queue c)))
      else halt
  | Some (k, realtime) =>
      ck ← get_cpu k;
      if realtime : bool then
        q ← lift (runq_remove_int (realtime_runq ck) td id);
        put_cpu k (set_realtime ck q)
      else
        q ← lift (runq_remove_int (calendar_queue ck) td id);
        put_cpu k (set_calendar ck q)
  end.

(** [thread_switch] activates an address space before the context switch. *)
Definition thread_switch_pmap (cur next : thread) (active : Z) : Z :=
  if pmap cur =? pmap next then active else pmap cur.

Definition sched_switch (me : nat) (cur next : tid) : M machine unit :=
  c ← get_cpu me;
  t ← get_thread cur;
  (if negb (cur =? idle_thread c) && bool_decide (state t = RUNNING) then insert_in_queue me cur
   else mret tt);;
  n ← get_thread next;
  put_thread next (set_cpu (set_state n RUNNING) (pinned n) (Some me));;
  c ← get_cpu me;
  t ← get_thread cur;
  let st := u8 (Z.lor (Z.shiftl (Z.land (priority n) 0x7f) 1) (Z.b2z (interactive n))) in
  put_cpu me (set_current c next st (thread_switch_pmap t n (cr3 c))).

(** The start of [sched_reschedule]: the insertion index leaves the run index. *)
Definition advance_insidx (c : cpu_local) : cpu_local :=
  if calendar_queue_runidx c =? calendar_queue_insidx c
  then set_indices c (calendar_queue_runidx c) ((calendar_queue_insidx c + 1) mod RUNQUEUES_N)
  else c.

(** [sched_reschedule]: called on the quantum's end. *)
Definition sched_reschedule (me : nat) : M machine unit :=
  c ← get_cpu me;
  let c := advance_insidx c in
  put_cpu me c;;
  td ← get_thread (current_thread c);
  (if priority_class td =? PRIO_LOW_BATCH then
     let td := set_times td (u64 (runtime td + TICKS_TO_MS 1)) (sleeptime td) in
     let td := set_ticks td (u64 (ticks td + 1)) in
     let td := sched_update_interactivity td in
     put_thread (current_thread c) (sched_recompute_priority (core_ticks c) td)
   else mret tt);;
  newtd ← select_thread (Some (current_thread c)) me false;
  match newtd with
  | Some t => c ← get_cpu me; put_cpu me (set_next c (Some t))
  | None => mret tt
  end.

Definition sched_yield_locked (me : nat) (td : tid) : M machine unit :=
  next ← select_thread (Some td) me false;
  c ← get_cpu me;
  sched_switch me td (default (idle_thread c) next).

Definition sched_yield (me : nat) : M machine unit :=
  c ← get_cpu me;
  sched_yield_locked me (current_thread c).

Definition sched_wait (me : nat) : M machine unit :=
  c ← get_cpu me;
  td ← get_thread (current_thread c);
  put_thread (current_thread c) (set_sleep_start (set_state td WAITING) (TICKS_TO_MS (core_ticks c)));;
  sched_yield me.

Definition sched_ready (me : nat) (id : tid) : M machine unit :=
  td ← get_thread id;
  l ← gets cpus;
  match pick_cpu l td with
  | Some cpu => sched_try_preempt me cpu id
  | None => halt
  end.

Definition sched_wake (me : nat) (id : tid) : M machine unit :=
  c ← get_cpu me;
  td ← get_thread id;
  let td := set_times td (runtime td) (u64 (TICKS_TO_MS (core_ticks c) - sleep_start td)) in
  let td := sched_update_interactivity td in
  put_thread id (sched_recompute_priority (core_ticks c) td);;
  sched_ready me id.

Definition yield_on_cpu (me cpu : nat) : M machine unit :=
  c ← get_cpu cpu;
  if bool_decide (cpu = me) then sched_yield_locked me (current_thread c)
  else
    put_cpu cpu (set_softint_pending (set_reason c PREEMPT_MIGRATION) IPL_DISPATCH);;
    arch_send_ipi cpu.

Definition sched_pin (me : nat) (id : tid) (cpu : nat) : M machine unit :=
  td ← get_thread id;
  put_thread id (set_cpu td true (Some cpu));;
  match last_cpu td with
  | None => mret tt
  | Some prev =>
      if bool_decide (prev = cpu) then mret tt
      else
        sched_try_preempt me cpu id;;
        if bool_decide (state td = RUNNING) then yield_on_cpu me prev
        else sched_remove_from_queue prev id
  end.

Definition LOAD_BALANCE_LIMIT : nat := 16.
Definition STEAL_THRESHOLD : Z := 1.

(** [balance_load]: [cnt] iterations at most. *)
Fixpoint balance_loop (cnt : nat) (me : nat) : M machine unit :=
  match cnt with
  | O => mret tt
  | S cnt =>
      l ← gets cpus;
      match find_most_and_least_loaded_cpu l with
      | None => mret tt
      | Some (most, least) =>
          cm ← get_cpu most;
          cl ← get_cpu least;
          let load_diff := s64 (load cm - load cl) in
          if load_diff <? 1 then mret tt
          else
            td ← select_thread None most true;
            match td with
            | None => mret tt
            | Some td =>
                sched_try_preempt me least td;;
                if load_diff =? 1 then mret tt else balance_loop cnt me
            end
      end
  end.

Definition balance_load (me : nat) : M machine unit := balance_loop LOAD_BALANCE_LIMIT me.

(** One iteration of the idle thread's loop. *)
Definition idle_iteration (me : nat) : M machine unit :=
  l ← gets cpus;
  match find_most_and_least_loaded_cpu l with
  | None => mret tt
  | Some (most, _) =>
      if bool_decide (most = me) then mret tt
      else
        cm ← get_cpu most;
        if load cm <? STEAL_THRESHOLD then mret tt
        else
          td ← select_thread None most true;
          match td with
          | None => mret tt
          | Some td => sched_try_preempt me me td
          end
  end.

(** [make_kernel_thread]: the scheduler's fields of a zeroed thread. *)
Definition make_kernel_thread (kernel_pmap : Z) : thread :=
  MkThread 0 PRIO_DEFAULT PRIO_LOW_BATCH 0 0 0 0 false false READY None None kernel_pmap.

Definition empty_runq : runqueue := MkRunq 0 (replicate (Z.to_nat RUNQUEUES_N) []).

(** [sched_cpu_init], scheduler part: the idle thread is [id]. *)
Definition sched_cpu_init (kernel_pmap : Z) (id : tid) (c : cpu_local) : cpu_local * thread :=
  let t := make_kernel_thread kernel_pmap in
  (MkCpu (core_ticks c) id (current_thread_status c) None (load c) empty_runq empty_runq 0 0 [] id
     (preempt_reason c) (pending_softints c) (cr3 c),
   MkThread (nice t) PRIO_IDLE PRIO_IDLE (sleep_start t) (sleeptime t) (runtime t) (ticks t)
     (interactive t) (pinned t) (state t) (runq t) (last_cpu t) (pmap t)).
