(* ===== verification/UleOk.v ===== *)
(** * Correctness of the ULE scheduler

    The invariant of a processor's queues (status bits, load, no duplicates),
    what each selection returns, the bounds of the computed priorities, the
    choice of a processor, and that no scheduling operation loses or
    duplicates a thread. *)

From S2P Require Import Prelude Queue Ule.

(** ** Run queues *)

Record rq_ok (q : runqueue) : Prop := {
  rq_len : length (queues q) = 64%nat;
  rq_range : 0 <= status q < 2 ^ 64;
  rq_status : forall i, 0 <= i < 64 -> Z.testbit (status q) i = negb (bool_decide (rq_queue q i = []));
}.

Definition rq_items (q : runqueue) : list tid := concat (queues q).

Lemma rq_bit_testbit q i : 0 <= i -> rq_bit q i = Z.testbit (status q) i.
Proof.
  intros Hi. unfold rq_bit. rewrite Z.shiftl_1_l, land_bit by done. apply negb_involutive.
Qed.

Lemma rq_lookup q i : rq_ok q -> 0 <= i < 64 -> queues q !! Z.to_nat i = Some (rq_queue q i).
Proof.
  intros Hq Hi. unfold rq_queue. destruct (lookup_lt_is_Some_2 (queues q) (Z.to_nat i)) as [l Hl].
  - rewrite (rq_len _ Hq). lia.
  - rewrite Hl. done.
Qed.

Lemma rq_queue_set q i l j : rq_ok q -> 0 <= i < 64 -> 0 <= j ->
  rq_queue (rq_set q i l) j = if decide (j = i) then l else rq_queue q j.
Proof.
  intros Hq Hi Hj. unfold rq_queue, rq_set. cbn [queues]. case_decide as Hd.
  - subst. rewrite list_lookup_insert_eq by (rewrite (rq_len _ Hq); lia). done.
  - rewrite list_lookup_insert_ne by lia. done.
Qed.

(** Appending a thread to queue [i]. *)
Definition rq_push (q : runqueue) (i : Z) (id : tid) : runqueue :=
  let q := rq_set_bit q i in rq_set q i (rq_queue q i ++ [id]).

Lemma rq_push_ok q i id :
  rq_ok q -> 0 <= i < 64 -> rq_ok (rq_push q i id) /\ rq_items (rq_push q i id) ≡ₚ id :: rq_items q.
Proof.
  intros Hq Hi. unfold rq_push.
  assert (Hst : forall j, 0 <= j -> Z.testbit (Z.lor (status q) (Z.shiftl 1 i)) j = Z.testbit (status q) j || (i =? j)).
  { intros j Hj. rewrite Z.lor_spec, Z.shiftl_1_l, Z.pow2_bits_eqb by lia. done. }
  split; [constructor|]; cbn [status queues rq_set rq_set_bit].
  - rewrite length_insert. apply Hq.
  - destruct Hq as [_ Hr _]. split; [apply Z.lor_nonneg; split; [lia|apply Z.shiftl_nonneg; lia]|].
    destruct (Z.eq_dec (Z.lor (status q) (Z.shiftl 1 i)) 0) as [->|Hne]; [lia|].
    apply Z.log2_lt_pow2; [pose proof (Z.lor_nonneg (status q) (Z.shiftl 1 i)); rewrite Z.shiftl_1_l in *; lia|].
    rewrite Z.log2_lor, Z.shiftl_1_l, Z.log2_pow2 by (rewrite ?Z.shiftl_1_l; lia).
    apply Z.max_lub_lt; [|lia]. destruct (Z.eq_dec (status q) 0) as [->|]; [cbn; lia|].
    apply Z.log2_lt_pow2; lia.
  - intros j Hj. rewrite Hst by lia. pose proof (rq_status _ Hq j Hj) as Hs.
    unfold rq_queue in *. cbn [queues rq_set rq_set_bit]. destruct (Z.eq_dec i j) as [->|Hne].
    + rewrite list_lookup_insert_eq by (rewrite (rq_len _ Hq); lia). rewrite Z.eqb_refl, orb_true_r.
      rewrite bool_decide_eq_false_2; [done|]. intros Hd. apply app_eq_nil in Hd as [_ Hd]. done.
    + rewrite list_lookup_insert_ne by lia. rewrite (proj2 (Z.eqb_neq _ _)) by done. rewrite orb_false_r. done.
  - unfold rq_items. cbn [queues].
    destruct (concat_insert (queues q) (Z.to_nat i) (rq_queue q i)) as (rest & H1 & H2);
      [apply rq_lookup; done|].
    rewrite H1. etrans; [apply H2|]. solve_Permutation.
Qed.

Lemma clear_bit_testbit st i j :
  0 <= i < 64 -> 0 <= j < 64 ->
  Z.testbit (Z.land st (u64 (Z.lnot (Z.shiftl 1 i)))) j = Z.testbit st j && negb (i =? j).
Proof.
  intros Hi Hj. unfold u64. rewrite Z.land_spec, Z.mod_pow2_bits_low, Z.lnot_spec by lia.
  rewrite Z.shiftl_1_l, Z.pow2_bits_eqb by lia. done.
Qed.

Lemma qdel_perm l td : NoDup l -> td ∈ l -> l ≡ₚ td :: qdel td l.
Proof.
  intros Hnd Hin. apply list_elem_of_split in Hin as (l1 & l2 & ->). rewrite qdel_split by done.
  solve_Permutation.
Qed.

Lemma rq_remove_ok q i td :
  rq_ok q -> NoDup (rq_items q) -> 0 <= i < 64 -> td ∈ rq_queue q i ->
  rq_ok (rq_remove q i td) /\ rq_items q ≡ₚ td :: rq_items (rq_remove q i td).
Proof.
  intros Hq Hnd Hi Hin. unfold rq_remove. cbv zeta.
  set (l' := qdel td (rq_queue q i)).
  assert (Hself : rq_queue (rq_set q i l') i = l') by (rewrite rq_queue_set, decide_True by (done || lia); done).
  destruct (concat_insert (queues q) (Z.to_nat i) (rq_queue q i)) as (rest & H1 & H2); [apply rq_lookup; done|].
  assert (Hndq : NoDup (rq_queue q i)).
  { unfold rq_items in Hnd. rewrite H1 in Hnd. apply NoDup_app in Hnd. tauto. }
  assert (Hitems : rq_items q ≡ₚ td :: concat (<[Z.to_nat i := l']> (queues q))).
  { unfold rq_items. rewrite H1, H2. rewrite (qdel_perm (rq_queue q i) td) by done. done. }
  rewrite Hself. case_bool_decide as Hl; (split; [constructor|exact Hitems]); cbn [status queues rq_set rq_clear_bit].
  - rewrite length_insert. apply Hq.
  - apply land_range; [lia|apply Hq].
  - intros j Hj. rewrite clear_bit_testbit, (rq_status _ Hq) by done.
    change (rq_queue (rq_clear_bit (rq_set q i l') i) j) with (rq_queue (rq_set q i l') j).
    rewrite rq_queue_set by (done || lia). case_decide as Hd.
    + subst j. rewrite Z.eqb_refl, andb_false_r, Hl. done.
    + rewrite (proj2 (Z.eqb_neq _ _)) by done. rewrite andb_true_r. done.
  - rewrite length_insert. apply Hq.
  - apply Hq.
  - intros j Hj. rewrite (rq_status _ Hq), rq_queue_set by (done || lia). case_decide as Hd; [|done].
    subst j. rewrite !bool_decide_eq_false_2; [done|done|]. intros Hx. rewrite Hx in Hin. by apply not_elem_of_nil in Hin.
Qed.

(** ** A processor's queues *)

Definition queued (c : cpu_local) : list tid :=
  rq_items (realtime_runq c) ++ rq_items (calendar_queue c) ++ idle_queue c.

Record cpu_ok (c : cpu_local) : Prop := {
  co_realtime : rq_ok (realtime_runq c);
  co_calendar : rq_ok (calendar_queue c);
  co_runidx : 0 <= calendar_queue_runidx c < 64;
  co_insidx : 0 <= calendar_queue_insidx c < 64;
  co_nodup : NoDup (queued c);
  co_load : load c = Z.of_nat (length (queued c));
  co_small : load c < 2 ^ 63;
}.

Lemma queued_nodup c : NoDup (queued c) ->
  NoDup (rq_items (realtime_runq c)) /\ NoDup (rq_items (calendar_queue c)) /\ NoDup (idle_queue c).
Proof. unfold queued. rewrite !NoDup_app. tauto. Qed.

(** The threads a selection may take. *)
Definition eligible (pin : tid -> bool) (migrate : bool) (td : tid) : Prop := migrate = true -> pin td = false.

Lemma first_unpinned_spec pin l :
  match first_unpinned pin l with
  | Some td => exists l1 l2, l = l1 ++ td :: l2 /\ pin td = false /\ Forall (fun x => pin x = true) l1
  | None => Forall (fun x => pin x = true) l
  end.
Proof.
  induction l as [|x l IH]; cbn [first_unpinned]; [constructor|]. destruct (pin x) eqn:E.
  - destruct (first_unpinned pin l) as [td|]; [|by constructor].
    destruct IH as (l1 & l2 & -> & ? & ?). exists (x :: l1), l2. split_and!; [done|done|by constructor].
  - exists [], l. split_and!; [done|done|constructor].
Qed.

(** From a non-empty queue: the first thread that may be taken, if any. *)
Lemma pick_from_spec pin migrate l : l <> [] ->
  match pick_from pin migrate l with
  | Ok (Some td) => exists l1 l2, l = l1 ++ td :: l2 /\ eligible pin migrate td /\
                      Forall (fun x => ~ eligible pin migrate x) l1
  | Ok None => Forall (fun x => ~ eligible pin migrate x) l
  | _ => False
  end.
Proof.
  intros Hl. destruct l as [|x l]; [done|]. unfold pick_from. destruct migrate.
  - pose proof (first_unpinned_spec pin (x :: l)) as H.
    assert (Himp : forall y, pin y = true -> ~ eligible pin true y).
    { intros y Hy He. unfold eligible in He. rewrite He in Hy; done. }
    destruct (first_unpinned pin (x :: l)) as [td|].
    + destruct H as (l1 & l2 & -> & Hp & Hf). exists l1, l2. split_and!; [done|intros _; exact Hp|].
      eapply Forall_impl; [exact Hf|]. cbn. auto.
    + eapply Forall_impl; [exact H|]. cbn. auto.
  - exists [], l. split_and!; [done|done|constructor].
Qed.

(** [td] is the thread a queue gives up. *)
Definition taken_from (pin : tid -> bool) (migrate : bool) (l : list tid) (td : tid) : Prop :=
  exists l1 l2, l = l1 ++ td :: l2 /\ eligible pin migrate td /\ Forall (fun x => ~ eligible pin migrate x) l1.

Definition none_eligible (pin : tid -> bool) (migrate : bool) (l : list tid) : Prop :=
  Forall (fun x => ~ eligible pin migrate x) l.

Lemma rq_bit_queue q i : rq_ok q -> 0 <= i < 64 -> rq_bit q i = negb (bool_decide (rq_queue q i = [])).
Proof. intros Hq Hi. rewrite rq_bit_testbit by lia. apply Hq. done. Qed.

Lemma pick_realtime_loop_spec pin migrate c n : forall i,
  rq_ok (realtime_runq c) -> 0 <= i -> i + Z.of_nat n = 64 ->
  match pick_realtime_loop n i pin migrate c with
  | (c', Ok (Some td)) => exists j, i <= j < 64 /\ taken_from pin migrate (rq_queue (realtime_runq c) j) td /\
      c' = set_realtime c (rq_remove (realtime_runq c) j td) /\
      forall k, i <= k < j -> none_eligible pin migrate (rq_queue (realtime_runq c) k)
  | (c', Ok None) => c' = c /\ forall k, i <= k < 64 -> none_eligible pin migrate (rq_queue (realtime_runq c) k)
  | _ => False
  end.
Proof.
  induction n as [|n IH]; intros i Hq Hi Hn; cbn [pick_realtime_loop].
  { split; [done|]. intros k Hk. lia. }
  assert (Hnext : none_eligible pin migrate (rq_queue (realtime_runq c) i) ->
    match pick_realtime_loop n (i + 1) pin migrate c with
    | (c', Ok (Some td)) => exists j, i <= j < 64 /\ taken_from pin migrate (rq_queue (realtime_runq c) j) td /\
        c' = set_realtime c (rq_remove (realtime_runq c) j td) /\
        forall k, i <= k < j -> none_eligible pin migrate (rq_queue (realtime_runq c) k)
    | (c', Ok None) => c' = c /\ forall k, i <= k < 64 -> none_eligible pin migrate (rq_queue (realtime_runq c) k)
    | _ => False
    end).
  { intros Hnone. specialize (IH (i + 1) Hq ltac:(lia) ltac:(lia)).
    destruct (pick_realtime_loop n (i + 1) pin migrate c) as [c' [[td|]| |]]; try done.
    - destruct IH as (j & Hj & Ht & Hc & Hk). exists j. split_and!; [lia|lia|done|done|].
      intros k Hk'. destruct (Z.eq_dec k i) as [->|]; [done|]. apply Hk. lia.
    - destruct IH as [Hc Hk]. split; [done|]. intros k Hk'. destruct (Z.eq_dec k i) as [->|]; [done|]. apply Hk. lia. }
  rewrite rq_bit_queue by (done || lia). case_bool_decide as He; cbn [negb].
  - apply Hnext. rewrite He. constructor.
  - pose proof (pick_from_spec pin migrate _ He) as Hp.
    destruct (pick_from pin migrate (rq_queue (realtime_runq c) i)) as [[td|]| |]; try done; [|apply Hnext; exact Hp].
    exists i. split_and!; [lia|lia|done|done|]. intros k Hk. lia.
Qed.

(** The calendar queues in the order [pick_batch_thread] visits them. *)
Definition calendar_index (start : Z) (d : Z) : Z := (start + d) mod 64.

Lemma pick_batch_loop_spec pin migrate c start n : forall d i,
  rq_ok (calendar_queue c) -> 0 <= start < 64 -> 0 <= d -> d + Z.of_nat n = 64 ->
  i = calendar_index start d \/ (i = 64 /\ calendar_index start d = 0) ->
  match pick_batch_loop n i pin migrate c with
  | (c', Ok (Some td)) => exists e, d <= e < 64 /\
      let j := calendar_index start e in
      let q := rq_remove (calendar_queue c) j td in
      taken_from pin migrate (rq_queue (calendar_queue c) j) td /\
      c' = (if bool_decide (rq_queue q j = []) && negb migrate
            then calendar_queue_increment (set_calendar c q) else set_calendar c q) /\
      forall k, d <= k < e -> none_eligible pin migrate (rq_queue (calendar_queue c) (calendar_index start k))
  | (c', Ok None) => c' = c /\
      forall k, d <= k < 64 -> none_eligible pin migrate (rq_queue (calendar_queue c) (calendar_index start k))
  | _ => False
  end.
Proof.
  induction n as [|n IH]; intros d i Hq Hs Hd Hn Hi; cbn [pick_batch_loop].
  { split; [done|]. intros k Hk. lia. }
  assert (Hci : forall d, 0 <= calendar_index start d < 64) by (intros; apply Z.mod_pos_bound; lia).
  assert (Hi' : (if RUNQUEUES_N <=? i then 0 else i) = calendar_index start d).
  { pose proof (Hci d). unfold RUNQUEUES_N. case_if; lia. }
  rewrite Hi'. cbv zeta.
  assert (Hstep : calendar_index start d + 1 = calendar_index start (d + 1) \/
    (calendar_index start d + 1 = 64 /\ calendar_index start (d + 1) = 0)).
  { pose proof (Hci d) as Hb. unfold calendar_index in *. rewrite Z.add_assoc, <- (Z.add_mod_idemp_l (start + d)) by lia.
    destruct (Z.eq_dec ((start + d) mod 64) 63) as [->|]; [right; done|left].
    symmetry. apply Z.mod_small. lia. }
  assert (Hnext : none_eligible pin migrate (rq_queue (calendar_queue c) (calendar_index start d)) ->
    match pick_batch_loop n (calendar_index start d + 1) pin migrate c with
    | (c', Ok (Some td)) => exists e, d <= e < 64 /\
        let j := calendar_index start e in
        let q := rq_remove (calendar_queue c) j td in
        taken_from pin migrate (rq_queue (calendar_queue c) j) td /\
        c' = (if bool_decide (rq_queue q j = []) && negb migrate
              then calendar_queue_increment (set_calendar c q) else set_calendar c q) /\
        forall k, d <= k < e -> none_eligible pin migrate (rq_queue (calendar_queue c) (calendar_index start k))
    | (c', Ok None) => c' = c /\
        forall k, d <= k < 64 -> none_eligible pin migrate (rq_queue (calendar_queue c) (calendar_index start k))
    | _ => False
    end).
  { intros Hnone. specialize (IH (d + 1) _ Hq Hs ltac:(lia) ltac:(lia) Hstep).
    destruct (pick_batch_loop n (calendar_index start d + 1) pin migrate c) as [c' [[td|]| |]]; try done.
    - destruct IH as (e & He & Ht & Hc & Hk). exists e. split; [lia|]. split_and!; [done|done|].
      intros k Hk'. destruct (Z.eq_dec k d) as [->|]; [done|]. apply Hk. lia.
    - destruct IH as [Hc Hk]. split; [done|]. intros k Hk'. destruct (Z.eq_dec k d) as [->|]; [done|]. apply Hk. lia. }
  rewrite rq_bit_queue by done. case_bool_decide as He; cbn [negb].
  - apply Hnext. rewrite He. constructor.
  - pose proof (pick_from_spec pin migrate _ He) as Hp.
    destruct (pick_from pin migrate (rq_queue (calendar_queue c) (calendar_index start d))) as [[td|]| |]; try done;
      [|apply Hnext; exact Hp].
    exists d. split; [lia|]. split_and!; [done|done|]. intros k Hk. lia.
Qed.

Lemma taken_elem pin migrate l td : taken_from pin migrate l td -> td ∈ l.
Proof. intros (l1 & l2 & -> & _). apply elem_of_app. right. constructor. Qed.

Lemma rq_empty_status q : rq_ok q -> status q = 0 -> forall i, 0 <= i < 64 -> rq_queue q i = [].
Proof.
  intros Hq Hs i Hi. pose proof (rq_status _ Hq i Hi) as H. rewrite Hs, Z.bits_0 in H.
  case_bool_decide; done.
Qed.

(** [pick_realtime_thread] returns the first thread that may be taken from
    the lowest queue at or above [minprio]. *)
Lemma pick_realtime_spec pin migrate c minprio :
  rq_ok (realtime_runq c) -> 0 <= minprio ->
  match pick_realtime_thread c pin minprio migrate with
  | (c', Ok (Some td)) => exists j, minprio <= j < 64 /\ taken_from pin migrate (rq_queue (realtime_runq c) j) td /\
      c' = set_realtime c (rq_remove (realtime_runq c) j td) /\
      forall k, minprio <= k < j -> none_eligible pin migrate (rq_queue (realtime_runq c) k)
  | (c', Ok None) => c' = c /\ forall k, minprio <= k < 64 -> none_eligible pin migrate (rq_queue (realtime_runq c) k)
  | _ => False
  end.
Proof.
  intros Hq Hm. unfold pick_realtime_thread. case_if.
  - split; [done|]. intros k Hk. rewrite (rq_empty_status _ Hq) by (done || lia). constructor.
  - destruct (Z.le_gt_cases minprio 64).
    + apply pick_realtime_loop_spec; [done|done|]. unfold PRIO_MAX. lia.
    + replace (Z.to_nat (PRIO_MAX + 1 - minprio)) with 0%nat by (unfold PRIO_MAX; lia).
      cbn. split; [done|]. intros k Hk. lia.
Qed.

(** [pick_batch_thread] goes round the calendar from [runidx]. *)
Lemma pick_batch_spec pin migrate c :
  rq_ok (calendar_queue c) -> 0 <= calendar_queue_runidx c < 64 ->
  match pick_batch_thread c pin migrate with
  | (c', Ok (Some td)) => exists e, 0 <= e < 64 /\
      let j := calendar_index (calendar_queue_runidx c) e in
      let q := rq_remove (calendar_queue c) j td in
      taken_from pin migrate (rq_queue (calendar_queue c) j) td /\
      c' = (if bool_decide (rq_queue q j = []) && negb migrate
            then calendar_queue_increment (set_calendar c q) else set_calendar c q) /\
      forall k, 0 <= k < e ->
        none_eligible pin migrate (rq_queue (calendar_queue c) (calendar_index (calendar_queue_runidx c) k))
  | (c', Ok None) => c' = c /\ forall k, 0 <= k < 64 -> none_eligible pin migrate (rq_queue (calendar_queue c) k)
  | _ => False
  end.
Proof.
  intros Hq Hr. unfold pick_batch_thread. case_if.
  { split; [done|]. intros k Hk. rewrite (rq_empty_status _ Hq) by (done || lia). constructor. }
  pose proof (pick_batch_loop_spec pin migrate c (calendar_queue_runidx c) (Z.to_nat RUNQUEUES_N) 0
    (calendar_queue_runidx c) Hq Hr ltac:(lia) ltac:(unfold RUNQUEUES_N; lia)) as Hp.
  assert (Hi : calendar_queue_runidx c = calendar_index (calendar_queue_runidx c) 0)
    by (unfold calendar_index; rewrite Z.add_0_r, Z.mod_small; lia).
  specialize (Hp (or_introl Hi)).
  destruct (pick_batch_loop _ _ pin migrate c) as [c' [[td|]| |]]; try done.
  destruct Hp as [Hc Hk]. split; [done|]. intros k Hk'.
  specialize (Hk ((k - calendar_queue_runidx c) mod 64) ltac:(apply Z.mod_pos_bound; lia)).
  unfold calendar_index in Hk. rewrite Z.add_mod_idemp_r in Hk by lia.
  replace (calendar_queue_runidx c + (k - calendar_queue_runidx c)) with k in Hk by lia.
  rewrite Z.mod_small in Hk by lia. done.
Qed.

(** ** Selecting a thread *)

Definition min_priority (cur : option thread) : Z := match cur with Some t => priority t | None => 0 end.

Definition no_realtime pin migrate (c : cpu_local) (minprio : Z) : Prop :=
  forall k, minprio <= k < 64 -> none_eligible pin migrate (rq_queue (realtime_runq c) k).
Definition no_batch pin migrate (c : cpu_local) : Prop :=
  forall k, 0 <= k < 64 -> none_eligible pin migrate (rq_queue (calendar_queue c) k).

(** Where a selected thread comes from. *)
Inductive selected (pin : tid -> bool) (migrate : bool) (c : cpu_local) (minprio : Z) (td : tid) : Prop :=
| FromRealtime j :
    minprio <= j < 64 -> taken_from pin migrate (rq_queue (realtime_runq c) j) td ->
    (forall k, minprio <= k < j -> none_eligible pin migrate (rq_queue (realtime_runq c) k)) ->
    selected pin migrate c minprio td
| FromBatch e :
    no_realtime pin migrate c minprio -> 0 <= e < 64 ->
    taken_from pin migrate (rq_queue (calendar_queue c) (calendar_index (calendar_queue_runidx c) e)) td ->
    (forall k, 0 <= k < e ->
       none_eligible pin migrate (rq_queue (calendar_queue c) (calendar_index (calendar_queue_runidx c) k))) ->
    selected pin migrate c minprio td
| FromIdle :
    no_realtime pin migrate c minprio -> no_batch pin migrate c ->
    head (idle_queue c) = Some td -> eligible pin migrate td ->
    selected pin migrate c minprio td.

(** One thread leaves the queues and the load follows. *)
Lemma cpu_ok_take c c' td :
  cpu_ok c -> rq_ok (realtime_runq c') -> rq_ok (calendar_queue c') ->
  0 <= calendar_queue_runidx c' < 64 -> 0 <= calendar_queue_insidx c' < 64 ->
  queued c ≡ₚ td :: queued c' -> load c' = load c ->
  cpu_ok (set_load c' (u64 (load c' - 1))) /\ queued c ≡ₚ td :: queued (set_load c' (u64 (load c' - 1))).
Proof.
  intros Hc Hr Hcal Hi1 Hi2 Hp Hl. pose proof (co_load _ Hc) as Hlc. pose proof (co_small _ Hc).
  pose proof (Permutation_length Hp) as Hlen. cbn [length] in Hlen.
  assert (Hld : u64 (load c' - 1) = Z.of_nat (length (queued c'))) by (rewrite u64_small; lia).
  split; [constructor|]; try done.
  - change (NoDup (queued c')). pose proof (co_nodup _ Hc) as Hnd. rewrite Hp in Hnd.
    apply NoDup_cons in Hnd. tauto.
  - cbn [load set_load]. lia.
Qed.

Lemma increment_idx c : 0 <= calendar_queue_insidx c < 64 ->
  0 <= calendar_queue_runidx (calendar_queue_increment c) < 64 /\
  0 <= calendar_queue_insidx (calendar_queue_increment c) < 64.
Proof.
  intros Hi. unfold calendar_queue_increment, RUNQUEUES_N.
  case_if; cbn [calendar_queue_runidx calendar_queue_insidx set_indices]; split; done || apply Z.mod_pos_bound; lia.
Qed.

Lemma increment_queues c :
  realtime_runq (calendar_queue_increment c) = realtime_runq c /\
  calendar_queue (calendar_queue_increment c) = calendar_queue c /\
  idle_queue (calendar_queue_increment c) = idle_queue c /\
  load (calendar_queue_increment c) = load c.
Proof. unfold calendar_queue_increment. case_if; done. Qed.

Definition take_post pin migrate c minprio (r : cpu_local * cres (option tid)) : Prop :=
  match r with
  | (c', Ok (Some td)) => cpu_ok c' /\ queued c ≡ₚ td :: queued c' /\ selected pin migrate c minprio td
  | _ => False
  end.

Lemma take_realtime pin migrate c minprio j td :
  cpu_ok c -> 0 <= minprio <= j -> j < 64 -> taken_from pin migrate (rq_queue (realtime_runq c) j) td ->
  (forall k, minprio <= k < j -> none_eligible pin migrate (rq_queue (realtime_runq c) k)) ->
  let c' := set_realtime c (rq_remove (realtime_runq c) j td) in
  take_post pin migrate c minprio (set_load c' (u64 (load c' - 1)), Ok (Some td)).
Proof.
  intros Hc Hm Hj Ht Hk c'. pose proof (taken_elem _ _ _ _ Ht) as Hin.
  destruct (queued_nodup c (co_nodup _ Hc)) as (Hn1 & Hn2 & Hn3).
  destruct (rq_remove_ok (realtime_runq c) j td (co_realtime _ Hc) Hn1 ltac:(lia) Hin) as [Hok Hp].
  assert (Hq : queued c ≡ₚ td :: queued c') by (unfold queued, c'; cbn [realtime_runq calendar_queue idle_queue set_realtime]; rewrite Hp; done).
  destruct (cpu_ok_take c c' td Hc Hok (co_calendar _ Hc) (co_runidx _ Hc) (co_insidx _ Hc) Hq eq_refl) as [? ?].
  split_and!; [done|done|]. eapply FromRealtime; [|exact Ht|exact Hk]. lia.
Qed.

Lemma take_batch pin migrate c minprio e td :
  cpu_ok c -> no_realtime pin migrate c minprio -> 0 <= e < 64 ->
  let j := calendar_index (calendar_queue_runidx c) e in
  let q := rq_remove (calendar_queue c) j td in
  taken_from pin migrate (rq_queue (calendar_queue c) j) td ->
  (forall k, 0 <= k < e ->
     none_eligible pin migrate (rq_queue (calendar_queue c) (calendar_index (calendar_queue_runidx c) k))) ->
  let c' := if bool_decide (rq_queue q j = []) && negb migrate
            then calendar_queue_increment (set_calendar c q) else set_calendar c q in
  take_post pin migrate c minprio (set_load c' (u64 (load c' - 1)), Ok (Some td)).
Proof.
  intros Hc Hno He j q Ht Hk c'. pose proof (taken_elem _ _ _ _ Ht) as Hin.
  destruct (queued_nodup c (co_nodup _ Hc)) as (Hn1 & Hn2 & Hn3).
  assert (Hj : 0 <= j < 64) by (apply Z.mod_pos_bound; lia).
  destruct (rq_remove_ok (calendar_queue c) j td (co_calendar _ Hc) Hn2 Hj Hin) as [Hok Hp]. fold q in Hok, Hp.
  assert (Hfields : realtime_runq c' = realtime_runq c /\ calendar_queue c' = q /\ idle_queue c' = idle_queue c /\
    load c' = load c /\ 0 <= calendar_queue_runidx c' < 64 /\ 0 <= calendar_queue_insidx c' < 64).
  { unfold c'. case_if.
    - destruct (increment_queues (set_calendar c q)) as (-> & -> & -> & ->).
      destruct (increment_idx (set_calendar c q) (co_insidx _ Hc)). done.
    - pose proof (co_runidx _ Hc). pose proof (co_insidx _ Hc). done. }
  destruct Hfields as (Hf1 & Hf2 & Hf3 & Hf4 & Hf5 & Hf6).
  assert (Hq : queued c ≡ₚ td :: queued c').
  { unfold queued. rewrite Hf1, Hf2, Hf3, Hp. solve_Permutation. }
  destruct (cpu_ok_take c c' td) as [? ?]; try done; [rewrite Hf1; apply Hc|rewrite Hf2; done|].
  split_and!; [done|done|]. eapply FromBatch; [done|exact He|exact Ht|exact Hk].
Qed.

Lemma take_idle pin migrate c minprio td :
  cpu_ok c -> no_realtime pin migrate c minprio -> no_batch pin migrate c ->
  head (idle_queue c) = Some td -> eligible pin migrate td ->
  let c' := set_idle c (qdel td (idle_queue c)) in
  take_post pin migrate c minprio (set_load c' (u64 (load c' - 1)), Ok (Some td)).
Proof.
  intros Hc Hr Hb Hh He c'. destruct (queued_nodup c (co_nodup _ Hc)) as (Hn1 & Hn2 & Hn3).
  assert (Hin : td ∈ idle_queue c) by (destruct (idle_queue c); simplify_eq/=; constructor).
  assert (Hq : queued c ≡ₚ td :: queued c').
  { unfold queued, c'. cbn [realtime_runq calendar_queue idle_queue set_idle].
    rewrite (qdel_perm (idle_queue c) td) at 1 by done. solve_Permutation. }
  destruct (cpu_ok_take c c' td Hc (co_realtime _ Hc) (co_calendar _ Hc) (co_runidx _ Hc) (co_insidx _ Hc) Hq eq_refl) as [? ?].
  split_and!; [done|done|]. apply FromIdle; done.
Qed.

(** The current thread keeps batch and idle threads from running. *)
Definition keeps_batch (cur : option thread) : bool :=
  match cur with Some t => (priority_class t =? PRIO_REALTIME) || interactive t | None => false end.
Definition keeps_idle (cur : option thread) : bool :=
  match cur with Some t => priority t =? PRIO_IDLE | None => false end.

Lemma select_spec pin cur c migrate :
  cpu_ok c -> 0 <= min_priority cur ->
  match sched_select_thread pin cur c migrate with
  | (c', Ok None) => c' = c /\ no_realtime pin migrate c (min_priority cur) /\
      (keeps_batch cur = false -> no_batch pin migrate c /\
       (keeps_idle cur = false -> forall td, head (idle_queue c) = Some td -> ~ eligible pin migrate td))
  | r => take_post pin migrate c (min_priority cur) r
  end.
Proof.
  intros Hc Hm. unfold sched_select_thread. fold (min_priority cur) (keeps_batch cur) (keeps_idle cur).
  pose proof (pick_realtime_spec pin migrate c (min_priority cur) (co_realtime _ Hc) Hm) as Hr.
  destruct (pick_realtime_thread c pin (min_priority cur) migrate) as [c1 [[td|]| |]]; try done.
  { destruct Hr as (j & Hj & Ht & -> & Hk). apply take_realtime; done || lia. }
  destruct Hr as [-> Hr]. destruct (keeps_batch cur); [split_and!; done|].
  pose proof (pick_batch_spec pin migrate c (co_calendar _ Hc) (co_runidx _ Hc)) as Hb.
  destruct (pick_batch_thread c pin migrate) as [c2 [[td|]| |]]; try done.
  { destruct Hb as (e & He & Ht & -> & Hk). apply take_batch; done. }
  destruct Hb as [-> Hb]. destruct (keeps_idle cur); [split_and!; done|].
  unfold pick_idle_thread. destruct (idle_queue c) as [|td l] eqn:Eq; [split_and!; done|].
  destruct (migrate && pin td) eqn:Em; cbn [negb].
  - split_and!; [done|done|]. intros _. split; [done|]. intros _ td' [= <-] He.
    apply andb_true_iff in Em as [Em Ep]. specialize (He Em). congruence.
  - rewrite <- Eq. apply take_idle; [done|done|done|rewrite Eq; done|].
    intros ->. destruct (pin td); done.
Qed.

(** C8: [sched_select_thread] on a processor whose queues are consistent
    either leaves everything as it is and returns nothing, or takes exactly
    the returned thread out of the queues, which stay consistent (status
    bits, load, calendar indices, no duplicates); with [migrate] the thread
    is not pinned. *)
Theorem sched_select_thread_correct pin cur c migrate :
  cpu_ok c -> 0 <= min_priority cur ->
  match sched_select_thread pin cur c migrate with
  | (c', Ok (Some td)) => cpu_ok c' /\ queued c ≡ₚ td :: queued c' /\ (migrate = true -> pin td = false)
  | (c', Ok None) => c' = c
  | _ => False
  end.
Proof.
  intros Hc Hm. pose proof (select_spec pin cur c migrate Hc Hm) as H.
  destruct (sched_select_thread pin cur c migrate) as [c' [[td|]| |]]; try done.
  - destruct H as (? & ? & Hs). split_and!; [done|done|].
    destruct Hs as [j _ (? & ? & _ & He & _)|e _ _ (? & ? & _ & He & _)|_ _ _ He]; exact He.
  - apply H.
Qed.

Lemma queue_in_items q i td : rq_ok q -> 0 <= i < 64 -> td ∈ rq_queue q i -> td ∈ rq_items q.
Proof.
  intros Hq Hi Hin. unfold rq_items. apply list_elem_of_In, in_concat. exists (rq_queue q i).
  split; [|by apply list_elem_of_In]. apply list_elem_of_In. eapply list_elem_of_lookup_2. apply rq_lookup; done.
Qed.

Lemma items_in_queue q td : rq_ok q -> td ∈ rq_items q -> exists i, 0 <= i < 64 /\ td ∈ rq_queue q i.
Proof.
  intros Hq Hin. unfold rq_items in Hin. apply list_elem_of_In, in_concat in Hin as (l & Hl & Hin).
  apply list_elem_of_In, list_elem_of_lookup in Hl as [n Hl]. pose proof (lookup_lt_Some _ _ _ Hl) as Hn.
  rewrite (rq_len _ Hq) in Hn. exists (Z.of_nat n). split; [lia|].
  unfold rq_queue. rewrite Nat2Z.id, Hl. apply list_elem_of_In. done.
Qed.

(** the scheduler is work conserving: with no current thread to protect
    and no migration, [sched_select_thread] returns nothing only when no
    thread is queued on the processor. *)
Theorem sched_select_thread_work_conserving pin c :
  cpu_ok c ->
  snd (sched_select_thread pin None c false) = Ok None <-> queued c = [].
Proof.
  intros Hc. pose proof (select_spec pin None c false Hc ltac:(cbn; lia)) as H.
  assert (Hall : forall l, none_eligible pin false l -> l = []).
  { intros [|x l] Hl; [done|]. inversion Hl as [|? ? Hx]; subst. destruct Hx. done. }
  destruct (sched_select_thread pin None c false) as [c' [[td|]| |]]; cbn [snd]; try done.
  - destruct H as (_ & Hp & _). split; [done|]. intros Hq. rewrite Hq in Hp. by apply Permutation_nil_cons in Hp.
  - split; [|done]. intros _. destruct H as (_ & Hr & Hb). destruct (Hb eq_refl) as [Hb' Hi].
    assert (Hempty : forall q, rq_ok q -> (forall k, 0 <= k < 64 -> none_eligible pin false (rq_queue q k)) -> rq_items q = []).
    { intros q Hq Hk. destruct (rq_items q) as [|td l] eqn:E; [done|].
      destruct (items_in_queue q td Hq) as (i & Hi' & Hin); [rewrite E; constructor|].
      rewrite (Hall _ (Hk i Hi')) in Hin. by apply not_elem_of_nil in Hin. }
    unfold queued. rewrite (Hempty _ (co_realtime _ Hc) Hr), (Hempty _ (co_calendar _ Hc) Hb').
    destruct (idle_queue c) as [|td l]; [done|]. destruct (Hi eq_refl td eq_refl). done.
Qed.

(** the order of selection: a realtime queue at or above the current
    priority first, in increasing queue number; then the calendar, going
    round from the run index; then the head of the idle queue. *)
Theorem sched_select_thread_order pin cur c migrate c' td :
  cpu_ok c -> 0 <= min_priority cur ->
  sched_select_thread pin cur c migrate = (c', Ok (Some td)) ->
  selected pin migrate c (min_priority cur) td.
Proof.
  intros Hc Hm Heq. pose proof (select_spec pin cur c migrate Hc Hm) as H. rewrite Heq in H.
  destruct H as (_ & _ & Hs). exact Hs.
Qed.

(** A selection leaves the running threads alone. *)
Definition same_running (c c' : cpu_local) : Prop :=
  next_thread c' = next_thread c /\ current_thread c' = current_thread c /\ idle_thread c' = idle_thread c.

Lemma pick_realtime_same pin migrate c minprio :
  same_running c (fst (pick_realtime_thread c pin minprio migrate)).
Proof.
  unfold pick_realtime_thread. case_if; [done|]. generalize (Z.to_nat (PRIO_MAX + 1 - minprio)) as n.
  intros n. revert minprio. induction n as [|n IH]; intros i; cbn [pick_realtime_loop]; [done|].
  destruct (rq_bit _ _); [|apply IH]. destruct (pick_from _ _ _) as [[td|]| |]; done || apply IH.
Qed.

Lemma pick_batch_same pin migrate c : same_running c (fst (pick_batch_thread c pin migrate)).
Proof.
  unfold pick_batch_thread. case_if; [done|]. generalize (calendar_queue_runidx c), (Z.to_nat RUNQUEUES_N). intros i n. revert i.
  induction n as [|n IH]; intros i; cbn [pick_batch_loop]; [done|]. cbv zeta.
  destruct (rq_bit _ _); [|apply IH]. destruct (pick_from _ _ _) as [[td|]| |]; [|apply IH|done..].
  cbn [fst]. destruct (_ && _); [|done]. unfold calendar_queue_increment. destruct (_ =? _); done.
Qed.

Lemma select_fields pin cur c migrate : same_running c (fst (sched_select_thread pin cur c migrate)).
Proof.
  unfold sched_select_thread. fold (min_priority cur) (keeps_batch cur) (keeps_idle cur).
  pose proof (pick_realtime_same pin migrate c (min_priority cur)) as H1.
  destruct (pick_realtime_thread c pin (min_priority cur) migrate) as [c1 [[td|]| |]]; cbn [fst] in *; try done.
  destruct (keeps_batch cur); [done|].
  pose proof (pick_batch_same pin migrate c1) as H2.
  assert (H12 : same_running c (fst (pick_batch_thread c1 pin migrate)))
    by (unfold same_running in *; intuition congruence).
  destruct (pick_batch_thread c1 pin migrate) as [c2 [[td|]| |]]; cbn [fst] in *; try done.
  destruct (keeps_idle cur); [done|]. unfold pick_idle_thread.
  destruct (idle_queue c2) as [|td l]; [done|]. destruct (negb _); done.
Qed.

(** ** Inserting a thread *)

(** The classes and priorities the kernel gives to threads. *)
Definition known_class (t : thread) : Prop :=
  priority_class t = PRIO_REALTIME \/ priority_class t = PRIO_LOW_BATCH \/ priority_class t = PRIO_IDLE.
Record thread_ok (t : thread) : Prop := {
  to_class : known_class t;
  to_priority : 0 <= priority t < 64;
}.

Lemma sched_insert_spec cpu c id t :
  cpu_ok c -> thread_ok t -> id ∉ queued c -> load c + 1 < 2 ^ 63 ->
  exists c' t', sched_insert_in_queue cpu c id t = Ok (c', t') /\ cpu_ok c' /\
    queued c' ≡ₚ id :: queued c /\ load c' = load c + 1 /\
    state t' = READY /\ priority t' = priority t /\ priority_class t' = priority_class t /\
    interactive t' = interactive t /\ pinned t' = pinned t /\ last_cpu t' = last_cpu t /\ pmap t' = pmap t /\
    next_thread c' = next_thread c /\ current_thread c' = current_thread c /\ idle_thread c' = idle_thread c /\
    cr3 c' = cr3 c /\ current_thread_status c' = current_thread_status c.
Proof.
  intros Hc Ht Hni Hsm. pose proof (co_load _ Hc) as Hl. destruct Ht as [Hcl Hp].
  assert (Hfin : forall c1, rq_ok (realtime_runq c1) -> rq_ok (calendar_queue c1) ->
    queued c1 ≡ₚ id :: queued c -> load c1 = load c ->
    calendar_queue_runidx c1 = calendar_queue_runidx c -> calendar_queue_insidx c1 = calendar_queue_insidx c ->
    cpu_ok (set_load c1 (u64 (load c1 + 1))) /\ queued (set_load c1 (u64 (load c1 + 1))) ≡ₚ id :: queued c /\
    load (set_load c1 (u64 (load c1 + 1))) = load c + 1).
  { intros c1 Hr Hcal Hq Hl1 Hi1 Hi2. pose proof (co_runidx _ Hc). pose proof (co_insidx _ Hc).
    pose proof (Permutation_length Hq) as Hlen. cbn [length] in Hlen.
    assert (Hld : u64 (load c1 + 1) = load c + 1) by (rewrite Hl1, u64_small; lia).
    split_and!; [|done|exact Hld]. constructor; try done; cbn [load set_load calendar_queue_runidx calendar_queue_insidx];
      rewrite ?Hi1, ?Hi2; try done; [|rewrite Hld; change (queued (set_load c1 _)) with (queued c1); lia|lia].
    change (NoDup (queued c1)). rewrite Hq. constructor; [done|apply Hc]. }
  unfold sched_insert_in_queue. case_if; [|case_if; [|case_if]].
  - unfold RUNQUEUES_N. rewrite (proj2 (Z.leb_gt _ _)) by lia.
    destruct (rq_push_ok (realtime_runq c) (priority t) id (co_realtime _ Hc) Hp) as [Hok Hit].
    change (insert_realtime_queue c id t) with (set_realtime c (rq_push (realtime_runq c) (priority t) id)).
    destruct (Hfin (set_realtime c (rq_push (realtime_runq c) (priority t) id))) as (H1 & H2 & H3);
      [exact Hok|apply Hc| |done|done|done|].
    { unfold queued. cbn [realtime_runq calendar_queue idle_queue set_realtime]. rewrite Hit. done. }
    eexists _, _. split; [reflexivity|]. split_and!; done.
  - set (idx := (calendar_queue_insidx c + (PRIO_HIGH_BATCH - priority t)) mod RUNQUEUES_N).
    destruct (rq_push_ok (calendar_queue c) idx id (co_calendar _ Hc)) as [Hok Hit];
      [apply Z.mod_pos_bound; unfold RUNQUEUES_N; lia|].
    change (insert_calendar_queue c id t) with (set_calendar c (rq_push (calendar_queue c) idx id)).
    destruct (Hfin (set_calendar c (rq_push (calendar_queue c) idx id))) as (H1 & H2 & H3);
      [apply Hc|exact Hok| |done|done|done|].
    { unfold queued. cbn [realtime_runq calendar_queue idle_queue set_calendar]. rewrite Hit. solve_Permutation. }
    eexists _, _. split; [reflexivity|]. split_and!; done.
  - destruct (Hfin (set_idle c (idle_queue c ++ [id]))) as (H1 & H2 & H3); [apply Hc|apply Hc| |done|done|done|].
    { unfold queued. cbn [realtime_runq calendar_queue idle_queue set_idle]. solve_Permutation. }
    eexists _, _. split; [reflexivity|]. split_and!; done.
  - exfalso. destruct Hcl as [Hx|[Hx|Hx]]; lia.
Qed.

(** [sched_insert_in_queue] puts a thread of a known class on exactly one
    of the processor's queues, keeps the queues consistent, counts it in the
    load and marks it ready. *)
Theorem sched_insert_in_queue_correct cpu c id t :
  cpu_ok c -> thread_ok t -> id ∉ queued c -> load c + 1 < 2 ^ 63 ->
  exists c' t', sched_insert_in_queue cpu c id t = Ok (c', t') /\ cpu_ok c' /\
    queued c' ≡ₚ id :: queued c /\ load c' = load c + 1 /\ state t' = READY.
Proof.
  intros Hc Ht Hni Hs. destruct (sched_insert_spec cpu c id t Hc Ht Hni Hs) as (c' & t' & E & ? & ? & ? & ? & _).
  exists c', t'. done.
Qed.

(** ** Priorities *)

Record time_ok (t : thread) : Prop := {
  ti_runtime : 0 <= runtime t < 2 ^ 63;
  ti_sleeptime : 0 <= sleeptime t < 2 ^ 63;
  ti_nice : -128 <= nice t <= 127;
}.

(** [sched_clamp_time] bounds the history: afterwards running and
    sleeping time add up to at most five seconds and a millisecond, and the
    history never grows. *)
Theorem sched_clamp_time_bound t :
  time_ok t ->
  let t' := sched_clamp_time t in
  0 <= runtime t' /\ 0 <= sleeptime t' /\ runtime t' + sleeptime t' <= 5001 /\
  (runtime t + sleeptime t < 5000 -> t' = t) /\
  runtime t' + sleeptime t' <= runtime t + sleeptime t.
Proof.
  intros [Hr Hs _]. unfold sched_clamp_time. cbv zeta. rewrite u64_small by lia.
  change (5 * 1000) with 5000. change (5000 / 5 * 6) with 6000.
  pose proof (Z.div_mod (runtime t) 2 ltac:(lia)). pose proof (Z.mod_pos_bound (runtime t) 2 ltac:(lia)).
  pose proof (Z.div_mod (sleeptime t) 2 ltac:(lia)). pose proof (Z.mod_pos_bound (sleeptime t) 2 ltac:(lia)).
  pose proof (Z.div_mod (runtime t) 5 ltac:(lia)). pose proof (Z.mod_pos_bound (runtime t) 5 ltac:(lia)).
  pose proof (Z.div_mod (sleeptime t) 5 ltac:(lia)). pose proof (Z.mod_pos_bound (sleeptime t) 5 ltac:(lia)).
  repeat case_if; cbn [runtime sleeptime set_times]; split_and!; try lia; done.
Qed.

(** The penalty of a thread that ran and slept, before its nice value. *)
Lemma penalty_range (rt sl : Z) :
  0 <= rt -> 0 <= sl -> rt <> 0 -> sl <> 0 ->
  0 <= (if rt <? sl then SCALING_FACTOR / (sl / rt) else SCALING_FACTOR / (rt / sl) + SCALING_FACTOR) <= 100.
Proof.
  intros Hr Hs Hr0 Hs0. unfold SCALING_FACTOR.
  assert (Hdiv : forall a b, 0 < b -> b <= a -> 0 <= 50 / (a / b) <= 50).
  { intros a b Hb Hab. assert (1 <= a / b) by (apply Z.div_le_lower_bound; lia).
    split; [apply Z.div_pos; lia|]. apply Z.div_le_upper_bound; nia. }
  case_if; [pose proof (Hdiv sl rt)|pose proof (Hdiv rt sl)]; lia.
Qed.

(** The score lies between 0 and 100, shifted by the nice value. *)
Lemma interactive_score_range t : time_ok t -> Z.min 0 (nice t) <= interactive_score t <= Z.max 100 (100 + nice t).
Proof.
  intros [Hr Hs Hn]. unfold interactive_score. case_if; [lia|]. case_if; [lia|]. zify_bools.
  pose proof (penalty_range (runtime t) (sleeptime t) ltac:(lia) ltac:(lia) ltac:(lia) ltac:(lia)).
  cbv zeta. rewrite s32_small; lia.
Qed.

(** C31: the priority computed for a timeshared thread always indexes a run
    queue.  A thread that is not interactive gets one between
    [PRIO_LOW_BATCH] and [PRIO_HIGH_BATCH].  An interactive one gets one
    between 20 and 59, below every realtime thread's as long as its nice value
    is at least -21; with a lower one it can be above (see
    [interactive_above_realtime]). *)
Theorem sched_recompute_priority_bounds cpu_ticks t :
  time_ok t ->
  let t' := sched_recompute_priority cpu_ticks t in
  (interactive t' = true <-> interactive_score t < INTERACTIVITY_THRESHOLD) /\
  (interactive t' = true -> PRIO_INTERACTIVE <= priority t' <= 59 /\ (-21 <= nice t -> priority t' < PRIO_REALTIME)) /\
  (interactive t' = false -> PRIO_LOW_BATCH <= priority t' <= PRIO_HIGH_BATCH) /\
  priority_class t' = priority_class t /\ nice t' = nice t.
Proof.
  intros Ht. pose proof (interactive_score_range t Ht). pose proof (ti_nice _ Ht).
  unfold sched_recompute_priority, INTERACTIVITY_THRESHOLD, PRIO_INTERACTIVE, PRIO_REALTIME in *.
  case_if; zify_bools; cbn [interactive priority priority_class nice set_priority];
    (split; [split; [done|lia]|]); (split_and!; try done); intros _.
  - assert (0 <= (30 - interactive_score t) / 4 < 40)
      by (split; [apply Z.div_pos; lia|apply Z.div_lt_upper_bound; lia]).
    rewrite u8_small by lia. split; [lia|]. intros Hn.
    assert ((30 - interactive_score t) / 4 < 13) by (apply Z.div_lt_upper_bound; lia). lia.
  - unfold PRIO_LOW_BATCH, PRIO_HIGH_BATCH. repeat case_if; lia.
Qed.

(** ** The calendar *)

(** once the insertion index is one ahead of the run index it stays
    there: emptying a queue and the tick of [sched_reschedule] keep it, and
    the tick establishes it when the indices meet.  A batch thread is then
    never inserted into the queue that is being run. *)
Theorem calendar_one_ahead c t id :
  0 <= calendar_queue_runidx c < 64 ->
  calendar_queue_insidx c = (calendar_queue_runidx c + 1) mod 64 ->
  1 <= priority t <= 32 ->
  calendar_queue_insidx (calendar_queue_increment c) =
    (calendar_queue_runidx (calendar_queue_increment c) + 1) mod 64 /\
  advance_insidx c = c /\
  (forall c0, calendar_queue_insidx c0 = calendar_queue_runidx c0 ->
     calendar_queue_insidx (advance_insidx c0) = (calendar_queue_runidx (advance_insidx c0) + 1) mod 64) /\
  rq_queue (calendar_queue (insert_calendar_queue c id t)) (calendar_queue_runidx c) =
    rq_queue (calendar_queue c) (calendar_queue_runidx c).
Proof.
  intros Hr Hins Hp. split_and!.
  - unfold calendar_queue_increment, RUNQUEUES_N. rewrite <- Hins, Z.eqb_refl. done.
  - unfold advance_insidx. case_if; [|done]. rewrite Hins in E.
    destruct (Z.eq_dec (calendar_queue_runidx c) 63) as [Hx|]; [rewrite Hx in E; done|].
    rewrite Z.mod_small in E; lia.
  - intros c0 Heq. unfold advance_insidx. rewrite <- Heq, Z.eqb_refl. done.
  - unfold insert_calendar_queue. cbn [calendar_queue set_calendar]. unfold rq_queue, rq_set. cbn [queues rq_set_bit].
    rewrite list_lookup_insert_ne; [done|]. unfold PRIO_HIGH_BATCH, RUNQUEUES_N. rewrite Hins, Z.add_mod_idemp_l by lia.
    pose proof (Z.mod_pos_bound (calendar_queue_runidx c + 1 + (32 - priority t)) 64 ltac:(lia)).
    intros Heq. apply Z2Nat.inj in Heq; [|lia|lia].
    destruct (Z.lt_ge_cases (calendar_queue_runidx c + 1 + (32 - priority t)) 64).
    + rewrite Z.mod_small in Heq by lia. lia.
    + replace ((calendar_queue_runidx c + 1 + (32 - priority t)) mod 64)
        with (calendar_queue_runidx c + 1 + (32 - priority t) - 64) in Heq; [lia|].
      apply Z.mod_unique with 1; lia.
Qed.

(** ** Choosing a processor *)

Lemma most_least_loop_spec l : forall i most least,
  let '(most', least') := most_least_loop most least i l in
  Forall (fun c => load c <= load most'.2 /\ load least'.2 <= load c) l /\
  load most.2 <= load most'.2 /\ load least'.2 <= load least.2 /\
  (most' = most \/ exists k c, l !! k = Some c /\ most' = ((i + k)%nat, c)) /\
  (least' = least \/ exists k c, l !! k = Some c /\ least' = ((i + k)%nat, c)).
Proof.
  induction l as [|c l IH]; intros i most least; cbn [most_least_loop].
  { split_and!; [constructor|lia|lia|by left|by left]. }
  unfold most_least_step.
  set (most1 := if load most.2 <? load c then (i, c) else most).
  set (least1 := if load c <? load least.2 then (i, c) else least).
  specialize (IH (S i) most1 least1). destruct (most_least_loop most1 least1 (S i) l) as [most' least'].
  destruct IH as (Hall & Hm & Hle & Hwm & Hwl).
  assert (H1 : load most.2 <= load most1.2 /\ load c <= load most1.2) by (unfold most1; case_if; cbn; lia).
  assert (H2 : load least1.2 <= load least.2 /\ load least1.2 <= load c) by (unfold least1; case_if; cbn; lia).
  split_and!; [constructor; [lia|done]|lia|lia| |].
  - destruct Hwm as [->|(k & c1 & Hk & ->)].
    + unfold most1. case_if; [right; exists 0%nat, c; split; [done|f_equal; lia]|by left].
    + right. exists (S k), c1. split; [done|f_equal; lia].
  - destruct Hwl as [->|(k & c1 & Hk & ->)].
    + unfold least1. case_if; [right; exists 0%nat, c; split; [done|f_equal; lia]|by left].
    + right. exists (S k), c1. split; [done|f_equal; lia].
Qed.

Lemma find_most_least_post l :
  match find_most_and_least_loaded_cpu l with
  | Some (most, least) => exists cm cl, l !! most = Some cm /\ l !! least = Some cl /\
      Forall (fun c => load cl <= load c <= load cm) l
  | None => l = []
  end.
Proof.
  unfold find_most_and_least_loaded_cpu. destruct l as [|c0 l]; [done|].
  pose proof (most_least_loop_spec (c0 :: l) 0 (0%nat, c0) (0%nat, c0)) as H.
  destruct (most_least_loop (0%nat, c0) (0%nat, c0) 0 (c0 :: l)) as [most least].
  destruct H as (Hall & _ & _ & Hm & Hl).
  assert (Hm' : (c0 :: l) !! most.1 = Some most.2) by (destruct Hm as [->|(k & c & Hk & ->)]; done).
  assert (Hl' : (c0 :: l) !! least.1 = Some least.2) by (destruct Hl as [->|(k & c & Hk & ->)]; done).
  exists most.2, least.2. split_and!; [done|done|]. eapply Forall_impl; [exact Hall|]. cbn. lia.
Qed.

(** [find_most_and_least_loaded_cpu] returns processors with the greatest
    and the smallest load. *)
Theorem find_most_and_least_loaded_cpu_correct l :
  match find_most_and_least_loaded_cpu l with
  | Some (most, least) => exists cm cl, l !! most = Some cm /\ l !! least = Some cl /\
      Forall (fun c => load cl <= load c <= load cm) l
  | None => l = []
  end.
Proof. apply find_most_least_post. Qed.

(** The best candidate of a scan among the processors that satisfy [P]. *)
Definition best_of (P : cpu_local -> bool) (l : list cpu_local) (i : nat) (b : option (nat * cpu_local)) : Prop :=
  match b with
  | Some (k, c) => (k < i)%nat /\ l !! k = Some c /\ P c = true /\
      forall j c', (j < i)%nat -> l !! j = Some c' -> P c' = true -> load c <= load c'
  | None => forall j c', (j < i)%nat -> l !! j = Some c' -> P c' = false
  end.

Lemma keep_least_best P l i b c :
  l !! i = Some c -> P c = true -> best_of P l i b -> best_of P l (S i) (keep_least b i c).
Proof.
  intros Hc HP Hb. destruct b as [[k cb]|]; cbn [keep_least snd best_of] in *.
  - destruct Hb as (Hk & Hl & Hpb & Hmin). case_if; cbn [best_of]; split_and!; try done; try lia.
    + intros j c' Hj Hl' HP'. destruct (decide (j = i)) as [->|]; [simplify_eq; lia|].
      specialize (Hmin j c' ltac:(lia) Hl' HP'). lia.
    + intros j c' Hj Hl' HP'. destruct (decide (j = i)) as [->|]; [simplify_eq; lia|]. apply (Hmin j); [lia|done|done].
  - split_and!; [lia|done|done|]. intros j c' Hj Hl' HP'. destruct (decide (j = i)) as [->|]; [simplify_eq; lia|].
    rewrite (Hb j c') in HP' by (done || lia). done.
Qed.

Lemma best_of_skip P l i b c : l !! i = Some c -> P c = false -> best_of P l i b -> best_of P l (S i) b.
Proof.
  intros Hc HP Hb. destruct b as [[k cb]|]; cbn [best_of] in *.
  - destruct Hb as (Hk & Hl & Hpb & Hmin). split_and!; try done; [lia|].
    intros j c' Hj Hl' HP'. destruct (decide (j = i)) as [->|]; [congruence|]. apply (Hmin j); [lia|done|done].
  - intros j c' Hj Hl'. destruct (decide (j = i)) as [->|]; [congruence|]. apply (Hb j); [lia|done].
Qed.

Lemma pick_cpu_loop_spec td l l2 : forall i least lp,
  l2 = drop i l -> best_of (fun _ => true) l i least -> best_of (should_preempt td) l i lp ->
  let '(least', lp') := pick_cpu_loop td i l2 least lp in
  best_of (fun _ => true) l (i + length l2) least' /\ best_of (should_preempt td) l (i + length l2) lp'.
Proof.
  induction l2 as [|c l2 IH]; intros i least lp Hl H1 H2; cbn [pick_cpu_loop length].
  { rewrite Nat.add_0_r. done. }
  assert (Hc : l !! i = Some c) by (rewrite <- (Nat.add_0_r i), <- lookup_drop, <- Hl; done).
  replace (i + S (length l2))%nat with (S i + length l2)%nat by lia.
  apply IH; [|apply keep_least_best; done|].
  - rewrite <- Nat.add_1_r, <- drop_drop, <- Hl. done.
  - destruct (should_preempt td c) eqn:E; [apply keep_least_best|eapply best_of_skip]; done.
Qed.

Lemma pick_cpu_post l td :
  match last_cpu td with Some i => (i < length l)%nat | None => True end -> l <> [] ->
  exists k c, pick_cpu l td = Some k /\ l !! k = Some c /\
    ((last_cpu td = Some k /\ (pinned td = true \/ should_preempt td c = true)) \/
     (should_preempt td c = true /\
        forall j c', l !! j = Some c' -> should_preempt td c' = true -> load c <= load c') \/
     (forall j c', l !! j = Some c' -> should_preempt td c' = false /\ load c <= load c')) /\
    (forall i, last_cpu td = Some i -> pinned td = true -> k = i).
Proof.
  intros Hlast Hne. unfold pick_cpu.
  pose proof (pick_cpu_loop_spec td l l 0 None None eq_refl) as Hs.
  destruct (pick_cpu_loop td 0 l None None) as [least lp].
  destruct Hs as [Hle Hlp]; [intros j c' Hj; lia|intros j c' Hj; lia|]. cbn [Nat.add] in *.
  set (search := match lp with Some b => Some b.1 | None => fst <$> least end).
  assert (Hsearch : exists k c, search = Some k /\ l !! k = Some c /\
    ((should_preempt td c = true /\ forall j c', l !! j = Some c' -> should_preempt td c' = true -> load c <= load c') \/
     (forall j c', l !! j = Some c' -> should_preempt td c' = false /\ load c <= load c'))).
  { unfold search. destruct lp as [[k c]|].
    - destruct Hlp as (_ & Hk & HP & Hmin). exists k, c. split_and!; [done|done|left]. split; [done|].
      intros j c' Hj. apply (Hmin j); [eapply lookup_lt_Some; eauto|done].
    - destruct least as [[k c]|].
      + destruct Hle as (_ & Hk & _ & Hmin). exists k, c. split_and!; [done|done|right].
        intros j c' Hj. pose proof (lookup_lt_Some _ _ _ Hj). split; [eapply Hlp; eauto|]. apply (Hmin j); done.
      + destruct l as [|c l]; [done|]. specialize (Hle 0%nat c). cbn in Hle. discriminate Hle; [lia|done]. }
  destruct Hsearch as (k & c & -> & Hk & Hor).
  destruct (last_cpu td) as [i|] eqn:El; [|exists k, c; split_and!; [done|done|tauto|done]].
  destruct (lookup_lt_is_Some_2 l i Hlast) as [ci Hci]. rewrite Hci.
  destruct (should_preempt td ci || pinned td) eqn:E.
  - exists i, ci. split_and!; [done|done| |congruence]. left. split; [done|]. apply orb_true_iff in E. tauto.
  - apply orb_false_iff in E as [E1 E2]. exists k, c. split_and!; [done|done|tauto|congruence].
Qed.

Lemma pick_cpu_spec l td :
  match last_cpu td with Some i => (i < length l)%nat | None => True end -> l <> [] ->
  exists k, pick_cpu l td = Some k /\ (k < length l)%nat.
Proof.
  intros H1 H2. destruct (pick_cpu_post l td H1 H2) as (k & c & E & Hk & _).
  exists k. split; [done|]. eapply lookup_lt_Some; eauto.
Qed.

(** [pick_cpu] keeps a pinned thread where it is pinned and prefers the
    last processor when the thread would run there at once; otherwise it
    returns a least loaded processor among those where the thread would run
    at once, or, when there is none, a least loaded processor of all. *)
Theorem pick_cpu_correct l td :
  match last_cpu td with Some i => (i < length l)%nat | None => True end -> l <> [] ->
  exists k c, pick_cpu l td = Some k /\ l !! k = Some c /\
    ((last_cpu td = Some k /\ (pinned td = true \/ should_preempt td c = true)) \/
     (should_preempt td c = true /\
        forall j c', l !! j = Some c' -> should_preempt td c' = true -> load c <= load c') \/
     (forall j c', l !! j = Some c' -> should_preempt td c' = false /\ load c <= load c')) /\
    (forall i, last_cpu td = Some i -> pinned td = true -> k = i).
Proof. apply pick_cpu_post. Qed.

(** ** No thread is lost *)

(** The threads a processor is responsible for: the one to run next, the
    current one unless it is the idle thread, and the queued ones. *)
Definition placed (c : cpu_local) : list tid :=
  option_list (next_thread c) ++
  (if current_thread c =? idle_thread c then [] else [current_thread c]) ++ queued c.

Definition places (m : machine) : list tid := concat (placed <$> cpus m).

Definition known_thread (m : machine) (id : tid) : Prop :=
  exists t, threads m !! id = Some t /\ thread_ok t.

Record machine_ok (m : machine) : Prop := {
  mo_cpus : forall i c, cpus m !! i = Some c -> cpu_ok c;
  mo_nodup : NoDup (places m);
  mo_known : forall id, id ∈ places m -> known_thread m id;
  mo_idle : forall i c, cpus m !! i = Some c -> known_thread m (idle_thread c) /\ idle_thread c ∉ places m;
  mo_small : Z.of_nat (length (places m)) < 2 ^ 62;
}.

(** A thread that is on no processor. *)
Record in_hand (m : machine) (id : tid) : Prop := {
  ih_out : id ∉ places m;
  ih_known : known_thread m id;
  ih_idle : forall i c, cpus m !! i = Some c -> idle_thread c <> id;
}.

Definition with_cpu (m : machine) (i : nat) (c : cpu_local) : machine :=
  MkMachine (<[i := c]> (cpus m)) (threads m) (ipis m).
Definition with_thread (m : machine) (id : tid) (t : thread) : machine :=
  MkMachine (cpus m) (<[id := t]> (threads m)) (ipis m).

Lemma places_with_cpu m i c :
  cpus m !! i = Some c ->
  exists rest, places m ≡ₚ placed c ++ rest /\ forall c', places (with_cpu m i c') ≡ₚ placed c' ++ rest.
Proof.
  intros Hc. destruct (concat_insert (placed <$> cpus m) i (placed c)) as (rest & H1 & H2).
  - rewrite list_lookup_fmap, Hc. done.
  - exists rest. split; [exact H1|]. intros c'. unfold places, with_cpu. cbn [cpus].
    rewrite list_fmap_insert. apply H2.
Qed.

(** A processor's record changes: the threads in [inn] arrive, those in
    [out] leave. *)
Lemma with_cpu_ok m i c c' inn out :
  machine_ok m -> cpus m !! i = Some c -> cpu_ok c' -> idle_thread c' = idle_thread c ->
  placed c ++ inn ≡ₚ placed c' ++ out ->
  NoDup inn -> (forall x, x ∈ inn -> in_hand m x) ->
  Z.of_nat (length (places m) + length inn) < 2 ^ 62 ->
  machine_ok (with_cpu m i c') /\ places m ++ inn ≡ₚ places (with_cpu m i c') ++ out /\
  (forall x, x ∈ out -> in_hand (with_cpu m i c') x).
Proof.
  intros HM Hc Hc' Hidle Hp Hnd Hin Hsm. destruct (places_with_cpu m i c Hc) as (rest & H1 & H2).
  set (m' := with_cpu m i c').
  assert (HP : places m ++ inn ≡ₚ places m' ++ out).
  { unfold m'. rewrite H1, H2. transitivity ((placed c ++ inn) ++ rest); [solve_Permutation|].
    rewrite Hp. solve_Permutation. }
  assert (Hall : NoDup (places m ++ inn)).
  { apply NoDup_app. split_and!; [apply HM| |done]. intros x Hx Hx'. eapply ih_out; eauto. }
  rewrite HP in Hall. apply NoDup_app in Hall as (Hnd' & Hdis & _).
  assert (Hknown : forall x, x ∈ places m' ++ out -> known_thread m x /\ forall j cj, cpus m !! j = Some cj -> idle_thread cj <> x).
  { intros x Hx. rewrite <- HP in Hx. apply elem_of_app in Hx as [Hx|Hx].
    - split; [eapply mo_known; eauto|]. intros j cj Hj <-. eapply mo_idle; eauto.
    - split; [apply Hin; done|]. intros j cj Hj. eapply ih_idle; [apply Hin; done|done]. }
  assert (Hcpus : forall j cj, cpus m' !! j = Some cj -> exists cj', cpus m !! j = Some cj' /\ idle_thread cj = idle_thread cj' /\ cpu_ok cj).
  { intros j cj. unfold m', with_cpu. cbn [cpus]. destruct (decide (j = i)) as [->|].
    - rewrite list_lookup_insert_eq by (eapply lookup_lt_Some; eauto). intros [= <-]. exists c. done.
    - rewrite list_lookup_insert_ne by done. intros Hj. exists cj. split_and!; try done. eapply mo_cpus; eauto. }
  split_and!; [constructor|done|].
  - intros j cj Hj. apply Hcpus in Hj as (? & _ & _ & ?). done.
  - done.
  - intros x Hx. apply Hknown. apply elem_of_app. by left.
  - intros j cj Hj. apply Hcpus in Hj as (cj' & Hj & -> & _). split; [apply (mo_idle _ HM j); done|].
    intros Hx. destruct (Hknown (idle_thread cj')) as [_ Hne]; [apply elem_of_app; by left|]. eapply Hne; eauto.
  - apply Permutation_length in HP. rewrite !length_app in HP. lia.
  - intros x Hx. constructor.
    + intros Hx'. eapply Hdis; eauto.
    + apply Hknown. apply elem_of_app. by right.
    + intros j cj Hj. apply Hcpus in Hj as (cj' & Hj & -> & _). eapply Hknown; [apply elem_of_app; by right|done].
Qed.

Lemma with_thread_ok m id t :
  machine_ok m -> thread_ok t -> machine_ok (with_thread m id t) /\
  (forall x, in_hand m x -> in_hand (with_thread m id t) x).
Proof.
  intros HM Ht.
  assert (Hk : forall x, known_thread m x -> known_thread (with_thread m id t) x).
  { intros x (tx & Hx & Hok). unfold known_thread, with_thread. cbn [threads]. destruct (decide (id = x)) as [->|].
    - exists t. rewrite lookup_insert_eq. done.
    - exists tx. rewrite lookup_insert_ne by done. done. }
  split.
  - destruct HM as [H1 H2 H3 H4 H5]. constructor; try done.
    + intros x Hx. apply Hk, H3. done.
    + intros i c Hc. destruct (H4 i c Hc). split; [apply Hk; done|done].
  - intros x [H1 H2 H3]. constructor; try done. apply Hk. done.
Qed.

(** What the scheduling operations keep: the processors, their idle threads
    and the threads' descriptions. *)
Record same_shape (m m' : machine) : Prop := {
  ss_len : length (cpus m') = length (cpus m);
  ss_idle : forall i c', cpus m' !! i = Some c' ->
    exists c, cpus m !! i = Some c /\ idle_thread c' = idle_thread c;
}.

Lemma same_shape_refl m : same_shape m m.
Proof. constructor; [done|]. eauto. Qed.

Lemma same_shape_trans m1 m2 m3 : same_shape m1 m2 -> same_shape m2 m3 -> same_shape m1 m3.
Proof.
  intros [L1 I1] [L2 I2]. constructor; [congruence|].
  intros i c3 H3. destruct (I2 i c3 H3) as (c2 & H2 & ->). apply I1. done.
Qed.

Lemma same_shape_with_cpu m i c c' :
  cpus m !! i = Some c -> idle_thread c' = idle_thread c -> same_shape m (with_cpu m i c').
Proof.
  intros Hc Hi. constructor; [apply length_insert|]. intros j cj. unfold with_cpu. cbn [cpus].
  destruct (decide (j = i)) as [->|].
  - rewrite list_lookup_insert_eq by (eapply lookup_lt_Some; eauto). intros [= <-]. eauto.
  - rewrite list_lookup_insert_ne by done. eauto.
Qed.

Lemma in_hand_other m m' id x :
  places m' ≡ₚ id :: places m -> same_shape m m' -> (known_thread m x -> known_thread m' x) ->
  x <> id -> in_hand m x -> in_hand m' x.
Proof.
  intros Hp Hs Hk Hne [H1 H2 H3]. constructor; [|auto|].
  - rewrite Hp. apply not_elem_of_cons. done.
  - intros i c' Hc'. destruct (ss_idle _ _ Hs i c' Hc') as (c & Hc & ->). eauto.
Qed.

Lemma known_with_thread m id t x : thread_ok t -> known_thread m x -> known_thread (with_thread m id t) x.
Proof.
  intros Ht (tx & Hx & Hok). unfold known_thread, with_thread. cbn [threads]. destruct (decide (id = x)) as [->|].
  - exists t. rewrite lookup_insert_eq. done.
  - exists tx. rewrite lookup_insert_ne by done. done.
Qed.

(** The post-condition of operations that bring one thread in. *)
Record arrives (m m' : machine) (id : tid) : Prop := {
  ar_ok : machine_ok m';
  ar_places : places m' ≡ₚ id :: places m;
  ar_shape : same_shape m m';
  ar_known : forall x, known_thread m x -> known_thread m' x;
}.

Lemma cpu_lookup m i : (i < length (cpus m))%nat -> exists c, cpus m !! i = Some c.
Proof. intros Hi. apply lookup_lt_is_Some_2. done. Qed.

Lemma queued_le_places m i c : cpus m !! i = Some c -> (length (queued c) <= length (places m))%nat.
Proof.
  intros Hc. destruct (places_with_cpu m i c Hc) as (rest & H1 & _). rewrite H1.
  unfold placed. rewrite !length_app. lia.
Qed.

Lemma insert_in_queue_spec m cpu id :
  machine_ok m -> (cpu < length (cpus m))%nat -> in_hand m id ->
  Z.of_nat (length (places m)) + 1 < 2 ^ 62 ->
  exists m', insert_in_queue cpu id m = (m', Ok tt) /\ arrives m m' id.
Proof.
  intros HM Hcpu Hh Hsm. destruct (cpu_lookup m cpu Hcpu) as [c Hc]. destruct (ih_known _ _ Hh) as (t & Ht & Htok).
  pose proof (mo_cpus _ HM _ _ Hc) as Hcok. pose proof (queued_le_places _ _ _ Hc) as Hle.
  assert (Hni : id ∉ queued c).
  { intros Hx. apply (ih_out _ _ Hh). destruct (places_with_cpu m cpu c Hc) as (rest & -> & _).
    unfold placed. rewrite !elem_of_app. tauto. }
  destruct (sched_insert_spec cpu c id t Hcok Htok Hni) as (c' & t' & E & Hc' & Hq & _ & _ & Hp & Hcl & _ & _ & _ & _ & Hn & Hcur & Hid & _);
    [pose proof (co_load _ Hcok); lia|].
  assert (Ht' : thread_ok t').
  { destruct Htok as [H1 H2]. constructor; [unfold known_class; rewrite Hcl; exact H1|rewrite Hp; exact H2]. }
  destruct (with_cpu_ok m cpu c c' [id] []) as (HM1 & HP1 & _); try done.
  { unfold placed. rewrite Hn, Hcur, Hid, Hq. solve_Permutation. }
  { apply NoDup_singleton. }
  { intros x Hx%list_elem_of_singleton. subst. done. }
  { cbn [length]. lia. }
  destruct (with_thread_ok (with_cpu m cpu c') id t' HM1 Ht') as [HM2 _].
  exists (with_thread (with_cpu m cpu c') id t'). split.
  - unfold insert_in_queue, get_cpu, get_thread, mbind, M_bind, lift, put_cpu, put_thread. rewrite Hc. cbn beta iota.
    rewrite Ht, E. done.
  - constructor; [done| | |].
    + change (places (with_thread (with_cpu m cpu c') id t')) with (places (with_cpu m cpu c')).
      rewrite app_nil_r in HP1. rewrite <- HP1. solve_Permutation.
    + destruct (same_shape_with_cpu m cpu c c' Hc Hid) as [H1 H2]. constructor; done.
    + intros x Hx. apply known_with_thread; done.
Qed.

Lemma places_with_same m i c c' :
  cpus m !! i = Some c -> placed c' = placed c -> places (with_cpu m i c') ≡ₚ places m.
Proof. intros Hc Hp. destruct (places_with_cpu m i c Hc) as (rest & H1 & H2). rewrite H1, H2, Hp. done. Qed.

(** A change that moves no thread. *)
Lemma with_cpu_same m i c c' :
  machine_ok m -> cpus m !! i = Some c -> cpu_ok c' -> idle_thread c' = idle_thread c -> placed c' = placed c ->
  machine_ok (with_cpu m i c').
Proof.
  intros HM Hc Hc' Hi Hp. destruct (with_cpu_ok m i c c' [] []) as (H & _); try done.
  - rewrite Hp. done.
  - constructor.
  - intros x Hx. by apply not_elem_of_nil in Hx.
  - pose proof (mo_small _ HM). cbn [length]. lia.
Qed.

Lemma cpu_ok_fields c c' :
  cpu_ok c -> realtime_runq c' = realtime_runq c -> calendar_queue c' = calendar_queue c ->
  calendar_queue_runidx c' = calendar_queue_runidx c -> calendar_queue_insidx c' = calendar_queue_insidx c ->
  idle_queue c' = idle_queue c -> load c' = load c -> cpu_ok c'.
Proof.
  intros [H1 H2 H3 H4 H5 H6 H7] E1 E2 E3 E4 E5 E6.
  constructor; unfold queued in *; rewrite ?E1, ?E2, ?E3, ?E4, ?E5, ?E6; done.
Qed.

Lemma with_ipis m l : machine_ok m -> machine_ok (MkMachine (cpus m) (threads m) l).
Proof. intros [H1 H2 H3 H4 H5]. constructor; done. Qed.

(** The last steps of a preemption: the software interrupt and the IPI. *)
Lemma notify_spec m me cpu :
  machine_ok m -> (cpu < length (cpus m))%nat ->
  exists m', (c ← get_cpu cpu;
              put_cpu cpu (set_softint_pending c IPL_DISPATCH);;
              if bool_decide (cpu = me) then mret tt else arch_send_ipi cpu) m = (m', Ok tt) /\
    machine_ok m' /\ places m' ≡ₚ places m /\ same_shape m m' /\ threads m' = threads m.
Proof.
  intros HM Hcpu. destruct (cpu_lookup m cpu Hcpu) as [c Hc].
  set (c' := set_softint_pending c IPL_DISPATCH).
  assert (HM' : machine_ok (with_cpu m cpu c')).
  { apply (with_cpu_same m cpu c); [done|done| |done|done].
    apply (cpu_ok_fields c); try done. eapply mo_cpus; eauto. }
  assert (HP : places (with_cpu m cpu c') ≡ₚ places m) by (apply (places_with_same m cpu c); done).
  pose proof (same_shape_with_cpu m cpu c c' Hc eq_refl) as HS.
  unfold get_cpu, mbind, M_bind. rewrite Hc. cbn beta iota. case_bool_decide.
  - exists (with_cpu m cpu c'). split_and!; done.
  - eexists. split; [reflexivity|]. split_and!; [apply (with_ipis (with_cpu m cpu c')); done|exact HP| |done].
    destruct HS as [H1 H2]. constructor; done.
Qed.

(** The processor takes [id] as its next thread; the previous choice is in
    hand. *)
Lemma set_next_spec m cpu c id :
  machine_ok m -> cpus m !! cpu = Some c -> in_hand m id -> Z.of_nat (length (places m)) + 1 < 2 ^ 62 ->
  let m' := with_cpu m cpu (set_reason (set_next c (Some id)) PREEMPT_HIGHER_PRIORITY) in
  machine_ok m' /\ places m ++ [id] ≡ₚ places m' ++ option_list (next_thread c) /\
  (forall x, x ∈ option_list (next_thread c) -> in_hand m' x).
Proof.
  intros HM Hc Hh Hsm. apply (with_cpu_ok m cpu c); try done.
  - apply (cpu_ok_fields c); try done. eapply mo_cpus; eauto.
  - unfold placed. cbn [next_thread current_thread idle_thread set_reason set_next option_list].
    change (queued (set_reason (set_next c (Some id)) PREEMPT_HIGHER_PRIORITY)) with (queued c). solve_Permutation.
  - apply NoDup_singleton.
  - intros x Hx%list_elem_of_singleton. subst. done.
  - cbn [length]. lia.
Qed.

Lemma sched_try_preempt_spec m me cpu id :
  machine_ok m -> (cpu < length (cpus m))%nat -> in_hand m id ->
  Z.of_nat (length (places m)) + 1 < 2 ^ 62 ->
  exists m', sched_try_preempt me cpu id m = (m', Ok tt) /\ arrives m m' id.
Proof.
  intros HM Hcpu Hh Hsm. destruct (cpu_lookup m cpu Hcpu) as [c Hc].
  destruct (ih_known _ _ Hh) as (t & Ht & _).
  unfold sched_try_preempt. rewrite (bind_ok _ _ m m c) by (unfold get_cpu; rewrite Hc; done).
  rewrite (bind_ok _ _ m m t) by (unfold get_thread; rewrite Ht; done).
  destruct (should_preempt t c); [|apply insert_in_queue_spec; done].
  destruct (set_next_spec m cpu c id HM Hc Hh Hsm) as (HM1 & HP1 & Hout).
  set (m1 := with_cpu m cpu (set_reason (set_next c (Some id)) PREEMPT_HIGHER_PRIORITY)) in *.
  assert (HS1 : same_shape m m1) by (eapply same_shape_with_cpu; done).
  rewrite (bind_ok _ _ m m1 tt) by done.
  assert (Hlen1 : length (cpus m1) = length (cpus m)) by apply HS1.
  assert (H2 : exists m2, (match next_thread c with Some next => insert_in_queue cpu next | None => mret tt end) m1 = (m2, Ok tt) /\
    machine_ok m2 /\ places m2 ≡ₚ id :: places m /\ same_shape m m2 /\ (forall x, known_thread m x -> known_thread m2 x)).
  { destruct (next_thread c) as [n|]; [change (option_list (Some n)) with [n] in *|change (option_list None) with (@nil tid) in *].
    - destruct (insert_in_queue_spec m1 cpu n) as (m2 & E & [A1 A2 A3 A4]);
        [done|lia|apply Hout, list_elem_of_singleton; done|..].
      { pose proof (Permutation_length HP1) as Hl. rewrite !length_app in Hl. cbn [length] in Hl. lia. }
      exists m2. split_and!; [done|done| |eapply same_shape_trans; done|intros x Hx; apply A4; done].
      rewrite A2. transitivity (places m1 ++ [n]); [solve_Permutation|]. rewrite <- HP1. solve_Permutation.
    - exists m1. split_and!; [done|done| |done|done]. rewrite app_nil_r in HP1. rewrite <- HP1. solve_Permutation. }
  destruct H2 as (m2 & E2 & HM2 & HP2 & HS2 & HK2). rewrite (bind_ok _ _ _ _ _ E2).
  destruct (notify_spec m2 me cpu HM2) as (m3 & E3 & HM3 & HP3 & HS3 & HT3); [rewrite (ss_len _ _ HS2); done|].
  exists m3. split; [exact E3|]. constructor; [done|rewrite HP3; done|eapply same_shape_trans; done|].
  intros x Hx. destruct (HK2 x Hx) as (tx & Htx & ?). exists tx. rewrite HT3. done.
Qed.

(** C9: [sched_ready] gives a thread that is on no processor to exactly one
    processor: afterwards the machine runs the threads it ran before and this
    one, each in one place, and every processor's queues are consistent. *)
Theorem sched_ready_correct m me id :
  machine_ok m -> cpus m <> [] -> in_hand m id -> Z.of_nat (length (places m)) + 1 < 2 ^ 62 ->
  (forall t i, threads m !! id = Some t -> last_cpu t = Some i -> (i < length (cpus m))%nat) ->
  exists m', sched_ready me id m = (m', Ok tt) /\ machine_ok m' /\ places m' ≡ₚ id :: places m.
Proof.
  intros HM Hne Hh Hsm Hlast. destruct (ih_known _ _ Hh) as (t & Ht & _).
  destruct (pick_cpu_spec (cpus m) t) as (k & Ek & Hk); [destruct (last_cpu t) eqn:E; eauto|done|].
  destruct (sched_try_preempt_spec m me k id HM Hk Hh Hsm) as (m' & E & [A1 A2 A3 A4]).
  exists m'. split_and!; [|done|done]. unfold sched_ready.
  rewrite (bind_ok _ _ m m t) by (unfold get_thread; rewrite Ht; done).
  rewrite (bind_ok _ _ m m (cpus m)) by done. rewrite Ek. exact E.
Qed.

Lemma select_thread_spec m cur cpu c migrate :
  machine_ok m -> cpus m !! cpu = Some c ->
  (forall id, cur = Some id -> known_thread m id) ->
  let takes r := forall id t, cur = Some id -> threads m !! id = Some t ->
    snd (sched_select_thread (is_pinned m) (Some t) c migrate) = Ok r in
  (select_thread cur cpu migrate m = (m, Ok None) /\ takes None) \/
  exists td c', select_thread cur cpu migrate m = (with_cpu m cpu c', Ok (Some td)) /\ takes (Some td) /\
    machine_ok (with_cpu m cpu c') /\ places m ≡ₚ td :: places (with_cpu m cpu c') /\ queued c ≡ₚ td :: queued c' /\
    in_hand (with_cpu m cpu c') td /\
    next_thread c' = next_thread c /\ current_thread c' = current_thread c /\ idle_thread c' = idle_thread c.
Proof.
  intros HM Hc Hcur takes. pose proof (mo_cpus _ HM _ _ Hc) as Hcok.
  assert (Ht : exists t, (match cur with Some id => x ← get_thread id; mret (Some x) | None => mret None end) m = (m, Ok t)
    /\ 0 <= min_priority t /\ (forall id t', cur = Some id -> threads m !! id = Some t' -> t = Some t')).
  { destruct cur as [id|]; [|exists None; split_and!; [done|cbn; lia|done]].
    destruct (Hcur id eq_refl) as (t & Ht & [_ Hp]). exists (Some t). split_and!; [|cbn; lia|congruence].
    unfold get_thread, mbind, M_bind. rewrite Ht. done. }
  destruct Ht as (t & Et & Hmin & Hsel).
  assert (Htk : forall r, snd (sched_select_thread (is_pinned m) t c migrate) = Ok r -> takes r).
  { intros r Hr id t' Hid Ht'. rewrite <- (Hsel id t' Hid Ht'). exact Hr. } unfold select_thread.
  rewrite (bind_ok _ _ m m c) by (unfold get_cpu; rewrite Hc; done).
  rewrite (bind_ok _ _ _ _ _ Et). rewrite (bind_ok _ _ m m (is_pinned m)) by done.
  pose proof (select_spec (is_pinned m) t c migrate Hcok Hmin) as Hs.
  pose proof (select_fields (is_pinned m) t c migrate) as (Hf1 & Hf2 & Hf3).
  destruct (sched_select_thread (is_pinned m) t c migrate) as [c' [[td|]| |]]; try done; cbn [fst] in *.
  - right. destruct Hs as (Hc' & Hq & _). exists td, c'.
    destruct (with_cpu_ok m cpu c c' [] [td]) as (H1 & H2 & H3); try done.
    + unfold placed. rewrite Hf1, Hf2, Hf3, Hq. solve_Permutation.
    + constructor.
    + intros x Hx. by apply not_elem_of_nil in Hx.
    + pose proof (mo_small _ HM). cbn [length]. lia.
    + split_and!; try done; [by apply Htk| |apply H3, list_elem_of_singleton; done].
      rewrite app_nil_r in H2. rewrite H2. solve_Permutation.
  - left. destruct Hs as [-> _]. split; [|by apply Htk]. unfold put_cpu, lift, mbind, M_bind. rewrite list_insert_id by done. destruct m; done.
Qed.

Lemma find_in_range l most least :
  find_most_and_least_loaded_cpu l = Some (most, least) -> (most < length l)%nat /\ (least < length l)%nat.
Proof.
  intros H. pose proof (find_most_least_post l) as Hp. rewrite H in Hp.
  destruct Hp as (cm & cl & Hm & Hl & _). split; eapply lookup_lt_Some; eauto.
Qed.

Lemma balance_loop_spec me cnt : forall m,
  machine_ok m ->
  exists m', balance_loop cnt me m = (m', Ok tt) /\ machine_ok m' /\ places m' ≡ₚ places m.
Proof.
  induction cnt as [|cnt IH]; intros m HM; cbn [balance_loop]; [exists m; done|].
  rewrite (bind_ok _ _ m m (cpus m)) by done.
  destruct (find_most_and_least_loaded_cpu (cpus m)) as [[most least]|] eqn:Ef; [|exists m; done].
  destruct (find_in_range _ _ _ Ef) as [Hmost Hleast].
  destruct (cpu_lookup m most Hmost) as [cm Hcm]. destruct (cpu_lookup m least Hleast) as [cl Hcl].
  rewrite (bind_ok _ _ m m cm) by (unfold get_cpu; rewrite Hcm; done).
  rewrite (bind_ok _ _ m m cl) by (unfold get_cpu; rewrite Hcl; done).
  cbv zeta. destruct (_ <? 1); [exists m; done|].
  destruct (select_thread_spec m None most cm true HM Hcm ltac:(done)) as [[E _]|(td & c' & E & _ & HM1 & HP1 & _ & Hh & _ & _ & Hid)].
  { rewrite (bind_ok _ _ _ _ _ E). exists m. done. }
  rewrite (bind_ok _ _ _ _ _ E). set (m1 := with_cpu m most c') in *.
  assert (HS1 : same_shape m m1) by (eapply same_shape_with_cpu; done).
  destruct (sched_try_preempt_spec m1 me least td HM1) as (m2 & E2 & [A1 A2 A3 A4]);
    [rewrite (ss_len _ _ HS1); done|done| |].
  { apply Permutation_length in HP1. cbn [length] in HP1. pose proof (mo_small _ HM). lia. }
  rewrite (bind_ok _ _ _ _ _ E2).
  assert (HP2 : places m2 ≡ₚ places m) by (rewrite A2, HP1; done).
  destruct (_ =? 1); [exists m2; done|].
  destruct (IH m2 A1) as (m3 & E3 & HM3 & HP3). exists m3. split_and!; [done|done|]. rewrite HP3. done.
Qed.

(** C32: [balance_load] always returns, keeps the machine consistent and only
    moves threads: the machine has the same threads before and after. *)
Theorem balance_load_correct m me :
  machine_ok m ->
  exists m', balance_load me m = (m', Ok tt) /\ machine_ok m' /\ places m' ≡ₚ places m.
Proof. apply balance_loop_spec. Qed.

(** The switch to [next], which is in hand or the idle thread. *)
Lemma current_not_queued m me c :
  machine_ok m -> cpus m !! me = Some c ->
  current_thread c <> idle_thread c -> current_thread c ∉ queued c.
Proof.
  intros HM Hc Hci Hx. pose proof (mo_nodup _ HM) as Hnd. destruct (places_with_cpu m me c Hc) as (rest & HP & _).
  rewrite HP in Hnd. unfold placed in Hnd.
  rewrite (proj2 (Z.eqb_neq _ _)) in Hnd by done. rewrite <- app_assoc in Hnd.
  apply NoDup_app in Hnd as (_ & _ & Hnd). cbn in Hnd. apply NoDup_cons in Hnd as [Hnd _].
  apply Hnd, elem_of_app. by left.
Qed.

(** The thread to switch to, seen as what comes into the machine. *)
Lemma switched_in m c next :
  in_hand m next \/ next = idle_thread c ->
  let inn := if next =? idle_thread c then [] else [next] in
  NoDup inn /\ (forall x, x ∈ inn -> in_hand m x) /\ (length inn <= 1)%nat.
Proof.
  intros Hn inn. unfold inn. destruct (next =? idle_thread c) eqn:E; zify_bools; cbn [length].
  - split_and!; [constructor|intros x Hx; by apply not_elem_of_nil in Hx|lia].
  - split_and!; [apply NoDup_singleton| |lia]. intros x Hx%list_elem_of_singleton. subst. destruct Hn; done.
Qed.

(** The first half of a switch: the current thread goes back to the queues
    if it can run. *)
Lemma switch_requeue m me c t :
  machine_ok m -> cpus m !! me = Some c ->
  threads m !! current_thread c = Some t -> thread_ok t -> Z.of_nat (length (places m)) + 1 < 2 ^ 62 ->
  let cur := current_thread c in
  let stays := negb (cur =? idle_thread c) && bool_decide (state t = RUNNING) in
  exists c2 m2, (if stays then insert_in_queue me cur else mret tt) m = (m2, Ok tt) /\
    cpus m2 = <[me := c2]> (cpus m) /\ ipis m2 = ipis m /\ cpu_ok c2 /\ idle_thread c2 = idle_thread c /\
    (exists t2, threads m2 = <[cur := t2]> (threads m) /\ thread_ok t2) /\
    queued c2 ≡ₚ (if stays then [cur] else []) ++ queued c.
Proof.
  intros HM Hc Ht Htok Hsm cur stays. pose proof (mo_cpus _ HM _ _ Hc) as Hcok. unfold stays.
  destruct (negb (cur =? idle_thread c) && bool_decide (state t = RUNNING)) eqn:E.
  - apply andb_true_iff in E as [E _]. apply negb_true_iff, Z.eqb_neq in E.
    pose proof (queued_le_places _ _ _ Hc) as Hle. pose proof (co_load _ Hcok) as Hld.
    destruct (sched_insert_spec me c cur t Hcok Htok (current_not_queued m me c HM Hc E))
      as (c2 & t2 & Ei & Hc2 & Hq & _ & _ & Hp & Hcl & _ & _ & _ & _ & _ & _ & Hid & _); [lia|].
    exists c2. eexists. split.
    { unfold insert_in_queue, get_cpu, get_thread, mbind, M_bind, lift, put_cpu, put_thread. rewrite Hc. cbn beta iota.
      fold cur in Ht. rewrite Ht, Ei. reflexivity. }
    cbn [cpus threads ipis fst snd]. split_and!; try done. exists t2. split; [done|].
    destruct Htok. constructor; [unfold known_class; rewrite Hcl|rewrite Hp]; done.
  - exists c, m. split_and!; try done; [rewrite list_insert_id by done; done|].
    exists t. rewrite insert_id by done. done.
Qed.

Definition status_byte (n : thread) : Z := u8 (Z.lor (Z.shiftl (Z.land (priority n) 0x7f) 1) (Z.b2z (interactive n))).

(** The second half: the new thread takes the processor. *)
Lemma switch_run m m2 me c c2 t t2 n2 t3 next :
  let cur := current_thread c in
  let n3 := set_cpu (set_state n2 RUNNING) (pinned n2) (Some me) in
  cpus m !! me = Some c -> threads m !! cur = Some t ->
  (if negb (cur =? idle_thread c) && bool_decide (state t = RUNNING) then insert_in_queue me cur else mret tt) m = (m2, Ok tt) ->
  cpus m2 = <[me := c2]> (cpus m) -> ipis m2 = ipis m -> threads m2 = <[cur := t2]> (threads m) ->
  threads m2 !! next = Some n2 -> <[next := n3]> (threads m2) !! cur = Some t3 ->
  sched_switch me cur next m =
    (with_thread (with_thread (with_cpu m me (set_current c2 next (status_byte n2) (thread_switch_pmap t3 n2 (cr3 c2)))) cur t2) next n3, Ok tt).
Proof.
  intros cur n3 Hc Ht E2 Hcp Hip Hth Hn2 Ht3. assert (Hlt : (me < length (cpus m))%nat) by (eapply lookup_lt_Some; eauto).
  unfold sched_switch. rewrite (bind_ok _ _ m m c) by (unfold get_cpu; rewrite Hc; done).
  rewrite (bind_ok _ _ m m t) by (unfold get_thread; rewrite Ht; done).
  rewrite (bind_ok _ _ _ _ _ E2).
  rewrite (bind_ok _ _ m2 m2 n2) by (unfold get_thread; rewrite Hn2; done).
  set (m3 := MkMachine (cpus m2) (<[next := n3]> (threads m2)) (ipis m2)).
  rewrite (bind_ok _ _ m2 m3 tt) by done.
  rewrite (bind_ok _ _ m3 m3 c2) by (unfold get_cpu, m3; cbn [cpus]; rewrite Hcp, list_lookup_insert_eq by done; done).
  rewrite (bind_ok _ _ m3 m3 t3) by (unfold get_thread, m3; cbn [threads]; rewrite Ht3; done).
  unfold put_cpu, m3. cbn [cpus threads ipis]. rewrite Hcp, Hth, Hip, list_insert_insert_eq. done.
Qed.

(** The thread [id] runs on the processor [me], with its queues [q], and
    nothing is chosen to run after it; the other processors are as they were. *)
Record switched (m m' : machine) (me : nat) (id : tid) (q : list tid) : Prop := {
  sw_cpu : exists c', cpus m' !! me = Some c' /\ current_thread c' = id /\ next_thread c' = None /\ queued c' ≡ₚ q;
  sw_thread : exists t', threads m' !! id = Some t' /\ state t' = RUNNING /\ last_cpu t' = Some me;
  sw_others : forall i, i <> me -> cpus m' !! i = cpus m !! i;
}.

(** The threads a switch lets go: the one chosen before to run next, and the
    current one when it is not running any more. *)
Definition let_go (c : cpu_local) (t : thread) : list tid :=
  option_list (next_thread c) ++
  (if negb (current_thread c =? idle_thread c) && negb (bool_decide (state t = RUNNING)) then [current_thread c] else []).

(** The current thread, when it can still run. *)
Definition kept (c : cpu_local) (t : thread) : list tid :=
  if negb (current_thread c =? idle_thread c) && bool_decide (state t = RUNNING) then [current_thread c] else [].

Lemma sched_switch_spec m me c t next :
  machine_ok m -> cpus m !! me = Some c ->
  threads m !! current_thread c = Some t -> thread_ok t ->
  in_hand m next \/ next = idle_thread c ->
  Z.of_nat (length (places m)) + 1 < 2 ^ 62 ->
  let cur := current_thread c in
  let inn := if next =? idle_thread c then [] else [next] in
  exists m', sched_switch me cur next m = (m', Ok tt) /\ machine_ok m' /\
    places m ++ inn ≡ₚ places m' ++ let_go c t /\
    switched m m' me next (kept c t ++ queued c).
Proof.
  intros HM Hc Ht Htok Hn Hsm cur inn.
  assert (Hne : exists n, threads m !! next = Some n /\ thread_ok n).
  { destruct Hn as [Hn| ->]; [apply Hn|]. apply (mo_idle _ HM _ _ Hc). }
  destruct Hne as (n & Hnt & Hnok). destruct (switched_in m c next Hn) as (Hi1 & Hi2 & Hi3).
  destruct (switch_requeue m me c t HM Hc Ht Htok Hsm) as (c2 & m2 & E2 & Hcp & Hip & Hc2 & Hid2 & (t2 & Hth & Ht2) & Hq2).
  fold cur in E2, Hth, Hq2.
  assert (Hn2 : exists n2, threads m2 !! next = Some n2 /\ thread_ok n2).
  { rewrite Hth. destruct (decide (cur = next)) as [<-|]; [exists t2; rewrite lookup_insert_eq; done|].
    exists n. rewrite lookup_insert_ne by done. done. }
  destruct Hn2 as (n2 & Hn2 & Hnok2).
  set (n3 := set_cpu (set_state n2 RUNNING) (pinned n2) (Some me)).
  assert (Hn3 : thread_ok n3) by (destruct Hnok2; constructor; done).
  assert (Hcur2 : exists t3, <[next := n3]> (threads m2) !! cur = Some t3).
  { destruct (decide (next = cur)) as [<-|]; [exists n3; apply lookup_insert_eq|].
    exists t2. rewrite lookup_insert_ne by done. rewrite Hth. apply lookup_insert_eq. }
  destruct Hcur2 as (t3 & Ht3).
  set (c3 := set_current c2 next (status_byte n2) (thread_switch_pmap t3 n2 (cr3 c2))).
  assert (Hlt : (me < length (cpus m))%nat) by (eapply lookup_lt_Some; eauto).
  destruct (with_cpu_ok m me c c3 inn (let_go c t)) as (HM3 & HP3 & _); try done.
  { apply (cpu_ok_fields c2); done. }
  { unfold placed, inn, let_go. change (queued c3) with (queued c2). rewrite Hq2.
    change (next_thread c3) with (@None tid). change (current_thread c3) with next. change (idle_thread c3) with (idle_thread c2).
    rewrite Hid2. fold cur. change (option_list (@None tid)) with (@nil tid).
    destruct (cur =? idle_thread c), (next =? idle_thread c), (bool_decide (state t = RUNNING)); cbn [negb andb]; solve_Permutation. }
  { unfold inn. lia. }
  destruct (with_thread_ok _ cur t2 HM3 Ht2) as [HM4 _]. destruct (with_thread_ok _ next n3 HM4 Hn3) as [HM5 _].
  exists (with_thread (with_thread (with_cpu m me c3) cur t2) next n3). split_and!; [by eapply switch_run|done|exact HP3|].
  unfold with_thread, with_cpu. constructor; cbn [cpus threads].
  - exists c3. rewrite list_lookup_insert_eq by done. split_and!; [done..|exact Hq2].
  - exists n3. rewrite lookup_insert_eq. done.
  - intros i Hi. apply list_lookup_insert_ne. done.
Qed.

(** C10: [sched_yield] always switches: its processor then runs the thread
    that [sched_select_thread] took from its queues, or the idle thread when
    it took none; a current thread that can still run is back in the queues,
    the rest of which stay; the other processors are unchanged and the machine
    stays consistent. It has the same threads as before, except that a current
    thread which is not running any more (it waits) is released and that a
    thread chosen before to run next is dropped. *)
Theorem sched_yield_correct m me c t :
  machine_ok m -> cpus m !! me = Some c ->
  threads m !! current_thread c = Some t -> thread_ok t -> Z.of_nat (length (places m)) + 1 < 2 ^ 62 ->
  exists m' next q, snd (sched_select_thread (is_pinned m) (Some t) c false) = Ok next /\
    queued c ≡ₚ option_list next ++ q /\
    sched_yield me m = (m', Ok tt) /\ machine_ok m' /\
    switched m m' me (default (idle_thread c) next) (kept c t ++ q) /\
    places m ≡ₚ places m' ++ let_go c t.
Proof.
  intros HM Hc Ht Htok Hsm. unfold sched_yield, sched_yield_locked.
  rewrite (bind_ok _ _ m m c) by (unfold get_cpu; rewrite Hc; done).
  assert (Hlt : (me < length (cpus m))%nat) by (eapply lookup_lt_Some; eauto).
  destruct (select_thread_spec m (Some (current_thread c)) me c false HM Hc) as [(E & Es)|(td & c' & E & Es & HM1 & HP1 & Hq1 & Hh & Hn1 & Hcur1 & Hid1)].
  - intros id [= <-]. exists t. done.
  - rewrite (bind_ok _ _ _ _ _ E). rewrite (bind_ok _ _ m m c) by (unfold get_cpu; rewrite Hc; done). cbn [default].
    destruct (sched_switch_spec m me c t (idle_thread c) HM Hc Ht Htok) as (m' & E' & HM' & HP & Hsw);
      [by right|done|]. rewrite Z.eqb_refl, app_nil_r in HP. exists m', None, (queued c). split_and!; try done. by eapply Es.
  - rewrite (bind_ok _ _ _ _ _ E). set (m1 := with_cpu m me c') in *.
    assert (Hc1 : cpus m1 !! me = Some c') by (unfold m1, with_cpu; cbn [cpus]; apply list_lookup_insert_eq; done).
    rewrite (bind_ok _ _ m1 m1 c') by (unfold get_cpu; rewrite Hc1; done). cbn [default].
    destruct (sched_switch_spec m1 me c' t td HM1 Hc1) as (m' & E' & HM' & HP & [Hs1 Hs2 Hs3]);
      [rewrite Hcur1; done|done|by left| |].
    { apply Permutation_length in HP1. cbn [length] in HP1. lia. }
    unfold let_go, kept in *. rewrite Hcur1, Hid1, Hn1 in *.
    exists m', (Some td), (queued c'). split_and!; [by eapply Es|exact Hq1|exact E'|done| |].
    + constructor; [exact Hs1|exact Hs2|]. intros i Hi. rewrite Hs3 by done. apply list_lookup_insert_ne. done.
    + rewrite (proj2 (Z.eqb_neq td _)) in HP.
      * rewrite <- HP, HP1. solve_Permutation.
      * intros ->. apply (ih_idle _ _ Hh me c' Hc1). done.
Qed.

(** ** Witnesses *)

Module UleExamples.

Definition batch_thread : thread := make_kernel_thread 1.
Definition running_thread : thread := set_state batch_thread RUNNING.
Definition rt_thread : thread :=
  MkThread 0 40 PRIO_REALTIME 0 0 0 0 false false READY None None 2.
Definition idle_thread_rec : thread := snd (sched_cpu_init 1 0 (MkCpu 0 0 0 None 0 empty_runq empty_runq 0 0 [] 0 PREEMPT_NONE 0 0)).

(** A processor freshly initialised; its idle thread is [id]. *)
Definition fresh_cpu (id : tid) : cpu_local :=
  fst (sched_cpu_init 1 id (MkCpu 0 0 0 None 0 empty_runq empty_runq 0 0 [] 0 PREEMPT_NONE 0 1)).

(** Thread 10 runs and thread 11 is queued on processor 0; processor 1 idles.
    Threads 1 and 2 are the idle threads, 12 is not placed. *)
Definition busy_cpu : cpu_local :=
  set_load (set_calendar (set_current (fresh_cpu 1) 10 32 1) (rq_push empty_runq 16 11)) 1.
Definition demo_machine : machine :=
  MkMachine [busy_cpu; fresh_cpu 2]
    (list_to_map [(1, idle_thread_rec); (2, idle_thread_rec); (10, running_thread);
                  (11, batch_thread); (12, rt_thread)]) [].

End UleExamples.
Import UleExamples.

Lemma empty_runq_ok : rq_ok empty_runq.
Proof.
  constructor; [done|done|]. intros i Hi. cbn [status empty_runq]. rewrite Z.bits_0.
  unfold rq_queue, empty_runq. cbn [queues]. rewrite lookup_replicate_2 by (unfold RUNQUEUES_N; lia). done.
Qed.

Lemma empty_items : rq_items empty_runq = [].
Proof. reflexivity. Qed.

Lemma fresh_cpu_ok id : cpu_ok (fresh_cpu id).
Proof. constructor; try apply empty_runq_ok; done || constructor. Qed.

Lemma busy_cpu_ok : cpu_ok busy_cpu.
Proof.
  destruct (rq_push_ok empty_runq 16 11 empty_runq_ok ltac:(lia)) as [H _].
  constructor; [apply empty_runq_ok|exact H|done|done| |reflexivity|done].
  change (NoDup [11]). apply NoDup_singleton.
Qed.

Lemma demo_places : places demo_machine = [10; 11].
Proof. reflexivity. Qed.

Lemma demo_machine_ok : machine_ok demo_machine.
Proof.
  constructor.
  - intros [|[|i]] c; cbn; intros [= <-]; [apply busy_cpu_ok|apply fresh_cpu_ok].
  - rewrite demo_places. by repeat constructor; set_solver.
  - intros id. rewrite demo_places. intros [->|[->|?%not_elem_of_nil]%elem_of_cons]%elem_of_cons; [..|done];
      (eexists; split; [reflexivity|]; constructor; [by right; left|done]).
  - intros [|[|i]] c; cbn -[demo_machine]; intros [= <-];
      (split; [eexists; split; [reflexivity|]; constructor; [by right; right|done]|rewrite demo_places; set_solver]).
  - rewrite demo_places. done.
Qed.

Lemma demo_in_hand : in_hand demo_machine 12.
Proof.
  constructor.
  - rewrite demo_places. set_solver.
  - eexists. split; [reflexivity|]. constructor; [by left|done].
  - intros [|[|i]] c; cbn; intros [= <-]; done.
Qed.

Lemma sched_select_thread_correct_witness :
  sched_select_thread (fun _ => false) None busy_cpu true =
    (fst (sched_select_thread (fun _ => false) None busy_cpu true), Ok (Some 11)) /\
  cpu_ok (fst (sched_select_thread (fun _ => false) None busy_cpu true)).
Proof.
  pose proof (sched_select_thread_correct (fun _ => false) None busy_cpu true busy_cpu_ok ltac:(cbn; lia)) as H.
  assert (E : snd (sched_select_thread (fun _ => false) None busy_cpu true) = Ok (Some 11)) by (vm_compute; reflexivity).
  destruct (sched_select_thread (fun _ => false) None busy_cpu true) as [c' r]. cbn [fst snd] in *. subst r.
  split; [done|]. apply H.
Defined.

Lemma sched_select_thread_work_conserving_witness :
  snd (sched_select_thread (fun _ => false) None busy_cpu false) <> Ok None.
Proof.
  intros H. apply (sched_select_thread_work_conserving (fun _ => false) busy_cpu busy_cpu_ok) in H.
  vm_compute in H. discriminate H.
Defined.

Lemma sched_select_thread_order_witness :
  selected (fun _ => false) false busy_cpu 16 11.
Proof.
  apply (sched_select_thread_order (fun _ => false) (Some batch_thread) busy_cpu false
           (fst (sched_select_thread (fun _ => false) (Some batch_thread) busy_cpu false)));
    [exact busy_cpu_ok|vm_compute; discriminate|vm_compute; reflexivity].
Defined.

Lemma sched_insert_in_queue_correct_witness :
  exists c' t', sched_insert_in_queue 0 busy_cpu 12 rt_thread = Ok (c', t') /\ load c' = 2.
Proof.
  destruct (sched_insert_in_queue_correct 0 busy_cpu 12 rt_thread) as (c' & t' & E & _ & _ & Hl & _).
  - exact busy_cpu_ok.
  - constructor; [by left|done].
  - change (queued busy_cpu) with [11]. set_solver.
  - reflexivity.
  - exists c', t'. split; [exact E|]. exact Hl.
Defined.

(** A thread that has run for 8 and slept for 1 second. *)
Definition tired_thread : thread := set_times batch_thread 8000 1000.

Lemma sched_clamp_time_bound_witness : runtime (sched_clamp_time tired_thread) + sleeptime (sched_clamp_time tired_thread) <= 5001.
Proof. apply (sched_clamp_time_bound tired_thread). constructor; vm_compute; split; congruence. Defined.

Lemma sched_recompute_priority_bounds_witness :
  PRIO_LOW_BATCH <= priority (sched_recompute_priority 100000 tired_thread) <= PRIO_HIGH_BATCH.
Proof.
  destruct (sched_recompute_priority_bounds 100000 tired_thread) as (_ & _ & H & _);
    [constructor; vm_compute; split; congruence|]. apply H. vm_compute. reflexivity.
Defined.

(** After the first tick of a fresh processor. *)
Lemma calendar_one_ahead_witness :
  calendar_queue_insidx (calendar_queue_increment (advance_insidx (fresh_cpu 1))) = 2.
Proof.
  destruct (calendar_one_ahead (advance_insidx (fresh_cpu 1)) batch_thread 7) as [H _];
    [vm_compute; split; congruence|reflexivity|vm_compute; split; congruence|]. rewrite H. reflexivity.
Defined.

Lemma pick_cpu_correct_witness :
  exists k c, pick_cpu (cpus demo_machine) rt_thread = Some k /\ cpus demo_machine !! k = Some c.
Proof.
  destruct (pick_cpu_correct (cpus demo_machine) rt_thread) as (k & c & E & Hk & _); [exact I|discriminate|].
  exists k, c. done.
Defined.

Lemma sched_ready_correct_witness :
  exists m', sched_ready 0 12 demo_machine = (m', Ok tt) /\ places m' ≡ₚ [12; 10; 11].
Proof.
  destruct (sched_ready_correct demo_machine 0 12) as (m' & E & _ & HP).
  - exact demo_machine_ok.
  - discriminate.
  - exact demo_in_hand.
  - rewrite demo_places. reflexivity.
  - intros t i Ht. vm_compute in Ht. injection Ht as <-. discriminate.
  - exists m'. rewrite demo_places in HP. split; [exact E|exact HP].
Defined.

Lemma balance_load_correct_witness :
  exists m', balance_load 0 demo_machine = (m', Ok tt) /\ places m' ≡ₚ [10; 11].
Proof.
  destruct (balance_load_correct demo_machine 0 demo_machine_ok) as (m' & E & _ & HP).
  exists m'. rewrite demo_places in HP. split; [exact E|exact HP].
Defined.

Lemma sched_yield_correct_witness :
  exists m', sched_yield 0 demo_machine = (m', Ok tt) /\ switched demo_machine m' 0 11 [10] /\ places m' ≡ₚ [10; 11].
Proof.
  destruct (sched_yield_correct demo_machine 0 busy_cpu running_thread) as (m' & next & q & En & Hq & E & _ & Hsw & HP).
  - exact demo_machine_ok.
  - reflexivity.
  - reflexivity.
  - constructor; [by right; left|done].
  - rewrite demo_places. reflexivity.
  - assert (En' : Ok (Some 11) = Ok next) by (rewrite <- En; vm_compute; reflexivity). injection En' as <-.
    change (queued busy_cpu) with [11] in Hq. cbn in Hq. apply Permutation_cons_inv, Permutation_nil in Hq as ->.
    exists m'. split; [exact E|]. split; [exact Hsw|]. rewrite demo_places in HP. cbn in HP. rewrite app_nil_r in HP. symmetry. exact HP.
Defined.

(** ** What the code does that it does not mean to do *)

(** A thread with [nice] 19 is given the highest batch priority: the
    difference is truncated to eight bits before it is clamped. *)
Lemma nice_wraps_to_high :
  priority (sched_recompute_priority 100 (MkThread 19 16 1 0 0 1000 100 false false RUNNING None None 0)) = PRIO_HIGH_BATCH.
Proof. vm_compute. reflexivity. Qed.

(** An interactive thread with a low nice value is above a realtime one. *)
Lemma interactive_above_realtime :
  let t := sched_recompute_priority 100 (MkThread (-100) 16 1 0 2000 100 10 false false RUNNING None None 0) in
  interactive t = true /\ PRIO_REALTIME < priority t.
Proof. vm_compute. split; reflexivity. Qed.

(** Of two realtime threads the one with the lower priority is taken. *)
Lemma realtime_low_first :
  snd (sched_select_thread (fun _ => false) None
         (set_load (set_realtime (fresh_cpu 1) (rq_push (rq_push empty_runq 60 20) 40 21)) 2) false)
  = Ok (Some 21).
Proof. vm_compute. reflexivity. Qed.

(** A thread chosen to run next is dropped when the current thread yields
    before the preemption is carried out. *)
Lemma yield_loses_next :
  let m := MkMachine [set_next busy_cpu (Some 12); fresh_cpu 2] (threads demo_machine) [] in
  places m = [12; 10; 11] /\ places (fst (sched_yield 0 m)) = [11; 10].
Proof. split; vm_compute; reflexivity. Qed.

(** Likewise when the quantum ends: the new choice overwrites the old one. *)
Lemma reschedule_loses_next :
  let m := MkMachine [set_next busy_cpu (Some 12); fresh_cpu 2] (threads demo_machine) [] in
  places m = [12; 10; 11] /\ places (fst (sched_reschedule 0 m)) = [11; 10].
Proof. split; vm_compute; reflexivity. Qed.

(** A batch thread sits in the calendar queue given by its insertion index,
    not in the one its priority names. *)
Lemma remove_from_wrong_queue :
  snd (sched_remove_from_queue 0 11
         (MkMachine [fst (default (busy_cpu, batch_thread)
                     (match sched_insert_in_queue 0 (fresh_cpu 1) 11 (set_priority batch_thread 10 false) with
                      | Ok r => Some r | _ => None end))]
           {[11 := set_runq (set_priority batch_thread 10 false) (Some (0%nat, false))]} [])) = Halt.
Proof. vm_compute. reflexivity. Qed.

(** The address space activated on a switch is the old thread's. *)
Lemma switch_keeps_address_space :
  let m := MkMachine [set_next busy_cpu None; fresh_cpu 2] (threads demo_machine) [] in
  (cr3 <$> cpus (fst (sched_switch 0 10 12 m)) !! 0%nat) = Some 1 /\
  (pmap <$> threads m !! 12) = Some 2.
Proof. split; vm_compute; reflexivity. Qed.

(** Pinning a ready thread to another processor: it stays on the old
    processor's queue and is taken off the new one. *)
Lemma pin_leaves_old_queue :
  let t := set_cpu (set_runq (set_priority batch_thread 40 true) (Some (0%nat, true))) false (Some 0%nat) in
  let c0 := set_load (set_realtime (fresh_cpu 1) (rq_push empty_runq 40 11)) 1 in
  let c1 := set_current (fresh_cpu 2) 10 (2 * 50 + 1) 1 in
  let m' := fst (sched_pin 0 11 1 (MkMachine [c0; c1] {[11 := t; 10 := running_thread]} [])) in
  (queued <$> cpus m' !! 0%nat) = Some [11] /\ (queued <$> cpus m' !! 1%nat) = Some [].
Proof. split; vm_compute; reflexivity. Qed.
