(* ===== verification/Rr.v ===== *)
(** * The round-robin scheduler ([core/sched/rr.c])

    The scheduler chosen by [CONFIG_SCHED_RR]: one queue per processor, and
    processors picked in turn.  Threads and preemption reasons are those of
    [Ule.v]; [struct cpu_local] holds this scheduler's [struct sched_percpu].
    The routines are followed by the two places that drive them: the clock
    interrupt and the dispatch of software interrupts. *)

From S2P Require Import Prelude Ule.

Record rr_cpu := MkRrCpu {
  rr_runq : list tid;
  rr_current : tid;
  rr_next : option tid;
  rr_idle : tid;
  rr_reason : preemption_reason;
  rr_pending : Z;
  rr_cr3 : Z;
}.

Definition rr_set_runq (c : rr_cpu) (q : list tid) : rr_cpu :=
  MkRrCpu q (rr_current c) (rr_next c) (rr_idle c) (rr_reason c) (rr_pending c) (rr_cr3 c).
Definition rr_set_next (c : rr_cpu) (n : option tid) : rr_cpu :=
  MkRrCpu (rr_runq c) (rr_current c) n (rr_idle c) (rr_reason c) (rr_pending c) (rr_cr3 c).
Definition rr_set_current (c : rr_cpu) (t : tid) : rr_cpu :=
  MkRrCpu (rr_runq c) t (rr_next c) (rr_idle c) (rr_reason c) (rr_pending c) (rr_cr3 c).
Definition rr_set_reason (c : rr_cpu) (r : preemption_reason) : rr_cpu :=
  MkRrCpu (rr_runq c) (rr_current c) (rr_next c) (rr_idle c) r (rr_pending c) (rr_cr3 c).
Definition rr_set_cr3 (c : rr_cpu) (p : Z) : rr_cpu :=
  MkRrCpu (rr_runq c) (rr_current c) (rr_next c) (rr_idle c) (rr_reason c) (rr_pending c) p.
(** [set_softint_pending] of [core/ipl.c]. *)
Definition rr_set_softint_pending (c : rr_cpu) (ipl : Z) : rr_cpu :=
  MkRrCpu (rr_runq c) (rr_current c) (rr_next c) (rr_idle c) (rr_reason c)
    (u8 (Z.lor (rr_pending c) (Z.shiftl 1 ipl))) (rr_cr3 c).

(** [rr_last_cpu] is the file's [last_cpu]. *)
Record rr_machine := MkRr {
  rr_cpus : list rr_cpu;
  rr_threads : gmap tid thread;
  rr_ipis : list nat;
  rr_last_cpu : nat;
}.

Definition rr_get_cpu (i : nat) : M rr_machine rr_cpu := fun m =>
  match rr_cpus m !! i with Some c => (m, Ok c) | None => (m, Halt) end.
Definition rr_put_cpu (i : nat) (c : rr_cpu) : M rr_machine unit := fun m =>
  (MkRr (<[i := c]> (rr_cpus m)) (rr_threads m) (rr_ipis m) (rr_last_cpu m), Ok tt).
Definition rr_get_thread (id : tid) : M rr_machine thread := fun m =>
  match rr_threads m !! id with Some t => (m, Ok t) | None => (m, Halt) end.
Definition rr_put_thread (id : tid) (t : thread) : M rr_machine unit := fun m =>
  (MkRr (rr_cpus m) (<[id := t]> (rr_threads m)) (rr_ipis m) (rr_last_cpu m), Ok tt).
Definition rr_send_ipi (i : nat) : M rr_machine unit := fun m =>
  (MkRr (rr_cpus m) (rr_threads m) (rr_ipis m ++ [i]) (rr_last_cpu m), Ok tt).

(** The two halves of [pick_cpu]: the fetch and increment, and the wrap.  They
    are separate accesses to a variable that no lock protects. *)
Definition pick_cpu_fetch : M rr_machine nat := fun m =>
  (MkRr (rr_cpus m) (rr_threads m) (rr_ipis m) (S (rr_last_cpu m)), Ok (rr_last_cpu m)).
Definition pick_cpu_wrap : M rr_machine unit := fun m =>
  (MkRr (rr_cpus m) (rr_threads m) (rr_ipis m)
     (if Nat.leb (length (rr_cpus m)) (rr_last_cpu m) then 0%nat else rr_last_cpu m), Ok tt).

Definition pick_cpu : M rr_machine nat :=
  cpu_id ← pick_cpu_fetch;
  pick_cpu_wrap;;
  mret cpu_id.

Definition sched_switch (me : nat) (cur new : tid) : M rr_machine unit :=
  c ← rr_get_cpu me;
  t ← rr_get_thread cur;
  (if negb (cur =? rr_idle c) && bool_decide (state t = RUNNING) then
     rr_put_thread cur (set_state t READY);;
     rr_put_cpu me (rr_set_runq c (rr_runq c ++ [cur]))
   else mret tt);;
  c ← rr_get_cpu me;
  rr_put_cpu me (rr_set_current (rr_set_next c None) new);;
  n ← rr_get_thread new;
  rr_put_thread new (set_state n RUNNING);;
  t ← rr_get_thread cur;
  c ← rr_get_cpu me;
  rr_put_cpu me (rr_set_cr3 c (thread_switch_pmap t n (rr_cr3 c))).

Definition sched_reschedule (me : nat) : M rr_machine unit :=
  c ← rr_get_cpu me;
  match rr_runq c with
  | newtd :: rest => rr_put_cpu me (rr_set_runq (rr_set_next c (Some newtd)) rest)
  | [] => mret tt
  end.

Definition sched_yield (me : nat) : M rr_machine unit :=
  c ← rr_get_cpu me;
  match rr_runq c with
  | [] => sched_switch me (rr_current c) (rr_idle c)
  | next :: rest =>
      rr_put_cpu me (rr_set_runq c rest);;
      sched_switch me (rr_current c) next
  end.

Definition sched_wait (me : nat) : M rr_machine unit :=
  c ← rr_get_cpu me;
  td ← rr_get_thread (rr_current c);
  rr_put_thread (rr_current c) (set_state td WAITING);;
  sched_yield me.

Definition sched_enqueue_locked (me : nat) (id : tid) : M rr_machine unit :=
  cpu ← pick_cpu;
  c ← rr_get_cpu cpu;
  t ← rr_get_thread id;
  rr_put_thread id (set_cpu (set_state t READY) (pinned t) (Some cpu));;
  if (rr_current c =? rr_idle c) && bool_decide (rr_next c = None) then
    rr_put_cpu cpu (rr_set_softint_pending (rr_set_reason (rr_set_next c (Some id)) PREEMPT_HIGHER_PRIORITY) IPL_DISPATCH);;
    if bool_decide (cpu = me) then mret tt else rr_send_ipi cpu
  else rr_put_cpu cpu (rr_set_runq c (rr_runq c ++ [id])).

Definition sched_ready (me : nat) (id : tid) : M rr_machine unit := sched_enqueue_locked me id.
Definition sched_wake (me : nat) (id : tid) : M rr_machine unit := sched_ready me id.

(** A zeroed [struct thread]; [READY] is zero. *)
Definition make_kernel_thread (kernel_pmap : Z) : thread :=
  MkThread 0 0 0 0 0 0 0 false false READY None None kernel_pmap.

(** [sched_cpu_init]: the idle thread, at [id], runs. *)
Definition sched_cpu_init (kernel_pmap : Z) (id : tid) (c : rr_cpu) : rr_cpu * thread :=
  (rr_set_current (MkRrCpu [] (rr_current c) (rr_next c) id (rr_reason c) (rr_pending c) (rr_cr3 c)) id,
   set_state (make_kernel_thread kernel_pmap) RUNNING).

(** The end of [hardclock]. *)
Definition hardclock_preempt (me : nat) : M rr_machine unit :=
  c ← rr_get_cpu me;
  let c := if rr_current c =? rr_idle c then c else rr_set_reason c PREEMPT_QUANTUM_END in
  rr_put_cpu me (rr_set_softint_pending c IPL_DISPATCH).

(** [dispatch_dpc]: the reason is read before the deferred calls run; [dpcs]
    is what they do. *)
Definition dispatch_dpc (me : nat) (dpcs : M rr_machine unit) : M rr_machine unit :=
  c ← rr_get_cpu me;
  let preempt_reason := rr_reason c in
  dpcs;;
  match preempt_reason with
  | PREEMPT_QUANTUM_END | PREEMPT_MIGRATION => sched_reschedule me
  | _ => mret tt
  end;;
  c ← rr_get_cpu me;
  rr_put_cpu me (rr_set_reason c PREEMPT_NONE);;
  match rr_next c with
  | Some next => sched_switch me (rr_current c) next
  | None => mret tt
  end.

(** ** Traces

    What happens to the scheduler, one event at a time.  A dispatch runs
    deferred calls that ready the given threads, as the timers do. *)

Inductive rr_op :=
| RReady (me : nat) (id : tid)
| RYield (me : nat)
| RWait (me : nat)
| RTick (me : nat)
| RDispatch (me : nat) (ids : list tid).

Fixpoint ready_all (me : nat) (ids : list tid) : M rr_machine unit :=
  match ids with
  | [] => mret tt
  | id :: ids => sched_ready me id;; ready_all me ids
  end.

Definition rr_do (op : rr_op) : M rr_machine unit :=
  match op with
  | RReady me id => sched_ready me id
  | RYield me => sched_yield me
  | RWait me => sched_wait me
  | RTick me => hardclock_preempt me
  | RDispatch me ids => dispatch_dpc me (ready_all me ids)
  end.

(** The machine after [sched_cpu_init] on every processor and
    [make_kernel_thread] for the threads [tds]; the idle threads are [ids]. *)
Definition rr_boot (kernel_pmap : Z) (ids tds : list tid) : rr_machine :=
  let zero := MkRrCpu [] 0 None 0 PREEMPT_NONE 0 0 in
  MkRr ((fun id => (sched_cpu_init kernel_pmap id zero).1) <$> ids)
    (list_to_map (((fun id => (id, (sched_cpu_init kernel_pmap id zero).2)) <$> ids) ++
                  ((fun id => (id, make_kernel_thread kernel_pmap)) <$> tds))) [] 0.

(** ** The invariant *)

(** Threads waiting to run on a processor, the thread that runs, and both. *)
Definition rr_queued (c : rr_cpu) : list tid := rr_runq c ++ option_list (rr_next c).
Definition rr_running (c : rr_cpu) : list tid := if rr_current c =? rr_idle c then [] else [rr_current c].
Definition rr_placed (c : rr_cpu) : list tid := rr_queued c ++ rr_running c.
Definition rr_places (m : rr_machine) : list tid := concat (rr_placed <$> rr_cpus m).
Definition rr_idles (m : rr_machine) : list tid := rr_idle <$> rr_cpus m.

Definition has_state (ths : gmap tid thread) (st : thread_state) (x : tid) : Prop :=
  exists t, ths !! x = Some t /\ state t = st.

Record rr_cpu_ok (ths : gmap tid thread) (c : rr_cpu) : Prop := {
  rc_queued : forall x, x ∈ rr_queued c -> has_state ths READY x;
  rc_running : forall x, x ∈ rr_running c -> has_state ths RUNNING x;
  rc_idle : is_Some (ths !! rr_idle c);
  (** A thread is announced only to an idle processor. *)
  rc_next : rr_next c <> None -> rr_current c = rr_idle c /\ rr_reason c = PREEMPT_HIGHER_PRIORITY;
}.

Definition rr_all (c : rr_cpu) : list tid := rr_placed c ++ [rr_idle c].

Record rr_ok (m : rr_machine) : Prop := {
  (** No thread is in two places, and idle threads are in none. *)
  ro_nodup : NoDup (concat (rr_all <$> rr_cpus m));
  ro_cpu : forall i c, rr_cpus m !! i = Some c -> rr_cpu_ok (rr_threads m) c;
  ro_last : (rr_last_cpu m < length (rr_cpus m))%nat;
}.

(** No processor idles while its queue holds a thread. *)
Definition rr_work (m : rr_machine) : Prop :=
  forall i c, rr_cpus m !! i = Some c -> rr_current c = rr_idle c -> rr_next c = None -> rr_runq c = [].

(** A processor whose quantum ended while it went idle. *)
Definition stale_quantum (c : rr_cpu) : Prop :=
  rr_current c = rr_idle c /\ (rr_reason c = PREEMPT_QUANTUM_END \/ rr_reason c = PREEMPT_MIGRATION).

(** Threads that may be made ready: known, and in no place yet. *)
Definition rr_fresh (m : rr_machine) (ids : list tid) : Prop :=
  NoDup ids /\ forall x, x ∈ ids -> is_Some (rr_threads m !! x) /\ x ∉ rr_places m /\ x ∉ rr_idles m.

(** When an event can happen: the idle thread neither yields nor waits.  A
    [lone] yield is one that no other thread of the processor's queue takes
    up. *)
Definition rr_enabled (lone : bool) (m : rr_machine) (op : rr_op) : Prop :=
  match op with
  | RReady me id => (me < length (rr_cpus m))%nat /\ rr_fresh m [id]
  | RYield me => exists c, rr_cpus m !! me = Some c /\ rr_current c <> rr_idle c /\ (lone = false -> rr_runq c <> [])
  | RWait me => exists c, rr_cpus m !! me = Some c /\ rr_current c <> rr_idle c
  | RTick me => (me < length (rr_cpus m))%nat
  | RDispatch me ids => rr_fresh m ids /\
      exists c, rr_cpus m !! me = Some c /\ (ids = [] \/ ~ stale_quantum c)
  end.

Lemma rr_all_elem m x : x ∈ concat (rr_all <$> rr_cpus m) <-> x ∈ rr_places m \/ x ∈ rr_idles m.
Proof.
  unfold rr_places, rr_idles, rr_all. induction (rr_cpus m) as [|c l IH]; cbn; [set_solver|].
  rewrite !elem_of_app, IH, list_elem_of_singleton, elem_of_cons. tauto.
Qed.

Lemma rr_places_with m i c :
  rr_cpus m !! i = Some c ->
  exists rest, rr_places m ≡ₚ rr_placed c ++ rest /\
    forall c' ths ip k, rr_places (MkRr (<[i := c']> (rr_cpus m)) ths ip k) ≡ₚ rr_placed c' ++ rest.
Proof.
  intros Hc. destruct (concat_insert (rr_placed <$> rr_cpus m) i (rr_placed c)) as (rest & H1 & H2).
  - rewrite list_lookup_fmap, Hc. done.
  - exists rest. split; [exact H1|]. intros. unfold rr_places. cbn [rr_cpus]. rewrite list_fmap_insert. apply H2.
Qed.

Lemma rr_all_with m i c :
  rr_cpus m !! i = Some c ->
  exists rest, concat (rr_all <$> rr_cpus m) ≡ₚ rr_all c ++ rest /\
    (forall c', concat (rr_all <$> <[i := c']> (rr_cpus m)) ≡ₚ rr_all c' ++ rest) /\
    forall j c2, j <> i -> rr_cpus m !! j = Some c2 -> forall x, x ∈ rr_all c2 -> x ∈ rest.
Proof.
  intros Hc. destruct (concat_insert (rr_all <$> rr_cpus m) i (rr_all c)) as (rest & H1 & H2).
  { rewrite list_lookup_fmap, Hc. done. }
  exists rest. split_and!; [done| |].
  - intros c'. rewrite list_fmap_insert. apply H2.
  - intros j c2 Hj Hc2 x Hx. rewrite <- (app_nil_l rest), <- (H2 []). apply list_elem_of_In, in_concat.
    exists (rr_all c2). split; [|by apply list_elem_of_In]. apply list_elem_of_In, (list_elem_of_lookup_2 _ j).
    rewrite list_lookup_insert_ne, list_lookup_fmap, Hc2 by done. done.
Qed.

Lemma rr_cpu_ok_ext ths ths' c :
  (forall x, x ∈ rr_all c -> ths' !! x = ths !! x) -> rr_cpu_ok ths c -> rr_cpu_ok ths' c.
Proof.
  intros E [H1 H2 H3 H4]. unfold rr_all, rr_placed in E. split; try done.
  - intros x Hx. destruct (H1 x Hx) as (t & ? & ?). exists t. rewrite E by (rewrite !elem_of_app; tauto). done.
  - intros x Hx. destruct (H2 x Hx) as (t & ? & ?). exists t. rewrite E by (rewrite !elem_of_app; tauto). done.
  - rewrite E; [done|]. rewrite !elem_of_app, list_elem_of_singleton. tauto.
Qed.

(** A processor's record and the threads on it change: those in [inn] arrive,
    those in [out] leave. *)
Lemma rr_update m i c c' ths ip k inn out :
  rr_ok m -> rr_cpus m !! i = Some c -> rr_idle c' = rr_idle c ->
  rr_placed c ++ inn ≡ₚ rr_placed c' ++ out ->
  NoDup inn -> (forall x, x ∈ inn -> x ∉ rr_places m /\ x ∉ rr_idles m) ->
  rr_cpu_ok ths c' ->
  (forall x, x ∉ rr_all c -> x ∉ inn -> ths !! x = rr_threads m !! x) ->
  (k < length (rr_cpus m))%nat ->
  let m' := MkRr (<[i := c']> (rr_cpus m)) ths ip k in
  rr_ok m' /\ rr_places m ++ inn ≡ₚ rr_places m' ++ out.
Proof.
  intros [Hnd Hcs Hl] Hc Hid Hp Hni Hfr Hc' Hths Hk. cbn zeta.
  destruct (rr_all_with m i c Hc) as (rest & R1 & R2 & R3).
  assert (Hbig : NoDup (rr_all c ++ rest ++ inn)).
  { rewrite app_assoc, <- R1. apply NoDup_app. split_and!; [done| |done]. intros x Hx Hi.
    apply rr_all_elem in Hx. destruct (Hfr x Hi). tauto. }
  split; [split|].
  - cbn [rr_cpus]. rewrite R2. unfold rr_all in *. rewrite Hid.
    assert (E : (rr_placed c ++ [rr_idle c]) ++ rest ++ inn ≡ₚ ((rr_placed c' ++ [rr_idle c]) ++ rest) ++ out).
    { transitivity ((rr_placed c ++ inn) ++ [rr_idle c] ++ rest); [solve_Permutation|]. rewrite Hp. solve_Permutation. }
    rewrite E in Hbig. apply NoDup_app in Hbig as (Hbig & _). exact Hbig.
  - cbn [rr_cpus rr_threads]. intros j c2 Hj. destruct (decide (j = i)) as [->|Hji].
    + rewrite list_lookup_insert_eq in Hj by (by apply lookup_lt_Some in Hc). naive_solver.
    + rewrite list_lookup_insert_ne in Hj by done. apply (rr_cpu_ok_ext (rr_threads m)); [|by eapply Hcs].
      intros x Hx. pose proof (R3 j c2 Hji Hj x Hx) as Hr. apply NoDup_app in Hbig as (_ & Hd1 & Hbig).
      apply NoDup_app in Hbig as (_ & Hd2 & _). apply Hths; [|by apply Hd2].
      intros Ha. apply (Hd1 x Ha). apply elem_of_app. tauto.
  - cbn. rewrite length_insert. done.
  - destruct (rr_places_with m i c Hc) as (rest' & -> & E). rewrite E.
    transitivity ((rr_placed c ++ inn) ++ rest'); [solve_Permutation|]. rewrite Hp. solve_Permutation.
Qed.

(** ** Each routine in one step *)

Lemma rr_get_cpu_eq m i c : rr_cpus m !! i = Some c -> rr_get_cpu i m = (m, Ok c).
Proof. unfold rr_get_cpu. intros ->. done. Qed.
Lemma rr_get_thread_eq m x t : rr_threads m !! x = Some t -> rr_get_thread x m = (m, Ok t).
Proof. unfold rr_get_thread. intros ->. done. Qed.

(** Whether [sched_switch] puts the thread it leaves back on the queue. *)
Definition requeued (c : rr_cpu) (cur : tid) (t : thread) : bool :=
  negb (cur =? rr_idle c) && bool_decide (state t = RUNNING).

Definition after_switch (m : rr_machine) (me : nat) (c : rr_cpu) (cur new : tid) (t n : thread) : rr_machine :=
  let b := requeued c cur t in
  MkRr (<[me := MkRrCpu (rr_runq c ++ if b then [cur] else []) new None (rr_idle c) (rr_reason c) (rr_pending c)
                  (thread_switch_pmap t n (rr_cr3 c))]> (rr_cpus m))
    (<[new := set_state n RUNNING]> (if b then <[cur := set_state t READY]> (rr_threads m) else rr_threads m))
    (rr_ipis m) (rr_last_cpu m).

Lemma sched_switch_eq m me c cur new t n :
  rr_cpus m !! me = Some c -> rr_threads m !! cur = Some t -> rr_threads m !! new = Some n -> cur <> new ->
  sched_switch me cur new m = (after_switch m me c cur new t n, Ok tt).
Proof.
  intros Hc Ht Hn Hne. pose proof (lookup_lt_Some _ _ _ Hc) as Hlt.
  unfold sched_switch, after_switch. rewrite (bind_ok _ _ _ _ _ (rr_get_cpu_eq _ _ _ Hc)).
  rewrite (bind_ok _ _ _ _ _ (rr_get_thread_eq _ _ _ Ht)). fold (requeued c cur t).
  destruct (requeued c cur t).
  - rewrite (bind_ok _ _ m (MkRr (<[me := rr_set_runq c (rr_runq c ++ [cur])]> (rr_cpus m))
      (<[cur := set_state t READY]> (rr_threads m)) (rr_ipis m) (rr_last_cpu m)) tt) by done.
    erewrite bind_ok by (apply rr_get_cpu_eq; cbn [rr_cpus]; by apply list_lookup_insert_eq).
    erewrite bind_ok by reflexivity.
    erewrite bind_ok by (apply rr_get_thread_eq; cbn [rr_threads]; rewrite lookup_insert_ne by done; exact Hn).
    erewrite bind_ok by reflexivity.
    erewrite bind_ok by (apply rr_get_thread_eq; cbn [rr_threads]; rewrite lookup_insert_ne by done; apply lookup_insert_eq).
    erewrite bind_ok by (apply rr_get_cpu_eq; cbn [rr_cpus]; apply list_lookup_insert_eq; rewrite length_insert; done).
    unfold rr_put_cpu. cbn [rr_cpus rr_threads rr_ipis rr_last_cpu]. rewrite !list_insert_insert_eq. done.
  - rewrite (bind_ok _ _ m m tt) by done. rewrite (bind_ok _ _ _ _ _ (rr_get_cpu_eq _ _ _ Hc)).
    erewrite bind_ok by reflexivity. erewrite bind_ok by (apply rr_get_thread_eq; exact Hn).
    erewrite bind_ok by reflexivity.
    erewrite bind_ok by (apply rr_get_thread_eq; cbn [rr_threads]; rewrite lookup_insert_ne by done; exact Ht).
    erewrite bind_ok by (apply rr_get_cpu_eq; cbn [rr_cpus]; by apply list_lookup_insert_eq).
    unfold rr_put_cpu. cbn [rr_cpus rr_threads rr_ipis rr_last_cpu]. rewrite list_insert_insert_eq, app_nil_r. done.
Qed.

(** The state [sched_yield] leaves, from any machine whose current thread is
    not the idle one. *)
Definition yield_to (c : rr_cpu) : tid := default (rr_idle c) (head (rr_runq c)).

Lemma sched_yield_eq m me c t n :
  rr_cpus m !! me = Some c -> rr_threads m !! rr_current c = Some t -> rr_threads m !! yield_to c = Some n ->
  rr_current c <> yield_to c ->
  exists c1, rr_runq c1 = tail (rr_runq c) /\ rr_idle c1 = rr_idle c /\ rr_reason c1 = rr_reason c /\
    sched_yield me m = (after_switch m me c1 (rr_current c) (yield_to c) t n, Ok tt).
Proof.
  intros Hc Ht Hn Hne. pose proof (lookup_lt_Some _ _ _ Hc) as Hlt. unfold yield_to in *. unfold sched_yield.
  rewrite (bind_ok _ _ _ _ _ (rr_get_cpu_eq _ _ _ Hc)). destruct (rr_runq c) as [|x rest] eqn:Eq; cbn [head default] in *.
  - exists c. rewrite Eq. split_and!; try done. by apply sched_switch_eq.
  - exists (rr_set_runq c rest). split_and!; try done. erewrite bind_ok by reflexivity.
    rewrite (sched_switch_eq _ me (rr_set_runq c rest) _ _ t n); [|by apply list_lookup_insert_eq|done..].
    unfold after_switch. cbn [rr_cpus rr_threads rr_ipis rr_last_cpu]. rewrite list_insert_insert_eq. done.
Qed.

(** ** Facts of the invariant *)

Lemma rr_all_nodup m i c : rr_ok m -> rr_cpus m !! i = Some c -> NoDup (rr_all c).
Proof.
  intros Hm Hc. destruct (rr_all_with m i c Hc) as (rest & R & _). pose proof (ro_nodup m Hm) as H.
  rewrite R in H. apply NoDup_app in H. tauto.
Qed.

(** What a processor that is not idle looks like. *)
Lemma rr_busy m i c :
  rr_ok m -> rr_cpus m !! i = Some c -> rr_current c <> rr_idle c ->
  rr_next c = None /\ rr_placed c = rr_runq c ++ [rr_current c] /\
  NoDup (rr_runq c ++ [rr_current c; rr_idle c]) /\
  (exists t, rr_threads m !! rr_current c = Some t /\ state t = RUNNING).
Proof.
  intros Hm Hc Hne. pose proof (ro_cpu m Hm i c Hc) as H. pose proof (rr_all_nodup m i c Hm Hc) as Hnd.
  assert (En : rr_next c = None).
  { destruct (rr_next c) eqn:E; [|done]. destruct (rc_next _ _ H); [by rewrite E|]. done. }
  assert (Er : rr_running c = [rr_current c]) by (unfold rr_running; case_if; [done|done]).
  assert (Ep : rr_placed c = rr_runq c ++ [rr_current c]).
  { unfold rr_placed, rr_queued. rewrite En, Er, app_nil_r. done. }
  split_and!; try done.
  - unfold rr_all in Hnd. rewrite Ep, <- app_assoc in Hnd. exact Hnd.
  - apply (rc_running _ _ H). rewrite Er. constructor.
Qed.

Lemma yield_to_spec m i c :
  rr_ok m -> rr_cpus m !! i = Some c -> rr_current c <> rr_idle c ->
  is_Some (rr_threads m !! yield_to c) /\ rr_current c <> yield_to c /\
  rr_runq c = (if yield_to c =? rr_idle c then [] else [yield_to c]) ++ tail (rr_runq c) /\
  (forall x, x ∈ tail (rr_runq c) -> x <> yield_to c /\ x <> rr_current c).
Proof.
  intros Hm Hc Hne. destruct (rr_busy m i c Hm Hc Hne) as (En & Ep & Hnd & _). unfold yield_to.
  pose proof (ro_cpu m Hm i c Hc) as H. destruct (rr_runq c) as [|x l] eqn:Eq; cbn [head default tail].
  - split_and!; [apply (rc_idle _ _ H)|done|rewrite Z.eqb_refl; done|set_solver].
  - cbn in Hnd. apply NoDup_cons in Hnd as (Hx & Hnd). apply NoDup_app in Hnd as (Hl & Hd & _).
    split_and!.
    + destruct (rc_queued _ _ H x) as (t & E & _); [|by exists t]. unfold rr_queued. rewrite Eq. set_solver.
    + set_solver.
    + rewrite (proj2 (Z.eqb_neq _ _)) by set_solver. done.
    + intros y Hy. split; [set_solver|]. intros ->. apply (Hd _ Hy). constructor.
Qed.

(** How far a processor's queue moved: it grew at its tail, or its head runs. *)
Definition took_head (c c' : rr_cpu) : Prop :=
  exists x l l', rr_runq c = x :: l /\ rr_current c' = x /\ rr_runq c' = l ++ l'.
Definition rr_adv (c c' : rr_cpu) : Prop :=
  (exists l, rr_runq c' = rr_runq c ++ l) \/ took_head c c'.

Definition rr_advances (m m' : rr_machine) : Prop :=
  length (rr_cpus m') = length (rr_cpus m) /\
  forall j c c', rr_cpus m !! j = Some c -> rr_cpus m' !! j = Some c' -> rr_adv c c'.

Lemma rr_advances_with m i c c' ths ip k :
  rr_cpus m !! i = Some c -> rr_adv c c' -> rr_advances m (MkRr (<[i := c']> (rr_cpus m)) ths ip k).
Proof.
  intros Hc Ha. split; cbn [rr_cpus]; [apply length_insert|]. intros j c1 c2 H1 H2. destruct (decide (j = i)) as [->|Hj].
  - rewrite list_lookup_insert_eq in H2 by (by apply lookup_lt_Some in Hc). naive_solver.
  - rewrite list_lookup_insert_ne in H2 by done. left. exists []. rewrite app_nil_r. congruence.
Qed.

Lemma rr_work_with m i c' ths ip k :
  rr_work m -> (rr_current c' = rr_idle c' -> rr_next c' = None -> rr_runq c' = []) ->
  rr_work (MkRr (<[i := c']> (rr_cpus m)) ths ip k).
Proof.
  intros Hw Hc' j c Hj. cbn [rr_cpus] in Hj. apply list_lookup_insert_Some in Hj as [(-> & <- & _)|(_ & Hj)]; [done|by eapply Hw].
Qed.

Lemma has_state_insert ths x t : has_state (<[x := t]> ths) (state t) x.
Proof. exists t. by rewrite lookup_insert_eq. Qed.
Lemma has_state_insert_ne ths x y t st : x <> y -> has_state ths st y -> has_state (<[x := t]> ths) st y.
Proof. intros Hne (u & Hu & Hs). exists u. by rewrite lookup_insert_ne. Qed.

(** A switch from [cur] to [new], which was taken off the queue or announced. *)
Lemma after_switch_ok m ths0 me c0 c new t n :
  rr_ok m -> rr_cpus m !! me = Some c0 -> rr_idle c = rr_idle c0 ->
  (forall x, x <> rr_current c0 -> ths0 !! x = rr_threads m !! x) ->
  ths0 !! rr_current c0 = Some t -> ths0 !! new = Some n -> rr_current c0 <> new ->
  rr_queued c0 ≡ₚ (if new =? rr_idle c0 then [] else [new]) ++ rr_runq c ->
  let m' := after_switch (MkRr (rr_cpus m) ths0 (rr_ipis m) (rr_last_cpu m)) me c (rr_current c0) new t n in
  rr_ok m' /\ rr_places m ≡ₚ rr_places m' ++ (if requeued c (rr_current c0) t then [] else rr_running c0).
Proof.
  intros Hm Hc Hid Hths Ht Hn Hne Hq. cbn zeta. pose proof (rr_all_nodup m me c0 Hm Hc) as Hnd.
  pose proof (ro_cpu m Hm me c0 Hc) as Hok. unfold after_switch. cbn [rr_cpus rr_threads rr_ipis rr_last_cpu].
  set (b := requeued c (rr_current c0) t).
  set (c' := MkRrCpu _ _ _ _ _ _ _). set (ths := <[new := _]> _).
  assert (Hb : b = true -> rr_running c0 = [rr_current c0]).
  { unfold b, requeued, rr_running. rewrite Hid. intros H. destruct (rr_current c0 =? rr_idle c0); done. }
  assert (Hp : rr_placed c0 ≡ₚ rr_placed c' ++ (if b then [] else rr_running c0)).
  { assert (Er : rr_running c' = if new =? rr_idle c0 then [] else [new]).
    { unfold rr_running. cbn [c' rr_current rr_idle]. rewrite Hid. done. }
    unfold rr_placed. rewrite Er, Hq. unfold rr_queued. cbn [rr_runq rr_next c' option_list].
    destruct b; [rewrite Hb by done|]; destruct (new =? rr_idle c0); solve_Permutation. }
  assert (Hin : forall x, x ∈ rr_runq c -> x <> new /\ x <> rr_current c0 /\ x ∈ rr_queued c0).
  { intros x Hx. assert (Hx0 : x ∈ rr_queued c0) by (rewrite Hq; set_solver). unfold rr_all, rr_placed in Hnd.
    assert (x <> rr_idle c0) by (rewrite <- app_assoc in Hnd; apply NoDup_app in Hnd as (_ & Hd & _); set_solver).
    split_and!; [|..|done].
    - intros ->. rewrite (proj2 (Z.eqb_neq _ _)), Hq in * by done. apply NoDup_app in Hnd as (Hnd & _).
      apply NoDup_app in Hnd as (Hnd & _). cbn in Hnd. apply NoDup_cons in Hnd. tauto.
    - intros ->. unfold rr_running in Hnd. rewrite (proj2 (Z.eqb_neq _ _)) in Hnd by done.
      rewrite <- app_assoc in Hnd. apply NoDup_app in Hnd as (_ & Hd & _). set_solver. }
  destruct (rr_update m me c0 c' ths (rr_ipis m) (rr_last_cpu m) [] (if b then [] else rr_running c0)) as (G1 & G2);
    rewrite ?app_nil_r in *; try done.
  - constructor.
  - set_solver.
  - split; cbn [c' rr_queued rr_runq rr_next option_list rr_idle rr_current].
    + unfold rr_queued. cbn [c' rr_runq rr_next option_list]. intros x Hx. rewrite app_nil_r in Hx.
      apply elem_of_app in Hx as [Hx|Hx].
      * destruct (Hin x Hx) as (? & ? & Hx0). apply (rc_queued _ _ Hok) in Hx0 as (u & Hu & Hs).
        apply has_state_insert_ne; [done|]. destruct b; [apply has_state_insert_ne; [done|]|]; exists u; rewrite Hths; done.
      * destruct b; [|set_solver]. apply list_elem_of_singleton in Hx as ->.
        apply has_state_insert_ne; [done|]. apply (has_state_insert _ _ (set_state t READY)).
    + unfold rr_running. cbn [c' rr_current rr_idle]. intros x Hx. case_if_in Hx; [set_solver|].
      apply list_elem_of_singleton in Hx as ->. apply (has_state_insert _ _ (set_state n RUNNING)).
    + rewrite Hid. apply lookup_insert_is_Some'. right. destruct (decide (rr_current c0 = rr_idle c0)) as [E|E].
      * destruct b; [apply lookup_insert_is_Some'; left|rewrite <- E, Ht]; done.
      * pose proof (rc_idle _ _ Hok). destruct b; rewrite ?lookup_insert_ne, Hths by done; done.
    + done.
  - intros x Hx _. unfold ths. assert (x <> new /\ x <> rr_current c0) as (? & ?).
    { unfold rr_all, rr_placed in Hx. rewrite Hq in Hx. unfold rr_running in Hx.
      repeat match type of Hx with context [?a =? ?b] => destruct (Z.eqb_spec a b) end; set_solver. }
    rewrite lookup_insert_ne by done. destruct b; rewrite ?lookup_insert_ne by done; by apply Hths.
  - apply (ro_last m Hm).
Qed.

(** What an event does, given that it can happen. *)
Record rr_result (m m' : rr_machine) (inn out : list tid) (keeps_work : Prop) : Prop := {
  rs_ok : rr_ok m';
  rs_places : rr_places m ++ inn ≡ₚ rr_places m' ++ out;
  rs_adv : rr_advances m m';
  rs_work : keeps_work -> rr_work m -> rr_work m';
  rs_known : forall x, is_Some (rr_threads m !! x) -> is_Some (rr_threads m' !! x);
  rs_idles : rr_idles m' = rr_idles m;
}.

Lemma rr_idles_with m i c c' ths ip k :
  rr_cpus m !! i = Some c -> rr_idle c' = rr_idle c ->
  rr_idles (MkRr (<[i := c']> (rr_cpus m)) ths ip k) = rr_idles m.
Proof.
  intros Hc Hid. unfold rr_idles. cbn [rr_cpus]. rewrite list_fmap_insert, Hid. apply list_insert_id.
  rewrite list_lookup_fmap, Hc. done.
Qed.

Lemma known_insert (ths : gmap tid thread) x y t : is_Some (ths !! y) -> is_Some (<[x := t]> ths !! y).
Proof. intros H. apply lookup_insert_is_Some'. tauto. Qed.

(** Giving the processor away: [sched_yield] of a thread whose state is
    [RUNNING], or [WAITING] when called from [sched_wait]. *)
Lemma yield_result m me c t ths0 :
  rr_ok m -> rr_cpus m !! me = Some c -> rr_current c <> rr_idle c ->
  (forall x, x <> rr_current c -> ths0 !! x = rr_threads m !! x) -> ths0 !! rr_current c = Some t ->
  exists m' c', sched_yield me (MkRr (rr_cpus m) ths0 (rr_ipis m) (rr_last_cpu m)) = (m', Ok tt) /\
    rr_result m m' [] (if bool_decide (state t = RUNNING) then [] else [rr_current c])
      (state t = RUNNING -> rr_runq c <> []) /\
    rr_cpus m' !! me = Some c' /\ (rr_runq c <> [] -> took_head c c').
Proof.
  intros Hm Hc Hne Hths Ht. destruct (yield_to_spec m me c Hm Hc Hne) as ((n & Hn) & Hcn & Hq & _).
  destruct (rr_busy m me c Hm Hc Hne) as (En & Ep & _). pose proof (lookup_lt_Some _ _ _ Hc) as Hlt.
  assert (Hn0 : ths0 !! yield_to c = Some n) by (rewrite Hths by done; done).
  destruct (sched_yield_eq (MkRr (rr_cpus m) ths0 (rr_ipis m) (rr_last_cpu m)) me c t n Hc Ht Hn0 Hcn)
    as (c1 & Eq1 & Ei1 & _ & Ey).
  rewrite Ey. eexists _, _. split; [done|].
  destruct (after_switch_ok m ths0 me c c1 (yield_to c) t n) as (G1 & G2); try done.
  { unfold rr_queued. rewrite En, app_nil_r, Eq1. rewrite Hq at 1. done. }
  assert (Eb : requeued c1 (rr_current c) t = bool_decide (state t = RUNNING)).
  { unfold requeued. rewrite Ei1, (proj2 (Z.eqb_neq _ _)) by done. done. }
  assert (Er : rr_running c = [rr_current c]) by (unfold rr_running; rewrite (proj2 (Z.eqb_neq _ _)) by done; done).
  rewrite Eb, Er in G2. unfold after_switch in *. cbn [rr_cpus rr_threads rr_ipis rr_last_cpu] in *.
  rewrite Eb, Eq1, Ei1 in *. cbn zeta in *. set (q := tail (rr_runq c) ++ _) in *.
  assert (Hth : rr_runq c <> [] -> forall r p cr, took_head c (MkRrCpu q (yield_to c) None (rr_idle c) r p cr)).
  { intros Hr r p cr. unfold yield_to, q. destruct (rr_runq c) as [|x l] eqn:El; [done|]. exists x, l. eexists.
    split_and!; done. }
  split_and!; [split|apply list_lookup_insert_eq; done|intros; by apply Hth].
  - done.
  - rewrite app_nil_r. done.
  - eapply rr_advances_with; [done|]. destruct (decide (rr_runq c = [])) as [E|E]; [|right; by apply Hth].
    left. cbn [rr_runq]. unfold q. rewrite E. eexists. done.
  - intros Hk Hw. apply rr_work_with; [done|]. cbn [rr_current rr_idle rr_next rr_runq]. intros Hy _.
    rewrite Hq in Hk. rewrite Hy, Z.eqb_refl in *. unfold q. cbn in Hq. 
    assert (El : rr_runq c = []).
    { apply (f_equal length) in Hq. destruct (rr_runq c); [done|cbn in Hq; lia]. }
    rewrite El in *. cbn in *. case_bool_decide; [|done]. by destruct Hk.
  - intros x Hx. cbn [rr_threads]. apply known_insert.
    assert (is_Some (ths0 !! x)) by (destruct (decide (x = rr_current c)) as [->|]; [eauto|by rewrite Hths]).
    case_bool_decide; [by apply known_insert|done].
  - eapply rr_idles_with; done.
Qed.

Lemma wait_result m me c :
  rr_ok m -> rr_cpus m !! me = Some c -> rr_current c <> rr_idle c ->
  exists m', sched_wait me m = (m', Ok tt) /\ rr_result m m' [] [rr_current c] True /\
    (rr_runq c <> [] -> exists c', rr_cpus m' !! me = Some c' /\ took_head c c').
Proof.
  intros Hm Hc Hne. destruct (rr_busy m me c Hm Hc Hne) as (_ & _ & _ & t & Ht & _).
  unfold sched_wait. rewrite (bind_ok _ _ _ _ _ (rr_get_cpu_eq _ _ _ Hc)).
  rewrite (bind_ok _ _ _ _ _ (rr_get_thread_eq _ _ _ Ht)). erewrite bind_ok by reflexivity.
  destruct (yield_result m me c (set_state t WAITING) (<[rr_current c := set_state t WAITING]> (rr_threads m)))
    as (m' & c' & E & [R1 R2 R3 R4 R5 R6] & Hc' & Hth); try done.
  { intros x Hx. by apply lookup_insert_ne. }
  { apply lookup_insert_eq. }
  exists m'. split_and!; [done| |by eauto]. split; try done. intros _. by apply R4.
Qed.

(** Queues only grow at their tails and every processor keeps its thread. *)
Definition rr_grows (m m' : rr_machine) : Prop :=
  length (rr_cpus m') = length (rr_cpus m) /\
  forall j c, rr_cpus m !! j = Some c -> exists c' l, rr_cpus m' !! j = Some c' /\
    rr_runq c' = rr_runq c ++ l /\ rr_current c' = rr_current c /\ rr_idle c' = rr_idle c.

Lemma rr_grows_with m i c c' ths ip k l :
  rr_cpus m !! i = Some c -> rr_runq c' = rr_runq c ++ l -> rr_current c' = rr_current c -> rr_idle c' = rr_idle c ->
  rr_grows m (MkRr (<[i := c']> (rr_cpus m)) ths ip k).
Proof.
  intros Hc Hr Hcu Hid. pose proof (lookup_lt_Some _ _ _ Hc). split; cbn [rr_cpus]; [apply length_insert|].
  intros j c1 H1. destruct (decide (j = i)) as [->|Hj].
  - exists c', l. rewrite list_lookup_insert_eq by done. split_and!; congruence.
  - exists c1, []. rewrite list_lookup_insert_ne, app_nil_r by done. done.
Qed.

Lemma rr_grows_refl m : rr_grows m m.
Proof. split; [done|]. intros j c Hc. exists c, []. rewrite app_nil_r. done. Qed.

Lemma rr_grows_trans m1 m2 m3 : rr_grows m1 m2 -> rr_grows m2 m3 -> rr_grows m1 m3.
Proof.
  intros (L1 & H1) (L2 & H2). split; [congruence|]. intros j c Hc. destruct (H1 j c Hc) as (c2 & l2 & Hc2 & E1 & E2 & E3).
  destruct (H2 j c2 Hc2) as (c3 & l3 & Hc3 & F1 & F2 & F3). exists c3, (l2 ++ l3).
  rewrite F1, E1, app_assoc. split_and!; congruence.
Qed.

Lemma grows_advances m1 m2 m3 : rr_grows m1 m2 -> rr_advances m2 m3 -> rr_advances m1 m3.
Proof.
  intros (L1 & H1) (L2 & H2). split; [congruence|]. intros j c c3 Hc Hc3.
  destruct (H1 j c Hc) as (c2 & l2 & Hc2 & E1 & _). destruct (H2 j c2 c3 Hc2 Hc3) as [(l & E)|(x & l & l' & F1 & F2 & F3)].
  - left. exists (l2 ++ l). rewrite E, E1, app_assoc. done.
  - rewrite E1 in F1. destruct (rr_runq c) as [|y r] eqn:Er; cbn in F1.
    + left. eexists. cbn. rewrite Er. done.
    + right. injection F1 as -> <-. exists x, r, (l2 ++ l'). rewrite F3, app_assoc. done.
Qed.

Lemma pick_cpu_eq m :
  exists k, pick_cpu m = (MkRr (rr_cpus m) (rr_threads m) (rr_ipis m) k, Ok (rr_last_cpu m)) /\
    ((0 < length (rr_cpus m))%nat -> (k < length (rr_cpus m))%nat).
Proof.
  eexists. split; [reflexivity|]. cbn [rr_cpus rr_last_cpu]. intros H. destruct (Nat.leb_spec (length (rr_cpus m)) (S (rr_last_cpu m))); lia.
Qed.

Lemma ready_result m me id :
  rr_ok m -> rr_fresh m [id] ->
  exists m', sched_ready me id m = (m', Ok tt) /\ rr_result m m' [id] [] True /\ rr_grows m m'.
Proof.
  intros Hm (_ & Hfr). destruct (Hfr id) as ((t & Ht) & Hnp & Hni); [constructor|]. pose proof (ro_last m Hm) as Hl.
  destruct (lookup_lt_is_Some_2 (rr_cpus m) (rr_last_cpu m) Hl) as (c & Hc). pose proof (ro_cpu m Hm _ c Hc) as Hok.
  destruct (pick_cpu_eq m) as (k & Ek & Hk). specialize (Hk ltac:(lia)).
  set (cpu := rr_last_cpu m) in *. set (t' := set_cpu (set_state t READY) (pinned t) (Some cpu)).
  set (ths := <[id := t']> (rr_threads m)).
  assert (Hids : id ∉ rr_all c).
  { intros Hx. destruct (rr_all_with m cpu c Hc) as (rest & R & _).
    assert (Hin : id ∈ concat (rr_all <$> rr_cpus m)) by (rewrite R; set_solver). apply rr_all_elem in Hin. tauto. }
  assert (Hext : rr_cpu_ok ths c).
  { apply (rr_cpu_ok_ext (rr_threads m)); [|done]. intros x Hx. apply lookup_insert_ne. congruence. }
  assert (Hupd : forall c' ip l, rr_placed c' ≡ₚ rr_placed c ++ [id] -> rr_idle c' = rr_idle c -> rr_current c' = rr_current c ->
    rr_runq c' = rr_runq c ++ l -> rr_cpu_ok ths c' ->
    (rr_work m -> rr_current c' = rr_idle c' -> rr_next c' = None -> rr_runq c' = []) ->
    let m' := MkRr (<[cpu := c']> (rr_cpus m)) ths ip k in rr_result m m' [id] [] True /\ rr_grows m m').
  { intros c' ip l Hp Hid Hcu Hr Hc' Hw. cbn zeta.
    destruct (rr_update m cpu c c' ths ip k [id] []) as (G1 & G2); try done.
    { rewrite Hp, app_nil_r. done. } { apply NoDup_singleton. } { set_solver. }
    { intros x _ Hx. apply lookup_insert_ne. set_solver. }
    split; [split; try done|by eapply rr_grows_with].
    - eapply rr_advances_with; [done|]. left. by exists l.
    - intros _ Hwk. apply rr_work_with; [done|]. by apply Hw.
    - intros x Hx. by apply known_insert.
    - by eapply rr_idles_with. }
  unfold sched_ready, sched_enqueue_locked. rewrite (bind_ok _ _ _ _ _ Ek). fold cpu.
  erewrite bind_ok by (apply rr_get_cpu_eq; exact Hc). erewrite bind_ok by (apply rr_get_thread_eq; exact Ht).
  erewrite bind_ok by reflexivity. cbn [rr_cpus rr_threads rr_ipis rr_last_cpu]. fold t' ths.
  destruct ((rr_current c =? rr_idle c) && bool_decide (rr_next c = None)) eqn:Eb.
  - apply andb_true_iff in Eb as (E1%Z.eqb_eq & E2%bool_decide_eq_true). erewrite bind_ok by reflexivity.
    set (c' := rr_set_softint_pending _ _).
    assert (Hc' : rr_cpu_ok ths c').
    { destruct Hext as [Q1 Q2 Q3 Q4]. split; try done. intros x Hx. unfold rr_queued in *. cbn in Hx. rewrite E2, app_nil_r in Q1.
      apply elem_of_app in Hx as [Hx|Hx]; [by apply Q1|]. apply list_elem_of_singleton in Hx as ->. apply (has_state_insert _ _ t'). }
    assert (Hp : rr_placed c' ≡ₚ rr_placed c ++ [id]).
    { unfold rr_placed, rr_queued. rewrite E2. change (rr_running c') with (rr_running c). cbn. solve_Permutation. }
    assert (Hw : rr_work m -> rr_current c' = rr_idle c' -> rr_next c' = None -> rr_runq c' = []) by done.
    case_bool_decide; (eexists; split; [reflexivity|]; cbn [rr_cpus rr_threads rr_ipis rr_last_cpu]; apply (Hupd c' _ []); try done; rewrite app_nil_r; done).
  - eexists. split; [reflexivity|]. cbn [rr_cpus rr_threads rr_ipis rr_last_cpu].
    set (c' := rr_set_runq c (rr_runq c ++ [id])).
    apply (Hupd c' _ [id]); try done.
    + unfold rr_placed, rr_queued. change (rr_running c') with (rr_running c). cbn. solve_Permutation.
    + destruct Hext as [Q1 Q2 Q3 Q4]. split; try done. intros x Hx. unfold rr_queued in *. cbn in Hx.
      rewrite !elem_of_app in Hx. destruct Hx as [[Hx|Hx]|Hx]; [apply Q1; set_solver| |apply Q1; set_solver].
      apply list_elem_of_singleton in Hx as ->. apply (has_state_insert _ _ t').
    + intros _ E1 E2. exfalso. cbn in E1, E2. rewrite E1, E2, Z.eqb_refl in Eb. done.
Qed.

Lemma rr_fresh_step m m' id ids :
  rr_result m m' [id] [] True -> rr_fresh m (id :: ids) -> rr_fresh m' ids.
Proof.
  intros R (Hnd & Hfr). apply NoDup_cons in Hnd as (Hid & Hnd). split; [done|]. intros x Hx.
  destruct (Hfr x) as (Hk & Hp & Hi); [by right|]. split_and!; [by apply (rs_known _ _ _ _ _ R)| |].
  - intros Hin. pose proof (rs_places _ _ _ _ _ R) as HP. rewrite app_nil_r in HP. rewrite <- HP in Hin.
    apply elem_of_app in Hin as [Hin|Hin]; [done|]. apply list_elem_of_singleton in Hin as ->. done.
  - rewrite (rs_idles _ _ _ _ _ R). done.
Qed.

Lemma ready_all_result me ids m :
  rr_ok m -> rr_fresh m ids ->
  exists m', ready_all me ids m = (m', Ok tt) /\ rr_ok m' /\ rr_places m ++ ids ≡ₚ rr_places m' /\ rr_grows m m' /\
    (rr_work m -> rr_work m') /\ (forall x, is_Some (rr_threads m !! x) -> is_Some (rr_threads m' !! x)) /\
    rr_idles m' = rr_idles m /\ (ids = [] -> m' = m).
Proof.
  revert m. induction ids as [|id ids IH]; intros m Hm Hfr.
  - exists m. rewrite app_nil_r. split_and!; try done. apply rr_grows_refl.
  - destruct (ready_result m me id Hm) as (m1 & E1 & R & Hg).
    { destruct Hfr as (_ & Hfr). split; [apply NoDup_singleton|]. intros x ->%list_elem_of_singleton. apply Hfr. left. }
    destruct (IH m1 (rs_ok _ _ _ _ _ R) (rr_fresh_step _ _ _ _ R Hfr)) as (m2 & E2 & Hm2 & HP & Hg2 & Hw & Hk & Hi & _).
    exists m2. cbn [ready_all]. rewrite (bind_ok _ _ _ _ _ E1). destruct R as [R1 R2 R3 R4 R5 R6].
    split_and!; try done.
    + rewrite <- HP. rewrite app_nil_r in R2. rewrite <- R2. solve_Permutation.
    + by eapply rr_grows_trans.
    + intros. by apply Hw, R4.
    + intros. by apply Hk, R5.
    + congruence.
Qed.

(** The switch at the end of a dispatch, to a thread taken off the queue or
    announced to an idle processor. *)
Lemma switch_result m me c0 c x :
  rr_ok m -> rr_cpus m !! me = Some c0 -> rr_idle c = rr_idle c0 -> rr_queued c0 ≡ₚ x :: rr_runq c ->
  rr_runq c = rr_runq c0 \/ rr_runq c0 = x :: rr_runq c ->
  exists m', sched_switch me (rr_current c0) x (MkRr (<[me := c]> (rr_cpus m)) (rr_threads m) (rr_ipis m) (rr_last_cpu m)) = (m', Ok tt) /\
    rr_result m m' [] [] True /\ (rr_runq c0 = x :: rr_runq c -> exists c', rr_cpus m' !! me = Some c' /\ took_head c0 c').
Proof.
  intros Hm Hc Hid Hq Hr. pose proof (ro_cpu m Hm me c0 Hc) as Hok. pose proof (rr_all_nodup m me c0 Hm Hc) as Hnd.
  pose proof (lookup_lt_Some _ _ _ Hc) as Hlt.
  assert (Hxq : x ∈ rr_queued c0) by (rewrite Hq; left).
  destruct (rc_queued _ _ Hok x Hxq) as (n & Hn & _).
  assert (Hx : x <> rr_idle c0 /\ x <> rr_current c0).
  { unfold rr_all, rr_placed in Hnd. rewrite <- app_assoc in Hnd. apply NoDup_app in Hnd as (_ & Hd & _).
    specialize (Hd x Hxq). unfold rr_running in Hd. destruct (Z.eqb_spec (rr_current c0) (rr_idle c0)); set_solver. }
  destruct Hx as (Hxi & Hxc).
  assert (Ht : exists t, rr_threads m !! rr_current c0 = Some t /\ (rr_current c0 <> rr_idle c0 -> state t = RUNNING)).
  { destruct (decide (rr_current c0 = rr_idle c0)) as [E|E].
    - destruct (rc_idle _ _ Hok) as (t & Ht). exists t. rewrite E. done.
    - destruct (rr_busy m me c0 Hm Hc E) as (_ & _ & _ & t & ? & ?). eauto. }
  destruct Ht as (t & Ht & Hrun).
  eexists. split; [apply (sched_switch_eq _ me c _ _ t n); try done; by apply list_lookup_insert_eq|].
  destruct (after_switch_ok m (rr_threads m) me c0 c x t n) as (G1 & G2); try done.
  { rewrite (proj2 (Z.eqb_neq _ _)) by done. done. }
  unfold after_switch in *. cbn [rr_cpus rr_threads rr_ipis rr_last_cpu] in *. cbn zeta in *. rewrite list_insert_insert_eq.
  assert (Eo : (if requeued c (rr_current c0) t then [] else rr_running c0) = []).
  { unfold requeued, rr_running. rewrite Hid. destruct (Z.eqb_spec (rr_current c0) (rr_idle c0)); cbn; [done|].
    rewrite bool_decide_true by auto. done. }
  rewrite Eo in G2. split; [split; try done|].
  - rewrite G2, !app_nil_r. done.
  - eapply rr_advances_with; [done|]. destruct Hr as [Hr|Hr]; [left|right]; cbn.
    + unfold rr_adv. rewrite Hr. eauto.
    + exists x, (rr_runq c). eauto.
  - intros _ Hw. apply rr_work_with; [done|]. cbn. congruence.
  - intros y Hy. cbn. apply known_insert. case_match; [by apply known_insert|done].
  - by eapply rr_idles_with.
  - intros E. eexists. split; [by apply list_lookup_insert_eq|]. exists x, (rr_runq c). eauto.
Qed.

Lemma took_head_grown c c1 c' l : rr_runq c1 = rr_runq c ++ l -> rr_runq c <> [] -> took_head c1 c' -> took_head c c'.
Proof.
  intros E Hne (x & l1 & l2 & E1 & E2 & E3). rewrite E in E1. destruct (rr_runq c) as [|y r] eqn:Er; [done|].
  injection E1 as -> <-. exists x, r, (l ++ l2). rewrite E3, app_assoc. done.
Qed.

Lemma rr_result_trans m1 m2 m3 ids :
  rr_places m1 ++ ids ≡ₚ rr_places m2 -> rr_grows m1 m2 -> (rr_work m1 -> rr_work m2) ->
  (forall x, is_Some (rr_threads m1 !! x) -> is_Some (rr_threads m2 !! x)) -> rr_idles m2 = rr_idles m1 ->
  rr_result m2 m3 [] [] True -> rr_result m1 m3 ids [] True.
Proof.
  intros HP Hg Hw Hk Hi [R1 R2 R3 R4 R5 R6]. split; [done|..].
  - rewrite HP, <- R2, app_nil_r. done.
  - by eapply grows_advances.
  - intros H H1. by apply R4, Hw.
  - intros x Hx. by apply R5, Hk.
  - congruence.
Qed.

(** A processor's preemption state changes and its threads stay. *)
Lemma rr_touch m me c c' :
  rr_ok m -> rr_cpus m !! me = Some c -> rr_runq c' = rr_runq c -> rr_current c' = rr_current c ->
  rr_next c' = rr_next c -> rr_idle c' = rr_idle c -> (rr_next c <> None -> rr_reason c' = rr_reason c) ->
  rr_result m (MkRr (<[me := c']> (rr_cpus m)) (rr_threads m) (rr_ipis m) (rr_last_cpu m)) [] [] True.
Proof.
  intros Hm Hc Er Ec En Ei Hre. pose proof (ro_cpu m Hm me c Hc) as Hok.
  assert (Ep : rr_placed c' = rr_placed c) by (unfold rr_placed, rr_queued, rr_running; rewrite Er, En, Ec, Ei; done).
  destruct (rr_update m me c c' (rr_threads m) (rr_ipis m) (rr_last_cpu m) [] []) as (G1 & G2); try done.
  - rewrite Ep. done.
  - constructor.
  - set_solver.
  - destruct Hok as [Q1 Q2 Q3 Q4]. unfold rr_queued, rr_running in *. split; unfold rr_queued, rr_running; rewrite ?Er, ?Ec, ?En, ?Ei; try done.
    intros H. destruct (Q4 H). split; [done|]. rewrite Hre; done.
  - apply (ro_last m Hm).
  - split; try done.
    + eapply rr_advances_with; [done|]. left. exists []. rewrite app_nil_r. done.
    + intros _ Hw. apply rr_work_with; [done|]. rewrite Er, Ec, En, Ei. by apply (Hw me).
    + by eapply rr_idles_with.
Qed.

Lemma tick_result m me :
  rr_ok m -> (me < length (rr_cpus m))%nat ->
  exists m', hardclock_preempt me m = (m', Ok tt) /\ rr_result m m' [] [] True.
Proof.
  intros Hm Hlt. destruct (lookup_lt_is_Some_2 (rr_cpus m) me Hlt) as (c & Hc). unfold hardclock_preempt.
  rewrite (bind_ok _ _ _ _ _ (rr_get_cpu_eq _ _ _ Hc)). eexists. split; [reflexivity|].
  destruct (Z.eqb_spec (rr_current c) (rr_idle c)) as [E|E]; eapply rr_touch; try done.
  intros H. by destruct (rr_busy m me c Hm Hc E) as (? & _).
Qed.

(** The part of a dispatch after its deferred calls, with the reason read
    before them. *)
Lemma finish_result m me c r :
  rr_ok m -> rr_cpus m !! me = Some c ->
  (r = PREEMPT_QUANTUM_END \/ r = PREEMPT_MIGRATION -> rr_next c = None) ->
  exists m', (match r with
              | PREEMPT_QUANTUM_END | PREEMPT_MIGRATION => sched_reschedule me
              | _ => mret tt
              end;;
              c ← rr_get_cpu me;
              rr_put_cpu me (rr_set_reason c PREEMPT_NONE);;
              match rr_next c with
              | Some next => sched_switch me (rr_current c) next
              | None => mret tt
              end) m = (m', Ok tt) /\ rr_result m m' [] [] True /\
    (r = PREEMPT_QUANTUM_END \/ r = PREEMPT_MIGRATION -> rr_runq c <> [] ->
     exists c', rr_cpus m' !! me = Some c' /\ took_head c c').
Proof.
  intros Hm Hc Hr. pose proof (lookup_lt_Some _ _ _ Hc) as Hlt.
  set (resched := match r with PREEMPT_QUANTUM_END | PREEMPT_MIGRATION => true | _ => false end).
  destruct (decide (resched = true /\ rr_runq c <> [])) as [(E & Hne)|Hno].
  - assert (En : rr_next c = None) by (apply Hr; destruct r; tauto || done).
    destruct (rr_runq c) as [|x l] eqn:El; [done|].
    assert (Es : (match r with PREEMPT_QUANTUM_END | PREEMPT_MIGRATION => sched_reschedule me | _ => mret tt end) m
      = (MkRr (<[me := rr_set_runq (rr_set_next c (Some x)) l]> (rr_cpus m)) (rr_threads m) (rr_ipis m) (rr_last_cpu m), Ok tt)).
    { assert (Es : sched_reschedule me m = (MkRr (<[me := rr_set_runq (rr_set_next c (Some x)) l]> (rr_cpus m)) (rr_threads m) (rr_ipis m) (rr_last_cpu m), Ok tt)).
      { unfold sched_reschedule. rewrite (bind_ok _ _ _ _ _ (rr_get_cpu_eq _ _ _ Hc)), El. done. }
      destruct r; done. }
    rewrite (bind_ok _ _ _ _ _ Es). erewrite bind_ok by (apply rr_get_cpu_eq; cbn [rr_cpus]; by apply list_lookup_insert_eq).
    erewrite bind_ok by reflexivity. cbn [rr_cpus rr_threads rr_ipis rr_last_cpu]. rewrite list_insert_insert_eq.
    destruct (switch_result m me c (rr_set_reason (rr_set_runq (rr_set_next c (Some x)) l) PREEMPT_NONE) x) as (m' & F1 & F2 & F3); try done.
    + unfold rr_queued. rewrite En, app_nil_r, El. done.
    + right. done.
    + exists m'. split_and!; try done. intros _ _. by apply F3.
  - assert (Es : (match r with PREEMPT_QUANTUM_END | PREEMPT_MIGRATION => sched_reschedule me | _ => mret tt end) m = (m, Ok tt)).
    { assert (Es : resched = true -> sched_reschedule me m = (m, Ok tt)).
      { intros E. unfold sched_reschedule. rewrite (bind_ok _ _ _ _ _ (rr_get_cpu_eq _ _ _ Hc)). destruct (rr_runq c); [done|].
        exfalso. by apply Hno. }
      destruct r; auto. }
    rewrite (bind_ok _ _ _ _ _ Es), (bind_ok _ _ _ _ _ (rr_get_cpu_eq _ _ _ Hc)). erewrite bind_ok by reflexivity.
    assert (Hno' : r = PREEMPT_QUANTUM_END \/ r = PREEMPT_MIGRATION -> rr_runq c <> [] -> False).
    { intros [->| ->] Hq; by apply Hno. }
    destruct (rr_next c) as [x|] eqn:En.
    + destruct (switch_result m me c (rr_set_reason c PREEMPT_NONE) x) as (m' & F1 & F2 & _); try done; [|by left|].
      { unfold rr_queued. rewrite En. cbn. solve_Permutation. }
      exists m'. split_and!; try done. intros. by destruct Hno'.
    + eexists. split_and!; [reflexivity| |intros; by destruct Hno']. eapply rr_touch; try done.
Qed.

Lemma dispatch_result m me c ids :
  rr_ok m -> rr_fresh m ids -> rr_cpus m !! me = Some c -> ids = [] \/ ~ stale_quantum c ->
  exists m', dispatch_dpc me (ready_all me ids) m = (m', Ok tt) /\ rr_result m m' ids [] True /\
    (rr_reason c = PREEMPT_QUANTUM_END \/ rr_reason c = PREEMPT_MIGRATION -> rr_runq c <> [] ->
     exists c', rr_cpus m' !! me = Some c' /\ took_head c c').
Proof.
  intros Hm Hfr Hc Hst. destruct (ready_all_result me ids m Hm Hfr) as (m1 & E1 & Hm1 & HP & Hg & Hw & Hk & Hi & Hnil).
  destruct (proj2 Hg me c Hc) as (c1 & l & Hc1 & Eq & Ecu & Eid).
  destruct (finish_result m1 me c1 (rr_reason c) Hm1 Hc1) as (m2 & E2 & R2 & Hth).
  - intros Hr. destruct (decide (rr_current c = rr_idle c)) as [E|E].
    + destruct Hst as [->|Hst]; [|by destruct Hst]. rewrite (Hnil eq_refl) in *. assert (c1 = c) as -> by congruence.
      destruct (rr_next c) eqn:En; [|done]. destruct (rc_next _ _ (ro_cpu m Hm me c Hc)) as (_ & Hre); [by rewrite En|].
      destruct Hr; congruence.
    + apply (rr_busy m1 me c1 Hm1 Hc1). congruence.
  - exists m2. split_and!; [|by eapply rr_result_trans|].
    2: { intros Hr Hne. destruct (Hth Hr) as (c' & Hc' & Ht); [rewrite Eq; by destruct (rr_runq c)|].
         exists c'. split; [done|]. by eapply took_head_grown. }
    unfold dispatch_dpc. rewrite (bind_ok _ _ _ _ _ (rr_get_cpu_eq _ _ _ Hc)). cbn zeta. rewrite (bind_ok _ _ _ _ _ E1). exact E2.
Qed.

(** ** Reachable machines *)

Inductive rr_reach (lone : bool) (m0 : rr_machine) : rr_machine -> Prop :=
| rr_reach_boot : rr_reach lone m0 m0
| rr_reach_step m op m' :
    rr_reach lone m0 m -> rr_enabled lone m op -> rr_do op m = (m', Ok tt) -> rr_reach lone m0 m'.

(** Threads an event makes ready, and the thread it takes off its processor. *)
Definition arrivals (op : rr_op) : list tid :=
  match op with RReady _ id => [id] | RDispatch _ ids => ids | _ => [] end.
Definition departures (m : rr_machine) (op : rr_op) : list tid :=
  match op with
  | RWait me => match rr_cpus m !! me with Some c => [rr_current c] | None => [] end
  | _ => []
  end.

(** Whether an event makes processor [me] go on to its next thread: the
    thread gives up, or its quantum has ended. *)
Definition rotates (me : nat) (m : rr_machine) (op : rr_op) : bool :=
  match op with
  | RYield j | RWait j => Nat.eqb j me
  | RDispatch j _ =>
      Nat.eqb j me &&
      match rr_reason <$> rr_cpus m !! me with
      | Some PREEMPT_QUANTUM_END | Some PREEMPT_MIGRATION => true
      | _ => false
      end
  | _ => false
  end.

Lemma rr_step_spec lone m op :
  rr_ok m -> rr_enabled lone m op ->
  exists m', rr_do op m = (m', Ok tt) /\ rr_result m m' (arrivals op) (departures m op) (lone = false) /\
    (forall me c, rotates me m op = true -> rr_cpus m !! me = Some c -> rr_runq c <> [] ->
     exists c', rr_cpus m' !! me = Some c' /\ took_head c c').
Proof.
  intros Hm He. destruct op as [me id|me|me|me|me ids]; cbn [rr_enabled rr_do arrivals departures rotates] in *.
  - destruct He as (Hlt & Hfr). destruct (ready_result m me id Hm Hfr) as (m' & E & [R1 R2 R3 R4 R5 R6] & _).
    exists m'. split_and!; [done| |done]. split; try done. auto.
  - destruct He as (c & Hc & Hne & Hl). destruct (rr_busy m me c Hm Hc Hne) as (_ & _ & _ & t & Ht & Hrun).
    destruct (yield_result m me c t (rr_threads m) Hm Hc Hne) as (m' & c' & E & R & Hc' & Hth); try done.
    rewrite bool_decide_true in R by done. exists m'. split_and!.
    + destruct m; exact E.
    + destruct R as [R1 R2 R3 R4 R5 R6]. split; try done. intros H. apply R4. auto.
    + intros j c2 Hj%Nat.eqb_eq H2 Hq. subst j. assert (c2 = c) as -> by congruence. eauto.
  - destruct He as (c & Hc & Hne). destruct (wait_result m me c Hm Hc Hne) as (m' & E & [R1 R2 R3 R4 R5 R6] & Hth).
    rewrite Hc. exists m'. split_and!; [done|split; try done; auto|].
    intros j c2 Hj%Nat.eqb_eq H2 Hq. subst j. assert (c2 = c) as -> by congruence. auto.
  - destruct (tick_result m me Hm He) as (m' & E & [R1 R2 R3 R4 R5 R6]). exists m'. split_and!; [done| |done]. split; try done. auto.
  - destruct He as (Hfr & c & Hc & Hst). destruct (dispatch_result m me c ids Hm Hfr Hc Hst) as (m' & E & [R1 R2 R3 R4 R5 R6] & Hth).
    exists m'. split_and!; [done|split; try done; auto|].
    intros j c2 (Hj%Nat.eqb_eq & Hr)%andb_true_iff H2 Hq. subst j. assert (c2 = c) as -> by congruence.
    apply Hth; [|done]. rewrite Hc in Hr. cbn in Hr. destruct (rr_reason c); tauto || done.
Qed.

Lemma rr_boot_cpu pm ids tds i c :
  rr_cpus (rr_boot pm ids tds) !! i = Some c ->
  exists id, ids !! i = Some id /\ c = MkRrCpu [] id None id PREEMPT_NONE 0 0.
Proof. cbn. rewrite list_lookup_fmap. destruct (ids !! i) as [id|]; cbn; [|done]. intros [= <-]. eauto. Qed.

Lemma rr_boot_ok pm ids tds : NoDup ids -> ids <> [] -> rr_ok (rr_boot pm ids tds) /\ rr_work (rr_boot pm ids tds).
Proof.
  intros Hnd Hne. split; [split|].
  - assert (E : concat (rr_all <$> rr_cpus (rr_boot pm ids tds)) = ids); [|rewrite E; done].
    cbn. clear. induction ids as [|id ids IH]; [done|]. cbn in *. unfold rr_running. cbn. rewrite Z.eqb_refl. cbn. congruence.
  - intros i c Hc. destruct (rr_boot_cpu _ _ _ _ _ Hc) as (id & Hi & ->). split; cbn; try set_solver.
    + unfold rr_running. cbn. rewrite Z.eqb_refl. set_solver.
    + rewrite list_to_map_app. apply lookup_union_is_Some. left. apply list_elem_of_lookup_2 in Hi.
      eexists. apply elem_of_list_to_map_1; [|apply list_elem_of_fmap; eauto].
      rewrite <- list_fmap_compose. cbn. rewrite list_fmap_id. done.
  - cbn. rewrite length_fmap. destruct ids; [done|cbn; lia].
  - intros i c Hc. by destruct (rr_boot_cpu _ _ _ _ _ Hc) as (id & Hi & ->).
Qed.

Lemma rr_reach_ok lone m0 m :
  rr_ok m0 -> rr_work m0 -> rr_reach lone m0 m -> rr_ok m /\ (lone = false -> rr_work m).
Proof.
  intros H1 H2 Hr. induction Hr as [|m op m' Hr (IH1 & IH2) He E]; [done|].
  destruct (rr_step_spec lone m op IH1 He) as (m2 & E2 & R & _). assert (m2 = m') as -> by congruence.
  split; [apply R|]. intros Hl. apply (rs_work _ _ _ _ _ R); auto.
Qed.

(** C20: the round-robin scheduler, from boot through any sequence of threads
    made ready, yields, waits, clock interrupts and dispatches that
    [rr_enabled] allows: only a thread that is nowhere is made ready; the idle
    thread neither yields nor waits; deferred calls ready threads only when no
    stale quantum end is pending ([dispatch_loses_thread] shows why); and each
    event is one step, so that no wake-up falls into the middle of a wait (the
    case of [wait_window_two_cpus]) and no two processors read the round-robin
    index at once ([pick_cpu_race]).  Then no thread is
    ever in two queues or on two processors, queued threads are ready and
    current ones running, a thread is announced only to an idle processor;
    while no thread yields to an empty queue ([lone_yield_starves]), no
    processor idles over a non-empty queue; and every such event completes and
    keeps every thread in place, but for those it readies or puts to sleep. *)
Theorem rr_reachable_safe (lone : bool) (pm : Z) (ids tds : list tid) (m : rr_machine) :
  NoDup ids -> ids <> [] -> rr_reach lone (rr_boot pm ids tds) m ->
  rr_ok m /\ (lone = false -> rr_work m) /\
  forall op, rr_enabled lone m op ->
    exists m', rr_do op m = (m', Ok tt) /\ rr_places m ++ arrivals op ≡ₚ rr_places m' ++ departures m op.
Proof.
  intros Hnd Hne Hr.
  destruct (rr_boot_ok pm ids tds Hnd Hne) as (B1 & B2).
  destruct (rr_reach_ok lone _ m B1 B2 Hr) as (H1 & H2). split_and!; [done..|]. intros op He.
  destruct (rr_step_spec lone m op H1 He) as (m' & E & R & _). exists m'. split; [done|apply R].
Qed.




(** ** Concrete runs *)

Fixpoint rr_exec (ops : list rr_op) (m : rr_machine) : rr_machine :=
  match ops with [] => m | op :: ops => rr_exec ops (rr_do op m).1 end.

(** One processor, idle thread 100, threads 1, 2 and 3. *)
Definition rr_demo0 : rr_machine := rr_boot 0 [100] [1; 2; 3].
Definition rr_demo : rr_machine := rr_exec [RReady 0 1; RDispatch 0 []; RReady 0 2; RReady 0 3] rr_demo0.

Ltac not_in := let H := fresh in intros H; vm_compute in H; repeat (apply elem_of_cons in H as [H|H]; [done|]); by apply not_elem_of_nil in H.
Ltac rr_fresh_tac :=
  split; [repeat constructor; not_in
         |let x := fresh in let H := fresh in intros x H;
          repeat (apply elem_of_cons in H as [->|H]; [split_and!; [by eexists; vm_compute|not_in|not_in]|]); by apply not_elem_of_nil in H].

Lemma rr_reach_more lone m0 m op :
  rr_reach lone m0 m -> rr_enabled lone m op -> (rr_do op m).2 = Ok tt -> rr_reach lone m0 (rr_do op m).1.
Proof. intros Hr He E. eapply rr_reach_step; [done..|]. rewrite <- E. by destruct (rr_do op m). Qed.

Lemma rr_demo_reach : rr_reach false rr_demo0 rr_demo.
Proof.
  unfold rr_demo. cbn [rr_exec].
  apply rr_reach_more; [apply rr_reach_more; [apply rr_reach_more; [apply rr_reach_more; [constructor| |]| |]| |]| |]; try reflexivity.
  - split; [vm_compute; lia|rr_fresh_tac].
  - split; [rr_fresh_tac|]. eexists. split; [reflexivity|by left].
  - split; [vm_compute; lia|rr_fresh_tac].
  - split; [vm_compute; lia|rr_fresh_tac].
Qed.

Lemma rr_reachable_safe_witness :
  rr_reach false rr_demo0 rr_demo /\ rr_work rr_demo.
Proof.
  split; [exact rr_demo_reach|].
  apply (rr_reachable_safe false 0 [100] [1; 2; 3] rr_demo); [repeat constructor; not_in|done|exact rr_demo_reach|done].
Defined.





(** ** What goes wrong *)

(** A thread that yields to an empty queue is put on the queue and the idle
    thread runs.  No clock interrupt or dispatch brings the thread back: the
    clock does not end the quantum of the idle thread. *)
Lemma lone_yield_starves (n : nat) :
  let m1 := rr_exec [RReady 0 1; RDispatch 0 []; RYield 0] rr_demo0 in
  let m := Nat.iter n (rr_exec [RTick 0; RDispatch 0 []]) m1 in
  exists c, rr_cpus m !! 0%nat = Some c /\ rr_current c = 100 /\ rr_runq c = [1] /\ rr_next c = None.
Proof.
  cbn zeta. set (m1 := rr_exec _ rr_demo0).
  enough (H : exists c, rr_cpus (Nat.iter n (rr_exec [RTick 0; RDispatch 0 []]) m1) !! 0%nat = Some c /\
    rr_current c = 100 /\ rr_runq c = [1] /\ rr_next c = None /\ rr_idle c = 100 /\ rr_reason c = PREEMPT_NONE) by naive_solver.
  induction n as [|n (c & Hc & E1 & E2 & E3 & E4 & E5)]; [eexists; split; [reflexivity|done]|].
  rewrite Nat.iter_succ. set (m := Nat.iter n _ m1) in *. clearbody m. pose proof (lookup_lt_Some _ _ _ Hc) as Hlt.
  cbn [rr_exec rr_do ready_all]. unfold hardclock_preempt, dispatch_dpc. rewrite (bind_ok _ _ _ _ _ (rr_get_cpu_eq _ _ _ Hc)).
  cbn [fst rr_put_cpu]. set (m2 := MkRr _ _ _ _).
  assert (Hc2 : rr_cpus m2 !! 0%nat = Some (rr_set_softint_pending c IPL_DISPATCH)).
  { cbn. rewrite E1, E4. by apply list_lookup_insert_eq. }
  rewrite (bind_ok _ _ _ _ _ (rr_get_cpu_eq _ _ _ Hc2)). cbn zeta. erewrite bind_ok by reflexivity.
  cbn [rr_reason rr_set_softint_pending]. rewrite E5. erewrite bind_ok by reflexivity.
  rewrite (bind_ok _ _ _ _ _ (rr_get_cpu_eq _ _ _ Hc2)). erewrite bind_ok by reflexivity.
  cbn [rr_next rr_set_softint_pending]. rewrite E3. cbn.
  eexists. split; [apply list_lookup_insert_eq; rewrite length_insert; done|]. done.
Qed.

(** The reason of a preemption is read before the deferred calls run.  When
    a quantum ended just before the thread went to sleep, and the deferred
    calls ready two threads, the second takes the place of the first, which
    is then ready and nowhere. *)
Lemma dispatch_loses_thread :
  let m := rr_exec [RReady 0 1; RDispatch 0 []; RTick 0; RWait 0; RDispatch 0 [2; 3]] rr_demo0 in
  rr_places m = [3] /\ (state <$> rr_threads m !! 2) = Some READY.
Proof. vm_compute. done. Qed.

(** Two processors that pick a processor at the same time: the second fetch
    comes before the first wrap and is past the end of the array. *)
Lemma pick_cpu_race :
  let m0 := rr_boot 0 [100] [1] in
  let m1 := (pick_cpu_fetch m0).1 in
  (pick_cpu_fetch m1).2 = Ok (length (rr_cpus m0)).
Proof. reflexivity. Qed.

(** [sched_wait] drops the thread's lock between marking the thread and
    switching away from it.  A wake in that window starts the thread on a
    second processor while it still runs on the first. *)
Lemma wait_window_two_cpus :
  let m0 := rr_exec [RReady 0 1; RDispatch 0 []] (rr_boot 0 [100; 101] [1]) in
  let m1 := (rr_put_thread 1 (set_state (make_kernel_thread 0) WAITING) m0).1 in
  let m2 := rr_exec [RReady 1 1; RDispatch 1 []] m1 in
  rr_current <$> rr_cpus m2 = [1; 1].
Proof. reflexivity. Qed.
