(* ===== verification/Wait.v ===== *)
(** * Waiting ([core/wait.c], [core/mutex.c], [core/semaphore.c], [core/events.c])

    A system of dispatch objects and of threads that wait on them.  The
    source takes an object's lock around each access to its queue and count;
    a step below is one such critical section, so that every interleaving of
    the source's critical sections is a sequence of steps.  A waitblock is
    the pair of its thread and its index in the wait.  The timeout's timer is
    one more object of the wait, at index [timer_i].  [sched_wait] is entered
    together with the commit, and [sched_wake] lets the thread go on. *)

From S2P Require Import Prelude Queue.

Inductive waitblock_status := WAITBLOCK_ACTIVE | WAITBLOCK_INACTIVE | WAITBLOCK_SIGNALED.
Inductive wait_status := WAIT_IN_PROGRESS | WAIT_COMMITTED | WAIT_SATISFIED.
Inductive dispatch_object_type := DISPATCH_NOTIFICATION | DISPATCH_SYNCHRONIZATION.

#[global] Instance waitblock_status_eq_dec : EqDecision waitblock_status.
Proof. solve_decision. Defined.
#[global] Instance wait_status_eq_dec : EqDecision wait_status.
Proof. solve_decision. Defined.
#[global] Instance dispatch_object_type_eq_dec : EqDecision dispatch_object_type.
Proof. solve_decision. Defined.

(** A waitblock: thread and index. *)
Definition wbid : Type := Z * nat.

Record dispatch_header := MkObj {
  waitblocks : list wbid;
  otype : dispatch_object_type;
  signaled_count : Z;
}.

(** Why a thread stops for good. *)
Inductive fault := NotSatisfied | MultipleSatisfiers | QueueCorrupted.

(** Where a thread is in [wait_any]. *)
Inductive wpc :=
| PIdle
| PInstall (i : nat)
| PBackout (satisfier k : nat)
| PCommit
| PBlocked
| PFind (i : nat) (satisfier : option nat)
| PDone (r : option nat)
| PFault (f : fault).

Record waiter := MkWaiter {
  wstatus : wait_status;
  pc : wpc;
  targets : list Z;
  no_timeout_wait : bool;
  timer_i : option nat;
  blocks : list waitblock_status;
}.

Record wsys := MkSys {
  objs : gmap Z dispatch_header;
  waiters : gmap Z waiter;
}.

Definition set_pc (w : waiter) (p : wpc) : waiter :=
  MkWaiter (wstatus w) p (targets w) (no_timeout_wait w) (timer_i w) (blocks w).
Definition set_wstatus (w : waiter) (st : wait_status) : waiter :=
  MkWaiter st (pc w) (targets w) (no_timeout_wait w) (timer_i w) (blocks w).
Definition set_block (w : waiter) (j : nat) (b : waitblock_status) : waiter :=
  MkWaiter (wstatus w) (pc w) (targets w) (no_timeout_wait w) (timer_i w) (<[j := b]> (blocks w)).
Definition set_queue (d : dispatch_header) (q : list wbid) : dispatch_header :=
  MkObj q (otype d) (signaled_count d).
Definition set_count (d : dispatch_header) (n : Z) : dispatch_header :=
  MkObj (waitblocks d) (otype d) n.

Definition put_obj (s : wsys) (o : Z) (d : dispatch_header) : wsys :=
  MkSys (<[o := d]> (objs s)) (waiters s).
Definition put_waiter (s : wsys) (t : Z) (w : waiter) : wsys :=
  MkSys (objs s) (<[t := w]> (waiters s)).

Definition dispatch_object_init (ty : dispatch_object_type) : dispatch_header := MkObj [] ty 0.

Definition dispatch_object_consume (d : dispatch_header) : dispatch_header :=
  match otype d with
  | DISPATCH_NOTIFICATION => d
  | DISPATCH_SYNCHRONIZATION => set_count d (s32 (signaled_count d - 1))
  end.

(** ** Signalling *)

(** [sched_wake]: a blocked thread continues after [sched_wait]. *)
Definition sched_wake_waiter (w : waiter) : waiter :=
  match pc w with PBlocked => set_pc w (PFind 0 None) | _ => w end.

(** The loop of [try_satisfy_dispatch_object]; [n] bounds the number of
    waitblocks taken off the queue. *)
Fixpoint try_satisfy_loop (n : nat) (s : wsys) (o : Z) : wsys * option Z :=
  match n with
  | O => (s, None)
  | S n =>
      match objs s !! o with
      | None => (s, None)
      | Some d =>
          match waitblocks d with
          | [] => (s, None)
          | (t, j) :: q =>
              if signaled_count d <=? 0 then (s, None)
              else
                let d := set_queue d q in
                match waiters s !! t with
                | None => (s, None)
                | Some w =>
                    match wstatus w with
                    | WAIT_IN_PROGRESS | WAIT_COMMITTED =>
                        let w := set_block (set_wstatus w WAIT_SATISFIED) j WAITBLOCK_SIGNALED in
                        let s := put_waiter (put_obj s o (dispatch_object_consume d)) t (sched_wake_waiter w) in
                        match otype d with
                        | DISPATCH_NOTIFICATION => try_satisfy_loop n s o
                        | DISPATCH_SYNCHRONIZATION => (s, Some t)
                        end
                    | WAIT_SATISFIED =>
                        let s := put_waiter (put_obj s o d) t (set_block w j WAITBLOCK_INACTIVE) in
                        try_satisfy_loop n s o
                    end
                end
          end
      end
  end.

Definition try_satisfy_dispatch_object (s : wsys) (o : Z) : wsys * option Z :=
  match objs s !! o with
  | Some d => try_satisfy_loop (length (waitblocks d)) s o
  | None => (s, None)
  end.

(** [semaphore_release]. *)
Definition semaphore_release (s : wsys) (o : Z) : wsys :=
  match objs s !! o with
  | Some d => fst (try_satisfy_dispatch_object (put_obj s o (set_count d (s32 (signaled_count d + 1)))) o)
  | None => s
  end.

(** [mutex_unlock], with the new owner. *)
Definition mutex_unlock (s : wsys) (o : Z) : wsys * option Z :=
  match objs s !! o with
  | Some d => try_satisfy_dispatch_object (put_obj s o (set_count d 1)) o
  | None => (s, None)
  end.

(** The expiry of a timer, from [timer_handle_expiry]. *)
Definition timer_expire (s : wsys) (o : Z) : wsys :=
  match objs s !! o with
  | Some d => fst (try_satisfy_dispatch_object (put_obj s o (set_count d 1)) o)
  | None => s
  end.

(** [event_signal]: the result says whether the object's lock is released. *)
Definition event_signal (s : wsys) (o : Z) : wsys * bool :=
  match objs s !! o with
  | None => (s, true)
  | Some d =>
      if 0 <? signaled_count d then (s, true)
      else
        let '(s, ret) := try_satisfy_dispatch_object s o in
        match ret with
        | Some _ => (s, false)
        | None =>
            match objs s !! o with
            | Some d => (put_obj s o (set_count d 1), false)
            | None => (s, false)
            end
        end
  end.

Definition semaphore_init (count : Z) : dispatch_header :=
  set_count (dispatch_object_init DISPATCH_SYNCHRONIZATION) count.
Definition mutex_init : dispatch_header :=
  set_count (dispatch_object_init DISPATCH_SYNCHRONIZATION) 1.
Definition event_init (notification : bool) : dispatch_header :=
  dispatch_object_init (if notification then DISPATCH_NOTIFICATION else DISPATCH_SYNCHRONIZATION).

(** ** [wait_any] *)

Definition qdel_wb (b : wbid) (q : list wbid) : list wbid := filter (fun x => x <> b) q.

(** The call: [poll] is a timeout of zero. *)
Definition wait_start (w : waiter) (os : list Z) (poll : bool) (ti : option nat) : waiter :=
  MkWaiter WAIT_IN_PROGRESS (PInstall 0) os poll ti
    (blocks w ++ replicate (length os - length (blocks w)) WAITBLOCK_INACTIVE).

(** One iteration of the installing loop, or what follows it. *)
Definition install_step (s : wsys) (t : Z) (w : waiter) (i : nat) : option wsys :=
  match targets w !! i with
  | Some o =>
      match objs s !! o with
      | None => None
      | Some d =>
          if 0 <? signaled_count d then
            match wstatus w with
            | WAIT_IN_PROGRESS =>
                Some (put_waiter (put_obj s o (dispatch_object_consume d)) t
                        (set_pc (set_wstatus w WAIT_SATISFIED) (PBackout i 0)))
            | _ => Some (put_waiter s t (set_pc w (PBackout i 0)))
            end
          else
            Some (put_waiter (put_obj s o (set_queue d (waitblocks d ++ [(t, i)]))) t
                    (set_pc (set_block w i WAITBLOCK_ACTIVE) (PInstall (S i))))
      end
  | None =>
      if no_timeout_wait w then
        match wstatus w with
        | WAIT_SATISFIED => Some (put_waiter s t (set_pc w (PDone None)))
        | _ => Some (put_waiter s t (set_pc w (PFault NotSatisfied)))
        end
      else Some (put_waiter s t (set_pc w PCommit))
  end.

(** One iteration of the loop that removes the installed waitblocks. *)
Definition backout_step (s : wsys) (t : Z) (w : waiter) (sat k : nat) : option wsys :=
  if (k <? sat)%nat then
    match targets w !! k ≫= (fun o => (fun d => (o, d)) <$> objs s !! o) with
    | None => None
    | Some (o, d) =>
        if bool_decide ((t, k) ∈ waitblocks d) then
          Some (put_waiter (put_obj s o (set_queue d (qdel_wb (t, k) (waitblocks d)))) t
                  (set_pc (set_block w k WAITBLOCK_INACTIVE) (PBackout sat (S k))))
        else Some (put_waiter s t (set_pc w (PFault QueueCorrupted)))
    end
  else Some (put_waiter s t (set_pc w (PDone (Some sat)))).

(** One iteration of the loop that looks for the object that satisfied us. *)
Definition find_step (s : wsys) (t : Z) (w : waiter) (i : nat) (sat : option nat) : option wsys :=
  match targets w !! i with
  | None => Some (put_waiter s t (set_pc w (PDone (if bool_decide (sat = timer_i w) then None else sat))))
  | Some o =>
      match objs s !! o with
      | None => None
      | Some d =>
          match blocks w !! i with
          | Some WAITBLOCK_ACTIVE =>
              if bool_decide ((t, i) ∈ waitblocks d) then
                Some (put_waiter (put_obj s o (set_queue d (qdel_wb (t, i) (waitblocks d)))) t
                        (set_pc w (PFind (S i) sat)))
              else Some (put_waiter s t (set_pc w (PFault QueueCorrupted)))
          | Some WAITBLOCK_SIGNALED =>
              match sat with
              | Some _ => Some (put_waiter s t (set_pc w (PFault MultipleSatisfiers)))
              | None => Some (put_waiter s t (set_pc w (PFind (S i) (Some i))))
              end
          | _ => Some (put_waiter s t (set_pc w (PFind (S i) sat)))
          end
      end
  end.

(** The next critical section of thread [t] inside [wait_any]. *)
Definition wait_step (s : wsys) (t : Z) : option wsys :=
  match waiters s !! t with
  | None => None
  | Some w =>
      match pc w with
      | PInstall i => install_step s t w i
      | PBackout sat k => backout_step s t w sat k
      | PCommit =>
          match wstatus w with
          | WAIT_IN_PROGRESS => Some (put_waiter s t (set_pc (set_wstatus w WAIT_COMMITTED) PBlocked))
          | _ => Some (put_waiter s t (set_pc w (PFind 0 None)))
          end
      | PFind i sat => find_step s t w i sat
      | _ => None
      end
  end.

(** [wait_one], [mutex_lock] and [semaphore_acquire] are waits on one object;
    the last one passes a timeout of zero. *)
Definition wait_one (w : waiter) (o : Z) (poll : bool) (ti : option nat) : waiter := wait_start w [o] poll ti.
Definition mutex_lock (w : waiter) (o : Z) (ti : option nat) : waiter := wait_one w o false ti.
Definition semaphore_acquire (w : waiter) (o : Z) : waiter := wait_one w o true None.

(** What can happen next.  A call of [wait_any] names existing objects, at
    most [INTERNAL_WAITBLOCKS_N] of them; a finite timeout adds a timer that
    lives in the caller's frame, an object no one else knows. *)
Definition INTERNAL_WAITBLOCKS_N : nat := 4.

Inductive label :=
| LWait (t : Z) (os : list Z) (timer : option Z)
| LStep (t : Z)
| LRelease (o : Z)
| LUnlock (o : Z)
| LExpire (o : Z).

Definition wait_call (s : wsys) (t : Z) (w : waiter) (os : list Z) (timer : option Z) : option wsys :=
  if bool_decide ((length os <= INTERNAL_WAITBLOCKS_N)%nat /\ Forall (fun o => is_Some (objs s !! o)) os) then
    match timer with
    | None => Some (put_waiter s t (wait_start w os false None))
    | Some tm =>
        match objs s !! tm with
        | Some _ => None
        | None =>
            Some (put_waiter (put_obj s tm (dispatch_object_init DISPATCH_NOTIFICATION)) t
                    (wait_start w (os ++ [tm]) false (Some (length os))))
        end
    end
  else None.

Definition exec (s : wsys) (l : label) : option wsys :=
  match l with
  | LWait t os timer =>
      match waiters s !! t with
      | Some w =>
          match pc w with
          | PIdle | PDone _ => wait_call s t w os timer
          | _ => None
          end
      | None => None
      end
  | LStep t => wait_step s t
  | LRelease o => Some (semaphore_release s o)
  | LUnlock o => Some (fst (mutex_unlock s o))
  | LExpire o => Some (timer_expire s o)
  end.

Inductive reachable (s0 : wsys) : wsys -> Prop :=
| reach_here : reachable s0 s0
| reach_next s l s' : reachable s0 s -> exec s l = Some s' -> reachable s0 s'.

Fixpoint run (s : wsys) (ls : list label) : option wsys :=
  match ls with
  | [] => Some s
  | l :: ls => exec s l ≫= fun s => run s ls
  end.

(** Before any wait: no thread waits and nothing is queued. *)
Definition quiet (s : wsys) : Prop :=
  map_Forall (fun _ d => waitblocks d = [] /\ -2 ^ 31 <= signaled_count d < 2 ^ 31) (objs s) /\ map_Forall (fun _ w => pc w = PIdle) (waiters s).

(** ** The invariant *)

(** The waitblocks a thread has handed out at its place in [wait_any]. *)
Definition installed (w : waiter) (j : nat) : Prop :=
  match pc w with
  | PInstall i => (j < i)%nat
  | PBackout sat k => (k <= j < sat)%nat
  | PCommit | PBlocked => (j < length (targets w))%nat
  | PFind i _ => (i <= j < length (targets w))%nat
  | _ => False
  end.

Definition linked (w : waiter) (j : nat) (o : Z) : Prop :=
  targets w !! j = Some o /\ installed w j /\ blocks w !! j = Some WAITBLOCK_ACTIVE.

Definition is_fault (w : waiter) : Prop := match pc w with PFault _ => True | _ => False end.

(** All blocks of a range are active; exactly one of them is signaled. *)
Definition all_active (w : waiter) (a b : nat) : Prop :=
  forall j, (a <= j < b)%nat -> blocks w !! j = Some WAITBLOCK_ACTIVE.
Definition no_signaled (w : waiter) (a b : nat) : Prop :=
  forall j, (a <= j < b)%nat -> blocks w !! j <> Some WAITBLOCK_SIGNALED.
Definition one_signaled (w : waiter) (a b : nat) : Prop :=
  exists k, (a <= k < b)%nat /\ forall j, (a <= j < b)%nat -> blocks w !! j = Some WAITBLOCK_SIGNALED <-> j = k.

Definition preparing (w : waiter) (i : nat) : Prop :=
  (i <= length (targets w))%nat /\
  match wstatus w with
  | WAIT_IN_PROGRESS => all_active w 0 i
  | WAIT_COMMITTED => False
  | WAIT_SATISFIED => one_signaled w 0 i
  end.

Definition place_ok (w : waiter) : Prop :=
  match pc w with
  | PIdle => True
  | PInstall i => preparing w i
  | PBackout sat k => wstatus w = WAIT_SATISFIED /\ (k <= sat < length (targets w))%nat
  | PCommit => preparing w (length (targets w))
  | PBlocked => wstatus w = WAIT_COMMITTED /\ all_active w 0 (length (targets w))
  | PFind i None => wstatus w = WAIT_SATISFIED /\ one_signaled w i (length (targets w))
  | PFind i (Some k) =>
      wstatus w = WAIT_SATISFIED /\ blocks w !! k = Some WAITBLOCK_SIGNALED /\ no_signaled w i (length (targets w))
  | PDone _ => wstatus w = WAIT_SATISFIED
  | PFault f => wstatus w = WAIT_SATISFIED /\ f = QueueCorrupted
  end.

Definition waiter_ok (w : waiter) : Prop :=
  pc w = PIdle \/ (length (targets w) <= length (blocks w))%nat /\ no_timeout_wait w = false /\ place_ok w.

(** A waitblock is on an object's queue exactly when its thread counts on it. *)
Record inv0 (s : wsys) : Prop := {
  v_nodup o d : objs s !! o = Some d -> NoDup (waitblocks d);
  v_owner o d t j : objs s !! o = Some d -> (t, j) ∈ waitblocks d -> is_Some (waiters s !! t);
  v_rel o d t w : objs s !! o = Some d -> waiters s !! t = Some w ->
    is_fault w \/ forall j, (t, j) ∈ waitblocks d <-> linked w j o;
  v_ok t w : waiters s !! t = Some w -> waiter_ok w;
  v_tgt t w : waiters s !! t = Some w -> pc w <> PIdle -> Forall (fun o => is_Some (objs s !! o)) (targets w);
}.

(** Nobody waits on a signaled object; the count is an [int]. *)
Definition int_range (n : Z) : Prop := -2 ^ 31 <= n < 2 ^ 31.
Definition object_ok (d : dispatch_header) : Prop :=
  int_range (signaled_count d) /\ (0 < signaled_count d -> waitblocks d = []).

Definition inv (s : wsys) : Prop := inv0 s /\ forall o d, objs s !! o = Some d -> object_ok d.

Lemma inv0_update (s : wsys) (o : Z) (d d' : dispatch_header) (t : Z) (w w' : waiter) :
  inv0 s -> objs s !! o = Some d -> waiters s !! t = Some w ->
  NoDup (waitblocks d') -> (forall t' j, t' <> t -> (t', j) ∈ waitblocks d' <-> (t', j) ∈ waitblocks d) ->
  waiter_ok w' -> targets w' = targets w -> (pc w = PIdle -> pc w' = PIdle) ->
  (is_fault w' \/ ~ is_fault w /\ (forall j o', o' <> o -> linked w' j o' <-> linked w j o') /\
                  (forall j, (t, j) ∈ waitblocks d' <-> linked w' j o)) ->
  inv0 (put_waiter (put_obj s o d') t w').
Proof.
  intros I Ho Ht Hnd Hoth Hok Htg Hpc Hrel. split; cbn.
  - intros o1 d1 H. apply lookup_insert_Some in H as [[-> <-]|[Hne H]]; [done|by eapply v_nodup].
  - intros o1 d1 t1 j H Hin. destruct (decide (t1 = t)) as [->|Hne]; [by rewrite lookup_insert_eq|].
    rewrite lookup_insert_ne by done.
    apply lookup_insert_Some in H as [[-> <-]|[_ H]]; eapply (v_owner _ I); try done. by apply Hoth.
  - intros o1 d1 t1 w1 H1 H2. apply lookup_insert_Some in H2 as [[-> <-]|[Hne H2]].
    + destruct Hrel as [?|(Hnf & Hl & Hq)]; [by left|].
      apply lookup_insert_Some in H1 as [[-> <-]|[Hne H1]]; [by right|].
      destruct (v_rel _ I _ _ _ _ H1 Ht) as [?|Hr]; [done|]. right. intros j. by rewrite Hr, Hl.
    + apply lookup_insert_Some in H1 as [[-> <-]|[Hne1 H1]]; [|by eapply v_rel].
      destruct (v_rel _ I _ _ _ _ Ho H2) as [?|Hr]; [by left|]. right. intros j. by rewrite Hoth, Hr by done.
  - intros t1 w1 H. apply lookup_insert_Some in H as [[-> <-]|[Hne H]]; [done|by eapply v_ok].
  - intros t1 w1 H Hp. apply (Forall_impl (fun o => is_Some (objs s !! o))); [|intros o1 [x Hx]; apply lookup_insert_is_Some'; right; by rewrite Hx].
    apply lookup_insert_Some in H as [[-> <-]|[Hne H]]; [|by eapply v_tgt].
    rewrite Htg. eapply v_tgt; eauto.
Qed.

Lemma inv0_waiter (s : wsys) (t : Z) (w w' : waiter) :
  inv0 s -> waiters s !! t = Some w -> waiter_ok w' -> targets w' = targets w ->
  (pc w = PIdle -> pc w' = PIdle) ->
  (is_fault w' \/ ~ is_fault w /\ forall j o, linked w' j o <-> linked w j o) ->
  inv0 (put_waiter s t w').
Proof.
  intros I Ht Hok Htg Hpc Hrel. split; cbn; try apply I.
  - intros o1 d1 t1 j H Hin. destruct (decide (t1 = t)) as [->|Hne]; [by rewrite lookup_insert_eq|].
    rewrite lookup_insert_ne by done. by eapply (v_owner _ I).
  - intros o1 d1 t1 w1 H1 H2. apply lookup_insert_Some in H2 as [[-> <-]|[Hne H2]]; [|by eapply v_rel].
    destruct Hrel as [?|[Hnf Hl]]; [by left|]. right. intros j.
    destruct (v_rel _ I _ _ _ _ H1 Ht) as [?|Hr]; [done|]. by rewrite Hr, Hl.
  - intros t1 w1 H. apply lookup_insert_Some in H as [[-> <-]|[Hne H]]; [done|by eapply v_ok].
  - intros t1 w1 H Hp. apply lookup_insert_Some in H as [[-> <-]|[Hne H]]; [|by eapply v_tgt].
    rewrite Htg. eapply v_tgt; eauto.
Qed.

(** The invariant does not look at the counts. *)
Lemma inv0_count (s : wsys) (o n : Z) (d : dispatch_header) :
  inv0 s -> objs s !! o = Some d -> inv0 (put_obj s o (set_count d n)).
Proof.
  intros I Ho. split; cbn; try apply I.
  - intros o1 d1 H. apply lookup_insert_Some in H as [[-> <-]|[Hne H]]; [|by eapply v_nodup].
    by apply (v_nodup _ I _ _ Ho).
  - intros o1 d1 t1 j H. apply lookup_insert_Some in H as [[-> <-]|[Hne H]]; [|by eapply v_owner].
    by apply (v_owner _ I _ _ _ _ Ho).
  - intros o1 d1 t1 w1 H. apply lookup_insert_Some in H as [[-> <-]|[Hne H]]; [|by eapply v_rel].
    by apply (v_rel _ I _ _ _ _ Ho).
  - intros t1 w1 H Hp. apply (Forall_impl (fun o => is_Some (objs s !! o))); [by eapply v_tgt|].
    intros o1 [x Hx]. apply lookup_insert_is_Some'. right. by rewrite Hx.
Qed.

(** ** Signalling keeps the invariant *)

(** What taking waitblock [j] off a queue does to its thread. *)
Definition pop_waiter (w : waiter) (j : nat) : waiter :=
  match wstatus w with
  | WAIT_SATISFIED => set_block w j WAITBLOCK_INACTIVE
  | _ => sched_wake_waiter (set_block (set_wstatus w WAIT_SATISFIED) j WAITBLOCK_SIGNALED)
  end.

Lemma pop_targets (w : waiter) (j : nat) : targets (pop_waiter w j) = targets w.
Proof. unfold pop_waiter, sched_wake_waiter. destruct (wstatus w), w as [? []]; done. Qed.

Lemma pop_status (w : waiter) (j : nat) : wstatus (pop_waiter w j) = WAIT_SATISFIED.
Proof. unfold pop_waiter, sched_wake_waiter. destruct (wstatus w) eqn:E, w as [? []]; done. Qed.

Lemma pop_blocks (w : waiter) (j : nat) :
  blocks (pop_waiter w j) =
  <[j := if bool_decide (wstatus w = WAIT_SATISFIED) then WAITBLOCK_INACTIVE else WAITBLOCK_SIGNALED]> (blocks w).
Proof. unfold pop_waiter, sched_wake_waiter. destruct (wstatus w) eqn:E, w as [? []]; done. Qed.

Lemma pop_installed (w : waiter) (j i : nat) : installed (pop_waiter w j) i <-> installed w i.
Proof.
  unfold pop_waiter, sched_wake_waiter, installed. destruct (wstatus w), w as [? []]; cbn in *; try done; lia.
Qed.

Lemma pop_pc (w : waiter) (j : nat) :
  pc (pop_waiter w j) =
  match pc w, wstatus w with
  | PBlocked, WAIT_IN_PROGRESS | PBlocked, WAIT_COMMITTED => PFind 0 None
  | p, _ => p
  end.
Proof. unfold pop_waiter, sched_wake_waiter. destruct (wstatus w), w as [? []]; done. Qed.

Lemma pop_linked (w : waiter) (j i : nat) (o o' : Z) :
  linked w j o -> linked (pop_waiter w j) i o' <-> linked w i o' /\ i <> j.
Proof.
  intros (_ & _ & Hb). unfold linked. rewrite pop_targets, pop_installed, pop_blocks.
  destruct (decide (i = j)) as [->|Hne].
  - rewrite list_lookup_insert_eq by (by eapply lookup_lt_Some).
    case_bool_decide; naive_solver.
  - rewrite list_lookup_insert_ne by done. tauto.
Qed.

Lemma insert_signaled (l : list waitblock_status) (j : nat) (b : waitblock_status) (a e : nat) :
  (a <= j < e)%nat -> (e <= length l)%nat -> b = WAITBLOCK_SIGNALED ->
  (forall i, (a <= i < e)%nat -> l !! i = Some WAITBLOCK_ACTIVE) ->
  exists k, (a <= k < e)%nat /\
    forall i, (a <= i < e)%nat -> <[j := b]> l !! i = Some WAITBLOCK_SIGNALED <-> i = k.
Proof.
  intros Hj Hl -> Ha. exists j. split; [done|]. intros i Hi. destruct (decide (i = j)) as [->|Hne].
  - rewrite list_lookup_insert_eq by lia. done.
  - rewrite list_lookup_insert_ne, Ha by done. split; [done|intros ->; done].
Qed.

Lemma insert_not_signaled (l : list waitblock_status) (j i : nat) (b : waitblock_status) :
  l !! j = Some WAITBLOCK_ACTIVE -> b <> WAITBLOCK_SIGNALED ->
  <[j := b]> l !! i = Some WAITBLOCK_SIGNALED <-> l !! i = Some WAITBLOCK_SIGNALED.
Proof.
  intros Ha Hb. destruct (decide (i = j)) as [->|Hne].
  - rewrite list_lookup_insert_eq, Ha by (by eapply lookup_lt_Some). split; intros [= ->]; done.
  - by rewrite list_lookup_insert_ne.
Qed.

Lemma signaled_ext (w w' : waiter) (a e : nat) :
  (forall i, blocks w' !! i = Some WAITBLOCK_SIGNALED <-> blocks w !! i = Some WAITBLOCK_SIGNALED) ->
  (one_signaled w a e -> one_signaled w' a e) /\ (no_signaled w a e -> no_signaled w' a e).
Proof.
  intros E. split.
  - intros (k & Hk & Ho). exists k. split; [done|]. intros i Hi. by rewrite E, Ho.
  - intros Hn i Hi. rewrite E. by apply Hn.
Qed.

Lemma pop_place (w : waiter) (j : nat) (o : Z) :
  (length (targets w) <= length (blocks w))%nat -> place_ok w -> linked w j o -> place_ok (pop_waiter w j).
Proof.
  intros Hl Hp (Ht & Hi & Hb). unfold place_ok in *. rewrite pop_pc, pop_status, pop_targets.
  unfold preparing in *. rewrite !pop_status, !pop_targets.
  pose proof (fun i H => insert_not_signaled (blocks w) j i WAITBLOCK_INACTIVE Hb H) as Hns.
  pose proof (fun a e => signaled_ext w (pop_waiter w j) a e) as Hse.
  rewrite pop_blocks in Hse. unfold installed in Hi.
  assert (Hone : forall a e, (a <= j < e)%nat -> (e <= length (targets w))%nat -> wstatus w <> WAIT_SATISFIED ->
                   all_active w a e -> one_signaled (pop_waiter w j) a e).
  { intros a e H1 H2 H3 H4. unfold one_signaled. rewrite pop_blocks, bool_decide_false by done.
    apply insert_signaled; [done|lia|done|done]. }
  destruct (pc w) as [|i|sat k| | |i [k|]|r|f] eqn:Epc; try done; destruct (wstatus w) eqn:Est; destruct_and?; try done.
  all: rewrite ?bool_decide_true in Hse by done.
  all: try (split; [done|]).
  all: try (apply Hone; [lia|lia|done|done]).
  all: try (apply Hse; [by intros; apply Hns|done]).
  split; [|by apply Hse; [by intros; apply Hns|]]. by rewrite pop_blocks, bool_decide_true, Hns.
Qed.

Lemma pop_ok (w : waiter) (j : nat) (o : Z) :
  waiter_ok w -> is_fault w \/ linked w j o -> waiter_ok (pop_waiter w j).
Proof.
  intros [Hi|(Hl & Hn & Hp)] Hd.
  - exfalso. destruct Hd as [Hf|(_ & Hin & _)]; unfold is_fault, installed in *; rewrite Hi in *; done.
  - right. rewrite pop_targets, pop_blocks, length_insert. split_and!; [done| |].
    + unfold pop_waiter, sched_wake_waiter. by destruct w as [[] []].
    + destruct Hd as [Hf|Hl']; [|by eapply pop_place]. unfold is_fault, place_ok in *. rewrite pop_pc, pop_status.
      destruct (pc w); try done. by destruct Hp as [_ ->].
Qed.

Lemma pop_inv0 (s : wsys) (o n t : Z) (j : nat) (d : dispatch_header) (q : list wbid) (w : waiter) :
  inv0 s -> objs s !! o = Some d -> waitblocks d = (t, j) :: q -> waiters s !! t = Some w ->
  inv0 (put_waiter (put_obj s o (MkObj q (otype d) n)) t (pop_waiter w j)).
Proof.
  intros I Ho Hq Ht. pose proof (v_nodup _ I _ _ Ho) as Hnd. rewrite Hq in Hnd. apply NoDup_cons in Hnd as [Hni Hnd].
  assert (Hd : is_fault w \/ (~ is_fault w /\ linked w j o /\ forall i, (t, i) ∈ waitblocks d <-> linked w i o)).
  { destruct (v_rel _ I _ _ _ _ Ho Ht) as [?|Hr]; [by left|].
    assert (Hj : linked w j o) by (apply Hr; rewrite Hq; left).
    right. split_and!; [|done|done]. destruct Hj as (_ & Hi & _). unfold installed, is_fault in *. destruct (pc w); tauto. }
  apply (inv0_update s o d _ t w); try done.
  - intros t' i Hne. rewrite Hq, elem_of_cons. split; [by right|]. intros [[= -> ->]|?]; done.
  - eapply pop_ok; [by eapply v_ok|]. naive_solver.
  - apply pop_targets.
  - rewrite pop_pc. by intros ->.
  - destruct Hd as [Hf|(Hnf & Hj & Hr)].
    + left. unfold is_fault in *. rewrite pop_pc. by destruct (pc w).
    + right. split; [done|]. split.
      * intros i o' Hne. rewrite pop_linked by done. split; [tauto|]. intros Hl. split; [done|]. intros ->.
        destruct Hl as [E _], Hj as [E' _]. congruence.
      * intros i. rewrite pop_linked by done. rewrite <- Hr, Hq, elem_of_cons. cbn. split.
        -- intros Hi. split; [by right|]. intros ->. done.
        -- intros [[[= ->]|?] ?]; done.
Qed.

(** Taking a list of waitblocks off a queue, front first. *)
Definition pops (bs : list wbid) (ws : gmap Z waiter) : gmap Z waiter :=
  foldl (fun ws b => alter (fun w => pop_waiter w (snd b)) (fst b) ws) ws bs.

Definition satisfied (ws : gmap Z waiter) (t : Z) : Prop :=
  exists w, ws !! t = Some w /\ wstatus w = WAIT_SATISFIED.

Lemma satisfied_alter (ws : gmap Z waiter) (t t' : Z) (j : nat) :
  satisfied ws t' -> satisfied (alter (fun w => pop_waiter w j) t ws) t'.
Proof.
  intros (w & Hw & Hs). destruct (decide (t = t')) as [->|Hne].
  - exists (pop_waiter w j). rewrite lookup_alter_eq, Hw. split; [done|apply pop_status].
  - exists w. by rewrite lookup_alter_ne.
Qed.

Lemma satisfied_alter_inv (ws : gmap Z waiter) (t t' : Z) (j : nat) :
  satisfied ws t -> satisfied (alter (fun w => pop_waiter w j) t ws) t' -> satisfied ws t'.
Proof.
  intros Ht (w & Hw & Hs). destruct (decide (t = t')) as [->|Hne]; [done|].
  exists w. by rewrite lookup_alter_ne in Hw.
Qed.

Lemma satisfied_pops (bs : list wbid) (ws : gmap Z waiter) (t : Z) : satisfied ws t -> satisfied (pops bs ws) t.
Proof. revert ws. induction bs as [|b bs IH]; intros ws H; [done|]. apply IH. by apply satisfied_alter. Qed.

Lemma pops_satisfied (bs : list wbid) (ws : gmap Z waiter) (t : Z) (j : nat) :
  (t, j) ∈ bs -> is_Some (ws !! t) -> satisfied (pops bs ws) t.
Proof.
  revert ws. induction bs as [|[t' j'] bs IH]; intros ws Hin Hw; [by apply elem_of_nil in Hin|].
  change (satisfied (pops bs (alter (fun w => pop_waiter w j') t' ws)) t).
  apply elem_of_cons in Hin as [[= <- <-]|Hin].
  - apply satisfied_pops. destruct Hw as [w Hw]. exists (pop_waiter w j).
    rewrite lookup_alter_eq, Hw. split; [done|apply pop_status].
  - apply IH; [done|]. destruct (decide (t' = t)) as [->|Hne].
    + rewrite lookup_alter_eq. by apply fmap_is_Some.
    + by rewrite lookup_alter_ne.
Qed.

Lemma pops_other (bs : list wbid) (ws : gmap Z waiter) (t : Z) :
  (forall j, (t, j) ∉ bs) -> pops bs ws !! t = ws !! t.
Proof.
  revert ws. induction bs as [|[t' j'] bs IH]; intros ws Hn; [done|].
  change (pops bs (alter (fun w => pop_waiter w j') t' ws) !! t = ws !! t). rewrite IH.
  - apply lookup_alter_ne. intros ->. apply (Hn j'). left.
  - intros j Hj. apply (Hn j). by right.
Qed.

Definition try_satisfy_post (s s' : wsys) (o : Z) (d : dispatch_header) (r : option Z) : Prop :=
  inv0 s' /\ (forall o', o' <> o -> objs s' !! o' = objs s !! o') /\
  exists d' taken,
    objs s' !! o = Some d' /\ otype d' = otype d /\
    waitblocks d = taken ++ waitblocks d' /\ waiters s' = pops taken (waiters s) /\
    match r with
    | None =>
        signaled_count d' = signaled_count d /\ (0 < signaled_count d -> waitblocks d' = []) /\
        (signaled_count d <= 0 -> taken = []) /\
        (otype d = DISPATCH_SYNCHRONIZATION -> Forall (fun b => satisfied (waiters s) (fst b)) taken)
    | Some t =>
        otype d = DISPATCH_SYNCHRONIZATION /\ 0 < signaled_count d /\
        signaled_count d' = s32 (signaled_count d - 1) /\
        exists pre j, taken = pre ++ [(t, j)] /\ Forall (fun b => satisfied (waiters s) (fst b)) pre /\
                      ~ satisfied (waiters s) t
    end.

(** One waitblock off the queue, and the rest of the work after it. *)
Lemma try_satisfy_post_pop (s s' : wsys) (o t : Z) (j : nat) (d : dispatch_header) (q : list wbid)
    (w : waiter) (r : option Z) :
  objs s !! o = Some d -> waitblocks d = (t, j) :: q -> waiters s !! t = Some w -> 0 < signaled_count d ->
  (otype d = DISPATCH_SYNCHRONIZATION -> wstatus w = WAIT_SATISFIED) ->
  try_satisfy_post (put_waiter (put_obj s o (set_queue d q)) t (pop_waiter w j)) s' o (set_queue d q) r ->
  try_satisfy_post s s' o d r.
Proof.
  intros Ho Hq Ht Hc Hsat (I & Hoth & d' & taken & Ho' & Hty & Hw & Hws & Hr). cbn in *.
  assert (Ea : <[t := pop_waiter w j]> (waiters s) = alter (fun w => pop_waiter w j) t (waiters s)).
  { apply map_eq. intros i. rewrite lookup_alter. destruct (decide (t = i)) as [->|Hne].
    - by rewrite lookup_insert_eq, Ht.
    - by rewrite lookup_insert_ne. }
  split; [done|]. split; [intros o' Hne; rewrite Hoth by done; by apply lookup_insert_ne|].
  exists d', ((t, j) :: taken). rewrite Hq, Hw, Hws, Ea. split_and!; [done..|].
  assert (Hback : otype d = DISPATCH_SYNCHRONIZATION -> forall t', satisfied (<[t := pop_waiter w j]> (waiters s)) t' -> satisfied (waiters s) t').
  { rewrite Ea. intros Hd t'. apply satisfied_alter_inv. exists w. split; [done|by apply Hsat]. }
  destruct r as [t1|].
  - destruct Hr as (Hd & _ & Hcn & pre & j1 & -> & Hpre & Hns). split_and!; [done..|].
    exists ((t, j) :: pre), j1. split_and!; [done| |].
    + constructor; [exists w; split; [done|by apply Hsat]|]. eapply Forall_impl; [done|]. intros b. by apply Hback.
    + rewrite Ea in Hns. intros H. apply Hns. by apply satisfied_alter.
  - destruct Hr as (Hcn & He & Hz & Hall). split_and!; [done|done|lia|]. intros Hd.
    constructor; [exists w; split; [done|by apply Hsat]|].
    eapply Forall_impl; [by apply Hall|]. intros b. by apply Hback.
Qed.

Lemma try_satisfy_loop_stops (n : nat) (s : wsys) (o : Z) (d : dispatch_header) :
  inv0 s -> objs s !! o = Some d -> waitblocks d = [] \/ signaled_count d <= 0 ->
  try_satisfy_loop n s o = (s, None) /\ try_satisfy_post s s o d None.
Proof.
  intros I Ho Hd. split.
  - destruct n as [|n]; [done|]. cbn. rewrite Ho. destruct (waitblocks d) as [|[t j] q]; [done|].
    destruct Hd as [?|Hd]; [done|]. by rewrite (proj2 (Z.leb_le _ _) Hd).
  - split; [done|]. split; [done|]. exists d, []. split_and!; try done.
    intros H. destruct Hd; [done|lia].
Qed.

Lemma try_satisfy_loop_spec (n : nat) (s : wsys) (o : Z) (d : dispatch_header) :
  inv0 s -> objs s !! o = Some d -> (length (waitblocks d) <= n)%nat ->
  exists s' r, try_satisfy_loop n s o = (s', r) /\ try_satisfy_post s s' o d r.
Proof.
  revert s d. induction n as [|n IH]; intros s d I Ho Hn.
  { exists s, None. apply try_satisfy_loop_stops; [done|done|]. left. destruct (waitblocks d); cbn in *; [done|lia]. }
  destruct (decide (waitblocks d = [] \/ signaled_count d <= 0)) as [Hd|Hd].
  { exists s, None. by apply try_satisfy_loop_stops. }
  destruct (waitblocks d) as [|[t j] q] eqn:Eq; [tauto|].
  assert (Hc : 0 < signaled_count d) by lia. clear Hd.
  destruct (v_owner _ I o d t j Ho) as [w Hw]; [rewrite Eq; left|].
  pose proof (fun n => pop_inv0 s o n t j d q w I Ho Eq Hw) as Hpop.
  assert (Hrec : (otype d = DISPATCH_SYNCHRONIZATION -> wstatus w = WAIT_SATISFIED) ->
    exists s' r, try_satisfy_loop n (put_waiter (put_obj s o (set_queue d q)) t (pop_waiter w j)) o = (s', r) /\
                 try_satisfy_post s s' o d r).
  { intros Hs. destruct (IH _ (set_queue d q) (Hpop (signaled_count d))) as (s' & r & E & H).
    - cbn. by rewrite lookup_insert_eq.
    - cbn in *. lia.
    - exists s', r. split; [done|]. by eapply try_satisfy_post_pop. }
  cbn [try_satisfy_loop]. rewrite Ho, Eq, (proj2 (Z.leb_gt _ _) Hc), Hw. cbn [otype set_queue].
  destruct (decide (wstatus w = WAIT_SATISFIED)) as [Hs|Hs].
  { rewrite Hs. destruct (Hrec (fun _ => Hs)) as (s' & r & E & H). exists s', r. split; [|done].
    unfold pop_waiter in E. by rewrite Hs in E. }
  assert (Ep : sched_wake_waiter (set_block (set_wstatus w WAIT_SATISFIED) j WAITBLOCK_SIGNALED) = pop_waiter w j).
  { unfold pop_waiter. by destruct (wstatus w). }
  rewrite Ep. unfold dispatch_object_consume. cbn [otype set_queue].
  destruct (otype d) eqn:Ety.
  - destruct (Hrec ltac:(done)) as (s' & r & E & H). exists s', r. split; [|done].
    destruct (wstatus w); done.
  - exists (put_waiter (put_obj s o (set_count (set_queue d q) (s32 (signaled_count d - 1)))) t (pop_waiter w j)), (Some t).
    split; [destruct (wstatus w); done|]. split; [unfold set_count, set_queue; cbn; rewrite Ety; apply Hpop|].
    split; [intros o' Hne; cbn; by apply lookup_insert_ne|]. eexists _, [(t, j)].
    split; [cbn; by rewrite lookup_insert_eq|]. split_and!; [done|by rewrite Eq| |done|done|done|].
    + cbn. apply map_eq. intros i. rewrite lookup_alter. destruct (decide (t = i)) as [->|Hne].
      * by rewrite lookup_insert_eq, Hw.
      * by rewrite lookup_insert_ne.
    + exists [], j. split_and!; [done|constructor|]. intros (w' & Hw' & Hs'). congruence.
Qed.

Lemma s32_range (x : Z) : int_range (s32 x).
Proof.
  unfold int_range, s32, signed. pose proof (Z.mod_pos_bound x (2 ^ 32) ltac:(lia)).
  change (2 ^ (32 - 1)) with (2 ^ 31). case_if; lia.
Qed.

Lemma try_satisfy_spec (s : wsys) (o : Z) (d : dispatch_header) :
  inv0 s -> objs s !! o = Some d ->
  exists s' r, try_satisfy_dispatch_object s o = (s', r) /\ try_satisfy_post s s' o d r.
Proof. intros I Ho. unfold try_satisfy_dispatch_object. rewrite Ho. by apply try_satisfy_loop_spec. Qed.

(** Setting a count that leaves at most one signal to waiting threads, then
    handing it out. *)
Lemma signal_inv (s : wsys) (o n : Z) (d : dispatch_header) :
  inv s -> objs s !! o = Some d -> int_range n -> (1 < n -> waitblocks d = []) ->
  inv (fst (try_satisfy_dispatch_object (put_obj s o (set_count d n)) o)).
Proof.
  intros [I Hok] Ho Hn Hone.
  destruct (try_satisfy_spec (put_obj s o (set_count d n)) o (set_count d n)) as
    (s' & r & -> & I' & Hoth & d' & taken & Ho' & Hty & Hw & _ & Hr).
  { by apply inv0_count. }
  { cbn. by rewrite lookup_insert_eq. }
  cbn in *. split; [done|]. intros o1 d1 H. destruct (decide (o1 = o)) as [->|Hne].
  - rewrite Ho' in H. injection H as <-. unfold object_ok. destruct r as [t|].
    + destruct Hr as (_ & Hpos & Hc & pre & j & -> & _). rewrite Hc. split; [apply s32_range|].
      rewrite s32_small by (unfold int_range in *; lia). intros Hgt.
      rewrite Hone in Hw by lia. by destruct pre.
    + destruct Hr as (Hc & He & _). rewrite Hc. done.
  - rewrite Hoth, lookup_insert_ne in H by done. by eapply Hok.
Qed.

(** on a synchronization object with a signal to give,
    [try_satisfy_dispatch_object] satisfies the first queued thread whose
    wait is not over yet, uses up one signal and leaves the rest of the queue
    alone; when there is no such thread it empties the queue of stale
    waitblocks and keeps the signal.  On a notification object it satisfies
    every queued thread, empties the queue and keeps the signal.  Threads
    that are not taken off the queue are not touched. *)
Theorem try_satisfy_dispatch_object_correct (s : wsys) (o : Z) (d : dispatch_header) :
  inv0 s -> objs s !! o = Some d -> 0 < signaled_count d < 2 ^ 31 ->
  exists s' r d' taken,
    try_satisfy_dispatch_object s o = (s', r) /\
    inv0 s' /\ objs s' = <[o := d']> (objs s) /\ otype d' = otype d /\
    waitblocks d = taken ++ waitblocks d' /\
    (forall t, (forall j, (t, j) ∉ taken) -> waiters s' !! t = waiters s !! t) /\
    (forall t j, (t, j) ∈ taken -> satisfied (waiters s') t) /\
    match r with
    | Some t =>
        otype d = DISPATCH_SYNCHRONIZATION /\ signaled_count d' = signaled_count d - 1 /\
        exists pre j, taken = pre ++ [(t, j)] /\ Forall (fun b => satisfied (waiters s) (fst b)) pre /\
                      ~ satisfied (waiters s) t
    | None =>
        waitblocks d' = [] /\ signaled_count d' = signaled_count d /\
        (otype d = DISPATCH_SYNCHRONIZATION -> Forall (fun b => satisfied (waiters s) (fst b)) taken)
    end.
Proof.
  intros I Ho Hc. destruct (try_satisfy_spec s o d I Ho) as (s' & r & -> & I' & Hoth & d' & taken & Ho' & Hty & Hw & Hws & Hr).
  exists s', r, d', taken. split; [done|]. split; [done|]. split.
  { apply map_eq. intros o1. destruct (decide (o1 = o)) as [->|Hne].
    - by rewrite lookup_insert_eq.
    - rewrite lookup_insert_ne by done. by apply Hoth. }
  rewrite Hws. split; [done|]. split; [done|]. split; [intros t Ht; by apply pops_other|]. split.
  { intros t j Hin. eapply pops_satisfied; [done|]. eapply (v_owner _ I); [done|].
    rewrite Hw. by apply elem_of_app; left. }
  destruct r as [t|].
  - destruct Hr as (Hs & _ & -> & Hr). split; [done|]. split; [|done]. apply s32_small. unfold int_range. lia.
  - destruct Hr as (-> & He & _ & Hr). split; [apply He; lia|done].
Qed.

(** ** The steps of a wait keep the invariant *)

Lemma objects_ok_put (s : wsys) (o t : Z) (d : dispatch_header) (w : waiter) :
  (forall o d, objs s !! o = Some d -> object_ok d) -> object_ok d ->
  forall o' d', objs (put_waiter (put_obj s o d) t w) !! o' = Some d' -> object_ok d'.
Proof. intros H Hd o' d' E. cbn in E. apply lookup_insert_Some in E as [[-> <-]|[_ E]]; [done|by eapply H]. Qed.

Lemma consume_ok (d : dispatch_header) : object_ok d -> 0 < signaled_count d -> object_ok (dispatch_object_consume d).
Proof.
  intros [Hr Hq] Hc. unfold dispatch_object_consume. destruct (otype d); [done|].
  split; cbn; [apply s32_range|]. intros _. by apply Hq.
Qed.

Lemma consume_queue (d : dispatch_header) : waitblocks (dispatch_object_consume d) = waitblocks d.
Proof. unfold dispatch_object_consume. by destruct (otype d). Qed.

Lemma waiter_ok_place (w : waiter) :
  waiter_ok w -> pc w <> PIdle ->
  (length (targets w) <= length (blocks w))%nat /\ no_timeout_wait w = false /\ place_ok w.
Proof. by intros [?|?]. Qed.

Lemma install_signaled_inv (s : wsys) (t o : Z) (w : waiter) (i : nat) (d : dispatch_header) :
  inv s -> waiters s !! t = Some w -> pc w = PInstall i -> targets w !! i = Some o -> objs s !! o = Some d ->
  0 < signaled_count d ->
  inv (put_waiter (put_obj s o (dispatch_object_consume d)) t (set_pc (set_wstatus w WAIT_SATISFIED) (PBackout i 0))) /\
  (wstatus w = WAIT_SATISFIED -> inv (put_waiter s t (set_pc w (PBackout i 0)))).
Proof.
  intros [I Hok] Hw Hpc Ht Ho Hc.
  destruct (waiter_ok_place w (v_ok _ I _ _ Hw)) as (Hl & Hn & Hp); [by rewrite Hpc|].
  assert (Hi : (i < length (targets w))%nat) by (by eapply lookup_lt_Some).
  assert (Hlk : forall w' j o', targets w' = targets w -> blocks w' = blocks w -> pc w' = PBackout i 0 ->
                  linked w' j o' <-> linked w j o').
  { intros w' j o' E1 E2 E3. unfold linked, installed. rewrite E1, E2, E3, Hpc. intuition lia. }
  assert (Hnf : ~ is_fault w) by (unfold is_fault; rewrite Hpc; tauto).
  split.
  - split.
    + apply (inv0_update s o d _ t w); try done.
      * rewrite consume_queue. by eapply v_nodup.
      * intros. by rewrite consume_queue.
      * right. split_and!; [done|done|]. unfold place_ok. cbn. split; [done|lia].
      * by rewrite Hpc.
      * right. split; [done|]. split; [intros; by apply Hlk|]. intros j. rewrite consume_queue, Hlk by done.
        destruct (v_rel _ I _ _ _ _ Ho Hw) as [?|Hr]; [done|apply Hr].
    + apply objects_ok_put; [done|]. apply consume_ok; [by eapply Hok|done].
  - intros Hs. split; [|done]. apply (inv0_waiter s t w); try done.
    + right. split_and!; [done|done|]. unfold place_ok. cbn. split; [done|lia].
    + by rewrite Hpc.
    + right. split; [done|]. intros. by apply Hlk.
Qed.

Lemma all_active_insert (w : waiter) (i : nat) (st : waitblock_status) :
  (i < length (blocks w))%nat -> st = WAITBLOCK_ACTIVE ->
  (all_active w 0 i -> all_active (set_block w i st) 0 (S i)) /\
  (one_signaled w 0 i -> one_signaled (set_block w i st) 0 (S i)).
Proof.
  intros Hi ->. split.
  - intros Ha j Hj. cbn. destruct (decide (j = i)) as [->|]; [by rewrite list_lookup_insert_eq|].
    rewrite list_lookup_insert_ne by done. apply Ha. lia.
  - intros (k & Hk & Ho). exists k. split; [lia|]. intros j Hj. cbn. destruct (decide (j = i)) as [->|].
    + rewrite list_lookup_insert_eq by done. split; [done|lia].
    + rewrite list_lookup_insert_ne by done. apply Ho. lia.
Qed.

Lemma install_queue_inv (s : wsys) (t o : Z) (w : waiter) (i : nat) (d : dispatch_header) :
  inv s -> waiters s !! t = Some w -> pc w = PInstall i -> targets w !! i = Some o -> objs s !! o = Some d ->
  signaled_count d <= 0 ->
  inv (put_waiter (put_obj s o (set_queue d (waitblocks d ++ [(t, i)]))) t
         (set_pc (set_block w i WAITBLOCK_ACTIVE) (PInstall (S i)))).
Proof.
  intros [I Hok] Hw Hpc Ht Ho Hc.
  destruct (waiter_ok_place w (v_ok _ I _ _ Hw)) as (Hl & Hn & Hp); [by rewrite Hpc|].
  assert (Hi : (i < length (targets w))%nat) by (by eapply lookup_lt_Some).
  assert (Hnf : ~ is_fault w) by (unfold is_fault; rewrite Hpc; tauto).
  destruct (v_rel _ I _ _ _ _ Ho Hw) as [?|Hr]; [done|].
  assert (Hlk : forall j o', linked (set_pc (set_block w i WAITBLOCK_ACTIVE) (PInstall (S i))) j o' <->
                  linked w j o' \/ j = i /\ o' = o).
  { intros j o'. unfold linked, installed. cbn. rewrite Hpc. destruct (decide (j = i)) as [->|Hne].
    - rewrite list_lookup_insert_eq by lia. rewrite Ht. naive_solver lia.
    - rewrite list_lookup_insert_ne by done. naive_solver lia. }
  split.
  - apply (inv0_update s o d _ t w); try done.
    + cbn. apply NoDup_app. split_and!; [by eapply v_nodup| |by apply NoDup_singleton].
      intros x Hx ->%list_elem_of_singleton. apply Hr in Hx as (_ & Hx & _). unfold installed in Hx. rewrite Hpc in Hx. lia.
    + intros t' j Hne. cbn. rewrite elem_of_app, list_elem_of_singleton. naive_solver.
    + right. cbn. rewrite length_insert. split_and!; [done|done|]. unfold place_ok in *. cbn. rewrite Hpc in Hp.
      unfold preparing in *. cbn. destruct Hp as [_ Hp]. split; [lia|].
      destruct (all_active_insert w i WAITBLOCK_ACTIVE) as [H1 H2]; [lia|done|].
      destruct (wstatus w); [by apply H1|done|by apply H2].
    + by rewrite Hpc.
    + right. split; [done|]. split.
      * intros j o' Hne. rewrite Hlk. naive_solver.
      * intros j. rewrite Hlk. cbn. rewrite elem_of_app, list_elem_of_singleton, Hr. naive_solver.
  - apply objects_ok_put; [done|]. split; cbn; [by eapply Hok|lia].
Qed.

Lemma install_step_inv (s s' : wsys) (t : Z) (w : waiter) (i : nat) :
  inv s -> waiters s !! t = Some w -> pc w = PInstall i -> install_step s t w i = Some s' -> inv s'.
Proof.
  intros I Hw Hpc. unfold install_step.
  destruct (waiter_ok_place w (v_ok _ (proj1 I) _ _ Hw)) as (Hl & Hn & Hp); [by rewrite Hpc|].
  unfold place_ok in Hp. rewrite Hpc in Hp. destruct (targets w !! i) as [o|] eqn:Ht.
  - destruct (objs s !! o) as [d|] eqn:Ho; [|done]. case_if.
    + destruct (install_signaled_inv s t o w i d) as [H1 H2]; try done.
      destruct Hp as [_ Hp]. destruct (wstatus w) eqn:Est; intros [= <-]; [done|done|by apply H2].
    + intros [= <-]. by apply install_queue_inv.
  - rewrite Hn. intros [= <-]. apply lookup_ge_None in Ht. destruct Hp as [Hle Hp].
    destruct I as [I Hok]. split; [|done].
    apply (inv0_waiter s t w); try done.
    + right. split_and!; [done|done|]. unfold place_ok. cbn.
      assert (i = length (targets w)) as -> by lia. done.
    + by rewrite Hpc.
    + right. split; [unfold is_fault; rewrite Hpc; tauto|]. intros j o. unfold linked, installed. cbn. rewrite Hpc.
      split; intros (H1 & H2 & H3); split_and!; try done; lia.
Qed.

Lemma qdel_wb_elem (b x : wbid) (q : list wbid) : x ∈ qdel_wb b q <-> x ∈ q /\ x <> b.
Proof. unfold qdel_wb. rewrite list_elem_of_filter. tauto. Qed.

(** A thread takes its waitblock [k] off the queue of its object. *)
Lemma unlink_inv (s : wsys) (t o : Z) (w w' : waiter) (k : nat) (d : dispatch_header) :
  inv s -> waiters s !! t = Some w -> objs s !! o = Some d -> ~ is_fault w -> pc w <> PIdle ->
  targets w !! k = Some o -> targets w' = targets w -> waiter_ok w' ->
  (forall j o', linked w' j o' <-> linked w j o' /\ j <> k) ->
  inv (put_waiter (put_obj s o (set_queue d (qdel_wb (t, k) (waitblocks d)))) t w').
Proof.
  intros [I Hok] Hw Ho Hnf Hpc Hk Htg Hwok Hlk. destruct (v_rel _ I _ _ _ _ Ho Hw) as [?|Hr]; [done|]. split.
  - apply (inv0_update s o d _ t w); try done.
    + apply NoDup_filter. by eapply v_nodup.
    + intros t' j Hne. cbn. rewrite qdel_wb_elem. naive_solver.
    + right. split; [done|]. split.
      * intros j o' Hne. rewrite Hlk. split; [tauto|]. intros H. split; [done|]. intros ->. destruct H as [H _]. congruence.
      * intros j. cbn. rewrite qdel_wb_elem, Hr, Hlk. naive_solver.
  - apply objects_ok_put; [done|]. destruct (Hok _ _ Ho) as [Hc Hq]. split; [done|]. cbn.
    intros H. by rewrite (Hq H).
Qed.

(** A thread moves on without touching a queue. *)
Lemma advance_inv (s : wsys) (t : Z) (w w' : waiter) :
  inv s -> waiters s !! t = Some w -> pc w <> PIdle -> targets w' = targets w -> waiter_ok w' ->
  is_fault w' \/ ~ is_fault w /\ (forall j o, linked w' j o <-> linked w j o) ->
  inv (put_waiter s t w').
Proof. intros [I Hok] Hw Hpc Htg Hwok Hlk. split; [|done]. by apply (inv0_waiter s t w). Qed.

Lemma backout_step_inv (s s' : wsys) (t : Z) (w : waiter) (sat k : nat) :
  inv s -> waiters s !! t = Some w -> pc w = PBackout sat k -> backout_step s t w sat k = Some s' -> inv s'.
Proof.
  intros I Hw Hpc. unfold backout_step.
  assert (Hnf : ~ is_fault w) by (unfold is_fault; rewrite Hpc; tauto).
  assert (Hni : pc w <> PIdle) by (by rewrite Hpc).
  destruct (waiter_ok_place w (v_ok _ (proj1 I) _ _ Hw) Hni) as (Hl & Hn & Hp).
  unfold place_ok in Hp. rewrite Hpc in Hp. destruct Hp as [Hs Hk].
  destruct (k <? sat)%nat eqn:E; [apply Nat.ltb_lt in E|apply Nat.ltb_ge in E].
  - destruct (targets w !! k) as [o|] eqn:Ht; cbn; [|done]. destruct (objs s !! o) as [d|] eqn:Ho; cbn; [|done].
    case_bool_decide as Hin; intros [= <-].
    + apply (unlink_inv s t o w); try done.
      * right. cbn. rewrite length_insert. split; [done|]. split; [done|]. split; [done|lia].
      * intros j o'. unfold linked, installed. cbn. rewrite Hpc. destruct (decide (j = k)) as [->|Hne].
        -- split; [|naive_solver]. intros (_ & H & _). lia.
        -- rewrite list_lookup_insert_ne by done. naive_solver lia.
    + apply (advance_inv s t w); try done; [|by left]. right. split_and!; done.
  - intros [= <-]. apply (advance_inv s t w); try done.
    + right. split_and!; done.
    + right. split; [done|]. intros j o. unfold linked, installed. cbn. rewrite Hpc. naive_solver lia.
Qed.

Lemma one_signaled_next (w : waiter) (i e : nat) (b : waitblock_status) :
  blocks w !! i = Some b -> one_signaled w i e ->
  if decide (b = WAITBLOCK_SIGNALED) then no_signaled w (S i) e else one_signaled w (S i) e.
Proof.
  intros Hb (k & Hk & Ho). case_decide as Hd.
  - subst b. assert (k = i) as -> by (symmetry; apply Ho; [lia|done]). intros j Hj H. apply Ho in H; lia.
  - exists k. assert (k <> i) by (intros ->; apply Hd; apply (Ho i) in Hk; destruct Hk as [_ Hk]; rewrite Hk in Hb by done; congruence).
    split; [lia|]. intros j Hj. apply Ho. lia.
Qed.

Lemma find_step_place (w : waiter) (i : nat) (sat : option nat) (b : waitblock_status) :
  (length (targets w) <= length (blocks w))%nat -> (i < length (targets w))%nat -> blocks w !! i = Some b ->
  pc w = PFind i sat -> place_ok w ->
  match sat with Some _ => b <> WAITBLOCK_SIGNALED | None => True end /\
  place_ok (set_pc w (PFind (S i) (if decide (b = WAITBLOCK_SIGNALED) then Some i else sat))).
Proof.
  intros Hl Hi Hb Hpc Hp. unfold place_ok in *. cbn. rewrite Hpc in Hp. destruct sat as [k|].
  - destruct Hp as (Hs & Hk & Hn). assert (b <> WAITBLOCK_SIGNALED) by (intros ->; by apply (Hn i); [lia|]).
    rewrite decide_False by done. split_and!; [done..|]. intros j Hj. apply Hn. lia.
  - destruct Hp as (Hs & Ho). split; [done|]. pose proof (one_signaled_next w i _ b Hb Ho) as H.
    destruct (decide (b = WAITBLOCK_SIGNALED)) as [->|]; done.
Qed.

(** The loop that looks for the satisfier never faults. *)
Lemma find_step_inv (s : wsys) (t : Z) (w : waiter) (i : nat) (sat : option nat) :
  inv s -> waiters s !! t = Some w -> pc w = PFind i sat ->
  exists s' p, find_step s t w i sat = Some s' /\ inv s' /\ waiters s' !! t = Some (set_pc w p) /\
    ((i < length (targets w))%nat /\ (exists sat', p = PFind (S i) sat') \/
     (length (targets w) <= i)%nat /\
     exists k, blocks w !! k = Some WAITBLOCK_SIGNALED /\
               p = PDone (if bool_decide (Some k = timer_i w) then None else Some k)).
Proof.
  intros I Hw Hpc. unfold find_step.
  assert (Hnf : ~ is_fault w) by (unfold is_fault; rewrite Hpc; tauto).
  assert (Hni : pc w <> PIdle) by (by rewrite Hpc).
  destruct (waiter_ok_place w (v_ok _ (proj1 I) _ _ Hw) Hni) as (Hl & Hn & Hp).
  destruct (targets w !! i) as [o|] eqn:Ht.
  - assert (Hi : (i < length (targets w))%nat) by (by eapply lookup_lt_Some).
    pose proof (v_tgt _ (proj1 I) _ _ Hw Hni) as Htg. rewrite Forall_lookup in Htg.
    destruct (Htg _ _ Ht) as [d Ho]. rewrite Ho. destruct (lookup_lt_is_Some_2 (blocks w) i) as [b Hb]; [lia|].
    destruct (find_step_place w i sat b Hl Hi Hb Hpc Hp) as [Hsat Hp']. rewrite Hb.
    destruct (v_rel _ (proj1 I) _ _ _ _ Ho Hw) as [?|Hr]; [done|].
    assert (Hlk : forall sat' j o', linked (set_pc w (PFind (S i) sat')) j o' <-> linked w j o' /\ j <> i).
    { intros sat' j o'. unfold linked, installed. cbn. rewrite Hpc. naive_solver lia. }
    destruct (decide (b = WAITBLOCK_ACTIVE)) as [->|Hb1].
    + rewrite bool_decide_true by (apply Hr; unfold linked, installed; rewrite Hpc; split_and!; [done|lia|lia|done]).
      eexists _, _. split; [done|]. cbn. rewrite lookup_insert_eq. split_and!; [|done|left; naive_solver].
      apply (unlink_inv s t o w); try done. right. split_and!; done.
    + assert (H : find_step s t w i sat =
          Some (put_waiter s t (set_pc w (PFind (S i) (if decide (b = WAITBLOCK_SIGNALED) then Some i else sat))))).
      { unfold find_step. rewrite Ht, Ho, Hb. destruct b; [done|by rewrite decide_False|by destruct sat]. }
      unfold find_step in H. rewrite Ht, Ho, Hb in H. rewrite H. eexists _, _. split; [done|]. cbn.
      rewrite lookup_insert_eq. split_and!; [|done|left; naive_solver].
      apply (advance_inv s t w); try done; [right; split_and!; done|]. right. split; [done|].
      intros j o'. rewrite Hlk. split; [tauto|]. intros Hj. split; [done|]. intros ->. destruct Hj as (_ & _ & Hj). congruence.
  - apply lookup_ge_None in Ht. assert (Hsat : exists k, sat = Some k /\ blocks w !! k = Some WAITBLOCK_SIGNALED).
    { unfold place_ok in Hp. rewrite Hpc in Hp. destruct sat as [k|]; [naive_solver|].
      destruct Hp as (_ & k & Hk & _). lia. }
    destruct Hsat as (k & -> & Hk). eexists _, _. split; [done|]. cbn. rewrite lookup_insert_eq.
    split_and!; [|done|right; naive_solver].
    apply (advance_inv s t w); try done.
    + right. split_and!; [done|done|]. unfold place_ok in *. rewrite Hpc in Hp. apply Hp.
    + right. split; [done|]. intros j o. unfold linked, installed. cbn. rewrite Hpc. naive_solver lia.
Qed.

Lemma commit_step_inv (s s' : wsys) (t : Z) (w : waiter) :
  inv s -> waiters s !! t = Some w -> pc w = PCommit -> wait_step s t = Some s' -> inv s'.
Proof.
  intros I Hw Hpc. unfold wait_step. rewrite Hw, Hpc.
  assert (Hni : pc w <> PIdle) by (by rewrite Hpc).
  destruct (waiter_ok_place w (v_ok _ (proj1 I) _ _ Hw) Hni) as (Hl & Hn & Hp).
  unfold place_ok in Hp. rewrite Hpc in Hp. destruct Hp as [_ Hp].
  destruct (wstatus w) eqn:Est; try done; intros [= <-]; (apply (advance_inv s t w); try done);
    try (right; split_and!; done); right; (split; [unfold is_fault; rewrite Hpc; tauto|]);
    intros j o; unfold linked, installed; cbn; rewrite Hpc; naive_solver lia.
Qed.

(** ** Calling [wait_any] *)

Lemma call_inv0 (s : wsys) (t : Z) (w w' : waiter) :
  inv0 s -> waiters s !! t = Some w -> ~ is_fault w -> (forall j, ~ installed w j) ->
  ~ is_fault w' -> (forall j, ~ installed w' j) -> waiter_ok w' ->
  Forall (fun o => is_Some (objs s !! o)) (targets w') -> inv0 (put_waiter s t w').
Proof.
  intros I Ht Hnf Hni Hnf' Hni' Hok Htg. split; cbn; try apply I.
  - intros o1 d1 t1 j H Hin. destruct (decide (t1 = t)) as [->|Hne]; [by rewrite lookup_insert_eq|].
    rewrite lookup_insert_ne by done. by eapply (v_owner _ I).
  - intros o1 d1 t1 w1 H1 H2. apply lookup_insert_Some in H2 as [[-> <-]|[Hne H2]]; [|by eapply v_rel].
    destruct (v_rel _ I _ _ _ _ H1 Ht) as [?|Hr]; [done|]. right. intros j. rewrite Hr. unfold linked.
    specialize (Hni j). specialize (Hni' j). tauto.
  - intros t1 w1 H. apply lookup_insert_Some in H as [[-> <-]|[Hne H]]; [done|by eapply v_ok].
  - intros t1 w1 H Hp. apply lookup_insert_Some in H as [[-> <-]|[Hne H]]; [done|by eapply v_tgt].
Qed.

Lemma new_object_inv (s : wsys) (o : Z) (ty : dispatch_object_type) :
  inv s -> objs s !! o = None -> inv (put_obj s o (dispatch_object_init ty)).
Proof.
  intros [I Hok] Ho. split; [split; cbn; try apply I|].
  - intros o1 d1 H. apply lookup_insert_Some in H as [[-> <-]|[Hne H]]; [constructor|by eapply v_nodup].
  - intros o1 d1 t1 j H. apply lookup_insert_Some in H as [[-> <-]|[Hne H]]; [by intros ?%elem_of_nil|by eapply v_owner].
  - intros o1 d1 t1 w1 H Hw. apply lookup_insert_Some in H as [[-> <-]|[Hne H]]; [|by eapply v_rel].
    right. intros j. cbn. rewrite elem_of_nil. split; [done|]. intros (Ht & Hi & _).
    assert (Hp : pc w1 <> PIdle) by (unfold installed in Hi; by destruct (pc w1)).
    pose proof (v_tgt _ I _ _ Hw Hp) as Htg. rewrite Forall_lookup in Htg. apply Htg in Ht. rewrite Ho in Ht. by destruct Ht.
  - intros t1 w1 H Hp. apply (Forall_impl (fun o => is_Some (objs s !! o))); [by eapply v_tgt|].
    intros o1 [x Hx]. apply lookup_insert_is_Some'. right. by rewrite Hx.
  - intros o1 d1 H. cbn in H. apply lookup_insert_Some in H as [[-> <-]|[Hne H]]; [|by eapply Hok].
    split; [unfold int_range; cbn; lia|done].
Qed.

Lemma wait_start_inv (s : wsys) (t : Z) (w : waiter) (os : list Z) (ti : option nat) :
  inv s -> waiters s !! t = Some w -> pc w = PIdle \/ (exists r, pc w = PDone r) ->
  Forall (fun o => is_Some (objs s !! o)) os -> inv (put_waiter s t (wait_start w os false ti)).
Proof.
  intros [I Hok] Hw Hpc Hos. split; [|done].
  assert (Hno : ~ is_fault w /\ forall j, ~ installed w j).
  { unfold is_fault, installed. destruct Hpc as [->|[r ->]]; naive_solver. }
  apply (call_inv0 s t w); try done; try apply Hno.
  - unfold is_fault. cbn. tauto.
  - unfold installed. cbn. lia.
  - right. cbn. rewrite length_app, length_replicate. split_and!; [lia|done|].
    split; cbn; [lia|]. intros j Hj. lia.
Qed.

Lemma wait_call_inv (s s' : wsys) (t : Z) (w : waiter) (os : list Z) (timer : option Z) :
  inv s -> waiters s !! t = Some w -> pc w = PIdle \/ (exists r, pc w = PDone r) ->
  wait_call s t w os timer = Some s' -> inv s'.
Proof.
  intros I Hw Hpc. unfold wait_call. case_bool_decide as H; [|done]. destruct H as [_ Hos].
  destruct timer as [tm|]; [|intros [= <-]; by apply wait_start_inv].
  destruct (objs s !! tm) eqn:Htm; [done|]. intros [= <-]. apply wait_start_inv; [by apply new_object_inv|done|done|].
  apply Forall_app. split.
  - apply (Forall_impl (fun o => is_Some (objs s !! o))); [done|]. intros o1 [x Hx]. apply lookup_insert_is_Some'. right. by rewrite Hx.
  - apply Forall_singleton. cbn. by rewrite lookup_insert_eq.
Qed.

Lemma exec_inv (s s' : wsys) (l : label) : inv s -> exec s l = Some s' -> inv s'.
Proof.
  intros I. destruct l as [t os ti|t|o|o|o]; cbn [exec].
  - destruct (waiters s !! t) as [w|] eqn:Hw; [|done].
    destruct (pc w) eqn:Hpc; try done; apply wait_call_inv; eauto.
  - unfold wait_step. destruct (waiters s !! t) as [w|] eqn:Hw; [|done].
    destruct (pc w) eqn:Hpc; try done; intros E.
    + by eapply install_step_inv.
    + by eapply backout_step_inv.
    + eapply (commit_step_inv s s' t w); [done..|]. unfold wait_step. by rewrite Hw, Hpc.
    + destruct (find_step_inv s t w i satisfier I Hw Hpc) as (s1 & p & E1 & I1 & _). congruence.
  - unfold semaphore_release. destruct (objs s !! o) as [d|] eqn:Ho; intros [= <-]; [|done].
    destruct I as [I Hok]. destruct (Hok _ _ Ho) as [Hr Hq].
    apply signal_inv; [done|done|apply s32_range|]. intros H. apply Hq.
    destruct (decide (0 < signaled_count d)); [done|]. rewrite s32_small in H by (unfold int_range in *; lia). lia.
  - unfold mutex_unlock. destruct (objs s !! o) as [d|] eqn:Ho; intros [= <-]; [|done].
    apply signal_inv; [done|done|unfold int_range; lia|lia].
  - unfold timer_expire. destruct (objs s !! o) as [d|] eqn:Ho; intros [= <-]; [|done].
    apply signal_inv; [done|done|unfold int_range; lia|lia].
Qed.

Lemma quiet_inv (s : wsys) : quiet s -> inv s.
Proof.
  intros [Ho Hw]. split; [split|].
  - intros o d H. apply Ho in H as [-> _]. constructor.
  - intros o d t j H. apply Ho in H as [-> _]. by intros ?%elem_of_nil.
  - intros o d t w H1 H2. right. intros j. apply Ho in H1 as [-> _]. rewrite elem_of_nil.
    unfold linked, installed. rewrite (Hw _ _ H2). tauto.
  - intros t w H. left. by eapply Hw.
  - intros t w H Hp. by destruct (Hp (Hw _ _ H)).
  - intros o d H. apply Ho in H as [Hq Hr]. by split.
Qed.

Lemma reachable_inv (s0 s : wsys) : quiet s0 -> reachable s0 s -> inv s.
Proof. intros Hq. induction 1 as [|s l s' _ IH E]; [by apply quiet_inv|by eapply exec_inv]. Qed.

Lemma run_reachable (s0 s s' : wsys) (ls : list label) : reachable s0 s -> run s ls = Some s' -> reachable s0 s'.
Proof.
  revert s. induction ls as [|l ls IH]; intros s Hr; cbn; [by intros [= <-]|].
  destruct (exec s l) as [s1|] eqn:E; cbn; [|done]. apply IH. by eapply reach_next.
Qed.




(** ** Concrete runs *)

(** A semaphore with no count (10), a locked mutex (11) and two threads. *)
Definition demo_sys : wsys :=
  MkSys {[ 10 := semaphore_init 0; 11 := set_count mutex_init 0 ]}
        {[ 1 := MkWaiter WAIT_SATISFIED PIdle [] false None []; 2 := MkWaiter WAIT_SATISFIED PIdle [] false None [] ]}.

(** Thread 1 waits for both with a timeout (timer 12) and blocks. *)
Definition demo_block : list label := [LWait 1 [10; 11] (Some 12); LStep 1; LStep 1; LStep 1; LStep 1; LStep 1].

Lemma demo_quiet : quiet demo_sys.
Proof.
  split.
  - apply map_Forall_insert; [done|]. split; [done|]. apply map_Forall_singleton. done.
  - apply map_Forall_insert; [done|]. split; [done|]. apply map_Forall_singleton. done.
Qed.

Lemma demo_reachable (ls : list label) (s : wsys) : run demo_sys ls = Some s -> reachable demo_sys s.
Proof. apply run_reachable. apply reach_here. Qed.

Definition demo_get (ls : list label) : wsys := default demo_sys (run demo_sys ls).



Lemma try_satisfy_dispatch_object_correct_witness :
  let s := put_obj (demo_get demo_block) 11 (MkObj [(1, 1%nat)] DISPATCH_SYNCHRONIZATION 1) in
  exists s' r, try_satisfy_dispatch_object s 11 = (s', r).
Proof.
  destruct (try_satisfy_dispatch_object_correct
    (put_obj (demo_get demo_block) 11 (MkObj [(1, 1%nat)] DISPATCH_SYNCHRONIZATION 1)) 11
    (MkObj [(1, 1%nat)] DISPATCH_SYNCHRONIZATION 1)) as (s' & r & _ & _ & E & _).
  - change (MkObj [(1, 1%nat)] DISPATCH_SYNCHRONIZATION 1) with
      (set_count (MkObj [(1, 1%nat)] DISPATCH_SYNCHRONIZATION 0) 1).
    apply inv0_count; [|vm_compute; reflexivity].
    apply (reachable_inv demo_sys); [exact demo_quiet|]. apply (demo_reachable demo_block). vm_compute. reflexivity.
  - vm_compute. reflexivity.
  - cbn. lia.
  - exists s', r. exact E.
Defined.

(** ** Behaviours worth knowing *)

(** [event_signal] looks for waiters before it raises the count, so it wakes
    nobody; it also leaves the object locked. *)
Lemma event_signal_wakes_nobody (s : wsys) (o : Z) (d : dispatch_header) :
  inv0 s -> objs s !! o = Some d -> signaled_count d <= 0 ->
  event_signal s o = (put_obj s o (set_count d 1), false).
Proof.
  intros I Ho Hc. unfold event_signal. rewrite Ho, (proj2 (Z.ltb_ge _ _) Hc). unfold try_satisfy_dispatch_object. rewrite Ho.
  destruct (try_satisfy_loop_stops (length (waitblocks d)) s o d I Ho (or_intror Hc)) as [-> _]. by rewrite Ho.
Qed.

(** [semaphore_acquire] waits with a timeout of zero, and a semaphore with no
    count makes it panic instead of return. *)
Lemma semaphore_acquire_panics :
  let w := semaphore_acquire (MkWaiter WAIT_SATISFIED PIdle [] false None []) 10 in
  exists s', run (put_waiter demo_sys 1 w) [LStep 1; LStep 1] = Some s' /\
             pc <$> waiters s' !! 1 = Some (PFault NotSatisfied).
Proof. eexists. split; vm_compute; reflexivity. Qed.

(** A signal that arrives while a thread installs its waitblocks takes one of
    them off its queue; when the thread then finds a signaled object it backs
    out and removes the same waitblock again. *)
Lemma backout_removes_twice :
  exists s, run demo_sys [LWait 1 [10; 11] None; LStep 1; LRelease 10; LUnlock 11; LStep 1; LStep 1] = Some s /\
            pc <$> waiters s !! 1 = Some (PFault QueueCorrupted).
Proof. eexists. split; vm_compute; reflexivity. Qed.
