(* ===== verification/Mutex.v ===== *)
(** * The synchronization tests ([kernel/sync_test.c])

    The mutex test runs eight threads, each of which locks the mutex for ever
    anew, writes its number to the shared [val], prints [val] and unlocks.
    Its state is the system of [Wait] with the place of every thread in that
    loop, the mutex's owner, [val] and what was printed.  A step is the next
    critical section or memory access of one thread, or the creation of the
    next thread by [mutex_test], so that every interleaving is a sequence of
    steps.  The theorem is the mutual exclusion that [mutex_lock] and
    [mutex_unlock] promise to their callers.  The semaphore test is the same
    loop around a semaphore. *)

From S2P Require Import Prelude Queue Wait.

#[global] Instance wpc_eq_dec : EqDecision wpc.
Proof. assert (EqDecision fault) by solve_decision. solve_decision. Defined.
#[global] Instance done_dec (p : wpc) : Decision (exists r, p = PDone r).
Proof. destruct p; try (right; naive_solver). left. eauto. Defined.

(** The place of a thread in the loop of [MUTEX_TEST]. *)
Inductive stage := SLock | SWait | SSet | SPrint | SUnlock.

#[global] Instance stage_eq_dec : EqDecision stage.
Proof. solve_decision. Defined.

Record msys := MkMsys {
  ws : wsys;
  stages : gmap Z stage;
  owner : option Z;
  val : Z;
  printed : list (Z * Z);
  enqueued : Z;
}.

(** The address of [mtx], and a thread before its first wait. *)
Definition mtx : Z := 0.
Definition new_waiter : waiter := MkWaiter WAIT_SATISFIED PIdle [] false None [].

Definition to_stage (m : msys) (s : wsys) (t : Z) (st : stage) : msys :=
  MkMsys s (<[t := st]> (stages m)) (owner m) (val m) (printed m) (enqueued m).

(** The next step of thread [t] in [mtx<t>]. *)
Definition mtx_step (m : msys) (t : Z) : option msys :=
  match stages m !! t with
  | None => None
  | Some SLock =>
      s ← exec (ws m) (LWait t [mtx] None); Some (to_stage m s t SWait)
  | Some SWait =>
      match pc <$> waiters (ws m) !! t with
      | Some (PDone _) =>
          let m := to_stage m (ws m) t SSet in
          Some (MkMsys (ws m) (stages m) (Some t) (val m) (printed m) (enqueued m))
      | _ => s ← exec (ws m) (LStep t); Some (to_stage m s t SWait)
      end
  | Some SSet =>
      let m := to_stage m (ws m) t SPrint in
      Some (MkMsys (ws m) (stages m) (owner m) t (printed m) (enqueued m))
  | Some SPrint =>
      let m := to_stage m (ws m) t SUnlock in
      Some (MkMsys (ws m) (stages m) (owner m) (val m) (printed m ++ [(t, val m)]) (enqueued m))
  | Some SUnlock =>
      let '(s, ret) := mutex_unlock (ws m) mtx in
      let m := to_stage m s t SLock in
      Some (MkMsys (ws m) (stages m) ret (val m) (printed m) (enqueued m))
  end.

(** [mutex_test]: the mutex, then the eight threads one after the other. *)
Definition mutex_test_init : msys :=
  MkMsys (MkSys {[ mtx := mutex_init ]} ∅) ∅ None 0 [] 0.

Definition enqueue_step (m : msys) : option msys :=
  if enqueued m <? 8 then
    let t := enqueued m + 1 in
    Some (MkMsys (put_waiter (ws m) t new_waiter) (<[t := SLock]> (stages m)) (owner m) (val m) (printed m) t)
  else None.

Definition mstep (m : msys) (l : option Z) : option msys :=
  match l with Some t => mtx_step m t | None => enqueue_step m end.

Inductive mreachable : msys -> Prop :=
| mreach_init : mreachable mutex_test_init
| mreach_step m l m' : mreachable m -> mstep m l = Some m' -> mreachable m'.

Fixpoint mrun (m : msys) (ls : list (option Z)) : option msys :=
  match ls with
  | [] => Some m
  | l :: ls => m ← mstep m l; mrun m ls
  end.

Lemma mrun_reachable (m m' : msys) (ls : list (option Z)) : mreachable m -> mrun m ls = Some m' -> mreachable m'.
Proof.
  revert m. induction ls as [|l ls IH]; intros m Hr; cbn; [by intros [= <-]|].
  destruct (mstep m l) as [m1|] eqn:E; cbn; [|done]. apply IH. by eapply mreach_step.
Qed.

(** ** The abstract lock *)

(** A thread has the mutex from the moment its wait is satisfied, which may be
    the unlocking thread's doing, until it unlocks. *)
Definition sat (w : waiter) : Prop := wstatus w = WAIT_SATISFIED.

Definition has_mutex (st : stage) (w : waiter) : Prop :=
  match st with SLock => False | SWait => sat w | _ => True end.

Definition inside (st : stage) : Prop :=
  match st with SSet | SPrint | SUnlock => True | _ => False end.

#[global] Instance inside_dec (st : stage) : Decision (inside st).
Proof. destruct st; cbn; apply _. Defined.

(** A thread inside a wait for [o] alone. *)
Definition waits_for (w : waiter) (o : Z) : Prop :=
  targets w = [o] /\ pc w <> PIdle /\ ~ is_fault w /\ forall k, pc w <> PFind 0 (Some k).

Definition thread_ok (st : stage) (w : waiter) : Prop :=
  match st with
  | SLock => pc w = PIdle \/ exists r, pc w = PDone r
  | SWait => waits_for w mtx
  | _ => exists r, pc w = PDone r
  end.

Definition holder (sts : gmap Z stage) (wm : gmap Z waiter) (t : Z) : Prop :=
  exists st w, sts !! t = Some st /\ wm !! t = Some w /\ has_mutex st w.

(** The state of the lock is the thread that has it, if any. *)
Definition lock_state (sts : gmap Z stage) (s : wsys) (h : option Z) : Prop :=
  exists d, objs s !! mtx = Some d /\ otype d = DISPATCH_SYNCHRONIZATION /\
            signaled_count d = match h with None => 1 | Some _ => 0 end /\
            forall t, holder sts (waiters s) t <-> h = Some t.

Record minv (m : msys) : Prop := {
  m_inv : inv (ws m);
  m_threads t st : stages m !! t = Some st -> exists w, waiters (ws m) !! t = Some w /\ thread_ok st w;
  m_stages t w : waiters (ws m) !! t = Some w -> is_Some (stages m !! t);
  m_lock : exists h, lock_state (stages m) (ws m) h;
  m_owner t st : stages m !! t = Some st -> inside st -> owner m = Some t;
  m_val t : stages m !! t = Some SPrint -> val m = t;
  m_printed : Forall (fun p => snd p = fst p) (printed m);
  m_fresh t : is_Some (stages m !! t) <-> 1 <= t <= enqueued m;
  m_enq : 0 <= enqueued m <= 8;
}.

(** ** A wait for one synchronization object *)

(** The steps a thread has left in a wait for one object, at most. *)
Definition prank (p : wpc) : nat :=
  match p with
  | PInstall O => 6
  | PInstall _ => 5
  | PCommit => 4
  | PBlocked | PFind O _ => 3
  | PBackout _ _ | PFind _ _ => 2
  | _ => 1
  end.

(** What one step of a wait for [o] does to the thread and to the object: the
    thread takes a signal, or neither its status nor the count changes. *)
Definition wait_effect (s s' : wsys) (t o : Z) (w : waiter) (d : dispatch_header) : Prop :=
  exists w' d',
    waiters s' = <[t := w']> (waiters s) /\ objs s' !! o = Some d' /\
    otype d' = otype d /\ waits_for w' o /\
    (prank (pc w') < prank (pc w))%nat /\ (sat w -> waitblocks d' = waitblocks d) /\
    ((sat w' <-> sat w) /\ signaled_count d' = signaled_count d \/
     0 < signaled_count d /\ ~ sat w /\ sat w' /\ signaled_count d' = s32 (signaled_count d - 1)).

Lemma effect_advance (s : wsys) (t o : Z) (w w' : waiter) (d : dispatch_header) :
  objs s !! o = Some d -> waits_for w' o -> (prank (pc w') < prank (pc w))%nat -> (sat w' <-> sat w) -> wait_effect s (put_waiter s t w') t o w d.
Proof. intros. exists w', d. split_and!; try done. by left. Qed.

Lemma effect_queue (s : wsys) (t o : Z) (w w' : waiter) (d : dispatch_header) (q : list wbid) :
  waits_for w' o -> (prank (pc w') < prank (pc w))%nat ->
  (sat w' <-> sat w) -> ~ sat w -> wait_effect s (put_waiter (put_obj s o (set_queue d q)) t w') t o w d.
Proof.
  intros. exists w', (set_queue d q). split_and!; try done; [cbn; by rewrite lookup_insert_eq|]. by left.
Qed.

(** Goals about the place of a thread whose program counter is known. *)
Ltac place :=
  unfold waits_for; cbn; repeat match goal with H : pc ?w = _ |- context [pc ?w] => rewrite H end;
  unfold sat, is_fault; cbn; repeat match goal with H : wstatus ?w = _ |- context [wstatus ?w] => rewrite H end;
  first [done | lia | naive_solver].

Lemma install_effect (s s' : wsys) (t o : Z) (w : waiter) (d : dispatch_header) (i : nat) :
  inv s -> waiters s !! t = Some w -> pc w = PInstall i -> targets w = [o] ->
  objs s !! o = Some d -> otype d = DISPATCH_SYNCHRONIZATION ->
  install_step s t w i = Some s' -> wait_effect s s' t o w d.
Proof.
  intros I Hw Hpc Ht Ho Hty. destruct (waiter_ok_place w (v_ok _ (proj1 I) _ _ Hw)) as (Hl & Hn & Hp); [by rewrite Hpc|].
  unfold place_ok in Hp. rewrite Hpc in Hp. destruct Hp as [Hi Hp]. unfold install_step. rewrite Ht in *.
  destruct i as [|i]; cbn [lookup list_lookup].
  - rewrite Ho. destruct (wstatus w) eqn:Est; [|done|destruct Hp as (k & Hk & _); lia].
    destruct (0 <? signaled_count d) eqn:E; intros [= <-].
    + apply Z.ltb_lt in E. eexists _, _. split; [done|]. split; [cbn; by rewrite lookup_insert_eq|].
      unfold dispatch_object_consume. rewrite Hty. split_and!; try done; place.
    + apply effect_queue; place.
  - destruct i; [|cbn in Hi; lia]. cbn. rewrite Hn. intros [= <-]. apply effect_advance; place.
Qed.

Lemma find_effect (s s' : wsys) (t o : Z) (w : waiter) (d : dispatch_header) (i : nat) (k : option nat) :
  inv s -> waiters s !! t = Some w -> pc w = PFind i k -> waits_for w o -> objs s !! o = Some d ->
  find_step s t w i k = Some s' -> wait_effect s s' t o w d.
Proof.
  intros I Hw Hpc (Ht & _ & _ & Hk0) Ho E. destruct (find_step_inv s t w i k I Hw Hpc) as (s1 & p & E1 & _ & Hw1 & Hp).
  rewrite E in E1. injection E1 as <-. assert (Hnf : forall f, p <> PFault f /\ p <> PIdle) by naive_solver. clear Hp.
  destruct (waiter_ok_place w (v_ok _ (proj1 I) _ _ Hw)) as (_ & _ & Hp); [by rewrite Hpc|].
  unfold place_ok in Hp. rewrite Hpc in Hp. rewrite Hpc in Hk0.
  revert E. unfold find_step. rewrite Ht in *. destruct i as [|i]; cbn [lookup list_lookup].
  - destruct k as [k|]; [by destruct (Hk0 k)|]. destruct Hp as (_ & k & Hk & Hb). cbn in Hk.
    rewrite Ho, (proj2 (Hb 0%nat ltac:(cbn; lia))) by lia. intros [= <-]. apply effect_advance; place.
  - destruct i; intros [= <-]; apply effect_advance; place.
Qed.

Lemma wait_step_effect (s s' : wsys) (t o : Z) (w : waiter) (d : dispatch_header) :
  inv s -> waiters s !! t = Some w -> waits_for w o -> objs s !! o = Some d ->
  otype d = DISPATCH_SYNCHRONIZATION -> wait_step s t = Some s' -> wait_effect s s' t o w d.
Proof.
  intros I Hw Hf Ho Hty. pose proof (proj1 Hf) as Ht. unfold wait_step. rewrite Hw. destruct (pc w) as [|i|a k| | |i k|r|f] eqn:Hpc; try done.
  - by apply install_effect.
  - destruct (waiter_ok_place w (v_ok _ (proj1 I) _ _ Hw)) as (_ & _ & Hp); [by rewrite Hpc|].
    unfold place_ok in Hp. rewrite Hpc, Ht in Hp. cbn in Hp. destruct Hp as [Hs Hk].
    unfold backout_step. rewrite (proj2 (Nat.ltb_ge _ _)) by lia. intros [= <-]. apply effect_advance; place.
  - destruct (wstatus w) eqn:Est; intros [= <-]; apply effect_advance; place.
  - by apply find_effect.
Qed.

(** Only a blocked thread has no step. *)
Lemma wait_step_total (s : wsys) (t o : Z) (w : waiter) :
  inv s -> waiters s !! t = Some w -> waits_for w o ->
  pc w <> PBlocked -> (forall r, pc w <> PDone r) -> is_Some (wait_step s t).
Proof.
  intros I Hw (Ht & Hni & Hnf & _) Hb Hd. pose proof (v_tgt _ (proj1 I) _ _ Hw Hni) as Htg. rewrite Ht, Forall_singleton in Htg.
  destruct Htg as [d Ho]. unfold wait_step. rewrite Hw. unfold is_fault in Hnf.
  destruct (pc w) as [|i|a k| | |i k|r|f] eqn:Hpc; try naive_solver.
  - unfold install_step. destruct (targets w !! i) as [o1|] eqn:E; [|repeat case_match; eauto].
    rewrite Ht in E. apply list_lookup_singleton_Some in E as [_ <-]. rewrite Ho. repeat case_match; eauto.
  - unfold backout_step. case_match; [|eauto].
    destruct (waiter_ok_place w (v_ok _ (proj1 I) _ _ Hw)) as (_ & _ & Hp); [by rewrite Hpc|].
    unfold place_ok in Hp. rewrite Hpc, Ht in Hp. cbn in Hp. destruct Hp as [Hs Hk].
    match goal with H : (_ <? _)%nat = true |- _ => apply Nat.ltb_lt in H end. lia.
  - case_match; eauto.
  - destruct (find_step_inv s t w i k I Hw Hpc) as (s1 & p & -> & _). eauto.
Qed.

(** ** Who has the mutex *)

Lemma holder_update (sts : gmap Z stage) (wm : gmap Z waiter) (t u : Z) (st : stage) (w : waiter) :
  holder (<[t := st]> sts) (<[t := w]> wm) u <-> u = t /\ has_mutex st w \/ u <> t /\ holder sts wm u.
Proof.
  unfold holder. destruct (decide (u = t)) as [->|Hne].
  - rewrite !lookup_insert_eq. naive_solver.
  - rewrite !lookup_insert_ne by done. naive_solver.
Qed.

Lemma holder_same (sts : gmap Z stage) (wm : gmap Z waiter) (t : Z) (st : stage) (w : waiter) :
  sts !! t = Some st -> wm !! t = Some w -> holder sts wm t <-> has_mutex st w.
Proof. unfold holder. intros -> ->. naive_solver. Qed.

(** Thread [t] moves and nobody's hold on the mutex changes. *)
Lemma lock_keep (sts : gmap Z stage) (s s' : wsys) (t : Z) (st st' : stage) (w w' : waiter) (d d' : dispatch_header)
    (h : option Z) :
  lock_state sts s h -> sts !! t = Some st -> waiters s !! t = Some w -> objs s !! mtx = Some d ->
  waiters s' = <[t := w']> (waiters s) -> objs s' !! mtx = Some d' -> otype d' = otype d ->
  signaled_count d' = signaled_count d -> (has_mutex st' w' <-> has_mutex st w) ->
  lock_state (<[t := st']> sts) s' h.
Proof.
  intros (d0 & Ho & Hty & Hc & Hh) Hst Hw Hd Hws Hd' Hty' Hc' Hm. simplify_eq.
  exists d'. split_and!; [done|congruence|congruence|]. intros u. rewrite Hws, holder_update, <- Hh, Hm.
  destruct (decide (u = t)) as [->|Hne]; [|tauto]. rewrite (holder_same sts (waiters s) t st w) by done. tauto.
Qed.

(** Thread [t] takes the signal of the free mutex. *)
Lemma lock_take (sts : gmap Z stage) (s s' : wsys) (t : Z) (st' : stage) (w' : waiter) (d d' : dispatch_header)
    (h : option Z) :
  lock_state sts s h -> objs s !! mtx = Some d ->
  waiters s' = <[t := w']> (waiters s) -> objs s' !! mtx = Some d' -> otype d' = otype d ->
  0 < signaled_count d -> signaled_count d' = s32 (signaled_count d - 1) -> has_mutex st' w' ->
  lock_state (<[t := st']> sts) s' (Some t).
Proof.
  intros (d0 & Ho & Hty & Hc & Hh) Hd Hws Hd' Hty' Hpos Hc' Hm. simplify_eq.
  destruct h as [h|]; [lia|]. exists d'. split_and!; [done|congruence|by rewrite Hc', Hc|].
  intros u. rewrite Hws, holder_update, Hh. naive_solver.
Qed.

Lemma not_waiting (st : stage) (w : waiter) :
  thread_ok st w -> st <> SWait -> ~ is_fault w /\ forall j, ~ installed w j.
Proof.
  unfold is_fault, installed. destruct st; cbn; intros H Hne; try done.
  1: destruct H as [->|[r ->]]; naive_solver. all: destruct H as [r ->]; naive_solver.
Qed.

(** Only the threads that wait for the mutex are on its queue. *)
Lemma queued_waits (m : msys) (d : dispatch_header) (u : Z) (j : nat) :
  minv m -> objs (ws m) !! mtx = Some d -> (u, j) ∈ waitblocks d ->
  exists w, stages m !! u = Some SWait /\ waiters (ws m) !! u = Some w /\ linked w j mtx.
Proof.
  intros M Ho Hin. destruct (v_owner _ (proj1 (m_inv _ M)) _ _ _ _ Ho Hin) as [w Hw].
  destruct (m_stages _ M _ _ Hw) as [st Hst]. destruct (m_threads _ M _ _ Hst) as (w0 & Hw0 & Hok). simplify_eq.
  destruct (v_rel _ (proj1 (m_inv _ M)) _ _ _ _ Ho Hw) as [Hf|Hr]; destruct (decide (st = SWait)) as [->|Hne].
  - by destruct Hok as (_ & _ & Hok & _).
  - by destruct (not_waiting st w Hok Hne).
  - exists w. split_and!; [done|done|]. by apply Hr.
  - destruct (not_waiting st w Hok Hne) as [_ Hi]. apply Hr in Hin. destruct (Hi j). apply Hin.
Qed.

(** A thread whose wait was satisfied and which waits for the mutex has it. *)
Lemma satisfied_holds (m : msys) (d : dispatch_header) (t u : Z) (j : nat) :
  minv m -> objs (ws m) !! mtx = Some d -> (u, j) ∈ waitblocks d -> stages m !! t = Some SUnlock ->
  ~ satisfied (waiters (ws m)) u.
Proof.
  intros M Ho Hin Ht (w & Hw & Hs). destruct (queued_waits m d u j M Ho Hin) as (w1 & Hst & Hw1 & _). simplify_eq.
  destruct (m_lock _ M) as (h & d1 & H1 & H2 & H3 & Hh). destruct (m_threads _ M _ _ Ht) as (wt & Hwt & Hk).
  assert (h = Some u) by (apply Hh; exists SWait, w; done).
  assert (h = Some t) by (apply Hh; exists SUnlock, wt; done). simplify_eq.
Qed.

(** What an unlock does to thread [v] when [b] is the first in the queue. *)
Definition handed (b : option wbid) (v : Z) (w : waiter) : waiter :=
  match b with
  | Some (u, j) => if decide (u = v) then pop_waiter w j else w
  | None => w
  end.

(** [mutex_unlock] in the hands of the thread that has the mutex: the first
    thread in the queue gets it, and the mutex is free when there is none. *)
Lemma mutex_unlock_hand_over (m : msys) (t : Z) (d : dispatch_header) :
  minv m -> stages m !! t = Some SUnlock -> objs (ws m) !! mtx = Some d ->
  otype d = DISPATCH_SYNCHRONIZATION ->
  exists s' d', mutex_unlock (ws m) mtx = (s', fst <$> head (waitblocks d)) /\ inv s' /\
    objs s' !! mtx = Some d' /\ otype d' = DISPATCH_SYNCHRONIZATION /\ waitblocks d' = tail (waitblocks d) /\
    signaled_count d' = match waitblocks d with [] => 1 | _ => 0 end /\
    forall v, waiters s' !! v = handed (head (waitblocks d)) v <$> waiters (ws m) !! v.
Proof.
  intros M Ht Ho Hty. pose proof (m_inv _ M) as I.
  pose proof (exec_inv (ws m) _ (LUnlock mtx) I eq_refl) as I'. revert I'. cbn [exec]. unfold mutex_unlock. rewrite Ho.
  destruct (try_satisfy_spec (put_obj (ws m) mtx (set_count d 1)) mtx (set_count d 1)) as
    (s' & r & -> & _ & _ & d' & taken & Ho' & Hty' & Hq & Hws & Hr).
  { apply inv0_count; [apply I|done]. }
  { cbn. by rewrite lookup_insert_eq. }
  intros I'. cbn in *.
  assert (Hpre : forall pre, Forall (fun b => satisfied (waiters (ws m)) (fst b)) pre -> pre ⊆ waitblocks d -> pre = []).
  { intros [|[u j] pre] Hs Hi; [done|]. inversion_clear Hs. exfalso.
    apply (satisfied_holds m d t u j M Ho); [apply Hi; left|done|done]. }
  destruct r as [u|].
  - destruct Hr as (_ & _ & Hc & pre & j & -> & Hp & Hns). assert (pre = []) as -> by (apply Hpre; [done|]; rewrite Hq; set_solver).
    rewrite Hq in *. cbn in *. exists s', d'. split_and!; try done; [by rewrite Hty'|].
    intros v. rewrite Hws, lookup_alter. unfold handed. cbn.
    destruct (decide (u = v)) as [->|]; by destruct (waiters (ws m) !! v).
  - destruct Hr as (Hc & He & _ & Hp). assert (taken = []) as -> by (apply Hpre; [by apply Hp|]; rewrite Hq; set_solver).
    rewrite He in Hq by lia. rewrite Hq. exists s', d'. split_and!; try done; [by rewrite Hty'|by apply He|].
    intros v. rewrite Hws. unfold pops. cbn [foldl]. by destruct (waiters (ws m) !! v).
Qed.

(** ** The invariant holds in every run *)

Lemma minv_init : minv mutex_test_init.
Proof.
  split; cbn; try done; try (intros t; set_solver).
  - apply quiet_inv. split; [|apply map_Forall_empty].
    intros o d H. cbn [objs] in H. apply lookup_insert_Some in H as [[_ <-]|[_ H]]; [done|set_solver].
  - exists None, mutex_init. split_and!; try done. intros t. split; [|done]. intros (st & w & H & _). set_solver.
  - intros t. rewrite lookup_empty. split; [by intros [? ?]|lia].
Qed.

(** A thread that does not exist yet is on no queue. *)
Lemma spawn_inv (s : wsys) (t : Z) : inv s -> waiters s !! t = None -> inv (put_waiter s t new_waiter).
Proof.
  intros [I Hok] Hn. split; [|done]. split; cbn; try apply I.
  - intros o d u j Ho Hin. apply lookup_insert_is_Some'. right. by eapply (v_owner _ I).
  - intros o d u w Ho Hu. apply lookup_insert_Some in Hu as [[<- <-]|[_ Hu]]; [|by eapply v_rel].
    right. intros j. split; [|by intros (_ & [] & _)]. intros Hin. destruct (v_owner _ I _ _ _ _ Ho Hin) as [? ?]. congruence.
  - intros u w Hu. apply lookup_insert_Some in Hu as [[<- <-]|[_ Hu]]; [by left|by eapply v_ok].
  - intros u w Hu. apply lookup_insert_Some in Hu as [[<- <-]|[_ Hu]]; [done|by eapply v_tgt].
Qed.

Lemma enqueue_minv (m m' : msys) : minv m -> enqueue_step m = Some m' -> minv m'.
Proof.
  intros M. unfold enqueue_step. destruct (enqueued m <? 8) eqn:E; [apply Z.ltb_lt in E|done]. intros [= <-].
  pose proof (m_enq _ M). set (t := enqueued m + 1).
  assert (Hs : stages m !! t = None) by (apply eq_None_not_Some; rewrite (m_fresh _ M); lia).
  assert (Hw : waiters (ws m) !! t = None).
  { apply eq_None_not_Some. intros [w Hw]. destruct (m_stages _ M _ _ Hw). congruence. }
  split; cbn; try apply M.
  - apply spawn_inv; [apply M|done].
  - intros u st Hu. apply lookup_insert_Some in Hu as [[<- <-]|[Hne Hu]].
    + exists new_waiter. rewrite lookup_insert_eq. split; [done|by left].
    + rewrite lookup_insert_ne by done. by apply M.
  - intros u w Hu. apply lookup_insert_is_Some'. apply lookup_insert_Some in Hu as [[<- _]|[_ Hu]]; [by left|].
    right. by eapply m_stages.
  - destruct (m_lock _ M) as (h & d & Ho & Hty & Hc & Hh). exists h, d. split_and!; try done. intros u. cbn.
    rewrite holder_update, <- Hh. destruct (decide (u = t)) as [->|Hne]; [|tauto].
    unfold holder. rewrite Hs. naive_solver.
  - intros u st Hu. apply lookup_insert_Some in Hu as [[<- <-]|[_ Hu]]; [done|by apply M].
  - intros u Hu. apply lookup_insert_Some in Hu as [[_ ?]|[_ Hu]]; [done|by apply M].
  - intros u. rewrite lookup_insert_is_Some', (m_fresh _ M). lia.
  - lia.
Qed.

(** A step of thread [t] that leaves the other threads as they are. *)
Lemma minv_update (m : msys) (s : wsys) (t : Z) (st st' : stage) (w : waiter) (h ow : option Z) (v : Z)
    (pr : list (Z * Z)) :
  minv m -> stages m !! t = Some st -> inv s -> waiters s = <[t := w]> (waiters (ws m)) -> thread_ok st' w ->
  lock_state (<[t := st']> (stages m)) s h ->
  (inside st' -> ow = Some t) -> (ow = owner m \/ h = Some t) ->
  (st' = SPrint -> v = t) -> (v = val m \/ h = Some t) ->
  Forall (fun p => snd p = fst p) pr ->
  minv (MkMsys s (<[t := st']> (stages m)) ow v pr (enqueued m)).
Proof.
  intros M Hst I Hws Hok Hl How1 How2 Hv1 Hv2 Hpr.
  assert (Hoth : forall u su, u <> t -> stages m !! u = Some su -> inside su -> h <> Some t).
  { intros u su Hne Hu Hin ->. destruct Hl as (d & _ & _ & _ & Hh). destruct (m_threads _ M _ _ Hu) as (wu & Hwu & _).
    assert (Hs : Some t = Some u); [|congruence]. apply Hh. exists su, wu.
    rewrite Hws, !lookup_insert_ne by done. split_and!; try done. by destruct su. }
  split; cbn; try apply M; try done.
  - intros u su Hu. rewrite Hws. apply lookup_insert_Some in Hu as [[<- <-]|[Hne Hu]].
    + exists w. by rewrite lookup_insert_eq.
    + rewrite lookup_insert_ne by done. by apply M.
  - intros u wu. rewrite Hws. intros Hu. apply lookup_insert_is_Some'.
    apply lookup_insert_Some in Hu as [[<- _]|[_ Hu]]; [by left|]. right. by eapply m_stages.
  - by exists h.
  - intros u su Hu Hin. apply lookup_insert_Some in Hu as [[<- <-]|[Hne Hu]]; [by apply How1|].
    destruct How2 as [->|?]; [by eapply m_owner|]. by destruct (Hoth u su).
  - intros u Hu. apply lookup_insert_Some in Hu as [[<- E]|[Hne Hu]]; [by apply Hv1|].
    destruct Hv2 as [->|?]; [by apply (m_val _ M)|]. by destruct (Hoth u SPrint).
  - intros u. rewrite lookup_insert_is_Some', (m_fresh _ M). split; [|naive_solver].
    intros [<-|?]; [|done]. apply M. by exists st.
Qed.

(** The thread inside moves on. *)
Lemma inside_minv (m : msys) (t : Z) (st st' : stage) (v : Z) (pr : list (Z * Z)) :
  minv m -> stages m !! t = Some st -> inside st -> inside st' -> (st' = SPrint -> v = t) ->
  Forall (fun p => snd p = fst p) pr ->
  minv (MkMsys (ws m) (<[t := st']> (stages m)) (owner m) v pr (enqueued m)).
Proof.
  intros M Hst Hin Hin' Hv Hpr. destruct (m_threads _ M _ _ Hst) as (w & Hw & Hok).
  destruct (m_lock _ M) as (h & d & Ho & Hty & Hc & Hh).
  assert (Hd : exists r, pc w = PDone r) by (by destruct st). assert (Hm : has_mutex st w) by (by destruct st).
  assert (Hht : h = Some t) by (apply Hh; by exists st, w).
  apply (minv_update m (ws m) t st st' w h); try done; try by right.
  - apply M.
  - by rewrite insert_id.
  - by destruct st'.
  - apply (lock_keep (stages m) (ws m) (ws m) t st st' w w d d); try done; [by exists d|by rewrite insert_id|by destruct st'].
  - intros _. by eapply m_owner.
Qed.

Lemma lock_minv (m : msys) (t : Z) :
  minv m -> stages m !! t = Some SLock -> exists m', mtx_step m t = Some m' /\ minv m'.
Proof.
  intros M Hst. destruct (m_threads _ M _ _ Hst) as (w & Hw & Hok). destruct (m_lock _ M) as (h & Hl).
  destruct (Hl) as (d & Ho & Hty & Hc & Hh).
  assert (E : exec (ws m) (LWait t [mtx] None) = Some (put_waiter (ws m) t (wait_start w [mtx] false None))).
  { cbn. rewrite Hw. assert (wait_call (ws m) t w [mtx] None = Some (put_waiter (ws m) t (wait_start w [mtx] false None))) as ->.
    - unfold wait_call. rewrite bool_decide_true; [done|]. split; [unfold INTERNAL_WAITBLOCKS_N; cbn; lia|]. apply Forall_singleton. eauto.
    - by destruct Hok as [->|[r ->]]. }
  unfold mtx_step. rewrite Hst, E. cbn. eexists. split; [done|]. pose proof (exec_inv _ _ _ (m_inv _ M) E).
  eapply (minv_update m _ t SLock SWait); try done; try apply M; try by left.
  - split_and!; [done|done|unfold is_fault; cbn; tauto|done].
  - eapply (lock_keep (stages m) (ws m) _ t SLock SWait w _ d d); done.
Qed.

Lemma wait_step_minv (m : msys) (s' : wsys) (t : Z) :
  minv m -> stages m !! t = Some SWait -> wait_step (ws m) t = Some s' -> minv (to_stage m s' t SWait).
Proof.
  intros M Hst E. destruct (m_threads _ M _ _ Hst) as (w & Hw & Hwf). destruct (m_lock _ M) as (h & Hl).
  destruct (Hl) as (d & Ho & Hty & Hc & Hh).
  destruct (wait_step_effect (ws m) s' t mtx w d (m_inv _ M) Hw Hwf Ho Hty E) as
    (w' & d' & Hws & Ho' & Hty' & Hwf' & _ & _ & Hcase).
  pose proof (exec_inv (ws m) s' (LStep t) (m_inv _ M) E) as I'.
  assert (Hl' : exists h', lock_state (<[t := SWait]> (stages m)) s' h').
  { destruct Hcase as [(Hs & Hc')|(Hpos & Hn & Hs & Hc')].
    - exists h. by apply (lock_keep (stages m) (ws m) s' t SWait SWait w w' d d').
    - exists (Some t). by apply (lock_take (stages m) (ws m) s' t SWait w' d d' h). }
  destruct Hl' as [h' Hl']. apply (minv_update m s' t SWait SWait w' h'); try done; try apply M; by left.
Qed.

Lemma wait_runs (m : msys) (t : Z) (w : waiter) :
  minv m -> stages m !! t = Some SWait -> waiters (ws m) !! t = Some w ->
  pc w <> PBlocked -> (forall r, pc w <> PDone r) ->
  exists s', wait_step (ws m) t = Some s' /\ mtx_step m t = Some (to_stage m s' t SWait).
Proof.
  intros M Hst Hw Hb Hd. destruct (m_threads _ M _ _ Hst) as (w0 & Hw0 & Hwf). simplify_eq.
  destruct (wait_step_total (ws m) t mtx w (m_inv _ M) Hw Hwf Hb Hd) as [s' E]. exists s'. split; [done|].
  unfold mtx_step. rewrite Hst, Hw. cbn. rewrite E. cbn. destruct (pc w) as [| | | | | |r|] eqn:Ep; try done.
  by destruct (Hd r).
Qed.

(** A thread that waits has no step only while it is blocked; then another
    thread has the mutex. *)
Lemma wait_minv (m : msys) (t : Z) (w : waiter) :
  minv m -> stages m !! t = Some SWait -> waiters (ws m) !! t = Some w -> pc w <> PBlocked ->
  exists m', mtx_step m t = Some m' /\ minv m'.
Proof.
  intros M Hst Hw Hb. destruct (decide (exists r, pc w = PDone r)) as [[r Hpc]|Hd].
  2: { destruct (wait_runs m t w M Hst Hw Hb) as (s' & E & ->); [naive_solver|].
       eexists. split; [done|]. by apply wait_step_minv. }
  unfold mtx_step. rewrite Hst, Hw. cbn. rewrite Hpc.
  eexists. split; [done|]. destruct (m_lock _ M) as (h & Hl). destruct (Hl) as (d & Ho & Hty & Hc & Hh).
  destruct (waiter_ok_place w (v_ok _ (proj1 (m_inv _ M)) _ _ Hw) ltac:(by rewrite Hpc)) as (_ & _ & Hp).
  unfold place_ok in Hp. rewrite Hpc in Hp.
  assert (h = Some t) by (apply Hh; by exists SWait, w).
  apply (minv_update m (ws m) t SWait SSet w h); try done; try apply M; try (by left); try by right.
  - by rewrite insert_id.
  - by exists r.
  - apply (lock_keep (stages m) (ws m) (ws m) t SWait SSet w w d d); try done. by rewrite insert_id.
Qed.

(** The first thread in the queue gets the mutex of the thread that unlocks. *)
Lemma unlock_minv (m : msys) (t : Z) (d : dispatch_header) :
  minv m -> stages m !! t = Some SUnlock -> objs (ws m) !! mtx = Some d ->
  exists m', mtx_step m t = Some m' /\ minv m' /\ lock_state (stages m') (ws m') (fst <$> head (waitblocks d)).
Proof.
  intros M Hst Ho. destruct (m_threads _ M _ _ Hst) as (w & Hw & Hok). destruct (m_lock _ M) as (h & Hl).
  destruct (Hl) as (d0 & Ho0 & Hty & Hc & Hh). rewrite Ho in Ho0. injection Ho0 as <-.
  destruct (mutex_unlock_hand_over m t d M Hst Ho Hty) as (s' & d' & E & I' & Ho' & Hty' & Hq' & Hc' & Hws).
  unfold mtx_step. rewrite Hst, E. cbn. eexists. split; [done|].
  assert (h = Some t) as -> by (apply Hh; by exists SUnlock, w).
  assert (Hhead : forall u j, head (waitblocks d) = Some (u, j) -> stages m !! u = Some SWait /\ u <> t).
  { intros u j Hu. destruct (queued_waits m d u j M Ho) as (wu & Hsu & _); [by apply head_Some_elem_of|].
    split; [done|]. intros ->. congruence. }
  assert (Hout : forall u su, stages m !! u = Some su -> u <> t -> ~ inside su).
  { intros u su Hu Hne Hin. destruct (m_threads _ M _ _ Hu) as (wu & Hwu & _).
    assert (Hs : Some t = Some u); [|congruence]. apply Hh. exists su, wu. split_and!; try done. by destruct su. }
  assert (Hl' : lock_state (<[t := SLock]> (stages m)) s' (fst <$> head (waitblocks d))).
  { exists d'. split_and!; [done|done|by destruct (waitblocks d)|].
    intros v. destruct (decide (v = t)) as [->|Hne].
    + split.
      * intros (sv & wv & H1 & _ & H3). rewrite lookup_insert_eq in H1. injection H1 as <-. done.
      * destruct (head (waitblocks d)) as [[u j]|] eqn:Eh; [|done]. intros [= ->]. by destruct (Hhead t j eq_refl).
    + unfold holder. setoid_rewrite lookup_insert_ne; [|done]. setoid_rewrite Hws. split.
      * intros (sv & wv & H1 & H2 & H3). apply fmap_Some in H2 as (w0 & H2 & ->). unfold handed in *.
        assert (~ has_mutex sv w0) by (intros Hm; assert (Hs : Some t = Some v); [apply Hh; by exists sv, w0|congruence]).
        destruct (head (waitblocks d)) as [[u j]|] eqn:Eh; [|done]. case_decide; [by subst|done].
      * destruct (head (waitblocks d)) as [[u j]|] eqn:Eh; [|done]. intros [= ->]. destruct (Hhead v j eq_refl) as [Hs _].
        destruct (m_threads _ M _ _ Hs) as (wv & Hwv & _). exists SWait, (pop_waiter wv j). rewrite Hwv. cbn.
        rewrite decide_True by done. split_and!; [done|done|apply pop_status]. }
  split; [|done]. split; cbn; try apply M; try done.
  - intros v sv Hv. rewrite Hws. apply lookup_insert_Some in Hv as [[<- <-]|[Hne Hv]].
    + rewrite Hw. cbn. eexists. split; [done|]. right. unfold handed. destruct (head (waitblocks d)) as [[u j]|] eqn:Eh; [|done].
      destruct (Hhead u j eq_refl). by rewrite decide_False.
    + destruct (m_threads _ M _ _ Hv) as (wv & Hwv & Hk). rewrite Hwv. cbn. eexists. split; [done|].
      unfold handed. destruct (head (waitblocks d)) as [[u j]|] eqn:Eh; [|done]. case_decide as Hd; [|done]. subst u.
      destruct (Hhead v j eq_refl) as [Hs _]. rewrite Hs in Hv. injection Hv as <-. destruct Hk as (H1 & H2 & H3 & H4).
      split_and!; [by rewrite pop_targets|..]; unfold is_fault in *; rewrite pop_pc; by destruct (pc wv), (wstatus wv).
  - intros v wv. rewrite Hws, fmap_Some. intros (w0 & Hw0 & _). apply lookup_insert_is_Some'. right. by eapply m_stages.
  - by eexists.
  - intros v sv Hv Hin. apply lookup_insert_Some in Hv as [[<- <-]|[Hne Hv]]; [done|]. by destruct (Hout v sv).
  - intros v Hv. apply lookup_insert_Some in Hv as [[<- Ev]|[Hne Hv]]; [done|]. by destruct (Hout v SPrint).
  - intros v. rewrite lookup_insert_is_Some', (m_fresh _ M). split; [|naive_solver].
    intros [<-|?]; [|done]. apply M. by exists SUnlock.
Qed.

Lemma mtx_step_minv (m : msys) (t : Z) (st : stage) (w : waiter) :
  minv m -> stages m !! t = Some st -> waiters (ws m) !! t = Some w -> st <> SWait \/ pc w <> PBlocked ->
  exists m', mtx_step m t = Some m' /\ minv m'.
Proof.
  intros M Hst Hw Hb. destruct st.
  - by apply lock_minv.
  - destruct Hb as [?|?]; [done|]. by apply (wait_minv m t w).
  - unfold mtx_step. rewrite Hst. eexists. split; [done|]. apply (inside_minv m t SSet); try done. apply M.
  - unfold mtx_step. rewrite Hst. eexists. split; [done|]. apply (inside_minv m t SPrint); try done.
    apply Forall_app. split; [apply M|]. apply Forall_singleton. cbn. by apply (m_val _ M).
  - destruct (m_lock _ M) as (h & d & Ho & _). destruct (unlock_minv m t d M Hst Ho) as (m' & E & M' & _). eauto.
Qed.

Lemma mreachable_minv (m : msys) : mreachable m -> minv m.
Proof.
  induction 1 as [|m [t|] m' _ M E]; [apply minv_init| |by eapply enqueue_minv]. cbn in E.
  destruct (stages m !! t) as [st|] eqn:Hst; [|unfold mtx_step in E; by rewrite Hst in E].
  destruct (m_threads _ M _ _ Hst) as (w & Hw & _).
  destruct (decide (st = SWait /\ pc w = PBlocked)) as [[-> Hb]|Hnb].
  - exfalso. unfold mtx_step in E. rewrite Hst, Hw in E. cbn in E. unfold wait_step in E. by rewrite Hw, Hb in E.
  - destruct (mtx_step_minv m t st w M Hst Hw) as (m1 & E1 & M1); [|congruence].
    destruct (decide (st = SWait)); [right; naive_solver|by left].
Qed.

(** ** The mutex is handed on *)

Definition rank (st : stage) (w : waiter) : nat :=
  match st with SLock => 0 | SWait => 3 + prank (pc w) | SSet => 3 | SPrint => 2 | SUnlock => 1 end.

(** Thread [t] has the mutex, [q] is the queue behind it, and [t] is at most
    [n] steps away from having unlocked. *)
Definition holds_on (m : msys) (t : Z) (n : nat) (q : list wbid) : Prop :=
  exists st w d, stages m !! t = Some st /\ waiters (ws m) !! t = Some w /\ has_mutex st w /\
    (rank st w <= n)%nat /\ objs (ws m) !! mtx = Some d /\ waitblocks d = q.

Lemma holds_on_stage (m m' : msys) (t : Z) (n : nat) (st' : stage) (w : waiter) (d : dispatch_header) :
  ws m' = ws m -> stages m' = <[t := st']> (stages m) -> waiters (ws m) !! t = Some w ->
  objs (ws m) !! mtx = Some d -> has_mutex st' w -> (rank st' w <= n)%nat -> holds_on m' t n (waitblocks d).
Proof. intros E1 E2 Hw Ho Hm Hn. exists st', w, d. by rewrite E1, E2, lookup_insert_eq. Qed.

Lemma holder_waits (m : msys) (t : Z) (n : nat) (w : waiter) (d : dispatch_header) :
  minv m -> stages m !! t = Some SWait -> waiters (ws m) !! t = Some w -> sat w ->
  (rank SWait w <= S n)%nat -> objs (ws m) !! mtx = Some d ->
  exists m', mtx_step m t = Some m' /\ minv m' /\ holds_on m' t n (waitblocks d).
Proof.
  intros M Hst Hw Hm Hn Ho. destruct (m_threads _ M _ _ Hst) as (w0 & Hw0 & Hwf). simplify_eq.
  destruct (waiter_ok_place w (v_ok _ (proj1 (m_inv _ M)) _ _ Hw) (proj1 (proj2 Hwf))) as (_ & _ & Hp).
  assert (Hnb : pc w <> PBlocked).
  { intros Hb. unfold place_ok in Hp. rewrite Hb in Hp. unfold sat in Hm. destruct Hp. congruence. }
  destruct (wait_minv m t w M Hst Hw Hnb) as (m' & E & M'). exists m'. split_and!; [done|done|].
  destruct (decide (exists r, pc w = PDone r)) as [[r Hr]|Hd].
  - unfold mtx_step in E. rewrite Hst, Hw in E. cbn in E. rewrite Hr in E. injection E as <-.
    cbn in Hn. rewrite Hr in Hn. apply (holds_on_stage m _ t n SSet w d); try done; cbn in *; lia.
  - destruct (wait_runs m t w M Hst Hw Hnb) as (s' & E1 & E2); [naive_solver|]. rewrite E in E2. injection E2 as ->.
    destruct (m_lock _ M) as (h & d0 & Ho0 & Hty & _). simplify_eq.
    destruct (wait_step_effect (ws m) s' t mtx w d (m_inv _ M) Hw Hwf Ho Hty E1) as
      (w' & d' & Hws & Ho' & Hty' & Hwf' & Hrk & Hq & Hcase).
    exists SWait, w', d'. cbn. rewrite Hws, !lookup_insert_eq. split_and!; try done; [naive_solver|cbn in Hn; lia|by apply Hq].
Qed.

(** A thread that has the mutex can move, keeps it until it unlocks, does not
    disturb the queue, and then the first in the queue has it. *)
Lemma holder_progress (m : msys) (t : Z) (n : nat) (q : list wbid) :
  minv m -> holds_on m t (S n) q ->
  exists m', mtx_step m t = Some m' /\ minv m' /\
    (holds_on m' t n q \/ lock_state (stages m') (ws m') (fst <$> head q)).
Proof.
  intros M (st & w & d & Hst & Hw & Hm & Hn & Ho & <-). destruct st; [done| | | |].
  - destruct (holder_waits m t n w d M Hst Hw Hm Hn Ho) as (m' & E & M' & H). eauto 6.
  - destruct (mtx_step_minv m t SSet w M Hst Hw ltac:(by left)) as (m' & E & M'). exists m'. split_and!; [done..|]. left.
    unfold mtx_step in E. rewrite Hst in E. injection E as <-. apply (holds_on_stage m _ t n SPrint w d); try done; cbn in *; lia.
  - destruct (mtx_step_minv m t SPrint w M Hst Hw ltac:(by left)) as (m' & E & M'). exists m'. split_and!; [done..|]. left.
    unfold mtx_step in E. rewrite Hst in E. injection E as <-. apply (holds_on_stage m _ t n SUnlock w d); try done; cbn in *; lia.
  - destruct (unlock_minv m t d M Hst Ho) as (m' & E & M' & H). eauto 6.
Qed.

Lemma holder_hands_on (n : nat) (m : msys) (t : Z) (q : list wbid) :
  minv m -> holds_on m t n q ->
  exists k m', (k <= n)%nat /\ mrun m (replicate k (Some t)) = Some m' /\
               lock_state (stages m') (ws m') (fst <$> head q).
Proof.
  revert m. induction n as [|n IH]; intros m M H.
  - destruct H as (st & w & d & _ & _ & Hm & Hn & _). destruct st; cbn in *; [done|lia..].
  - destruct (holder_progress m t n q M H) as (m' & E & M' & [H'|H']).
    + destruct (IH m' M' H') as (k & m2 & Hk & E2 & H2). exists (S k), m2. cbn. rewrite E. cbn. split_and!; [lia|done|done].
    + exists 1%nat, m'. cbn. rewrite E. split_and!; [lia|done|done].
Qed.

(** A thread that waits and has the mutex is past the first step of its wait. *)
Lemma rank_bound (m : msys) (t : Z) (st : stage) (w : waiter) :
  minv m -> stages m !! t = Some st -> waiters (ws m) !! t = Some w -> has_mutex st w -> (rank st w <= 8)%nat.
Proof.
  intros M Hst Hw Hm. destruct st; cbn in *; try lia.
  destruct (m_threads _ M _ _ Hst) as (w0 & Hw0 & Hwf). simplify_eq.
  destruct (waiter_ok_place w (v_ok _ (proj1 (m_inv _ M)) _ _ Hw) (proj1 (proj2 Hwf))) as (_ & _ & Hp).
  unfold place_ok in Hp. destruct (pc w) as [|[|i]|a k| | |[|i] k|r|f]; cbn; try lia.
  destruct Hp as [_ Hp]. rewrite Hm in Hp. destruct Hp as (k & Hk & _). lia.
Qed.

Lemma holder_holds_on (m : msys) (t : Z) (d : dispatch_header) :
  minv m -> lock_state (stages m) (ws m) (Some t) -> objs (ws m) !! mtx = Some d -> holds_on m t 8 (waitblocks d).
Proof.
  intros M (d0 & Ho0 & _ & _ & Hh) Ho. destruct (proj2 (Hh t) eq_refl) as (st & w & Hst & Hw & Hm).
  exists st, w, d. split_and!; try done. by eapply rank_bound.
Qed.

(** A blocked thread waits for a thread that has the mutex. *)
Lemma blocked_waits (m : msys) (t : Z) (w : waiter) :
  minv m -> stages m !! t = Some SWait -> waiters (ws m) !! t = Some w -> pc w = PBlocked ->
  exists u, u <> t /\ lock_state (stages m) (ws m) (Some u).
Proof.
  intros M Hst Hw Hb. destruct (m_threads _ M _ _ Hst) as (w0 & Hw0 & Hwf). simplify_eq.
  destruct (waiter_ok_place w (v_ok _ (proj1 (m_inv _ M)) _ _ Hw) (proj1 (proj2 Hwf))) as (_ & _ & Hp).
  unfold place_ok in Hp. rewrite Hb in Hp. destruct Hp as [Hs Ha]. destruct Hwf as (Ht & _ & Hnf & _). rewrite Ht in Ha.
  destruct (m_lock _ M) as (h & Hl). destruct (Hl) as (d & Ho & Hty & Hc & Hh).
  destruct (v_rel _ (proj1 (m_inv _ M)) _ _ _ _ Ho Hw) as [?|Hr]; [done|].
  assert (Hin : (t, 0%nat) ∈ waitblocks d).
  { apply Hr. unfold linked, installed. rewrite Hb, Ht. split_and!; [done|cbn; lia|apply Ha; cbn; lia]. }
  destruct h as [u|].
  - exists u. split; [|done]. intros ->. destruct (proj2 (Hh t) eq_refl) as (st & w1 & H1 & H2 & H3). simplify_eq.
    cbn in H3. unfold sat in H3. congruence.
  - destruct (proj2 (m_inv _ M) _ _ Ho) as [_ He]. rewrite He in Hin by lia. by apply elem_of_nil in Hin.
Qed.

(** C4: mutual exclusion.  However the eight threads of the mutex test are
    interleaved, at most one of them is between [mutex_lock] and
    [mutex_unlock], the mutex names it as its owner, and every line that was
    printed shows the number of the thread that printed it, although [val] is
    shared.  A thread that cannot go on waits for another thread that has the
    mutex and can go on, so the test never deadlocks. *)
Theorem mutex_test_exclusion (m : msys) :
  mreachable m ->
  (forall t u st su, stages m !! t = Some st -> stages m !! u = Some su -> inside st -> inside su -> t = u) /\
  (forall t st, stages m !! t = Some st -> inside st -> owner m = Some t) /\
  Forall (fun p => snd p = fst p) (printed m) /\
  (forall t, is_Some (stages m !! t) -> mtx_step m t = None ->
     exists u, u <> t /\ lock_state (stages m) (ws m) (Some u) /\ is_Some (mtx_step m u)).
Proof.
  intros Hr. pose proof (mreachable_minv m Hr) as M. split_and!; [|apply M|apply M|].
  - intros t u st su Ht Hu Hit Hiu. pose proof (m_owner _ M t st Ht Hit). pose proof (m_owner _ M u su Hu Hiu). congruence.
  - intros t [st Hst] E. destruct (m_threads _ M _ _ Hst) as (w & Hw & _).
    destruct (decide (st <> SWait \/ pc w <> PBlocked)) as [Hb|Hb].
    { destruct (mtx_step_minv m t st w M Hst Hw Hb) as (m' & E' & _). congruence. }
    destruct (blocked_waits m t w M) as (u & Hne & Hl); [|done| |].
    + rewrite Hst. f_equal. destruct (decide (st = SWait)); [done|tauto].
    + destruct (decide (pc w = PBlocked)); [done|tauto].
    + exists u. split_and!; [done..|]. destruct (m_lock _ M) as (h & d & Ho & _).
      destruct (holder_progress m u 7 _ M (holder_holds_on m u d M Hl Ho)) as (m' & E' & _). eauto.
Qed.

(** C40: the mutex is handed on.  In every reachable state in which thread
    [t] has the mutex, at most eight steps of [t] alone take it out of its
    loop body, and then the thread that was first in the mutex's queue has
    the mutex; the mutex is free when nobody waited. *)
Theorem mutex_handed_on (m : msys) (t : Z) (d : dispatch_header) :
  mreachable m -> lock_state (stages m) (ws m) (Some t) -> objs (ws m) !! mtx = Some d ->
  exists k m', (k <= 8)%nat /\ mrun m (replicate k (Some t)) = Some m' /\
               lock_state (stages m') (ws m') (fst <$> head (waitblocks d)).
Proof.
  intros Hr Hl Ho. pose proof (mreachable_minv m Hr) as M.
  apply holder_hands_on; [done|]. by apply holder_holds_on.
Qed.

(** ** Concrete runs *)

(** Threads 1 and 2 start, 1 takes the mutex and 2 blocks on it. *)
Definition demo_mtx_steps : list (option Z) :=
  [None; None; Some 1; Some 1; Some 1; Some 2; Some 2; Some 2; Some 2; Some 1].

Definition demo_mtx (ls : list (option Z)) : msys := default mutex_test_init (mrun mutex_test_init ls).

Lemma demo_mtx_reachable (ls : list (option Z)) : is_Some (mrun mutex_test_init ls) -> mreachable (demo_mtx ls).
Proof. intros [m E]. unfold demo_mtx. rewrite E. eapply mrun_reachable; [apply mreach_init|done]. Qed.

Lemma mutex_test_exclusion_witness :
  stages (demo_mtx demo_mtx_steps) !! 1 = Some SSet /\ mtx_step (demo_mtx demo_mtx_steps) 2 = None /\
  (exists u, u <> 2 /\ is_Some (mtx_step (demo_mtx demo_mtx_steps) u)) /\
  printed (demo_mtx (demo_mtx_steps ++ replicate 3 (Some 1) ++ replicate 7 (Some 2))) = [(1, 1); (2, 2)].
Proof.
  split; [vm_compute; reflexivity|]. split; [vm_compute; reflexivity|]. split; [|vm_compute; reflexivity].
  destruct (mutex_test_exclusion (demo_mtx demo_mtx_steps)) as (_ & _ & _ & H).
  - apply demo_mtx_reachable. vm_compute. eauto.
  - destruct (H 2) as (u & Hne & _ & Hu); [vm_compute; eauto|vm_compute; reflexivity|]. exists u. split; [exact Hne|exact Hu].
Defined.

Lemma mutex_handed_on_witness :
  exists k m', (k <= 8)%nat /\ mrun (demo_mtx demo_mtx_steps) (replicate k (Some 1)) = Some m' /\
               lock_state (stages m') (ws m') (Some 2).
Proof.
  assert (Hr : mreachable (demo_mtx demo_mtx_steps)) by (apply demo_mtx_reachable; vm_compute; eauto).
  assert (Hl : lock_state (stages (demo_mtx demo_mtx_steps)) (ws (demo_mtx demo_mtx_steps)) (Some 1)).
  { destruct (m_lock _ (mreachable_minv _ Hr)) as (h & d & Ho & Hty & Hc & Hh).
    assert (h = Some 1) as -> by (apply Hh; eexists SSet, _; split_and!; [vm_compute; reflexivity..|exact I]).
    exists d. split_and!; [exact Ho|exact Hty|exact Hc|exact Hh]. }
  apply (mutex_handed_on (demo_mtx demo_mtx_steps) 1 (MkObj [(2, 0%nat)] DISPATCH_SYNCHRONIZATION 0) Hr Hl).
  vm_compute. reflexivity.
Defined.

(** ** The semaphore test *)

Inductive sstage := SemAcquire | SemWait | SemPrint | SemRelease.

Record semsys := MkSemsys {
  sws : wsys;
  sstages : gmap Z sstage;
  sprinted : list Z;
}.

Definition sem : Z := 0.

(** The next step of thread [t] in [sem<t>]. *)
Definition sem_step (m : semsys) (t : Z) : option semsys :=
  match sstages m !! t, waiters (sws m) !! t with
  | Some SemAcquire, Some w =>
      Some (MkSemsys (put_waiter (sws m) t (semaphore_acquire w sem)) (<[t := SemWait]> (sstages m)) (sprinted m))
  | Some SemWait, Some w =>
      match pc w with
      | PDone _ => Some (MkSemsys (sws m) (<[t := SemPrint]> (sstages m)) (sprinted m))
      | _ => s ← wait_step (sws m) t; Some (MkSemsys s (sstages m) (sprinted m))
      end
  | Some SemPrint, Some _ =>
      Some (MkSemsys (sws m) (<[t := SemRelease]> (sstages m)) (sprinted m ++ [t]))
  | Some SemRelease, Some _ =>
      Some (MkSemsys (semaphore_release (sws m) sem) (<[t := SemAcquire]> (sstages m)) (sprinted m))
  | _, _ => None
  end.

Fixpoint sem_run (m : semsys) (ts : list Z) : option semsys :=
  match ts with
  | [] => Some m
  | t :: ts => m ← sem_step m t; sem_run m ts
  end.

(** [sem_test]: the semaphore counts one; the four threads are all enqueued. *)
Definition sem_test : semsys :=
  MkSemsys (MkSys {[ sem := semaphore_init 1 ]} {[ 1 := new_waiter; 2 := new_waiter; 3 := new_waiter; 4 := new_waiter ]})
    {[ 1 := SemAcquire; 2 := SemAcquire; 3 := SemAcquire; 4 := SemAcquire ]} [].

(** A thread alone goes round its loop. *)
Lemma sem_test_alone :
  sprinted <$> sem_run sem_test (replicate 12 1) = Some [1; 1].
Proof. vm_compute. reflexivity. Qed.

(** The second thread that comes while the semaphore is taken does not wait
    for it: [semaphore_acquire] has a timeout of zero, and [wait_any] panics. *)
Lemma sem_test_panics :
  exists m, sem_run sem_test [1; 1; 1; 1; 2; 2; 2] = Some m /\
            sstages m !! 1 = Some SemPrint /\ pc <$> waiters (sws m) !! 2 = Some (PFault NotSatisfied).
Proof. eexists. split_and!; vm_compute; reflexivity. Qed.
