(* ===== verification/Slab.v ===== *)
(** * The slab allocator ([mm/slab.c], [mm/slab.h])

    Caches of equal objects over pages of [pmm_alloc], with per-processor
    magazines.  Pointers are addresses of the direct map; the words behind
    them are those of physical memory, so that a slab's header at the end of
    its page, the links through its free buffers and the magazines are read
    and written where the source keeps them.  The lists of slabs of a cache
    are lists ([Queue.v] justifies this); [core_id] is the processor that
    runs the code. *)

From S2P Require Import Prelude Aria PageSource.

(** Giving frames back, the other half of the page allocator. *)
Class PageReturn (S : Type) := {
  pr_free : S -> Z -> Z -> S * cres unit;
}.

Definition SLAB_ALIGN : Z := 8.
Definition CACHES_NUM : nat := 32.
Definition GENERIC_CACHES_NUM : nat := 9.
Definition SMALL_SLAB_SIZE : Z := 512.
Definition OBJECTS_PER_SLAB : Z := 16.

(** Layout of [struct kmem_slab], [struct kmem_bufctl] and
    [struct kmem_magazine]. *)
Definition sizeof_kmem_slab : Z := 32.
Definition slab_refcount (slab : Z) : Z := slab + 16.
Definition slab_buflist (slab : Z) : Z := slab + 24.
Definition sizeof_kmem_bufctl : Z := 24.
Definition bufctl_next (b : Z) : Z := b.
Definition bufctl_buffer (b : Z) : Z := b + 8.
Definition bufctl_slab (b : Z) : Z := b + 16.
Definition mag_next (m : Z) : Z := m.
Definition mag_round (m i : Z) : Z := m + 8 + 8 * i.

Record kmem_cpu := MkCpu {
  loaded : Z;
  previous : Z;
  rounds : Z;
  rounds_previous : Z;
  magazine_size : Z;
}.

Record kmem_magtype := MkMagtype {
  mt_rounds : Z;
  mt_align : Z;
  mt_minbuf : Z;
  mt_maxbuf : Z;
}.

Definition magtypes : list kmem_magtype :=
  [ MkMagtype 1 8 3200 65536; MkMagtype 3 16 256 32768; MkMagtype 7 32 64 16384;
    MkMagtype 15 64 0 8192; MkMagtype 31 64 0 4096; MkMagtype 47 64 0 2048;
    MkMagtype 63 64 0 1024; MkMagtype 95 64 0 512; MkMagtype 143 64 0 0 ].

(** What a constructor or a destructor does to the words of memory. *)
Definition hook : Type := Z -> gmap Z Z -> gmap Z Z.

Section Slab.
Context `{AB : AriaBase, AD : AriaDict} {S : Type} `{PS : PageSource S, PR : PageReturn S}.
Context (HIGH_VMA : Z) (logical_processor_cnt : nat) (sizeof_kmem_cpu : Z).

Record kmem_cache := MkCache {
  object_size : Z;
  chunk_size : Z;
  slab_size : Z;
  offset : Z;
  object_align : Z;
  maxcolor : Z;
  color : Z;
  full_slabs : list Z;
  slabs : list Z;
  bufmap : dictionary Z;
  empty_magazines : Z;
  full_magazines : Z;
  magtype : option nat;
  cpu : list kmem_cpu;
  magazines_enabled : bool;
  constructor : option hook;
  destructor : option hook;
}.

Record kst := MkK {
  caches : list kmem_cache;
  cache_freelist : list nat;
  cache_num : Z;
  bufctl_cache : option nat;
  slab_cache : option nat;
  generic_caches : list (option nat);
  mag_caches : list (option nat);
  kpages : S;
}.

Definition set_caches (s : kst) (cs : list kmem_cache) : kst :=
  MkK cs (cache_freelist s) (cache_num s) (bufctl_cache s) (slab_cache s) (generic_caches s) (mag_caches s) (kpages s).
Definition set_kpages (s : kst) (p : S) : kst :=
  MkK (caches s) (cache_freelist s) (cache_num s) (bufctl_cache s) (slab_cache s) (generic_caches s) (mag_caches s) p.

Definition set_color (cp : kmem_cache) (x : Z) : kmem_cache :=
  MkCache (object_size cp) (chunk_size cp) (slab_size cp) (offset cp) (object_align cp) (maxcolor cp) x
    (full_slabs cp) (slabs cp) (bufmap cp) (empty_magazines cp) (full_magazines cp) (magtype cp) (cpu cp)
    (magazines_enabled cp) (constructor cp) (destructor cp).
Definition set_slabs (cp : kmem_cache) (full part : list Z) : kmem_cache :=
  MkCache (object_size cp) (chunk_size cp) (slab_size cp) (offset cp) (object_align cp) (maxcolor cp) (color cp)
    full part (bufmap cp) (empty_magazines cp) (full_magazines cp) (magtype cp) (cpu cp)
    (magazines_enabled cp) (constructor cp) (destructor cp).
Definition set_bufmap (cp : kmem_cache) (d : dictionary Z) : kmem_cache :=
  MkCache (object_size cp) (chunk_size cp) (slab_size cp) (offset cp) (object_align cp) (maxcolor cp) (color cp)
    (full_slabs cp) (slabs cp) d (empty_magazines cp) (full_magazines cp) (magtype cp) (cpu cp)
    (magazines_enabled cp) (constructor cp) (destructor cp).
Definition set_depot (cp : kmem_cache) (empty full : Z) : kmem_cache :=
  MkCache (object_size cp) (chunk_size cp) (slab_size cp) (offset cp) (object_align cp) (maxcolor cp) (color cp)
    (full_slabs cp) (slabs cp) (bufmap cp) empty full (magtype cp) (cpu cp)
    (magazines_enabled cp) (constructor cp) (destructor cp).
Definition set_cpus (cp : kmem_cache) (l : list kmem_cpu) (enabled : bool) : kmem_cache :=
  MkCache (object_size cp) (chunk_size cp) (slab_size cp) (offset cp) (object_align cp) (maxcolor cp) (color cp)
    (full_slabs cp) (slabs cp) (bufmap cp) (empty_magazines cp) (full_magazines cp) (magtype cp) l
    enabled (constructor cp) (destructor cp).

(** ** Memory *)

Definition load (p : Z) : M kst Z := gets (fun s => rd (ps_mem (kpages s)) (p - HIGH_VMA)).
Definition store (p v : Z) : M kst unit :=
  modify (fun s => set_kpages s (ps_put (kpages s) (<[p - HIGH_VMA := v]> (ps_mem (kpages s))))).
Definition run_hook (h : option hook) (p : Z) : M kst unit :=
  match h with
  | None => mret tt
  | Some f => modify (fun s => set_kpages s (ps_put (kpages s) (f p (ps_mem (kpages s)))))
  end.

(** A failed [pmm_alloc] gives the address one below the direct map, which
    every caller dereferences. *)
Definition alloc_pages (num_pages : Z) : M kst Z := fun s =>
  match ps_alloc (kpages s) num_pages 1 with
  | (p, Ok a) => (set_kpages s p, Ok (a + HIGH_VMA))
  | (p, _) => (set_kpages s p, Halt)
  end.

Definition free_pages (ptr num_pages : Z) : M kst unit := fun s =>
  match pr_free (kpages s) (ptr - HIGH_VMA) num_pages with
  | (p, r) => (set_kpages s p, r)
  end.

(** A cache is an index into [caches]; any other pointer is wild. *)
Definition get_cache (c : nat) : M kst kmem_cache := fun s =>
  match caches s !! c with Some cp => (s, Ok cp) | None => (s, Halt) end.
Definition put_cache (c : nat) (cp : kmem_cache) : M kst unit :=
  modify (fun s => set_caches s (<[c := cp]> (caches s))).
Definition the {A} (o : option A) : M kst A := match o with Some a => mret a | None => halt end.

(** ** Slabs *)

Definition next_color (cp : kmem_cache) : Z :=
  let x := u64 (color cp + object_align cp) in if x >? maxcolor cp then 0 else x.

(** The loop that links the buffers of a small slab. *)
Fixpoint link_small (cp : kmem_cache) (slab buf i : Z) (n : nat) : M kst unit :=
  match n with
  | O => mret tt
  | Datatypes.S n =>
      let bufctl := buf + i * chunk_size cp + offset cp in
      head ← load (slab_buflist slab);
      _ ← store (bufctl_next bufctl) head;
      _ ← store (slab_buflist slab) bufctl;
      _ ← run_hook (constructor cp) (buf + i * chunk_size cp);
      link_small cp slab buf (i + 1) n
  end.

Definition slab_create_small (c : nat) : M kst Z :=
  cp ← get_cache c;
  buf ← alloc_pages 1;
  let cp := set_color cp (next_color cp) in
  _ ← put_cache c cp;
  let ret := buf + PAGE_SIZE - sizeof_kmem_slab in
  let capacity := (PAGE_SIZE - sizeof_kmem_slab - color cp) / chunk_size cp in
  _ ← store (slab_buflist ret) 0;
  _ ← link_small cp ret (buf + color cp) 0 (Z.to_nat capacity);
  mret ret.

(** The same loop for a large slab, whose bufctls are objects of their own;
    [alloc] is [kmem_cache_alloc]. *)
Fixpoint link_large (alloc : nat -> M kst Z) (cp : kmem_cache) (slab buf i : Z) (n : nat) : M kst unit :=
  match n with
  | O => mret tt
  | Datatypes.S n =>
      bc ← gets bufctl_cache;
      bc ← the bc;
      bufctl ← alloc bc;
      let buffer := buf + color cp + i * chunk_size cp in
      _ ← store (bufctl_buffer bufctl) buffer;
      _ ← store (bufctl_slab bufctl) slab;
      head ← load (slab_buflist slab);
      _ ← store (bufctl_next bufctl) head;
      _ ← store (slab_buflist slab) bufctl;
      _ ← run_hook (constructor cp) buffer;
      link_large alloc cp slab buf (i + 1) n
  end.

Definition slab_create_large (alloc : nat -> M kst Z) (c : nat) : M kst Z :=
  cp ← get_cache c;
  let cp := set_color cp (next_color cp) in
  _ ← put_cache c cp;
  let capacity := (slab_size cp - color cp) / chunk_size cp in
  buf ← alloc_pages (slab_size cp / PAGE_SIZE);
  sc ← gets slab_cache;
  sc ← the sc;
  ret ← alloc sc;
  _ ← store (slab_buflist ret) 0;
  _ ← link_large alloc cp ret buf 0 (Z.to_nat capacity);
  mret ret.

Definition slab_create (alloc : nat -> M kst Z) (c : nat) : M kst Z :=
  cp ← get_cache c;
  if object_size cp <=? SMALL_SLAB_SIZE then slab_create_small c else slab_create_large alloc c.

(** [slab_destroy]; [free] is [kmem_cache_free] and [n] bounds the length of
    the list of free buffers. *)
Fixpoint free_bufctls (free : nat -> Z -> M kst unit) (bufctl : Z) (n : nat) : M kst unit :=
  match n with
  | O => if bufctl =? 0 then mret tt else halt
  | Datatypes.S n =>
      if bufctl =? 0 then mret tt
      else
        next ← load (bufctl_next bufctl);
        bc ← gets bufctl_cache;
        bc ← the bc;
        _ ← free bc bufctl;
        free_bufctls free next n
  end.

Definition slab_destroy (free : nat -> Z -> M kst unit) (c : nat) (slab : Z) : M kst unit :=
  cp ← get_cache c;
  if object_size cp >? SMALL_SLAB_SIZE then
    bufctl ← load (slab_buflist slab);
    _ ← free_bufctls free bufctl (Z.to_nat (slab_size cp / chunk_size cp));
    sc ← gets slab_cache;
    sc ← the sc;
    free sc slab
  else
    free_pages (slab / PAGE_SIZE * PAGE_SIZE) (slab_size cp / PAGE_SIZE).

(** ** Magazines *)

Definition cpu_reload (x : kmem_cpu) (mag n : Z) : kmem_cpu :=
  MkCpu mag (loaded x) n (rounds x) (magazine_size x).

(** [maglist_alloc] and [maglist_free] under the depot's lock; a list is its
    head, its links are in the magazines. *)
Inductive depot := DEmpty | DFull.

Definition depot_head (cp : kmem_cache) (d : depot) : Z :=
  match d with DEmpty => empty_magazines cp | DFull => full_magazines cp end.
Definition set_depot_head (cp : kmem_cache) (d : depot) (h : Z) : kmem_cache :=
  match d with
  | DEmpty => set_depot cp h (full_magazines cp)
  | DFull => set_depot cp (empty_magazines cp) h
  end.

Definition alloc_from_depot (c : nat) (d : depot) : M kst Z :=
  cp ← get_cache c;
  let ret := depot_head cp d in
  if ret =? 0 then mret 0
  else
    next ← load (mag_next ret);
    _ ← put_cache c (set_depot_head cp d next);
    mret ret.

Definition free_to_depot (c : nat) (mag : Z) (d : depot) : M kst unit :=
  cp ← get_cache c;
  _ ← store (mag_next mag) (depot_head cp d);
  put_cache c (set_depot_head cp d mag).

Definition get_cpu (c core_id : nat) : M kst kmem_cpu :=
  cp ← get_cache c;
  the (cpu cp !! core_id).
Definition put_cpu (c core_id : nat) (x : kmem_cpu) : M kst unit :=
  cp ← get_cache c;
  put_cache c (set_cpus cp (<[core_id := x]> (cpu cp)) (magazines_enabled cp)).

(** The loop of [kmem_cache_alloc] over the magazines: a round, or none.  A
    reload leaves a loaded magazine that is not empty, so that the third
    round of the loop is the last. *)
Fixpoint mag_alloc (c core_id : nat) (n : nat) : M kst (option Z) :=
  match n with
  | O => halt
  | Datatypes.S n =>
      x ← get_cpu c core_id;
      if 0 <? rounds x then
        buf ← load (mag_round (loaded x) (rounds x - 1));
        _ ← put_cpu c core_id (MkCpu (loaded x) (previous x) (rounds x - 1) (rounds_previous x) (magazine_size x));
        mret (Some buf)
      else if 0 <? rounds_previous x then
        _ ← put_cpu c core_id (cpu_reload x (previous x) (rounds_previous x));
        mag_alloc c core_id n
      else
        mag ← alloc_from_depot c DFull;
        if mag =? 0 then mret None
        else
          _ ← (if previous x =? 0 then mret tt else free_to_depot c (previous x) DEmpty);
          _ ← put_cpu c core_id (cpu_reload x mag (s32 (magazine_size x)));
          mag_alloc c core_id n
  end.

(** The slab layer of [kmem_cache_alloc]: the first buffer of a slab that has
    one, which becomes full when the buffer is its last. *)
Definition take_buffer (c : nat) (slab : Z) : M kst Z :=
  cp ← get_cache c;
  bufctl ← load (slab_buflist slab);
  if bufctl =? 0 then halt
  else
    next ← load (bufctl_next bufctl);
    _ ← (if next =? 0
         then put_cache c (set_slabs cp (full_slabs cp ++ [slab]) (filter (fun x => x <> slab) (slabs cp)))
         else mret tt);
    _ ← store (slab_buflist slab) next;
    r ← load (slab_refcount slab);
    _ ← store (slab_refcount slab) (u64 (r + 1));
    if object_size cp >? SMALL_SLAB_SIZE then
      buf ← load (bufctl_buffer bufctl);
      key ← load buf;
      cp ← get_cache c;
      _ ← put_cache c (set_bufmap cp (fst (dictionary_push (bufmap cp) key bufctl)));
      mret buf
    else mret (bufctl - offset cp).

Definition slab_layer_alloc (alloc : nat -> M kst Z) (c : nat) : M kst Z :=
  cp ← get_cache c;
  match slabs cp with
  | slab :: _ => take_buffer c slab
  | [] =>
      slab ← slab_create alloc c;
      cp ← get_cache c;
      _ ← put_cache c (set_slabs cp (full_slabs cp) (slabs cp ++ [slab]));
      take_buffer c slab
  end.

(** A large slab needs objects of two small caches: [depth] counts the
    nesting. *)
Fixpoint kmem_cache_alloc (depth core_id c : nat) : M kst Z :=
  match depth with
  | O => halt
  | Datatypes.S depth =>
      cp ← get_cache c;
      if magazines_enabled cp then
        r ← mag_alloc c core_id 3;
        match r with
        | Some buf => mret buf
        | None => slab_layer_alloc (kmem_cache_alloc depth core_id) c
        end
      else slab_layer_alloc (kmem_cache_alloc depth core_id) c
  end.

(** The loop of [kmem_cache_free] over the magazines; the result says whether
    the object found a place.  [alloc] is [kmem_cache_alloc]. *)
Fixpoint mag_free (alloc : nat -> M kst Z) (c core_id : nat) (ptr : Z) (n : nat) : M kst bool :=
  match n with
  | O => halt
  | Datatypes.S n =>
      x ← get_cpu c core_id;
      if u64 (rounds x) <? magazine_size x then
        _ ← store (mag_round (loaded x) (rounds x)) ptr;
        _ ← put_cpu c core_id (MkCpu (loaded x) (previous x) (rounds x + 1) (rounds_previous x) (magazine_size x));
        mret true
      else if rounds_previous x =? 0 then
        _ ← put_cpu c core_id (cpu_reload x (previous x) 0);
        mag_free alloc c core_id ptr n
      else
        mag ← alloc_from_depot c DEmpty;
        if negb (mag =? 0) then
          _ ← (if previous x =? 0 then mret tt else free_to_depot c (previous x) DFull);
          _ ← put_cpu c core_id (cpu_reload x mag 0);
          mag_free alloc c core_id ptr n
        else
          cp ← get_cache c;
          mt ← the (magtype cp);
          mc ← gets mag_caches;
          mc ← the (mc !! mt ≫= id);
          new_mag ← alloc mc;
          if new_mag =? 0 then mret false
          else
            _ ← free_to_depot c new_mag DEmpty;
            mag_free alloc c core_id ptr n
  end.

(** The slab layer of [kmem_cache_free]. *)
Definition find_bufctl (c : nat) (ptr : Z) : M kst (option (Z * Z)) :=
  cp ← get_cache c;
  if object_size cp >? SMALL_SLAB_SIZE then
    key ← load ptr;
    match dictionary_search (bufmap cp) key with
    | None => mret None
    | Some bufctl =>
        slab ← load (bufctl_slab bufctl);
        _ ← put_cache c (set_bufmap cp (dictionary_delete (bufmap cp) key));
        mret (Some (bufctl, slab))
    end
  else
    mret (Some (ptr + offset cp, ptr / PAGE_SIZE * PAGE_SIZE + PAGE_SIZE - sizeof_kmem_slab)).

Definition give_buffer (free : nat -> Z -> M kst unit) (c : nat) (bufctl slab : Z) : M kst unit :=
  cp ← get_cache c;
  head ← load (slab_buflist slab);
  _ ← (if head =? 0
       then put_cache c (set_slabs cp (filter (fun x => x <> slab) (full_slabs cp)) (slab :: slabs cp))
       else mret tt);
  _ ← store (bufctl_next bufctl) head;
  _ ← store (slab_buflist slab) bufctl;
  r ← load (slab_refcount slab);
  _ ← store (slab_refcount slab) (u64 (r - 1));
  if u64 (r - 1) =? 0 then
    cp ← get_cache c;
    _ ← put_cache c (set_slabs cp (full_slabs cp) (filter (fun x => x <> slab) (slabs cp)));
    slab_destroy free c slab
  else mret tt.

Definition slab_layer_free (free : nat -> Z -> M kst unit) (c : nat) (ptr : Z) : M kst unit :=
  cp ← get_cache c;
  _ ← run_hook (destructor cp) ptr;
  r ← find_bufctl c ptr;
  match r with
  | None => mret tt
  | Some (bufctl, slab) => give_buffer free c bufctl slab
  end.

Fixpoint kmem_cache_free (depth core_id c : nat) (ptr : Z) : M kst unit :=
  match depth with
  | O => halt
  | Datatypes.S depth =>
      cp ← get_cache c;
      if magazines_enabled cp then
        r ← mag_free (kmem_cache_alloc depth core_id) c core_id ptr 4;
        if (r : bool) then mret tt else slab_layer_free (kmem_cache_free depth core_id) c ptr
      else slab_layer_free (kmem_cache_free depth core_id) c ptr
  end.

(** ** Caches *)

Definition fresh_cpu (mt : kmem_magtype) : kmem_cpu := MkCpu 0 0 (-1) (-1) (mt_rounds mt).

(** The first magazine type whose smallest buffer is below the chunk. *)
Fixpoint select_magtype (l : list kmem_magtype) (chunk : Z) (i : nat) : option nat :=
  match l with
  | [] => None
  | mt :: l => if chunk <=? mt_minbuf mt then select_magtype l chunk (Datatypes.S i) else Some i
  end.

Definition kmem_cache_create (size align : Z) (ctor dtor : option hook) : M kst (option nat) :=
  fl ← gets cache_freelist;
  match fl with
  | [] => mret None
  | c :: fl =>
      cache ← get_cache c;
      let object_align := if align =? 0 then SLAB_ALIGN else align in
      let chunk := if SLAB_ALIGN <=? object_align then ALIGN_UP size SLAB_ALIGN else size in
      let off := if SLAB_ALIGN <=? object_align then u64 (chunk - SLAB_ALIGN) else 0 in
      let chunk := ALIGN_UP chunk object_align in
      let ssize := if size <=? SMALL_SLAB_SIZE then PAGE_SIZE
                   else ALIGN_UP (u64 (chunk * OBJECTS_PER_SLAB)) PAGE_SIZE in
      let maxc := if size <=? SMALL_SLAB_SIZE then (ssize - sizeof_kmem_slab) mod chunk else ssize mod chunk in
      let mt := select_magtype magtypes chunk 0 in
      let cpus := match mt ≫= (fun i => magtypes !! i) with
                  | Some m => if magazines_enabled cache then replicate logical_processor_cnt (fresh_cpu m) else cpu cache
                  | None => cpu cache
                  end in
      _ ← modify (fun s => MkK (caches s) fl (cache_num s + 1) (bufctl_cache s) (slab_cache s)
                             (generic_caches s) (mag_caches s) (kpages s));
      _ ← put_cache c (MkCache size chunk ssize off object_align maxc 0 [] [] (bufmap cache)
                         (empty_magazines cache) (full_magazines cache) mt cpus (magazines_enabled cache) ctor dtor);
      mret (Some c)
  end.

(** [kmem_cache_destroy]: [slab_destroy] for each slab of the two lists. *)
Fixpoint destroy_slabs (free : nat -> Z -> M kst unit) (c : nat) (l : list Z) : M kst unit :=
  match l with
  | [] => mret tt
  | slab :: l =>
      cp ← get_cache c;
      _ ← put_cache c (set_slabs cp (filter (fun x => x <> slab) (full_slabs cp)) (filter (fun x => x <> slab) (slabs cp)));
      _ ← slab_destroy free c slab;
      destroy_slabs free c l
  end.

Definition kmem_cache_destroy (depth core_id c : nat) : M kst unit :=
  cp ← get_cache c;
  _ ← destroy_slabs (kmem_cache_free depth core_id) c (slabs cp);
  cp ← get_cache c;
  _ ← destroy_slabs (kmem_cache_free depth core_id) c (full_slabs cp);
  modify (fun s => MkK (caches s) (c :: cache_freelist s) (cache_num s - 1) (bufctl_cache s) (slab_cache s)
                     (generic_caches s) (mag_caches s) (kpages s)).

(** [kmem_early_init]: the static caches, the caches of the allocator itself,
    the generic caches and the magazine caches. *)
Definition empty_cache : kmem_cache :=
  MkCache 0 0 0 0 0 0 0 [] [] dict_empty 0 0 None [] false None None.

Fixpoint create_generic (i n : nat) : M kst (list (option nat)) :=
  match n with
  | O => mret []
  | Datatypes.S n =>
      c ← kmem_cache_create (2 ^ (Z.of_nat i + 3)) 0 None None;
      l ← create_generic (Datatypes.S i) n;
      mret (c :: l)
  end.

Fixpoint create_magazines (l : list kmem_magtype) : M kst (list (option nat)) :=
  match l with
  | [] => mret []
  | mt :: l =>
      c ← kmem_cache_create ((mt_rounds mt + 1) * 8) (mt_align mt) None None;
      l ← create_magazines l;
      mret (c :: l)
  end.

Definition kmem_early_init (p : S) : kst * cres unit :=
  (bc ← kmem_cache_create sizeof_kmem_bufctl 0 None None;
   sc ← kmem_cache_create sizeof_kmem_slab 0 None None;
   gs ← create_generic 0 GENERIC_CACHES_NUM;
   ms ← create_magazines magtypes;
   modify (fun s => MkK (caches s) (cache_freelist s) (cache_num s) bc sc gs ms (kpages s)))
  (MkK (replicate CACHES_NUM empty_cache) (reverse (seq 0 CACHES_NUM)) 0 None None [] [] p).

(** ** [kmem_malloc] and [kmem_free] *)

Definition get_cache_index (size : Z) : option nat :=
  if size <=? 8 then Some 0%nat
  else if size <=? 16 then Some 1%nat
  else if size <=? 32 then Some 2%nat
  else if size <=? 64 then Some 3%nat
  else if size <=? 128 then Some 4%nat
  else if size <=? 256 then Some 5%nat
  else if size <=? 512 then Some 6%nat
  else if size <=? 1024 then Some 7%nat
  else if size <=? 2048 then Some 8%nat
  else None.

Definition slab_alloc (depth core_id : nat) (size : Z) : M kst Z :=
  match get_cache_index size with
  | None => alloc_pages (ALIGN_UP size PAGE_SIZE / PAGE_SIZE)
  | Some i =>
      gs ← gets generic_caches;
      c ← the (gs !! i ≫= id);
      kmem_cache_alloc depth core_id c
  end.

Definition kmem_malloc (depth core_id : nat) (size : Z) : M kst Z :=
  ptr ← slab_alloc depth core_id (u64 (size + 8));
  _ ← store ptr size;
  mret (ptr + 8).

Definition do_slab_free (depth core_id : nat) (ptr size : Z) : M kst unit :=
  match get_cache_index size with
  | None => free_pages ptr (ALIGN_UP size PAGE_SIZE / PAGE_SIZE)
  | Some i =>
      gs ← gets generic_caches;
      c ← the (gs !! i ≫= id);
      kmem_cache_free depth core_id c ptr
  end.

Definition kmem_free (depth core_id : nat) (ptr : Z) : M kst unit :=
  size ← load (ptr - 8);
  do_slab_free depth core_id (ptr - 8) (u64 (size + 8)).

(** [kmem_init] turns the magazines on, cache by cache. *)
Fixpoint enable_magazines (depth core_id i n : nat) : M kst unit :=
  match n with
  | O => mret tt
  | Datatypes.S n =>
      _ ← kmem_malloc depth core_id (Z.of_nat logical_processor_cnt * sizeof_kmem_cpu);
      cp ← get_cache i;
      let fresh := match magtype cp ≫= (fun j => magtypes !! j) with
                   | Some m => fresh_cpu m
                   | None => MkCpu 0 0 0 0 0
                   end in
      _ ← put_cache i (set_cpus cp (replicate logical_processor_cnt fresh) true);
      enable_magazines depth core_id (Datatypes.S i) n
  end.

Definition kmem_init (depth core_id : nat) : M kst unit := enable_magazines depth core_id 0 CACHES_NUM.

(** [kmem_deinit] destroys the static caches in order, up to the first one that
    has no name: [named] says which of them were ever created. *)
Fixpoint destroy_named (named : nat -> bool) (depth core_id i n : nat) : M kst unit :=
  match n with
  | O => mret tt
  | Datatypes.S n =>
      if negb (named i) then mret tt
      else _ ← kmem_cache_destroy depth core_id i; destroy_named named depth core_id (Datatypes.S i) n
  end.

Definition kmem_deinit (named : nat -> bool) (depth core_id : nat) : M kst unit :=
  destroy_named named depth core_id 0 CACHES_NUM.

(** The list of free caches starts with the last one, so the first one is
    created last: until all have been created [kmem_deinit] does nothing. *)
Lemma kmem_deinit_stops (named : nat -> bool) (depth core_id : nat) (s : kst) :
  named 0%nat = false -> kmem_deinit named depth core_id s = (s, Ok tt).
Proof. intros H. unfold kmem_deinit. cbn. by rewrite H. Qed.

End Slab.
