(* ===== verification/SlabOk.v ===== *)
(** * Correctness of the slab allocator

    Caches of small objects without constructors.  The slab layer first: the
    objects handed out never overlap, freed objects come back, and a page is
    given back only when no object on it is in use.  Then the magazine layer on
    top of it, whose objects the slab layer counts as in use: an allocation
    takes the top round, a release fills the next one.  Then the two together,
    [kmem_cache_alloc] and [kmem_cache_free]; the allocation of a new magazine,
    when every other is full, is not covered. *)

From S2P Require Import Prelude Aria PageSource Physical Slab.

(** What giving frames back promises, for requests the allocator accepts. *)
Class PageReturnOk (S : Type) (PS : PageSource S) (PO : PageSourceOk S PS) (PR : PageReturn S) := {
  pr_valid : S -> Z -> Z -> Prop;
  pr_valid_put : forall s mem a n, pr_valid s a n -> pr_valid (ps_put s mem) a n;
  pr_free_ok : forall s a n, ps_ok s -> pr_valid s a n ->
    exists s', pr_free s a n = (s', Ok tt) /\ ps_ok s' /\ ps_mem s' = ps_mem s /\
      (forall x, ps_used s' x <-> ps_used s x /\ ~ in_frames a n x);
}.

(** The page allocator of [mm/physical.c] keeps that promise. *)
#[export] Instance pmm_return {AB : AriaBase} : PageReturn pmm_state := { pr_free := pmm_free }.

#[export] Instance pmm_return_ok {AB : AriaBase} {AO : AriaBaseOk AB} : PageReturnOk pmm_state pmm_source pmm_source_ok pmm_return.
Proof.
  refine {| pr_valid := fun s a n => 0 < n < 2 ^ 40 /\ free_request (pmm_modules s) a n |}.
  { done. }
  intros s a n Hs [Hn Hr]. destruct (pmm_free_spec s a n Hs Hn Hr) as (s' & E & Hok & Hu).
  exists s'. split; [exact E|]. split; [exact Hok|]. split; [|exact Hu].
  cbn in E |- *. unfold pmm_free in E. destruct (pmm_modules s); [done|]. by injection E as <-.
Defined.

(** So does the reference allocator. *)
#[export] Instance bump_return : PageReturn bump_state := {
  pr_free s a n := (MkBump (bump_next s) (filter (fun x => x ∉ ((fun j => a + j * PAGE_SIZE) <$> seqZ 0 n)) (bump_frames s))
                      (bump_mem s), Ok tt);
}.

#[export] Instance bump_return_ok : PageReturnOk bump_state bump_source bump_source_ok bump_return.
Proof.
  refine {| pr_valid := fun _ _ _ => True |}; [done|]. intros s a n Hs _. eexists. split; [done|]. cbn. split_and!.
  - destruct Hs as [Hn Hf]. constructor; [done|]. cbn. apply Forall_forall. intros x Hx.
    apply list_elem_of_filter in Hx as [_ Hx]. rewrite Forall_forall in Hf. by apply Hf.
  - done.
  - intros x. rewrite list_elem_of_filter, seq_frames. tauto.
Defined.

Section SlabOk.
Context `{AB : AriaBase, AD : AriaDict}.
Context {S : Type} {PS : PageSource S} {PO : PageSourceOk S PS} {PR : PageReturn S} {RO : PageReturnOk S PS PO PR}.
Context (HIGH_VMA : Z) (HV : 0 < HIGH_VMA /\ HIGH_VMA mod PAGE_SIZE = 0).

(** ** Words *)

Local Abbreviation valid := (pr_valid (PageReturnOk := RO)).

Definition word (p : S) (a : Z) : Z := rd (ps_mem p) (a - HIGH_VMA).

(** [p'] differs from [p] in memory at the addresses of [P], and keeps its
    frames. *)
Record mem_step (P : Z -> Prop) (p p' : S) : Prop := {
  ms_ok : ps_ok p -> ps_ok p';
  ms_used x : ps_used p x -> ps_used p' x;
  ms_word a : ~ P a -> word p' a = word p a;
}.

Lemma mem_step_refl (P : Z -> Prop) (p : S) : mem_step P p p.
Proof. by split. Qed.

Lemma mem_step_trans (P : Z -> Prop) (p1 p2 p3 : S) : mem_step P p1 p2 -> mem_step P p2 p3 -> mem_step P p1 p3.
Proof.
  intros [A1 A2 A3] [B1 B2 B3]. split; [auto|auto|].
  intros a Ha. by rewrite B3, A3.
Qed.

Lemma mem_step_weaken (P Q : Z -> Prop) (p p' : S) : (forall a, P a -> Q a) -> mem_step P p p' -> mem_step Q p p'.
Proof. intros H [A1 A2 A3]. split; auto. Qed.

Lemma load_eq (a : Z) (s : kst) : load HIGH_VMA a s = (s, Ok (word (kpages s) a)).
Proof. done. Qed.

Lemma store_eq (a v : Z) (s : kst) :
  exists p, store HIGH_VMA a v s = (set_kpages s p, Ok tt) /\ mem_step (fun q => q = a) (kpages s) p /\ word p a = v /\
    (forall x n, valid (kpages s) x n -> valid p x n).
Proof.
  eexists. split; [reflexivity|]. split; [split|split].
  - apply ps_ok_put.
  - intros x. apply ps_used_put.
  - intros q Hq. unfold word. rewrite ps_mem_put. unfold rd. rewrite lookup_insert_ne by lia. done.
  - unfold word. rewrite ps_mem_put. unfold rd. by rewrite lookup_insert_eq.
  - intros x n. apply pr_valid_put.
Qed.

(** The list of free buffers, through their first words. *)
Fixpoint chain (p : S) (h : Z) (l : list Z) : Prop :=
  match l with
  | [] => h = 0
  | b :: l => h = b /\ b <> 0 /\ chain p (word p b) l
  end.

Lemma chain_frame (P : Z -> Prop) (p p' : S) (h : Z) (l : list Z) :
  mem_step P p p' -> (forall b, b ∈ l -> ~ P b) -> chain p h l -> chain p' h l.
Proof.
  intros Hm. revert h. induction l as [|b l IH]; intros h Hl; cbn; [done|]. intros (-> & Hb & Hc). split_and!; [done..|].
  rewrite (ms_word _ _ _ Hm) by (apply Hl; left). apply IH; [|done]. intros x Hx. apply Hl. by right.
Qed.

(** ** The geometry of a small slab *)

Record small_ok (cp : kmem_cache) : Prop := {
  so_size : 0 < object_size cp <= SMALL_SLAB_SIZE;
  so_chunk : object_size cp <= chunk_size cp /\ 8 <= chunk_size cp <= 2048 /\ chunk_size cp mod 8 = 0;
  so_offset : 0 <= offset cp /\ offset cp + 8 <= chunk_size cp /\ offset cp mod 8 = 0;
  so_align : 0 < object_align cp <= 2048 /\ object_align cp mod 8 = 0 /\ chunk_size cp mod object_align cp = 0;
  so_slab : slab_size cp = PAGE_SIZE;
  so_color : 0 <= color cp <= maxcolor cp /\ color cp mod object_align cp = 0;
  so_maxcolor : maxcolor cp = (PAGE_SIZE - sizeof_kmem_slab) mod chunk_size cp;
  so_hooks : constructor cp = None /\ destructor cp = None;
}.

Definition page_of (slab : Z) : Z := slab + sizeof_kmem_slab - PAGE_SIZE.
Definition capacity (cp : kmem_cache) (col : Z) : Z := (PAGE_SIZE - sizeof_kmem_slab - col) / chunk_size cp.

(** The bufctls of the buffers [i], [i + 1], ... of a slab. *)
Definition bufctls (cp : kmem_cache) (buf i : Z) (n : nat) : list Z :=
  (fun j => buf + j * chunk_size cp + offset cp) <$> seqZ i (Z.of_nat n).

Lemma bufctls_S (cp : kmem_cache) (buf i : Z) (n : nat) :
  bufctls cp buf i (Datatypes.S n) = (buf + i * chunk_size cp + offset cp) :: bufctls cp buf (i + 1) n.
Proof.
  unfold bufctls. rewrite seqZ_cons by lia. replace (Z.succ i) with (i + 1) by lia.
  replace (Z.pred (Z.of_nat (Datatypes.S n))) with (Z.of_nat n) by lia. done.
Qed.

Lemma bufctls_elem (cp : kmem_cache) (buf i : Z) (n : nat) (b : Z) :
  b ∈ bufctls cp buf i n <-> exists j, i <= j < i + Z.of_nat n /\ b = buf + j * chunk_size cp + offset cp.
Proof. unfold bufctls. rewrite list_elem_of_fmap. setoid_rewrite elem_of_seqZ. naive_solver. Qed.

Lemma bufctls_nodup (cp : kmem_cache) (buf i : Z) (n : nat) : 0 < chunk_size cp -> NoDup (bufctls cp buf i n).
Proof. intros H. apply NoDup_fmap_2_strong; [|apply NoDup_seqZ]. intros x y _ _ E. nia. Qed.

Lemma link_small_spec (cp : kmem_cache) (slab buf i : Z) (n : nat) (l : list Z) (s : kst) :
  constructor cp = None -> chain (kpages s) (word (kpages s) (slab_buflist slab)) l ->
  0 < chunk_size cp -> (forall b, b ∈ bufctls cp buf i n -> b <> 0 /\ b <> slab_buflist slab /\ b ∉ l) ->
  slab_buflist slab ∉ l ->
  exists p, link_small HIGH_VMA cp slab buf i n s = (set_kpages s p, Ok tt) /\
    mem_step (fun a => a = slab_buflist slab \/ a ∈ bufctls cp buf i n) (kpages s) p /\
    chain p (word p (slab_buflist slab)) (reverse (bufctls cp buf i n) ++ l).
Proof.
  intros Hc. revert i l s. induction n as [|n IH]; intros i l s Hch Hpos Hb Hl.
  { exists (kpages s). split; [by destruct s|]. split; [apply mem_step_refl|done]. }
  rewrite bufctls_S in *. set (b := buf + i * chunk_size cp + offset cp) in *.
  cbn [link_small]. cbv zeta. fold b. unfold mbind, M_bind. rewrite load_eq.
  destruct (store_eq (bufctl_next b) (word (kpages s) (slab_buflist slab)) s) as (p1 & -> & M1 & W1 & _).
  destruct (store_eq (slab_buflist slab) b (set_kpages s p1)) as (p2 & -> & M2 & W2 & _).
  rewrite Hc. cbn [run_hook]. unfold mret, M_ret. cbn [kpages set_kpages] in M2.
  destruct (Hb b) as (Hb0 & Hbs & Hbl); [left|].
  assert (Hch2 : chain p2 (word p2 (slab_buflist slab)) (b :: l)).
  { cbn. split_and!; [exact W2|done|]. rewrite (ms_word _ _ _ M2) by done. change b with (bufctl_next b). rewrite W1.
    eapply chain_frame; [exact M2|intros x Hx ->; done|].
    eapply chain_frame; [exact M1|intros x Hx ->; done|]. done. }
  destruct (IH (i + 1) (b :: l) (set_kpages (set_kpages s p1) p2) Hch2 Hpos) as (p' & E & M3 & Hfin).
  - intros x Hx. destruct (Hb x) as (? & ? & ?); [by right|]. split_and!; [done..|].
    intros [->|?]%elem_of_cons; [|done]. apply bufctls_elem in Hx as (j & Hj & E). subst b. nia.
  - intros [H|H]%elem_of_cons; [by rewrite H in Hbs|done].
  - exists p'. split; [exact E|]. split.
    + eapply mem_step_trans; [|eapply mem_step_weaken; [|exact M3]; set_solver].
      eapply mem_step_trans; (eapply mem_step_weaken; [|done]).
      * intros a ->. right. left.
      * intros a ->. by left.
    + rewrite reverse_cons, <- app_assoc. exact Hfin.
Qed.

(** ** Slabs and their buffers *)

(** A slab with its free buffers and the ones in use, both given by their
    bufctls. *)
Record slab_ok (cp : kmem_cache) (p : S) (slab : Z) (free outs : list Z) : Prop := {
  sk_page : (page_of slab - HIGH_VMA) mod PAGE_SIZE = 0 /\ 0 <= page_of slab - HIGH_VMA;
  sk_used : ps_used p (page_of slab - HIGH_VMA);
  sk_bufs : exists col, 0 <= col <= maxcolor cp /\ col mod object_align cp = 0 /\
              free ++ outs ≡ₚ bufctls cp (page_of slab + col) 0 (Z.to_nat (capacity cp col));
  sk_chain : chain p (word p (slab_buflist slab)) free;
  sk_count : word p (slab_refcount slab) = Z.of_nat (length outs);
}.

Lemma capacity_bounds (cp : kmem_cache) (col : Z) :
  small_ok cp -> 0 <= col <= maxcolor cp ->
  1 <= capacity cp col <= 508 /\ col + capacity cp col * chunk_size cp <= PAGE_SIZE - sizeof_kmem_slab.
Proof.
  intros Hs Hcol. pose proof (so_chunk _ Hs) as (_ & Hc & _). rewrite (so_maxcolor _ Hs) in Hcol.
  unfold capacity, PAGE_SIZE, sizeof_kmem_slab in *.
  pose proof (Z.mod_pos_bound (4096 - 32) (chunk_size cp) ltac:(lia)).
  pose proof (Z.div_mod (4096 - 32) (chunk_size cp) ltac:(lia)).
  pose proof (Z.div_mod (4096 - 32 - col) (chunk_size cp) ltac:(lia)).
  pose proof (Z.mod_pos_bound (4096 - 32 - col) (chunk_size cp) ltac:(lia)).
  assert (1 <= (4096 - 32) / chunk_size cp) by (apply Z.div_le_lower_bound; lia).
  split; [split|]; [apply Z.div_le_lower_bound; nia|apply Z.div_le_upper_bound; lia|nia].
Qed.

(** Every bufctl lies in its page, below the slab's header. *)
Lemma bufctls_in_page (cp : kmem_cache) (page col b : Z) :
  small_ok cp -> 0 <= col <= maxcolor cp -> b ∈ bufctls cp (page + col) 0 (Z.to_nat (capacity cp col)) ->
  page <= b - offset cp /\ page <= b /\ b - offset cp + chunk_size cp <= page + PAGE_SIZE - sizeof_kmem_slab /\
  b + 8 <= page + PAGE_SIZE - sizeof_kmem_slab.
Proof.
  intros Hs Hcol Hb. destruct (capacity_bounds cp col Hs Hcol) as [Hcap Hfit].
  pose proof (so_chunk _ Hs) as (_ & Hc & _). pose proof (so_offset _ Hs).
  apply bufctls_elem in Hb as (j & Hj & ->). nia.
Qed.

Lemma slab_ok_elem (cp : kmem_cache) (p : S) (slab : Z) (free outs : list Z) (b : Z) :
  small_ok cp -> slab_ok cp p slab free outs -> b ∈ free ++ outs ->
  page_of slab <= b - offset cp /\ page_of slab <= b /\
  b - offset cp + chunk_size cp <= page_of slab + PAGE_SIZE - sizeof_kmem_slab /\
  b + 8 <= page_of slab + PAGE_SIZE - sizeof_kmem_slab.
Proof.
  intros Hs Hk Hb. destruct (sk_bufs _ _ _ _ _ Hk) as (col & Hcol & _ & Hp). rewrite Hp in Hb.
  by apply bufctls_in_page in Hb.
Qed.

(** A slab does not notice writes outside its page. *)
Lemma slab_ok_frame (P : Z -> Prop) (cp : kmem_cache) (p p' : S) (slab : Z) (free outs : list Z) :
  small_ok cp -> mem_step P p p' -> (forall a, P a -> ~ (page_of slab <= a < page_of slab + PAGE_SIZE)) ->
  slab_ok cp p slab free outs -> slab_ok cp p' slab free outs.
Proof.
  intros Hs Hm HP Hk. pose proof Hk as [H1 H2 H3 H4 H5].
  assert (Hin : forall a, page_of slab <= a < page_of slab + PAGE_SIZE -> word p' a = word p a).
  { intros a Ha. apply (ms_word _ _ _ Hm). intros ?. by eapply HP. }
  unfold page_of, slab_buflist, slab_refcount, sizeof_kmem_slab, PAGE_SIZE in *. split; try done.
  - by apply (ms_used _ _ _ Hm).
  - rewrite Hin by (unfold slab_buflist; lia). eapply chain_frame; [done| |done]. intros b Hb Hpb. apply (HP _ Hpb).
    pose proof (slab_ok_elem cp p slab free outs b Hs Hk (proj2 (elem_of_app _ _ _) (or_introl Hb))).
    unfold page_of, sizeof_kmem_slab, PAGE_SIZE in *. lia.
  - rewrite Hin by (unfold slab_refcount; lia). done.
Qed.

Lemma outs_length (cp : kmem_cache) (p : S) (slab : Z) (free outs : list Z) :
  small_ok cp -> slab_ok cp p slab free outs -> Z.of_nat (length free) + Z.of_nat (length outs) <= 508.
Proof.
  intros Hs Hk. destruct (sk_bufs _ _ _ _ _ Hk) as (col & Hcol & _ & Hp). apply Permutation_length in Hp.
  rewrite length_app in Hp. unfold bufctls in Hp. rewrite length_fmap, length_seqZ in Hp.
  pose proof (capacity_bounds cp col Hs Hcol). lia.
Qed.

(** Taking the first free buffer. *)
Lemma slab_take (cp : kmem_cache) (p p' : S) (slab b : Z) (free outs : list Z) :
  small_ok cp -> slab_ok cp p slab (b :: free) outs ->
  mem_step (fun a => a = slab_buflist slab \/ a = slab_refcount slab) p p' ->
  word p' (slab_buflist slab) = word p b ->
  word p' (slab_refcount slab) = u64 (word p (slab_refcount slab) + 1) ->
  slab_ok cp p' slab free (b :: outs).
Proof.
  intros Hs Hk Hm Hw Hr. pose proof (outs_length _ _ _ _ _ Hs Hk) as Hlen. pose proof Hk as [H1 H2 H3 H4 H5]. split; try done.
  - by apply (ms_used _ _ _ Hm).
  - destruct H3 as (col & Hc1 & Hc2 & Hp). exists col. split_and!; [lia|lia|done|]. rewrite <- Hp.
    symmetry. apply Permutation_middle.
  - rewrite Hw. cbn in H4. destruct H4 as (_ & _ & H4). eapply chain_frame; [exact Hm| |exact H4].
    intros x Hx. pose proof (slab_ok_elem cp p slab _ _ x Hs Hk ltac:(set_solver)).
    unfold page_of, slab_buflist, slab_refcount, sizeof_kmem_slab, PAGE_SIZE in *. lia.
  - rewrite Hr, H5, u64_small by (cbn in Hlen; lia). cbn [length]. lia.
Qed.

(** Putting a buffer back. *)
Lemma slab_give (cp : kmem_cache) (p p' : S) (slab b : Z) (free outs outs' : list Z) :
  small_ok cp -> slab_ok cp p slab free outs -> outs ≡ₚ b :: outs' -> b <> 0 ->
  mem_step (fun a => a = b \/ a = slab_buflist slab \/ a = slab_refcount slab) p p' ->
  word p' b = word p (slab_buflist slab) -> word p' (slab_buflist slab) = b ->
  word p' (slab_refcount slab) = u64 (word p (slab_refcount slab) - 1) ->
  slab_ok cp p' slab (b :: free) outs'.
Proof.
  intros Hs Hk Hout Hb0 Hm Hwb Hw Hr. pose proof (outs_length _ _ _ _ _ Hs Hk) as Hlen. pose proof Hk as [H1 H2 H3 H4 H5].
  pose proof (Permutation_length Hout) as Hl. cbn in Hl.
  split; try done.
  - by apply (ms_used _ _ _ Hm).
  - destruct H3 as (col & Hc1 & Hc2 & Hp). exists col. split_and!; [lia|lia|done|]. rewrite <- Hp, Hout.
    apply Permutation_middle.
  - rewrite Hw. cbn. split_and!; [done..|]. rewrite Hwb. eapply chain_frame; [exact Hm| |exact H4].
    intros x Hx. pose proof (slab_ok_elem cp p slab _ _ x Hs Hk ltac:(set_solver)).
    assert (x <> b).
    { intros ->. destruct H3 as (col & _ & _ & Hp). pose proof (bufctls_nodup cp (page_of slab + col) 0 (Z.to_nat (capacity cp col))) as Hnd.
      rewrite <- Hp, Hout in Hnd. apply NoDup_app in Hnd as (_ & Hnd & _); [|pose proof (so_chunk _ Hs); lia].
      apply (Hnd b Hx). left. }
    unfold page_of, slab_buflist, slab_refcount, sizeof_kmem_slab, PAGE_SIZE in *. lia.
  - rewrite Hr, H5, u64_small by lia. lia.
Qed.

(** ** Caches *)

(** A cache with the set of the buffers that are in use. *)
Record cache_ok (s : kst) (c : nat) (cp : kmem_cache) (out : gset Z) : Prop := {
  co_get : caches s !! c = Some cp;
  co_small : small_ok cp;
  co_pages : ps_ok (kpages s);
  co_nodup : NoDup (slabs cp ++ full_slabs cp);
  co_slabs : exists fr ou : Z -> list Z,
    (forall slab, slab ∈ slabs cp ++ full_slabs cp -> slab_ok cp (kpages s) slab (fr slab) (ou slab)) /\
    (forall slab, slab ∈ slabs cp -> fr slab <> []) /\ (forall slab, slab ∈ full_slabs cp -> fr slab = []) /\
    (forall b, b ∈ out <-> exists slab, slab ∈ slabs cp ++ full_slabs cp /\ b + offset cp ∈ ou slab);
}.

Lemma pages_apart (x y a : Z) :
  x <> y -> (page_of x - HIGH_VMA) mod PAGE_SIZE = 0 -> (page_of y - HIGH_VMA) mod PAGE_SIZE = 0 ->
  page_of x <= a < page_of x + PAGE_SIZE -> ~ (page_of y <= a < page_of y + PAGE_SIZE).
Proof.
  unfold PAGE_SIZE. intros Hne Hx Hy Ha Ha'.
  pose proof (Z.div_mod (page_of x - HIGH_VMA) 4096 ltac:(lia)). pose proof (Z.div_mod (page_of y - HIGH_VMA) 4096 ltac:(lia)).
  unfold page_of in *. lia.
Qed.

(** The invariant after one slab [x] changed and writes stayed in its page. *)
Lemma cache_ok_change (s s' : kst) (c : nat) (cp cp' : kmem_cache) (fr ou : Z -> list Z) (x : Z) (fr' ou' : list Z)
    (P : Z -> Prop) (out' : gset Z) :
  caches s' !! c = Some cp' -> small_ok cp -> small_ok cp' -> ps_ok (kpages s) ->
  NoDup (slabs cp' ++ full_slabs cp') ->
  chunk_size cp' = chunk_size cp -> offset cp' = offset cp -> maxcolor cp' = maxcolor cp -> object_align cp' = object_align cp ->
  (forall slab, slab ∈ slabs cp' ++ full_slabs cp' -> slab <> x -> slab_ok cp (kpages s) slab (fr slab) (ou slab)) ->
  mem_step P (kpages s) (kpages s') -> (forall a, P a -> page_of x <= a < page_of x + PAGE_SIZE) ->
  slab_ok cp (kpages s') x fr' ou' ->
  (forall slab, slab ∈ slabs cp' -> slab = x /\ fr' <> [] \/ slab <> x /\ fr slab <> []) ->
  (forall slab, slab ∈ full_slabs cp' -> slab = x /\ fr' = [] \/ slab <> x /\ fr slab = []) ->
  (forall b, b ∈ out' <-> exists slab, slab ∈ slabs cp' ++ full_slabs cp' /\
                           (slab = x /\ b + offset cp ∈ ou' \/ slab <> x /\ b + offset cp ∈ ou slab)) ->
  cache_ok s' c cp' out'.
Proof.
  intros Hg Hs Hs' Hp Hnd E1 E2 E3 E4 Hoth Hm HP Hx Hfr Hfu Hout. split; try done; [by apply (ms_ok _ _ _ Hm)|].
  assert (Hgeo : forall p slab f o, slab_ok cp p slab f o -> slab_ok cp' p slab f o).
  { intros p slab f o [H1 H2 H3 H4 H5]. split; try done. unfold bufctls, capacity in *. by rewrite E1, E2, E3, E4. }
  exists (fun y => if decide (y = x) then fr' else fr y), (fun y => if decide (y = x) then ou' else ou y).
  split_and!.
  - intros slab Hin. apply Hgeo. destruct (decide (slab = x)) as [->|Hne]; [done|].
    pose proof (Hoth slab Hin Hne) as Ho. eapply slab_ok_frame; [done|exact Hm| |exact Ho].
    intros a Ha. apply (pages_apart x); [done|apply Hx|apply Ho|by apply HP].
  - intros slab Hin. destruct (Hfr slab Hin) as [[-> H]|[Hne H]]; [by rewrite decide_True|by rewrite decide_False].
  - intros slab Hin. destruct (Hfu slab Hin) as [[-> H]|[Hne H]]; [by rewrite decide_True|by rewrite decide_False].
  - intros b. rewrite Hout, E2. apply exist_proper. intros slab. apply and_iff_compat_l.
    destruct (decide (slab = x)) as [->|Hne]; naive_solver.
Qed.

Lemma small_ok_slabs (cp : kmem_cache) (full part : list Z) : small_ok cp -> small_ok (set_slabs cp full part).
Proof. by intros []. Qed.

(** The invariant after slab [x] moved between the two lists. *)
Lemma cache_ok_move (s s' : kst) (c : nat) (cp : kmem_cache) (full part : list Z) (fr ou : Z -> list Z) (x : Z)
    (fr' ou' : list Z) (P : Z -> Prop) (out' : gset Z) :
  caches s' !! c = Some (set_slabs cp full part) -> small_ok cp -> ps_ok (kpages s) -> NoDup (part ++ full) ->
  (forall slab, slab ∈ slabs cp ++ full_slabs cp -> slab_ok cp (kpages s) slab (fr slab) (ou slab)) ->
  (forall slab, slab ∈ slabs cp -> fr slab <> []) -> (forall slab, slab ∈ full_slabs cp -> fr slab = []) ->
  (forall y, y <> x -> (y ∈ part <-> y ∈ slabs cp) /\ (y ∈ full <-> y ∈ full_slabs cp)) -> x ∈ part ++ full ->
  mem_step P (kpages s) (kpages s') -> (forall a, P a -> page_of x <= a < page_of x + PAGE_SIZE) ->
  slab_ok cp (kpages s') x fr' ou' -> (x ∈ part -> fr' <> []) -> (x ∈ full -> fr' = []) ->
  (forall b, b ∈ out' <-> b + offset cp ∈ ou' \/ exists y, y <> x /\ y ∈ slabs cp ++ full_slabs cp /\ b + offset cp ∈ ou y) ->
  cache_ok s' c (set_slabs cp full part) out'.
Proof.
  intros Hg Hs Hp Hnd Hsl Hfr Hfu Hmv Hx Hm HP Hk H1 H2 Hout.
  apply (cache_ok_change s _ c cp _ fr ou x fr' ou' P); try done; [by apply small_ok_slabs|..]; cbn.
  - intros y Hy Hne. apply Hsl. destruct (Hmv y Hne). rewrite elem_of_app in *. tauto.
  - intros y Hy. destruct (decide (y = x)) as [->|Hne]; [left; auto|right]. split; [done|]. apply Hfr. by apply Hmv.
  - intros y Hy. destruct (decide (y = x)) as [->|Hne]; [left; auto|right]. split; [done|]. apply Hfu. by apply Hmv.
  - intros b. rewrite Hout. split.
    + intros [Hb|(y & Hne & Hy & Hb)]; [exists x; auto|]. exists y. split; [|auto].
      destruct (Hmv y Hne). rewrite elem_of_app in *. tauto.
    + intros (y & Hy & [[-> Hb]|[Hne Hb]]); [by left|right]. exists y. destruct (Hmv y Hne). rewrite elem_of_app in *. tauto.
Qed.

Lemma set_slabs_id (cp : kmem_cache) : set_slabs cp (full_slabs cp) (slabs cp) = cp.
Proof. by destruct cp. Qed.

Lemma header_in_page (slab a : Z) :
  a = slab_buflist slab \/ a = slab_refcount slab -> page_of slab <= a < page_of slab + PAGE_SIZE.
Proof. unfold slab_buflist, slab_refcount, page_of, sizeof_kmem_slab, PAGE_SIZE. lia. Qed.

Lemma slabs_head_split (cp : kmem_cache) (slab : Z) :
  NoDup (slabs cp ++ full_slabs cp) -> slab ∈ slabs cp ->
  slab ∉ full_slabs cp /\ slab ∉ filter (fun x => x <> slab) (slabs cp) /\
  NoDup (filter (fun x => x <> slab) (slabs cp) ++ full_slabs cp ++ [slab]).
Proof.
  intros Hnd Hin. apply NoDup_app in Hnd as (N1 & N2 & N3). split_and!; [by apply N2|rewrite list_elem_of_filter; tauto|].
  apply NoDup_app. split_and!; [by apply NoDup_filter| |].
  - intros x Hx. apply list_elem_of_filter in Hx as [Hne Hx]. specialize (N2 x Hx). rewrite elem_of_app, list_elem_of_singleton. tauto.
  - apply NoDup_app. split_and!; [done| |by apply NoDup_singleton]. intros x Hx ->%list_elem_of_singleton. by eapply N2.
Qed.

Lemma small_not_large (cp : kmem_cache) : small_ok cp -> (object_size cp >? SMALL_SLAB_SIZE) = false.
Proof. intros Hs. pose proof (so_size _ Hs). rewrite Z.gtb_ltb. apply Z.ltb_ge. lia. Qed.

(** The two stores of [take_buffer]. *)
Lemma take_stores (slab next : Z) (s : kst) :
  exists p, mem_step (fun a => a = slab_buflist slab \/ a = slab_refcount slab) (kpages s) p /\
    word p (slab_buflist slab) = next /\
    word p (slab_refcount slab) = u64 (word (kpages s) (slab_refcount slab) + 1) /\
    forall (B : Type) (k : M kst B),
      (_ ← store HIGH_VMA (slab_buflist slab) next;
       r ← load HIGH_VMA (slab_refcount slab);
       _ ← store HIGH_VMA (slab_refcount slab) (u64 (r + 1)); k) s = k (set_kpages s p).
Proof.
  destruct (store_eq (slab_buflist slab) next s) as (p1 & E1 & M1 & W1 & _).
  destruct (store_eq (slab_refcount slab) (u64 (word p1 (slab_refcount slab) + 1)) (set_kpages s p1)) as (p2 & E2 & M2 & W2 & _).
  cbn in M2. assert (Hne : slab_refcount slab <> slab_buflist slab) by (unfold slab_refcount, slab_buflist; lia).
  exists p2. split_and!.
  - eapply mem_step_trans; (eapply mem_step_weaken; [|done]); intros a ->; auto.
  - rewrite (ms_word _ _ _ M2) by done. done.
  - rewrite W2, (ms_word _ _ _ M1) by done. done.
  - intros B k. unfold mbind, M_bind. rewrite E1, load_eq. cbn [kpages set_kpages]. rewrite E2. by destruct s.
Qed.

Lemma out_pages (cp : kmem_cache) (p : S) (slab b : Z) (free outs : list Z) :
  small_ok cp -> slab_ok cp p slab free outs -> b ∈ free ++ outs -> page_of slab <= b < page_of slab + PAGE_SIZE.
Proof. intros Hs Hk Hb. pose proof (slab_ok_elem _ _ _ _ _ _ Hs Hk Hb). unfold PAGE_SIZE, sizeof_kmem_slab in *. lia. Qed.

(** The magazine layer of a cache, which the slab layer leaves alone. *)
Definition mags (cp : kmem_cache) : bool * list kmem_cpu * Z * Z :=
  (magazines_enabled cp, cpu cp, empty_magazines cp, full_magazines cp).

(** Where a buffer lies: inside its page, aligned. *)
Definition buffer_placed (cp : kmem_cache) (p : S) (buf : Z) : Prop :=
  exists page, ps_used p (page - HIGH_VMA) /\ page <= buf /\ buf + object_size cp <= page + PAGE_SIZE - sizeof_kmem_slab /\
               (buf - page) mod object_align cp = 0.

Lemma slab_ok_placed (cp : kmem_cache) (p : S) (slab b : Z) (free outs : list Z) :
  small_ok cp -> slab_ok cp p slab free outs -> b ∈ free ++ outs -> buffer_placed cp p (b - offset cp).
Proof.
  intros Hs Hk Hb. exists (page_of slab). pose proof (slab_ok_elem _ _ _ _ _ _ Hs Hk Hb). pose proof (so_chunk _ Hs).
  split_and!; [apply Hk|lia|lia|]. destruct (sk_bufs _ _ _ _ _ Hk) as (col & _ & Hcm & Hp). rewrite Hp in Hb.
  apply bufctls_elem in Hb as (j & _ & ->). destruct (so_align _ Hs) as (Ha & _ & Hal).
  replace (page_of slab + col + j * chunk_size cp + offset cp - offset cp - page_of slab) with (col + j * chunk_size cp) by lia.
  apply Z.mod_divide in Hcm, Hal; [|lia..]. apply Z.mod_divide; [lia|].
  apply Z.divide_add_r; [done|by apply Z.divide_mul_r].
Qed.

(** A free buffer is in use on no slab. *)
Lemma free_not_out (cp : kmem_cache) (p : S) (fr ou : Z -> list Z) (slab b : Z) :
  small_ok cp -> (forall y, y ∈ slabs cp ++ full_slabs cp -> slab_ok cp p y (fr y) (ou y)) ->
  slab ∈ slabs cp ++ full_slabs cp -> b ∈ fr slab ->
  ~ exists y, y ∈ slabs cp ++ full_slabs cp /\ b ∈ ou y.
Proof.
  intros Hs Hsl Hin Hb (y & Hy & Hby). pose proof (Hsl slab Hin) as Hk. pose proof (Hsl y Hy) as Hky.
  destruct (decide (y = slab)) as [->|Hyne].
  - destruct (sk_bufs _ _ _ _ _ Hk) as (col & _ & _ & Hperm).
    pose proof (bufctls_nodup cp (page_of slab + col) 0 (Z.to_nat (capacity cp col)) ltac:(pose proof (so_chunk _ Hs); lia)) as Hn.
    rewrite <- Hperm in Hn. apply NoDup_app in Hn as (_ & Hn & _). by apply (Hn b).
  - eapply (pages_apart slab y b); [done|apply Hk|apply Hky| |];
      (eapply out_pages; [done|done|set_solver]).
Qed.

Lemma take_buffer_spec (s : kst) (c : nat) (cp : kmem_cache) (out : gset Z) (slab : Z) :
  cache_ok s c cp out -> slab ∈ slabs cp ->
  exists s' cp' buf, take_buffer HIGH_VMA c slab s = (s', Ok buf) /\
    buf ∉ out /\ cache_ok s' c cp' ({[buf]} ∪ out) /\ buffer_placed cp (kpages s') buf /\ mags cp' = mags cp.
Proof.
  intros [Hg Hs Hp Hnd (fr & ou & Hsl & Hfr & Hfu & Hout)] Hin.
  assert (Hin' : slab ∈ slabs cp ++ full_slabs cp) by set_solver.
  pose proof (Hsl slab Hin') as Hk. specialize (Hfr slab Hin) as Hne.
  destruct (fr slab) as [|b fr'] eqn:Efr; [done|]. clear Hne.
  pose proof (sk_chain _ _ _ _ _ Hk) as (Hhead & Hb0 & Hnext).
  destruct (slabs_head_split cp slab Hnd Hin) as (Hnf & Hnfil & Hnd').
  assert (Hbnew : b - offset cp ∉ out).
  { rewrite Hout. replace (b - offset cp + offset cp) with b by lia. apply (free_not_out cp (kpages s) fr ou slab); try done.
    rewrite Efr. left. }
  set (full' := if word (kpages s) b =? 0 then full_slabs cp ++ [slab] else full_slabs cp).
  set (part' := if word (kpages s) b =? 0 then filter (fun x => x <> slab) (slabs cp) else slabs cp).
  set (s1 := if word (kpages s) b =? 0 then set_caches s (<[c := set_slabs cp full' part']> (caches s)) else s).
  assert (Hk1 : kpages s1 = kpages s) by (subst s1; by destruct (_ =? _)).
  assert (Hg1 : caches s1 !! c = Some (set_slabs cp full' part')).
  { subst s1 full' part'. destruct (_ =? _); cbn; [|by rewrite set_slabs_id].
    apply list_lookup_insert_eq. by eapply lookup_lt_Some. }
  destruct (take_stores slab (word (kpages s) b) s1) as (p & Hm & W1 & W2 & Hrun). rewrite Hk1 in *.
  assert (Hk' : slab_ok cp p slab fr' (b :: ou slab)) by (by eapply slab_take).
  exists (set_kpages s1 p), (set_slabs cp full' part'), (b - offset cp). split_and!.
  - unfold take_buffer. unfold mbind at 1, M_bind at 1. unfold get_cache. rewrite Hg.
    unfold mbind at 1, M_bind at 1. rewrite load_eq, Hhead, (proj2 (Z.eqb_neq _ _) Hb0).
    unfold mbind at 1, M_bind at 1. rewrite load_eq. unfold bufctl_next.
    rewrite (small_not_large cp Hs). unfold mbind at 1, M_bind at 1. subst s1 full' part'.
    destruct (word (kpages s) b =? 0); exact (Hrun _ (mret (b - offset cp))).
  - done.
  - apply (cache_ok_move s _ c cp full' part' fr ou slab fr' (b :: ou slab)
             (fun a => a = slab_buflist slab \/ a = slab_refcount slab)); try done.
    + subst full' part'. by destruct (_ =? _).
    + intros y Hy. subst full' part'. destruct (_ =? _); [|done].
      rewrite list_elem_of_filter, elem_of_app, list_elem_of_singleton. naive_solver.
    + subst full' part'. destruct (_ =? _); [|done]. rewrite !elem_of_app, list_elem_of_singleton. tauto.
    + apply header_in_page.
    + intros Hpt Hfr0. subst part' fr'. cbn in Hnext. by rewrite Hnext in Hpt.
    + intros Hfl. subst full'. destruct (_ =? _) eqn:E; [|done]. zify_bools. destruct fr'; [done|].
      cbn in Hnext. destruct Hnext as (E' & ? & _). congruence.
    + intros x. rewrite elem_of_union, elem_of_singleton, Hout, elem_of_cons. split.
      * intros [->|(y & Hy & Hby)]; [left; left; lia|]. destruct (decide (y = slab)) as [->|]; naive_solver.
      * intros [[E|Hx]|(y & Hy & Hin2 & Hby)]; [left; lia|naive_solver..].
  - by eapply slab_ok_placed; [done|exact Hk'|set_solver].
  - done.
Qed.

(** ** New slabs *)

Lemma next_color_ok (cp : kmem_cache) :
  small_ok cp -> 0 <= next_color cp <= maxcolor cp /\ next_color cp mod object_align cp = 0.
Proof.
  intros Hs. destruct (so_color _ Hs) as [Hc Hm]. destruct (so_align _ Hs) as (Ha & _ & _). destruct (so_chunk _ Hs) as (_ & Hch & _).
  pose proof (so_maxcolor _ Hs) as Hmx. pose proof (Z.mod_pos_bound (PAGE_SIZE - sizeof_kmem_slab) (chunk_size cp) ltac:(lia)).
  unfold next_color. rewrite u64_small by lia. rewrite Z.gtb_ltb. case_if.
  - split; [lia|]. apply Z.mod_0_l. lia.
  - split; [lia|]. apply Z.mod_divide in Hm; [|lia]. apply Z.mod_divide; [lia|]. apply Z.divide_add_r; [done|reflexivity].
Qed.

Lemma small_ok_color (cp : kmem_cache) : small_ok cp -> small_ok (set_color cp (next_color cp)).
Proof. intros Hs. pose proof (next_color_ok cp Hs). destruct Hs. split; done. Qed.

Lemma page_alloc_step (p p1 : S) (a : Z) :
  ps_ok p -> ps_alloc p 1 1 = (p1, Ok a) ->
  mem_step (fun x => a + HIGH_VMA <= x < a + HIGH_VMA + PAGE_SIZE) p p1 /\ ps_ok p1 /\ 0 <= a /\ a mod PAGE_SIZE = 0 /\
  ~ ps_used p a /\ ps_used p1 a /\
  (forall x, a + HIGH_VMA <= x < a + HIGH_VMA + PAGE_SIZE -> (x - HIGH_VMA) mod 8 = 0 -> word p1 x = 0).
Proof.
  intros Hp Ha. pose proof (ps_alloc_ok p 1 0 p1 a Hp ltac:(lia) ltac:(lia) Ha) as (H1 & H2 & H3 & H4 & H5 & H6 & H7 & H8).
  assert (Hfr : in_frames a 1 a) by (exists 0; lia). change (2 ^ 0 * PAGE_SIZE) with PAGE_SIZE in H4.
  split_and!; try done.
  - split; [done|intros x Hx; apply H6; by right|]. intros x Hx. unfold word. apply H8. lia.
  - by apply H5.
  - apply H6. by left.
  - intros x Hx Hm. unfold word. apply H7; [lia|done].
Qed.

Lemma slab_create_small_spec (s : kst) (c : nat) (cp : kmem_cache) (p1 : S) (a : Z) :
  caches s !! c = Some cp -> small_ok cp -> ps_ok (kpages s) -> ps_alloc (kpages s) 1 1 = (p1, Ok a) ->
  let slab := a + HIGH_VMA + PAGE_SIZE - sizeof_kmem_slab in
  exists p free, slab_create_small HIGH_VMA c s =
      (set_kpages (set_caches s (<[c := set_color cp (next_color cp)]> (caches s))) p, Ok slab) /\
    free <> [] /\ slab_ok cp p slab free [] /\ ~ ps_used (kpages s) (page_of slab - HIGH_VMA) /\
    mem_step (fun x => page_of slab <= x < page_of slab + PAGE_SIZE) (kpages s) p.
Proof.
  intros Hg Hs Hp Ha slab. destruct (page_alloc_step _ _ _ Hp Ha) as (Hm & Hp1 & Ha0 & Hal & Hnu & Hu & Hz).
  assert (Hpg : page_of slab = a + HIGH_VMA) by (subst slab; unfold page_of; lia).
  destruct (next_color_ok cp Hs) as [Hcol Hcm]. set (col := next_color cp) in *.
  set (cp1 := set_color cp col). set (s1 := set_caches s (<[c := cp1]> (caches s))).
  set (s2 := set_kpages s1 p1).
  destruct (store_eq (slab_buflist slab) 0 s2) as (p2 & E2 & M2 & W2 & _). cbn in M2.
  destruct (capacity_bounds cp col Hs Hcol) as [Hcap Hfit].
  set (bs := bufctls cp (a + HIGH_VMA + col) 0 (Z.to_nat (capacity cp col))).
  assert (Hbs : forall b, b ∈ bs -> a + HIGH_VMA <= b /\ b + 8 <= a + HIGH_VMA + PAGE_SIZE - sizeof_kmem_slab).
  { intros b Hb. apply bufctls_in_page in Hb; [lia|done|done]. }
  destruct (link_small_spec cp1 slab (a + HIGH_VMA + col) 0 (Z.to_nat (capacity cp col)) [] (set_kpages s2 p2))
    as (p3 & E3 & M3 & Hch).
  { apply Hs. }
  { exact W2. }
  { cbn. pose proof (so_chunk _ Hs). lia. }
  { intros b Hb. apply Hbs in Hb. subst slab. unfold slab_buflist, sizeof_kmem_slab, PAGE_SIZE in *.
    split_and!; [lia|lia|set_solver]. }
  { set_solver. }
  change (bufctls cp1) with (bufctls cp) in *. fold bs in M3, Hch. cbn in M3.
  assert (Hw : word p3 (slab_refcount slab) = 0).
  { rewrite (ms_word _ _ _ M3), (ms_word _ _ _ M2).
    - apply Hz; subst slab; unfold slab_refcount, sizeof_kmem_slab, PAGE_SIZE in *; [lia|].
      replace (a + HIGH_VMA + 4096 - 32 + 16 - HIGH_VMA) with (a + 510 * 8) by lia. rewrite Z.mod_add by lia.
      rewrite (Z.div_mod a 4096) by lia. rewrite Hal, Z.add_0_r. replace (4096 * (a / 4096)) with (a / 4096 * 512 * 8) by lia.
      apply Z.mod_mul. lia.
    - subst slab. unfold slab_refcount, slab_buflist. lia.
    - intros [H|H%Hbs]; subst slab; unfold slab_refcount, slab_buflist, sizeof_kmem_slab, PAGE_SIZE in *; lia. }
  exists p3, (reverse bs ++ []). split_and!.
  - unfold slab_create_small. rewrite (bind_ok (get_cache c) _ s s cp) by (unfold get_cache; by rewrite Hg).
    rewrite (bind_ok (alloc_pages HIGH_VMA 1) _ s (set_kpages s p1) (a + HIGH_VMA)) by (unfold alloc_pages; by rewrite Ha).
    cbv zeta. etrans; [apply (bind_ok (put_cache c cp1) _ _ s2 tt); done|].
    etrans; [apply (bind_ok _ _ _ _ _ E2)|]. etrans; [apply (bind_ok _ _ _ _ _ E3)|]. done.
  - rewrite app_nil_r. intros H%(f_equal reverse). rewrite reverse_involutive in H. subst bs.
    apply (f_equal length) in H. unfold bufctls in H. rewrite length_fmap, length_seqZ in H. cbn in H. lia.
  - split.
    + rewrite Hpg. replace (a + HIGH_VMA - HIGH_VMA) with a by lia. done.
    + rewrite Hpg. replace (a + HIGH_VMA - HIGH_VMA) with a by lia. apply (ms_used _ _ _ M3), (ms_used _ _ _ M2). done.
    + exists col. split_and!; [lia|lia|done|]. rewrite Hpg, !app_nil_r. apply reverse_Permutation.
    + done.
    + done.
  - rewrite Hpg. by replace (a + HIGH_VMA - HIGH_VMA) with a by lia.
  - rewrite Hpg. eapply mem_step_trans; [exact Hm|]. eapply mem_step_trans; (eapply mem_step_weaken; [|done]).
    + intros x ->. subst slab. unfold slab_buflist, sizeof_kmem_slab, PAGE_SIZE. lia.
    + intros x [->|H%Hbs]; subst slab; unfold slab_buflist, sizeof_kmem_slab, PAGE_SIZE in *; lia.
Qed.

Lemma new_slab_cache_ok (s : kst) (c : nat) (cp : kmem_cache) (out : gset Z) (p : S) (slab : Z) (free : list Z) :
  cache_ok s c cp out -> slabs cp = [] -> free <> [] -> slab_ok cp p slab free [] ->
  ~ ps_used (kpages s) (page_of slab - HIGH_VMA) ->
  mem_step (fun x => page_of slab <= x < page_of slab + PAGE_SIZE) (kpages s) p ->
  let cp' := set_slabs (set_color cp (next_color cp)) (full_slabs cp) [slab] in
  cache_ok (set_kpages (set_caches s (<[c := cp']> (caches s))) p) c cp' out.
Proof.
  intros [Hg Hs Hp Hnd (fr & ou & Hsl & Hfr & Hfu & Hout)] He Hf Hk Hnu Hm cp'. rewrite He in *. cbn in Hnd, Hsl, Hout.
  assert (Hni : slab ∉ full_slabs cp).
  { intros Hin. apply Hnu. exact (sk_used _ _ _ _ _ (Hsl slab Hin)). }
  apply (cache_ok_change s _ c cp cp' fr ou slab free [] (fun x => page_of slab <= x < page_of slab + PAGE_SIZE)); try done; cbn.
  - apply list_lookup_insert_eq. by eapply lookup_lt_Some.
  - by apply small_ok_slabs, small_ok_color.
  - apply NoDup_cons. done.
  - intros y [->|Hy]%elem_of_cons Hne; [done|by apply Hsl].
  - intros y ->%list_elem_of_singleton. by left.
  - intros y Hy. right. split; [by intros ->|by apply Hfu].
  - intros b. rewrite Hout. split.
    + intros (y & Hy & Hb). exists y. split; [by right|]. right. split; [by intros ->|done].
    + intros (y & Hy & Hb). apply elem_of_cons in Hy. destruct Hb as [[_ Hb]|[Hne Hb]]; [by apply elem_of_nil in Hb|].
      destruct Hy as [?|Hy]; [done|by exists y].
Qed.

Lemma slab_layer_alloc_spec (alloc : nat -> M kst Z) (s : kst) (c : nat) (cp : kmem_cache) (out : gset Z) :
  cache_ok s c cp out -> slabs cp <> [] \/ ps_avail (kpages s) 1 ->
  exists s' cp' buf, slab_layer_alloc HIGH_VMA alloc c s = (s', Ok buf) /\
    buf ∉ out /\ cache_ok s' c cp' ({[buf]} ∪ out) /\ buffer_placed cp (kpages s') buf /\ mags cp' = mags cp.
Proof.
  intros Hc Hav. pose proof Hc as [Hg Hs Hp Hnd _]. unfold slab_layer_alloc.
  rewrite (bind_ok (get_cache c) _ s s cp) by (unfold get_cache; by rewrite Hg).
  destruct (slabs cp) as [|slab l] eqn:Esl.
  - destruct Hav as [?|Hav]; [done|]. destruct (ps_avail_alloc _ _ Hav) as (p1 & a & Ha & _).
    destruct (slab_create_small_spec s c cp p1 a Hg Hs Hp Ha) as (p & free & E & Hf & Hk & Hnu & Hm).
    set (slab := a + HIGH_VMA + PAGE_SIZE - sizeof_kmem_slab) in *.
    pose proof (new_slab_cache_ok s c cp out p slab free Hc Esl Hf Hk Hnu Hm) as Hc2. cbv zeta in Hc2.
    assert (Hlt : (c < length (caches s))%nat) by (by eapply lookup_lt_Some).
    destruct (take_buffer_spec _ _ _ _ slab Hc2) as (s' & cp' & buf & Et & Hn & Hc' & Hpl & Hmg); [left|].
    exists s', cp', buf. split_and!; [|done..]. etrans; [|exact Et].
    assert (Ec : slab_create HIGH_VMA alloc c s = (set_kpages (set_caches s (<[c := set_color cp (next_color cp)]> (caches s))) p, Ok slab)).
    { unfold slab_create. rewrite (bind_ok (get_cache c) _ s s cp) by (unfold get_cache; by rewrite Hg).
      pose proof (so_size _ Hs) as [_ Hz]. by rewrite (proj2 (Z.leb_le _ _) Hz). }
    rewrite (bind_ok _ _ _ _ _ Ec). erewrite (bind_ok (get_cache c)) by (unfold get_cache; cbn; by rewrite list_lookup_insert_eq).
    erewrite bind_ok by reflexivity. f_equal. unfold set_caches, set_kpages. cbn. rewrite list_insert_insert_eq. by rewrite Esl.
  - destruct (take_buffer_spec s c cp out slab Hc) as (s' & cp' & buf & Et & H); [rewrite Esl; left|].
    exists s', cp', buf. by split.
Qed.

(** ** Giving buffers back *)

Lemma chain_ext (p p' : S) (h : Z) (l : list Z) : (forall a, word p' a = word p a) -> chain p h l -> chain p' h l.
Proof. intros E. revert h. induction l as [|b l IH]; intros h; cbn; [done|]. rewrite E. naive_solver. Qed.

Lemma slab_ok_returned (cp : kmem_cache) (p p' : S) (slab : Z) (free outs : list Z) :
  ps_mem p' = ps_mem p -> ps_used p' (page_of slab - HIGH_VMA) -> slab_ok cp p slab free outs -> slab_ok cp p' slab free outs.
Proof.
  intros Hm Hu [H1 H2 H3 H4 H5]. assert (E : forall a, word p' a = word p a) by (intros a; unfold word; by rewrite Hm).
  split; try done; rewrite E; [by eapply chain_ext|done].
Qed.

(** The three stores of [give_buffer]. *)
Lemma give_stores (slab b head : Z) (s : kst) :
  b <> slab_buflist slab -> b <> slab_refcount slab ->
  exists p, mem_step (fun a => a = b \/ a = slab_buflist slab \/ a = slab_refcount slab) (kpages s) p /\
    word p b = head /\ word p (slab_buflist slab) = b /\
    word p (slab_refcount slab) = u64 (word (kpages s) (slab_refcount slab) - 1) /\
    (forall x n, valid (kpages s) x n -> valid p x n) /\
    forall (B : Type) (k : Z -> M kst B),
      (_ ← store HIGH_VMA (bufctl_next b) head;
       _ ← store HIGH_VMA (slab_buflist slab) b;
       r ← load HIGH_VMA (slab_refcount slab);
       _ ← store HIGH_VMA (slab_refcount slab) (u64 (r - 1)); k r) s =
      k (word (kpages s) (slab_refcount slab)) (set_kpages s p).
Proof.
  intros Hb1 Hb2. unfold bufctl_next.
  destruct (store_eq b head s) as (p1 & E1 & M1 & W1 & V1).
  destruct (store_eq (slab_buflist slab) b (set_kpages s p1)) as (p2 & E2 & M2 & W2 & V2).
  destruct (store_eq (slab_refcount slab) (u64 (word p2 (slab_refcount slab) - 1)) (set_kpages s p2)) as (p3 & E3 & M3 & W3 & V3).
  cbn in *. assert (Hne : slab_refcount slab <> slab_buflist slab) by (unfold slab_refcount, slab_buflist; lia).
  assert (Hr : word p2 (slab_refcount slab) = word (kpages s) (slab_refcount slab)).
  { rewrite (ms_word _ _ _ M2) by done. apply (ms_word _ _ _ M1). done. }
  exists p3. split_and!.
  - eapply mem_step_trans; [|eapply mem_step_trans]; (eapply mem_step_weaken; [|done]); intros a ->; auto.
  - rewrite (ms_word _ _ _ M3), (ms_word _ _ _ M2) by done. done.
  - rewrite (ms_word _ _ _ M3) by done. done.
  - by rewrite W3, Hr.
  - auto.
  - intros B k. unfold mbind, M_bind. rewrite E1, E2, load_eq. cbn [kpages set_kpages].
    change (set_kpages (set_kpages s p1) p2) with (set_kpages s p2). rewrite E3, Hr. done.
Qed.

Lemma page_addr (slab a : Z) :
  (page_of slab - HIGH_VMA) mod PAGE_SIZE = 0 -> page_of slab <= a < page_of slab + PAGE_SIZE ->
  a / PAGE_SIZE * PAGE_SIZE = page_of slab.
Proof.
  intros Hm Ha. destruct HV as [_ Hv]. apply Z.mod_divide in Hm, Hv; [|done..]. destruct Hm as [k Hk], Hv as [h Hh].
  assert (E : page_of slab = (k + h) * PAGE_SIZE) by lia. rewrite E in *. f_equal.
  symmetry. apply (Z.div_unique _ _ _ (a - (k + h) * PAGE_SIZE)); unfold PAGE_SIZE in *; lia.
Qed.

(** From [p] to [p'] memory stays and at most the page [pg] goes back. *)
Definition page_back (p p' : S) (pg : Z) : Prop :=
  (forall a, word p' a = word p a) /\ (forall x, ps_used p x -> ps_used p' x \/ x = pg).

(** Reclaiming a slab that has no buffer in use. *)
Lemma reclaim_spec (free : nat -> Z -> M kst unit) (s : kst) (c : nat) (cp : kmem_cache) (fr ou : Z -> list Z) (out : gset Z) (slab : Z) :
  caches s !! c = Some cp -> small_ok cp -> ps_ok (kpages s) -> NoDup (slabs cp ++ full_slabs cp) -> slab ∈ slabs cp ->
  (page_of slab - HIGH_VMA) mod PAGE_SIZE = 0 ->
  (forall y, y ∈ slabs cp ++ full_slabs cp -> y <> slab -> slab_ok cp (kpages s) y (fr y) (ou y)) ->
  (forall y, y ∈ slabs cp -> y <> slab -> fr y <> []) -> (forall y, y ∈ full_slabs cp -> fr y = []) ->
  (forall b, b ∈ out <-> exists y, y <> slab /\ y ∈ slabs cp ++ full_slabs cp /\ b + offset cp ∈ ou y) ->
  valid (kpages s) (page_of slab - HIGH_VMA) 1 ->
  exists s', (cp ← get_cache c;
              _ ← put_cache c (set_slabs cp (full_slabs cp) (filter (fun x => x <> slab) (slabs cp)));
              slab_destroy HIGH_VMA free c slab) s = (s', Ok tt) /\
    cache_ok s' c (set_slabs cp (full_slabs cp) (filter (fun x => x <> slab) (slabs cp))) out /\
    page_back (kpages s) (kpages s') (page_of slab - HIGH_VMA).
Proof.
  intros Hg Hs Hp Hnd Hin Hal Hsl Hfr Hfu Hout Hv. destruct (pr_free_ok _ _ _ Hp Hv) as (p & Ef & Hp' & Hmem & Hu).
  set (cp' := set_slabs cp (full_slabs cp) (filter (fun x => x <> slab) (slabs cp))).
  assert (Hlt : (c < length (caches s))%nat) by (by eapply lookup_lt_Some).
  destruct (slabs_head_split cp slab Hnd Hin) as (Hnf & _ & _). apply NoDup_app in Hnd as (N1 & N2 & N3).
  exists (set_kpages (set_caches s (<[c := cp']> (caches s))) p). split_and!.
  - rewrite (bind_ok (get_cache c) _ s s cp) by (unfold get_cache; by rewrite Hg). erewrite bind_ok by reflexivity.
    unfold slab_destroy. erewrite (bind_ok (get_cache c)) by (unfold get_cache; cbn; by rewrite list_lookup_insert_eq).
    fold cp'. change (object_size cp') with (object_size cp). change (slab_size cp') with (slab_size cp).
    rewrite (small_not_large cp Hs), (so_slab _ Hs). unfold free_pages. cbn [kpages set_caches].
    rewrite (page_addr slab slab), Z.div_same by (unfold page_of, sizeof_kmem_slab, PAGE_SIZE in *; lia || done).
    by rewrite Ef.
  - assert (Hmem' : forall y, y ∈ slabs cp' ++ full_slabs cp' <-> y <> slab /\ y ∈ slabs cp ++ full_slabs cp).
    { intros y. cbn. rewrite !elem_of_app, list_elem_of_filter. naive_solver. }
    split; [cbn; by rewrite list_lookup_insert_eq|by apply small_ok_slabs|done| |].
    + cbn. apply NoDup_app. split_and!; [by apply NoDup_filter| |done]. intros y Hy. apply N2.
      by apply list_elem_of_filter in Hy as [_ Hy].
    + exists fr, ou. split_and!.
      * intros y Hy. apply Hmem' in Hy as [Hne Hy]. pose proof (Hsl y Hy Hne) as Hk.
        cut (slab_ok cp p y (fr y) (ou y)); [by intros []|]. apply (slab_ok_returned cp (kpages s)); [done| |done].
        apply Hu. split; [apply Hk|]. intros (j & Hj & Ej). assert (j = 0) as -> by lia.
        apply Hne. unfold page_of in Ej. lia.
      * intros y [Hne Hy]%list_elem_of_filter. by apply Hfr.
      * intros y Hy. by apply Hfu.
      * intros b. rewrite Hout. apply exist_proper. intros y. rewrite Hmem'. cbn. tauto.
  - split; cbn; [intros a; unfold word; by rewrite Hmem|]. intros x Hx.
    destruct (decide (x = page_of slab - HIGH_VMA)) as [|Hne]; [by right|left]. apply Hu. split; [done|].
    intros (j & Hj & ->). apply Hne. assert (j = 0) as -> by lia. lia.
Qed.

(** Where slab [x] is queued once it has a free buffer again. *)
Lemma requeue_lists (cp : kmem_cache) (x : Z) (f : list Z) (head : Z) :
  NoDup (slabs cp ++ full_slabs cp) -> x ∈ slabs cp ++ full_slabs cp -> (head = 0 <-> f = []) ->
  (x ∈ slabs cp -> f <> []) -> (x ∈ full_slabs cp -> f = []) ->
  let full' := if head =? 0 then filter (fun y => y <> x) (full_slabs cp) else full_slabs cp in
  let part' := if head =? 0 then x :: slabs cp else slabs cp in
  NoDup (part' ++ full') /\ x ∈ part' /\ x ∉ full' /\
  (forall y, y <> x -> (y ∈ part' <-> y ∈ slabs cp) /\ (y ∈ full' <-> y ∈ full_slabs cp)).
Proof.
  intros Hnd Hx Hh H1 H2. apply elem_of_app in Hx. destruct (head =? 0) eqn:E; zify_bools; cbv zeta.
  - apply Hh in E. assert (Hns : x ∉ slabs cp) by (intros ?; by apply H1). apply NoDup_app in Hnd as (N1 & N2 & N3). split_and!.
    + cbn. apply NoDup_cons. split.
      * rewrite elem_of_app, list_elem_of_filter. tauto.
      * apply NoDup_app. split_and!; [done| |by apply NoDup_filter]. intros y Hy. rewrite list_elem_of_filter.
        specialize (N2 y Hy). tauto.
    + left.
    + rewrite list_elem_of_filter. tauto.
    + intros y Hne. rewrite elem_of_cons, list_elem_of_filter. tauto.
  - assert (f <> []) by tauto. split_and!; [done|tauto|tauto|done].
Qed.

Lemma out_without (cp : kmem_cache) (s : kst) (fr ou : Z -> list Z) (out : gset Z) (buf x : Z) (outs' : list Z) :
  small_ok cp -> (forall slab, slab ∈ slabs cp ++ full_slabs cp -> slab_ok cp (kpages s) slab (fr slab) (ou slab)) ->
  (forall b, b ∈ out <-> exists slab, slab ∈ slabs cp ++ full_slabs cp /\ b + offset cp ∈ ou slab) ->
  x ∈ slabs cp ++ full_slabs cp -> ou x ≡ₚ (buf + offset cp) :: outs' ->
  forall y, y ∈ out ∖ {[buf]} <-> y + offset cp ∈ outs' \/
    exists z, z <> x /\ z ∈ slabs cp ++ full_slabs cp /\ y + offset cp ∈ ou z.
Proof.
  intros Hs Hsl Hout Hx Hperm y. rewrite elem_of_difference, elem_of_singleton, Hout.
  assert (Hnd : NoDup (ou x)).
  { destruct (sk_bufs _ _ _ _ _ (Hsl x Hx)) as (col & _ & _ & Hp). pose proof (so_chunk _ Hs).
    pose proof (bufctls_nodup cp (page_of x + col) 0 (Z.to_nat (capacity cp col)) ltac:(lia)) as Hn.
    rewrite <- Hp in Hn. by apply NoDup_app in Hn as (_ & _ & Hn). }
  rewrite Hperm in Hnd. apply NoDup_cons in Hnd as [Hni _]. split.
  - intros [(z & Hz & Hb) Hne]. destruct (decide (z = x)) as [->|]; [left|right; naive_solver].
    rewrite Hperm in Hb. apply elem_of_cons in Hb as [?|?]; [lia|done].
  - intros [Hb|(z & Hne & Hz & Hb)].
    + split; [exists x; split; [done|]; rewrite Hperm; by right|]. intros ->. done.
    + split; [by exists z|]. intros ->.
      assert (Hbx : buf + offset cp ∈ ou x) by (rewrite Hperm; left).
      eapply (pages_apart x z (buf + offset cp)); [done|apply (Hsl x Hx)|apply (Hsl z Hz)| |];
        (eapply out_pages; [done|by apply Hsl|apply elem_of_app; by right]).
Qed.

(** A slab whose last buffer came back is given to the page allocator. *)
Lemma reclaim_moved (free : nat -> Z -> M kst unit) (s s' : kst) (c : nat) (cp : kmem_cache) (full part : list Z) (fr ou : Z -> list Z)
    (x : Z) (fr' : list Z) (P : Z -> Prop) (out' : gset Z) :
  caches s' !! c = Some (set_slabs cp full part) -> small_ok cp -> ps_ok (kpages s) -> NoDup (part ++ full) ->
  (forall slab, slab ∈ slabs cp ++ full_slabs cp -> slab_ok cp (kpages s) slab (fr slab) (ou slab)) ->
  (forall slab, slab ∈ slabs cp -> fr slab <> []) -> (forall slab, slab ∈ full_slabs cp -> fr slab = []) ->
  (forall y, y <> x -> (y ∈ part <-> y ∈ slabs cp) /\ (y ∈ full <-> y ∈ full_slabs cp)) -> x ∈ part -> x ∉ full ->
  mem_step P (kpages s) (kpages s') -> (forall a, P a -> page_of x <= a < page_of x + PAGE_SIZE) ->
  slab_ok cp (kpages s') x fr' [] ->
  (forall b, b ∈ out' <-> b + offset cp ∈ @nil Z \/ exists y, y <> x /\ y ∈ slabs cp ++ full_slabs cp /\ b + offset cp ∈ ou y) ->
  valid (kpages s') (page_of x - HIGH_VMA) 1 ->
  exists s2 cp2, (cp ← get_cache c;
              _ ← put_cache c (set_slabs cp (full_slabs cp) (filter (fun y => y <> x) (slabs cp)));
              slab_destroy HIGH_VMA free c x) s' = (s2, Ok tt) /\ cache_ok s2 c cp2 out' /\
    page_back (kpages s') (kpages s2) (page_of x - HIGH_VMA) /\ mags cp2 = mags cp.
Proof.
  intros Hg Hs Hp Hnd Hsl Hfr Hfu Hmv Hxp Hxf Hm HP Hk' Hout Hv.
  assert (Hold : forall y, y <> x -> y ∈ part ++ full <-> y ∈ slabs cp ++ full_slabs cp).
  { intros y Hne. destruct (Hmv y Hne). rewrite !elem_of_app. tauto. }
  destruct (reclaim_spec free s' c (set_slabs cp full part) fr ou out' x) as (s2 & E & Hc' & Hb); try done.
  - by apply small_ok_slabs.
  - by apply (ms_ok _ _ _ Hm).
  - apply Hk'.
  - intros y Hy Hne. cbn in *. cut (slab_ok cp (kpages s') y (fr y) (ou y)); [by intros []|].
    apply Hold in Hy; [|done]. eapply slab_ok_frame; [done|exact Hm| |by apply Hsl].
    intros a Ha. apply (pages_apart x); [done|apply Hk'|apply (Hsl y Hy)|by apply HP].
  - intros y Hy Hne. apply Hfr. by apply Hmv.
  - intros y Hy. apply Hfu. apply Hmv; [|done]. intros ->. done.
  - intros y. rewrite Hout, elem_of_nil. cbn. split.
    + intros [[]|(z & Hne & Hz & Hb')]. exists z. rewrite Hold; done.
    + intros (z & Hne & Hz & Hb'). right. exists z. rewrite <- Hold; done.
  - exists s2. eexists. split_and!; [exact E|exact Hc'|exact Hb|done].
Qed.

(** [give_buffer] up to the test of the count: the slab goes back to the
    partial list if it was full, and the three words are written. *)
Lemma give_exec (free : nat -> Z -> M kst unit) (s : kst) (c : nat) (cp : kmem_cache) (b x : Z) :
  let head := word (kpages s) (slab_buflist x) in
  let full' := if head =? 0 then filter (fun y => y <> x) (full_slabs cp) else full_slabs cp in
  let part' := if head =? 0 then x :: slabs cp else slabs cp in
  caches s !! c = Some cp -> b <> slab_buflist x -> b <> slab_refcount x ->
  exists s1, mem_step (fun a => a = b \/ a = slab_buflist x \/ a = slab_refcount x) (kpages s) (kpages s1) /\
    caches s1 !! c = Some (set_slabs cp full' part') /\
    word (kpages s1) b = head /\ word (kpages s1) (slab_buflist x) = b /\
    word (kpages s1) (slab_refcount x) = u64 (word (kpages s) (slab_refcount x) - 1) /\
    (forall y n, valid (kpages s) y n -> valid (kpages s1) y n) /\
    give_buffer HIGH_VMA free c b x s =
      (if u64 (word (kpages s) (slab_refcount x) - 1) =? 0 then
         cp ← get_cache c;
         _ ← put_cache c (set_slabs cp (full_slabs cp) (filter (fun y => y <> x) (slabs cp)));
         slab_destroy HIGH_VMA free c x
       else mret tt) s1.
Proof.
  intros head full' part' Hg Hb1 Hb2.
  set (s1 := if head =? 0 then set_caches s (<[c := set_slabs cp full' part']> (caches s)) else s).
  assert (Hk1 : kpages s1 = kpages s) by (subst s1; by destruct (_ =? _)).
  assert (Hg1 : caches s1 !! c = Some (set_slabs cp full' part')).
  { subst s1 full' part'. destruct (_ =? _); cbn; [|by rewrite set_slabs_id].
    apply list_lookup_insert_eq. by eapply lookup_lt_Some. }
  destruct (give_stores x b head s1 Hb1 Hb2) as (p & Hm & W1 & W2 & W3 & V & Hrun). rewrite Hk1 in *.
  exists (set_kpages s1 p). split_and!; try done.
  unfold give_buffer. rewrite (bind_ok (get_cache c) _ s s cp) by (unfold get_cache; by rewrite Hg).
  rewrite (bind_ok _ _ _ _ _ (load_eq _ _)). fold head. rewrite (bind_ok _ _ s s1 tt).
  - apply (Hrun _ (fun r => if u64 (r - 1) =? 0 then _ else _)).
  - subst s1 full' part'. by destruct (head =? 0).
Qed.

Lemma give_buffer_spec (free : nat -> Z -> M kst unit) (s : kst) (c : nat) (cp : kmem_cache) (out : gset Z) (buf : Z) :
  cache_ok s c cp out -> buf ∈ out -> valid (kpages s) (buf / PAGE_SIZE * PAGE_SIZE - HIGH_VMA) 1 ->
  let slab := buf / PAGE_SIZE * PAGE_SIZE + PAGE_SIZE - sizeof_kmem_slab in
  exists s' cp' p, give_buffer HIGH_VMA free c (buf + offset cp) slab s = (s', Ok tt) /\ cache_ok s' c cp' (out ∖ {[buf]}) /\
    mem_step (fun a => a = buf + offset cp \/ a = slab_buflist slab \/ a = slab_refcount slab) (kpages s) p /\
    mags cp' = mags cp /\
    (kpages s' = p \/ page_back p (kpages s') (page_of slab - HIGH_VMA) /\
                      forall b, b ∈ out -> b <> buf -> b / PAGE_SIZE * PAGE_SIZE <> page_of slab).
Proof.
  intros [Hg Hs Hp Hnd (fr & ou & Hsl & Hfr & Hfu & Hout)] Hbuf Hv slab.
  destruct (proj1 (Hout buf) Hbuf) as (x & Hx & Hb). pose proof (Hsl x Hx) as Hk.
  set (b := buf + offset cp) in *.
  assert (Hin : b ∈ fr x ++ ou x) by (apply elem_of_app; by right).
  pose proof (slab_ok_elem _ _ _ _ _ _ Hs Hk Hin) as Hbb. pose proof (so_offset _ Hs) as Ho. pose proof (so_chunk _ Hs) as Hch.
  assert (Hpg : buf / PAGE_SIZE * PAGE_SIZE = page_of x).
  { apply page_addr; [apply Hk|]. subst b. unfold sizeof_kmem_slab, PAGE_SIZE in *. lia. }
  assert (slab = x) as -> by (subst slab; rewrite Hpg; unfold page_of; lia). rewrite Hpg in Hv. clear Hpg.
  assert (Hb0 : b <> 0) by (pose proof (sk_page _ _ _ _ _ Hk); destruct HV; lia).
  destruct (proj1 (elem_of_Permutation _ _) Hb) as [outs' Hperm].
  destruct (give_exec free s c cp b x Hg) as (s1 & Hm & Hg1 & W1 & W2 & W3 & V & Hexec);
    [unfold slab_buflist, slab_refcount, page_of, sizeof_kmem_slab, PAGE_SIZE in *; lia..|].
  set (head := word (kpages s) (slab_buflist x)) in *.
  assert (Hhead : head = 0 <-> fr x = []).
  { pose proof (sk_chain _ _ _ _ _ Hk) as Hc. fold head in Hc. destruct (fr x); cbn in Hc; naive_solver. }
  destruct (requeue_lists cp x (fr x) head Hnd Hx Hhead (Hfr x) (Hfu x)) as (Hnd' & Hxp & Hxf & Hmv).
  assert (Hk' : slab_ok cp (kpages s1) x (b :: fr x) outs') by (by eapply slab_give).
  assert (Hcnt : u64 (word (kpages s) (slab_refcount x) - 1) = Z.of_nat (length outs')).
  { rewrite <- W3. exact (sk_count _ _ _ _ _ Hk'). }
  assert (HP : forall a, a = b \/ a = slab_buflist x \/ a = slab_refcount x -> page_of x <= a < page_of x + PAGE_SIZE).
  { intros a [->|Ha]; [eapply out_pages; [exact Hs|exact Hk|exact Hin]|by apply header_in_page]. }
  pose proof (out_without cp s fr ou out buf x outs' Hs Hsl Hout Hx Hperm) as Hout'.
  rewrite Hexec, Hcnt. destruct outs' as [|o outs'].
  - destruct (reclaim_moved free s s1 c cp _ _ fr ou x (b :: fr x) _ (out ∖ {[buf]}) Hg1 Hs Hp Hnd' Hsl Hfr Hfu Hmv Hxp Hxf Hm HP Hk' Hout' (V _ _ Hv))
      as (s2 & cp2 & E2 & Hc2 & Hback & Hmg). exists s2, cp2, (kpages s1). split_and!; [done..|]. right. split; [done|].
    intros z Hz Hne Hzp. assert (Hz' : z ∈ out ∖ {[buf]}) by set_solver.
    apply Hout' in Hz' as [Hz'%elem_of_nil|(y & Hy & Hyin & Hzy)]; [done|].
    rewrite (page_addr y z) in Hzp; [unfold page_of in Hzp; lia|apply (Hsl y Hyin)|].
    pose proof (slab_ok_elem _ _ _ _ _ _ Hs (Hsl y Hyin) (proj2 (elem_of_app _ _ _) (or_intror Hzy))).
    unfold sizeof_kmem_slab, PAGE_SIZE in *. lia.
  - rewrite (proj2 (Z.eqb_neq _ _)) by (cbn; lia). eexists s1, (set_slabs cp _ _), (kpages s1).
    split; [done|]. split; [|split; [exact Hm|split; [done|by left]]].
    eapply cache_ok_move; [exact Hg1|exact Hs|exact Hp|done|exact Hsl|done..| |exact Hm|exact HP|exact Hk'|done|done|exact Hout'].
    rewrite elem_of_app. by left.
Qed.

(** ** What the invariant says about the buffers in use *)

Lemma out_disjoint (s : kst) (c : nat) (cp : kmem_cache) (out : gset Z) (b1 b2 : Z) :
  cache_ok s c cp out -> b1 ∈ out -> b2 ∈ out -> b1 <> b2 ->
  b1 + chunk_size cp <= b2 \/ b2 + chunk_size cp <= b1.
Proof.
  intros [Hg Hs Hp Hnd (fr & ou & Hsl & Hfr & Hfu & Hout)] H1 H2 Hne.
  apply Hout in H1 as (x & Hx & H1). apply Hout in H2 as (y & Hy & H2). pose proof (so_chunk _ Hs) as Hch.
  pose proof (slab_ok_elem _ _ _ _ _ (b1 + offset cp) Hs (Hsl x Hx) ltac:(apply elem_of_app; by right)) as B1.
  pose proof (slab_ok_elem _ _ _ _ _ (b2 + offset cp) Hs (Hsl y Hy) ltac:(apply elem_of_app; by right)) as B2.
  destruct (decide (x = y)) as [->|Hxy].
  - destruct (sk_bufs _ _ _ _ _ (Hsl y Hy)) as (col & _ & _ & Hperm).
    assert (Hin : forall b, b ∈ ou y -> exists j, b = page_of y + col + j * chunk_size cp + offset cp).
    { intros b Hb. assert (Hb' : b ∈ fr y ++ ou y) by (apply elem_of_app; by right). rewrite Hperm in Hb'.
      apply bufctls_elem in Hb' as (j & _ & ->). by exists j. }
    destruct (Hin _ H1) as [i Ei], (Hin _ H2) as [j Ej]. assert (i <> j) by (intros ->; lia). nia.
  - assert (Hap : forall a, page_of x <= a < page_of x + PAGE_SIZE -> ~ (page_of y <= a < page_of y + PAGE_SIZE)).
    { intros a. apply pages_apart; [done|apply (Hsl x Hx)|apply (Hsl y Hy)]. }
    pose proof (Hap (page_of x)). pose proof (Hap (page_of y)). unfold sizeof_kmem_slab, PAGE_SIZE in *. lia.
Qed.

(** A client may write anywhere in a buffer it holds. *)
Lemma client_write_ok (s : kst) (c : nat) (cp : kmem_cache) (out : gset Z) (buf a v : Z) :
  cache_ok s c cp out -> buf ∈ out -> buf <= a -> a + 8 <= buf + chunk_size cp -> (a - HIGH_VMA) mod 8 = 0 ->
  cache_ok (fst (store HIGH_VMA a v s)) c cp out.
Proof.
  intros [Hg Hs Hp Hnd (fr & ou & Hsl & Hfr & Hfu & Hout)] Hbuf Ha1 Ha2 Ha3.
  destruct (store_eq a v s) as (p & -> & Hm & _). cbn [fst].
  destruct (proj1 (Hout buf) Hbuf) as (x & Hx & Hb). pose proof (Hsl x Hx) as Hk. pose proof (so_offset _ Hs) as Ho.
  pose proof (slab_ok_elem _ _ _ _ _ (buf + offset cp) Hs Hk ltac:(apply elem_of_app; by right)) as B1.
  split; try done; [by apply (ms_ok _ _ _ Hm)|]. exists fr, ou. split_and!; try done. intros y Hy.
  destruct (decide (x = y)) as [<-|Hne].
  - assert (Hfra : forall b, b ∈ fr x -> b <> a).
    { intros b Hb' ->. destruct (sk_bufs _ _ _ _ _ Hk) as (col & _ & _ & Hperm).
      assert (Hina : a ∈ fr x ++ ou x) by (apply elem_of_app; by left).
      assert (Hinb : buf + offset cp ∈ fr x ++ ou x) by (apply elem_of_app; by right).
      pose proof (bufctls_nodup cp (page_of x + col) 0 (Z.to_nat (capacity cp col)) ltac:(pose proof (so_chunk _ Hs); lia)) as Hn.
      rewrite Hperm in Hina, Hinb. rewrite <- Hperm in Hn. apply NoDup_app in Hn as (_ & Hn & _). specialize (Hn a Hb').
      apply bufctls_elem in Hina as (i & _ & Ei). apply bufctls_elem in Hinb as (j & _ & Ej).
      pose proof (so_chunk _ Hs). assert (i = j) as -> by nia. apply Hn. by rewrite Ei, <- Ej. }
    destruct Hk as [K1 K2 K3 K4 K5].
    assert (Hnh : a <> slab_buflist x /\ a <> slab_refcount x)
      by (unfold slab_buflist, slab_refcount, page_of, sizeof_kmem_slab, PAGE_SIZE in *; lia).
    split; try done; [by apply (ms_used _ _ _ Hm)| |].
    + cbn. rewrite (ms_word _ _ _ Hm) by (destruct Hnh; congruence). eapply chain_frame; [exact Hm|exact Hfra|done].
    + cbn. by rewrite (ms_word _ _ _ Hm) by (destruct Hnh; congruence).
  - eapply slab_ok_frame; [done|exact Hm| |by apply Hsl]. intros ? ->.
    apply (pages_apart x); [done|apply Hk|apply (Hsl y Hy)|]. unfold sizeof_kmem_slab, PAGE_SIZE in *. lia.
Qed.

Lemma out_placed (s : kst) (c : nat) (cp : kmem_cache) (out : gset Z) (b : Z) :
  cache_ok s c cp out -> b ∈ out -> buffer_placed cp (kpages s) b.
Proof.
  intros [Hg Hs Hp Hnd (fr & ou & Hsl & Hfr & Hfu & Hout)] Hb. apply Hout in Hb as (x & Hx & Hb).
  replace b with (b + offset cp - offset cp) by lia. eapply slab_ok_placed; [done|by apply Hsl|]. apply elem_of_app. by right.
Qed.

(** The words of a buffer in use are none of those that giving another one
    back writes. *)
Lemma out_untouched (s : kst) (c : nat) (cp : kmem_cache) (out : gset Z) (buf b a : Z) :
  cache_ok s c cp out -> buf ∈ out -> b ∈ out -> b <> buf -> b <= a < b + chunk_size cp ->
  let slab := buf / PAGE_SIZE * PAGE_SIZE + PAGE_SIZE - sizeof_kmem_slab in
  ~ (a = buf + offset cp \/ a = slab_buflist slab \/ a = slab_refcount slab).
Proof.
  intros Hc Hbuf Hb Hne Ha slab. pose proof (out_disjoint _ _ _ _ _ _ Hc Hb Hbuf Hne) as Hd.
  destruct Hc as [Hg Hs Hp Hnd (fr & ou & Hsl & Hfr & Hfu & Hout)].
  apply Hout in Hbuf as (x & Hx & H1). apply Hout in Hb as (y & Hy & H2).
  pose proof (so_chunk _ Hs) as Hch. pose proof (so_offset _ Hs) as Ho.
  pose proof (slab_ok_elem _ _ _ _ _ _ Hs (Hsl x Hx) (proj2 (elem_of_app _ _ _) (or_intror H1))) as B1.
  pose proof (slab_ok_elem _ _ _ _ _ _ Hs (Hsl y Hy) (proj2 (elem_of_app _ _ _) (or_intror H2))) as B2.
  assert (Hpg : buf / PAGE_SIZE * PAGE_SIZE = page_of x).
  { apply page_addr; [apply (Hsl x Hx)|]. unfold sizeof_kmem_slab, PAGE_SIZE in *. lia. }
  assert (slab = x) as -> by (subst slab; rewrite Hpg; unfold page_of; lia).
  intros [->|Hh]; [lia|]. apply header_in_page in Hh as Hin.
  destruct (decide (x = y)) as [<-|Hxy].
  - unfold slab_buflist, slab_refcount, page_of, sizeof_kmem_slab, PAGE_SIZE in *. lia.
  - apply (pages_apart x y a Hxy); [apply (Hsl x Hx)|apply (Hsl y Hy)|done|]. unfold sizeof_kmem_slab, PAGE_SIZE in *. lia.
Qed.

(** The other buffers in use after [buf] was given back: in place, with the
    words they had. *)
Definition others_kept (s s' : kst (S := S)) (cp cp' : kmem_cache) (out : gset Z) (buf : Z) : Prop :=
  forall b, b ∈ out -> b <> buf -> buffer_placed cp' (kpages s') b /\
    forall a, b <= a < b + chunk_size cp -> word (kpages s') a = word (kpages s) a.

(** At most the page of [buf] was given back, and only when nothing else on
    it is in use. *)
Definition page_returned (s s' : kst (S := S)) (out : gset Z) (buf : Z) : Prop :=
  forall x, ps_used (kpages s) x -> ~ ps_used (kpages s') x ->
    x = buf / PAGE_SIZE * PAGE_SIZE - HIGH_VMA /\
    forall b, b ∈ out -> b <> buf -> b / PAGE_SIZE * PAGE_SIZE <> buf / PAGE_SIZE * PAGE_SIZE.

Lemma slab_free_effect (free : nat -> Z -> M kst unit) (s : kst) (c : nat) (cp : kmem_cache) (out : gset Z) (buf : Z) :
  cache_ok s c cp out -> buf ∈ out -> valid (kpages s) (buf / PAGE_SIZE * PAGE_SIZE - HIGH_VMA) 1 ->
  exists s' cp', slab_layer_free HIGH_VMA free c buf s = (s', Ok tt) /\ cache_ok s' c cp' (out ∖ {[buf]}) /\
    mags cp' = mags cp /\ others_kept s s' cp cp' out buf /\ page_returned s s' out buf.
Proof.
  intros Hc Hb Hv. destruct (give_buffer_spec free s c cp out buf Hc Hb Hv) as (s' & cp' & p & E & Hc' & Hm & Hmg & Hback).
  assert (Hpg : page_of (buf / PAGE_SIZE * PAGE_SIZE + PAGE_SIZE - sizeof_kmem_slab) = buf / PAGE_SIZE * PAGE_SIZE)
    by (unfold page_of; lia). rewrite Hpg in Hback.
  exists s', cp'. split_and!; [|done|done|intros b Hb1 Hb2; split; [|intros a Ha]|intros x Hx Hx'].
  - pose proof (co_get _ _ _ _ Hc) as Hg. pose proof (co_small _ _ _ _ Hc) as Hs.
    assert (Hget : get_cache c s = (s, Ok cp)) by (unfold get_cache; by rewrite Hg).
    unfold slab_layer_free. rewrite (bind_ok _ _ _ _ _ Hget). destruct (so_hooks _ Hs) as [_ Hd]. rewrite Hd. erewrite bind_ok by reflexivity.
    rewrite (bind_ok (find_bufctl HIGH_VMA c buf) _ s s
      (Some (buf + offset cp, buf / PAGE_SIZE * PAGE_SIZE + PAGE_SIZE - sizeof_kmem_slab))); [exact E|].
    unfold find_bufctl. rewrite (bind_ok _ _ _ _ _ Hget), (small_not_large cp Hs). done.
  - apply (out_placed s' c cp' _ b Hc'). set_solver.
  - pose proof (out_untouched s c cp out buf b a Hc Hb Hb1 Hb2 Ha) as Hn.
    destruct Hback as [->|[[Hw _] _]]; [|rewrite Hw]; by apply (ms_word _ _ _ Hm).
  - apply (ms_used _ _ _ Hm) in Hx. destruct Hback as [<-|[[_ Hu] Ho]]; [done|].
    destruct (Hu x Hx); [done|]. split; done.
Qed.

(** ** The magazine layer *)

Lemma get_cpu_eq (s : kst (S := S)) (c core_id : nat) (cp : kmem_cache) (x : kmem_cpu) :
  caches s !! c = Some cp -> cpu cp !! core_id = Some x -> get_cpu c core_id s = (s, Ok x).
Proof.
  intros Hg Hx. unfold get_cpu. rewrite (bind_ok (get_cache c) _ s s cp) by (unfold get_cache; by rewrite Hg).
  rewrite Hx. done.
Qed.

Lemma put_cpu_eq (s : kst (S := S)) (c core_id : nat) (cp : kmem_cache) (x : kmem_cpu) :
  caches s !! c = Some cp ->
  put_cpu c core_id x s = (set_caches s (<[c := set_cpus cp (<[core_id := x]> (cpu cp)) (magazines_enabled cp)]> (caches s)), Ok tt).
Proof.
  intros Hg. unfold put_cpu. rewrite (bind_ok (get_cache c) _ s s cp) by (unfold get_cache; by rewrite Hg). done.
Qed.

(** Where the magazine layer takes an object from: the loaded magazine, else
    the previous one, else the first full one of the depot. *)
Definition top_round (cp : kmem_cache) (x : kmem_cpu) : option Z :=
  if 0 <? rounds x then Some (mag_round (loaded x) (rounds x - 1))
  else if 0 <? rounds_previous x then Some (mag_round (previous x) (rounds_previous x - 1))
  else if full_magazines cp =? 0 then None
  else Some (mag_round (full_magazines cp) (s32 (magazine_size x) - 1)).

(** Where it puts one: the loaded magazine, else the previous one when that
    is empty, else the first empty one of the depot. *)
Definition free_round (cp : kmem_cache) (x : kmem_cpu) : option Z :=
  if u64 (rounds x) <? magazine_size x then Some (mag_round (loaded x) (rounds x))
  else if rounds_previous x =? 0 then Some (mag_round (previous x) 0)
  else if empty_magazines cp =? 0 then None
  else Some (mag_round (empty_magazines cp) 0).

Record cpu_sane (x : kmem_cpu) : Prop := {
  cs_size : 0 < magazine_size x < 2 ^ 31;
  cs_rounds : -1 <= rounds x <= magazine_size x;
  cs_previous : -1 <= rounds_previous x <= magazine_size x;
}.

(** An address outside of the cache's pages. *)
Definition outside (cp : kmem_cache) (a : Z) : Prop :=
  forall slab, slab ∈ slabs cp ++ full_slabs cp -> ~ (page_of slab <= a < page_of slab + PAGE_SIZE).

(** The cache [cp] with another magazine layer. *)
Definition with_mags (cp : kmem_cache) (l : list kmem_cpu) (e f : Z) : kmem_cache :=
  set_cpus (set_depot cp e f) l (magazines_enabled cp).

Lemma cache_ok_mags (P : Z -> Prop) (s s' : kst) (c : nat) (cp : kmem_cache) (out : gset Z) (l : list kmem_cpu) (e f : Z) (b : bool) :
  let cp' := set_cpus (set_depot cp e f) l b in
  cache_ok s c cp out -> caches s' !! c = Some cp' -> mem_step P (kpages s) (kpages s') ->
  (forall a, P a -> outside cp a) -> cache_ok s' c cp' out.
Proof.
  intros cp' [Hg Hs Hp Hnd (fr & ou & Hsl & H)] Hg' Hm HP. split; [done|by destruct Hs|by apply (ms_ok _ _ _ Hm)|done|].
  exists fr, ou. split; [|done]. intros slab Hin. cut (slab_ok cp (kpages s') slab (fr slab) (ou slab)); [by intros []|].
  eapply slab_ok_frame; [done|exact Hm| |by apply Hsl]. intros a Ha. by apply (HP a Ha).
Qed.

(** What the magazine layer does in a call: only the processor's record and
    the depot change, and memory only in [P]. *)
Definition mag_step (P : Z -> Prop) (s s' : kst (S := S)) (c core_id : nat) (cp : kmem_cache) (x' : kmem_cpu) : Prop :=
  mem_step P (kpages s) (kpages s') /\ exists e f, caches s' !! c = Some (with_mags cp (<[core_id := x']> (cpu cp)) e f).

Lemma put_cpu_step (s : kst (S := S)) (c core_id : nat) (cp cp0 : kmem_cache) (x x0 : kmem_cpu) (e f : Z) :
  caches s !! c = Some cp -> cp = with_mags cp0 (<[core_id := x0]> (cpu cp0)) e f ->
  exists s', put_cpu c core_id x s = (s', Ok tt) /\ kpages s' = kpages s /\
    caches s' !! c = Some (with_mags cp0 (<[core_id := x]> (cpu cp0)) e f).
Proof.
  intros Hg ->. eexists. split; [by apply put_cpu_eq|]. split; [done|]. cbn.
  rewrite list_lookup_insert_eq by (by eapply lookup_lt_Some). rewrite list_insert_insert_eq. done.
Qed.

(** A cache is itself with its own magazine layer. *)
Lemma with_own_mags (cp : kmem_cache) (core_id : nat) (x : kmem_cpu) :
  cpu cp !! core_id = Some x -> cp = with_mags cp (<[core_id := x]> (cpu cp)) (empty_magazines cp) (full_magazines cp).
Proof. intros Hx. rewrite list_insert_id by done. by destruct cp. Qed.

(** Taking a magazine from one list of the depot and putting the previous
    one, if there is one, on the other. *)
Lemma depot_swap (s : kst) (c core_id : nat) (cp : kmem_cache) (x : kmem_cpu) (d d' : depot) :
  caches s !! c = Some cp -> cpu cp !! core_id = Some x -> depot_head cp d <> 0 ->
  exists s1 s2 e f, alloc_from_depot HIGH_VMA c d s = (s1, Ok (depot_head cp d)) /\
    (if previous x =? 0 then mret tt else free_to_depot HIGH_VMA c (previous x) d') s1 = (s2, Ok tt) /\
    mem_step (fun q => q = mag_next (previous x)) (kpages s) (kpages s2) /\
    caches s2 !! c = Some (with_mags cp (<[core_id := x]> (cpu cp)) e f).
Proof.
  intros Hg Hx Hd. assert (Hlt : (c < length (caches s))%nat) by (by eapply lookup_lt_Some).
  assert (Hid : forall e f, set_depot cp e f = with_mags cp (<[core_id := x]> (cpu cp)) e f)
    by (intros; rewrite list_insert_id by done; by destruct cp).
  set (cp1 := set_depot_head cp d (word (kpages s) (mag_next (depot_head cp d)))).
  set (s1 := set_caches s (<[c := cp1]> (caches s))).
  assert (Hg1 : caches s1 !! c = Some cp1) by (cbn; by rewrite list_lookup_insert_eq).
  assert (E1 : alloc_from_depot HIGH_VMA c d s = (s1, Ok (depot_head cp d))).
  { unfold alloc_from_depot. rewrite (bind_ok (get_cache c) _ s s cp) by (unfold get_cache; by rewrite Hg).
    rewrite (proj2 (Z.eqb_neq _ _) Hd). rewrite (bind_ok _ _ _ _ _ (load_eq _ s)). done. }
  destruct (previous x =? 0).
  - exists s1, s1. assert (H : exists e f, cp1 = set_depot cp e f) by (unfold cp1; destruct d; cbn [set_depot_head]; eauto).
    destruct H as (e & f & Ec). exists e, f. split_and!; [done..|apply mem_step_refl|]. by rewrite <- Hid, <- Ec.
  - destruct (store_eq (mag_next (previous x)) (depot_head cp1 d') s1) as (p & E & Hm & _).
    exists s1, (set_caches (set_kpages s1 p) (<[c := set_depot_head cp1 d' (previous x)]> (caches s1))).
    assert (H : exists e f, set_depot_head cp1 d' (previous x) = set_depot cp e f)
      by (unfold cp1; destruct d, d'; cbn [set_depot_head]; unfold set_depot; cbn; eauto).
    destruct H as (e & f & Ec). exists e, f. split_and!; [done| |exact Hm|].
    + unfold free_to_depot. rewrite (bind_ok (get_cache c) _ s1 s1 cp1) by (unfold get_cache; by rewrite Hg1).
      rewrite (bind_ok _ _ _ _ _ E). done.
    + cbn. rewrite list_insert_insert_eq, list_lookup_insert_eq by done. by rewrite Ec, Hid.
Qed.

(** The loaded magazine's last round. *)
Lemma mag_alloc_loaded (s : kst) (c core_id : nat) (cp cp0 : kmem_cache) (x x0 : kmem_cpu) (e f : Z) (n : nat) :
  caches s !! c = Some cp -> cp = with_mags cp0 (<[core_id := x0]> (cpu cp0)) e f ->
  cpu cp !! core_id = Some x -> 0 < rounds x ->
  exists s' x', mag_alloc HIGH_VMA c core_id (Datatypes.S n) s = (s', Ok (Some (word (kpages s) (mag_round (loaded x) (rounds x - 1))))) /\
    kpages s' = kpages s /\ caches s' !! c = Some (with_mags cp0 (<[core_id := x']> (cpu cp0)) e f) /\ (cpu_sane x -> cpu_sane x').
Proof.
  intros Hg Hcp Hx Hr. cbn [mag_alloc]. rewrite (bind_ok _ _ _ _ _ (get_cpu_eq s c core_id cp x Hg Hx)), (proj2 (Z.ltb_lt _ _) Hr).
  rewrite (bind_ok _ _ _ _ _ (load_eq _ s)).
  destruct (put_cpu_step s c core_id cp cp0 (MkCpu (loaded x) (previous x) (rounds x - 1) (rounds_previous x) (magazine_size x)) x0 e f Hg Hcp)
    as (s' & E & Hk & Hg'). rewrite (bind_ok _ _ _ _ _ E). eexists s', _. split_and!; [done..|].
  intros [H1 H2 H3]. split; cbn; lia.
Qed.

(** The same after a reload, which made [x1] the processor's record. *)
Lemma mag_alloc_reload (s : kst) (c core_id : nat) (cp cp0 : kmem_cache) (x0 x1 : kmem_cpu) (e f : Z) (n : nat) :
  caches s !! c = Some cp -> cp = with_mags cp0 (<[core_id := x0]> (cpu cp0)) e f ->
  (core_id < length (cpu cp0))%nat -> 0 < rounds x1 ->
  exists s' x', (_ ← put_cpu c core_id x1; mag_alloc HIGH_VMA c core_id (Datatypes.S n)) s =
      (s', Ok (Some (word (kpages s) (mag_round (loaded x1) (rounds x1 - 1))))) /\
    kpages s' = kpages s /\ caches s' !! c = Some (with_mags cp0 (<[core_id := x']> (cpu cp0)) e f) /\ (cpu_sane x1 -> cpu_sane x').
Proof.
  intros Hg Hcp Hlt Hr. destruct (put_cpu_step s c core_id cp cp0 x1 x0 e f Hg Hcp) as (s1 & E & Hk & Hg1).
  rewrite (bind_ok _ _ _ _ _ E), <- Hk.
  destruct (mag_alloc_loaded s1 c core_id _ cp0 x1 x1 e f n Hg1 eq_refl) as (s' & x' & E' & Hk' & Hg' & Hsn); [|done|].
  - cbn. by apply list_lookup_insert_eq.
  - exists s', x'. done.
Qed.

Lemma mag_alloc_top (s : kst) (c core_id : nat) (cp : kmem_cache) (x : kmem_cpu) (a : Z) :
  caches s !! c = Some cp -> cpu cp !! core_id = Some x -> cpu_sane x ->
  top_round cp x = Some a -> a <> mag_next (previous x) ->
  exists s' x', mag_alloc HIGH_VMA c core_id 3 s = (s', Ok (Some (word (kpages s) a))) /\
    mag_step (fun q => q = mag_next (previous x)) s s' c core_id cp x' /\ cpu_sane x'.
Proof.
  intros Hg Hx Hsane Ht Ha. pose proof Hsane as [Hsz Hr Hrp]. assert (Hlt : (core_id < length (cpu cp))%nat) by (by eapply lookup_lt_Some).
  pose proof (with_own_mags cp core_id x Hx) as Hown. unfold top_round in Ht.
  destruct (0 <? rounds x) eqn:E1; [|destruct (0 <? rounds_previous x) eqn:E2; [|destruct (full_magazines cp =? 0) eqn:E3; [done|]]];
    injection Ht as <-.
  - destruct (mag_alloc_loaded s c core_id cp cp x x _ _ 2 Hg Hown Hx) as (s' & x' & E & Hk & Hg' & Hsn); [by apply Z.ltb_lt|].
    exists s', x'. split; [exact E|]. split; [|auto]. split; [rewrite Hk; apply mem_step_refl|eauto].
  - destruct (mag_alloc_reload s c core_id cp cp x (cpu_reload x (previous x) (rounds_previous x)) _ _ 1 Hg Hown Hlt)
      as (s' & x' & E & Hk & Hg' & Hsn); [by apply Z.ltb_lt|].
    exists s', x'. split; [|split; [split; [rewrite Hk; apply mem_step_refl|eauto]|apply Hsn; split; cbn; lia]].
    remember 2%nat as n. cbn [mag_alloc]. rewrite (bind_ok _ _ _ _ _ (get_cpu_eq s c core_id cp x Hg Hx)), E1, E2. subst n. exact E.
  - zify_bools. destruct (depot_swap s c core_id cp x DFull DEmpty Hg Hx E3) as (s1 & s2 & e & f & D1 & D2 & Hm & Hg2).
    assert (Hs32 : s32 (magazine_size x) = magazine_size x) by (apply s32_small; lia).
    destruct (mag_alloc_reload s2 c core_id _ cp x (cpu_reload x (full_magazines cp) (s32 (magazine_size x))) e f 1 Hg2 eq_refl Hlt)
      as (s' & x' & E & Hk & Hg' & Hsn); [cbn [cpu_reload rounds]; lia|].
    exists s', x'. split; [|split; [split; [by rewrite Hk|eauto]|apply Hsn; split; cbn; lia]].
    rewrite <- (ms_word _ _ _ Hm) by exact Ha. cbn [cpu_reload rounds loaded] in E. rewrite <- E.
    remember 2%nat as n. cbn [mag_alloc]. rewrite (bind_ok _ _ _ _ _ (get_cpu_eq s c core_id cp x Hg Hx)).
    rewrite (proj2 (Z.ltb_ge _ _)), (proj2 (Z.ltb_ge _ _)) by lia. rewrite (bind_ok _ _ _ _ _ D1).
    cbn [depot_head]. rewrite (proj2 (Z.eqb_neq _ _) E3). rewrite (bind_ok _ _ _ _ _ D2). done.
Qed.

(** Room in the loaded magazine: the object becomes its last round. *)
Lemma mag_free_loaded (alloc : nat -> M kst Z) (s : kst) (c core_id : nat) (cp cp0 : kmem_cache) (x x0 : kmem_cpu) (e f ptr : Z) (n : nat) :
  caches s !! c = Some cp -> cp = with_mags cp0 (<[core_id := x0]> (cpu cp0)) e f ->
  cpu cp !! core_id = Some x -> cpu_sane x -> u64 (rounds x) < magazine_size x ->
  exists s' x', mag_free HIGH_VMA alloc c core_id ptr (Datatypes.S n) s = (s', Ok true) /\
    mem_step (fun q => q = mag_round (loaded x) (rounds x)) (kpages s) (kpages s') /\
    word (kpages s') (mag_round (loaded x) (rounds x)) = ptr /\
    caches s' !! c = Some (with_mags cp0 (<[core_id := x']> (cpu cp0)) e f) /\
    (forall cp, top_round cp x' = Some (mag_round (loaded x) (rounds x))) /\ cpu_sane x'.
Proof.
  intros Hg Hcp Hx [H1 H2 H3] Hr.
  assert (Hr0 : 0 <= rounds x < magazine_size x).
  { destruct (Z.le_gt_cases 0 (rounds x)) as [|Hneg]; [rewrite u64_small in Hr; lia|]. exfalso.
    replace (rounds x) with (-1) in Hr by lia. change (u64 (-1)) with (2 ^ 64 - 1) in Hr. lia. }
  destruct (store_eq (mag_round (loaded x) (rounds x)) ptr s) as (p & E & Hm & Hw & _).
  destruct (put_cpu_step (set_kpages s p) c core_id cp cp0
    (MkCpu (loaded x) (previous x) (rounds x + 1) (rounds_previous x) (magazine_size x)) x0 e f Hg Hcp) as (s' & E' & Hk & Hg').
  eexists s', _. split_and!; [| |by rewrite Hk|exact Hg'| |split; cbn; lia].
  - cbn [mag_free]. rewrite (bind_ok _ _ _ _ _ (get_cpu_eq s c core_id cp x Hg Hx)), (proj2 (Z.ltb_lt _ _) Hr).
    rewrite (bind_ok _ _ _ _ _ E), (bind_ok _ _ _ _ _ E'). done.
  - by rewrite Hk.
  - intros cpx. unfold top_round. cbn [rounds loaded]. rewrite (proj2 (Z.ltb_lt _ _)) by lia. do 2 f_equal. lia.
Qed.

Lemma mag_free_reload (alloc : nat -> M kst Z) (s : kst) (c core_id : nat) (cp cp0 : kmem_cache) (x0 x1 : kmem_cpu) (e f ptr : Z) (n : nat) :
  caches s !! c = Some cp -> cp = with_mags cp0 (<[core_id := x0]> (cpu cp0)) e f ->
  (core_id < length (cpu cp0))%nat -> cpu_sane x1 -> rounds x1 = 0 ->
  exists s' x', (_ ← put_cpu c core_id x1; mag_free HIGH_VMA alloc c core_id ptr (Datatypes.S n)) s = (s', Ok true) /\
    mem_step (fun q => q = mag_round (loaded x1) 0) (kpages s) (kpages s') /\
    word (kpages s') (mag_round (loaded x1) 0) = ptr /\
    caches s' !! c = Some (with_mags cp0 (<[core_id := x']> (cpu cp0)) e f) /\
    (forall cp, top_round cp x' = Some (mag_round (loaded x1) 0)) /\ cpu_sane x'.
Proof.
  intros Hg Hcp Hlt Hs Hr. destruct (put_cpu_step s c core_id cp cp0 x1 x0 e f Hg Hcp) as (s1 & E & Hk & Hg1).
  rewrite (bind_ok _ _ _ _ _ E), <- Hk, <- Hr. apply (mag_free_loaded alloc s1 c core_id _ cp0 x1 x1 e f ptr n Hg1 eq_refl); try done.
  - cbn. by apply list_lookup_insert_eq.
  - rewrite Hr. destruct Hs. rewrite u64_small; lia.
Qed.

Lemma mag_free_place (alloc : nat -> M kst Z) (s : kst) (c core_id : nat) (cp : kmem_cache) (x : kmem_cpu) (ptr a : Z) :
  caches s !! c = Some cp -> cpu cp !! core_id = Some x -> cpu_sane x -> free_round cp x = Some a ->
  exists s' x', mag_free HIGH_VMA alloc c core_id ptr 4 s = (s', Ok true) /\
    mag_step (fun q => q = a \/ q = mag_next (previous x)) s s' c core_id cp x' /\
    word (kpages s') a = ptr /\ (forall cp, top_round cp x' = Some a) /\ cpu_sane x'.
Proof.
  intros Hg Hx Hsane Ht. pose proof Hsane as [Hsz Hr Hrp]. assert (Hlt : (core_id < length (cpu cp))%nat) by (by eapply lookup_lt_Some).
  pose proof (with_own_mags cp core_id x Hx) as Hown. unfold free_round in Ht.
  destruct (u64 (rounds x) <? magazine_size x) eqn:E1;
    [|destruct (rounds_previous x =? 0) eqn:E2; [|destruct (empty_magazines cp =? 0) eqn:E3; [done|]]]; injection Ht as <-.
  - destruct (mag_free_loaded alloc s c core_id cp cp x x _ _ ptr 3 Hg Hown Hx Hsane) as (s' & x' & E & Hm & Hw & Hg' & Ht & Hs'); [by apply Z.ltb_lt|].
    exists s', x'. split_and!; [exact E| |done..]. split; [eapply mem_step_weaken; [|exact Hm]; auto|eauto].
  - destruct (mag_free_reload alloc s c core_id cp cp x (cpu_reload x (previous x) 0) _ _ ptr 2 Hg Hown Hlt)
      as (s' & x' & E & Hm & Hw & Hg' & Ht & Hs'); [split; cbn; lia|done|].
    exists s', x'. split_and!; [| |done..]; [|split; [eapply mem_step_weaken; [|exact Hm]; auto|eauto]].
    remember 3%nat as n. cbn [mag_free]. rewrite (bind_ok _ _ _ _ _ (get_cpu_eq s c core_id cp x Hg Hx)), E1, E2. subst n. exact E.
  - zify_bools. destruct (depot_swap s c core_id cp x DEmpty DFull Hg Hx E3) as (s1 & s2 & e & f & D1 & D2 & Hm2 & Hg2).
    destruct (mag_free_reload alloc s2 c core_id _ cp x (cpu_reload x (empty_magazines cp) 0) e f ptr 2 Hg2 eq_refl Hlt)
      as (s' & x' & E & Hm & Hw & Hg' & Ht & Hs'); [split; cbn; lia|done|].
    exists s', x'. split_and!; [| |done..].
    + remember 3%nat as n. cbn [mag_free]. rewrite (bind_ok _ _ _ _ _ (get_cpu_eq s c core_id cp x Hg Hx)).
      rewrite (proj2 (Z.ltb_ge _ _)), (proj2 (Z.eqb_neq _ _)) by lia. rewrite (bind_ok _ _ _ _ _ D1).
      cbn [depot_head]. rewrite (proj2 (Z.eqb_neq _ _) E3). cbn [negb]. rewrite (bind_ok _ _ _ _ _ D2). subst n. exact E.
    + split; [|eauto]. eapply mem_step_trans; (eapply mem_step_weaken; [|done]); intros q ->; auto.
Qed.

(** The round the next allocation on a processor takes, and the one the next
    release fills, with the processor's record; none when the magazine layer
    does not serve the call. *)
Definition next_round (core_id : nat) (cp : kmem_cache) : option (kmem_cpu * Z) :=
  if magazines_enabled cp then x ← cpu cp !! core_id; a ← top_round cp x; Some (x, a) else None.
Definition free_place (core_id : nat) (cp : kmem_cache) : option (kmem_cpu * Z) :=
  if magazines_enabled cp then x ← cpu cp !! core_id; a ← free_round cp x; Some (x, a) else None.

Definition core_ok (core_id : nat) (cp : kmem_cache) : Prop :=
  magazines_enabled cp = true -> exists x, cpu cp !! core_id = Some x /\ cpu_sane x.

Lemma core_ok_step (core_id : nat) (cp : kmem_cache) (x x' : kmem_cpu) (e f : Z) :
  cpu cp !! core_id = Some x -> cpu_sane x' -> core_ok core_id (with_mags cp (<[core_id := x']> (cpu cp)) e f).
Proof. intros Hx Hs _. exists x'. cbn. split; [|done]. apply list_lookup_insert_eq. by eapply lookup_lt_Some. Qed.

Lemma core_ok_same (core_id : nat) (cp cp' : kmem_cache) : mags cp' = mags cp -> core_ok core_id cp -> core_ok core_id cp'.
Proof. intros [= E1 E2 _ _]. unfold core_ok. by rewrite E1, E2. Qed.

Lemma alloc_falls_back (s : kst) (depth core_id c : nat) (cp : kmem_cache) :
  caches s !! c = Some cp -> core_ok core_id cp -> next_round core_id cp = None ->
  kmem_cache_alloc HIGH_VMA (Datatypes.S depth) core_id c s = slab_layer_alloc HIGH_VMA (kmem_cache_alloc HIGH_VMA depth core_id) c s.
Proof.
  intros Hg Hcore Hn. assert (Eg : get_cache c s = (s, Ok cp)) by (unfold get_cache; by rewrite Hg).
  cbn [kmem_cache_alloc]. rewrite (bind_ok _ _ _ _ _ Eg). unfold next_round in Hn. destruct (magazines_enabled cp) eqn:Em; [|done].
  destruct (Hcore Em) as (x & Hx & _). rewrite Hx in Hn. cbn in Hn. unfold top_round in Hn.
  destruct (0 <? rounds x) eqn:E1, (0 <? rounds_previous x) eqn:E2, (full_magazines cp =? 0) eqn:E3; try done.
  rewrite (bind_ok _ _ s s None); [done|]. cbn [mag_alloc].
  rewrite (bind_ok _ _ _ _ _ (get_cpu_eq s c core_id cp x Hg Hx)), E1, E2. rewrite (bind_ok _ _ s s 0); [done|].
  zify_bools. unfold alloc_from_depot. rewrite (bind_ok _ _ _ _ _ Eg). cbn [depot_head]. by rewrite E3.
Qed.

(** C5: [kmem_cache_alloc] on a consistent cache of small objects (at most
    512 bytes) without constructor or destructor.  With magazines on, and an
    object in the processor's loaded or previous magazine or in a full one of
    the depot, it returns that object, which for the slab layer is in use;
    otherwise, when a slab has a free buffer or a page is free, it returns a
    buffer that was not in use, and the magazines stay.  Either way the buffer
    is aligned and inside a page of the cache, overlaps no other buffer that
    is in use or in a magazine, and the cache is consistent afterwards.  The
    header of the previous magazine lies outside of the cache's pages, and the
    round taken is not that header.  [constructor_cuts_freelist] shows why the
    constructor is excluded. *)
Theorem kmem_cache_alloc_correct (s : kst) (depth core_id c : nat) (cp : kmem_cache) (out : gset Z) :
  cache_ok s c cp out -> core_ok core_id cp ->
  match next_round core_id cp with
  | Some (x, a) => word (kpages s) a ∈ out /\ a <> mag_next (previous x) /\ outside cp (mag_next (previous x))
  | None => slabs cp <> [] \/ ps_avail (kpages s) 1
  end ->
  exists s' cp' buf, kmem_cache_alloc HIGH_VMA (Datatypes.S depth) core_id c s = (s', Ok buf) /\
    cache_ok s' c cp' ({[buf]} ∪ out) /\ core_ok core_id cp' /\ buffer_placed cp' (kpages s') buf /\
    (forall b, b ∈ out -> b <> buf -> b + chunk_size cp' <= buf \/ buf + chunk_size cp' <= b) /\
    match next_round core_id cp with
    | Some (x, a) => buf = word (kpages s) a
    | None => buf ∉ out /\ mags cp' = mags cp
    end.
Proof.
  intros Hc Hcore H. pose proof (co_get _ _ _ _ Hc) as Hg.
  cut (exists s' cp' buf, kmem_cache_alloc HIGH_VMA (Datatypes.S depth) core_id c s = (s', Ok buf) /\
    cache_ok s' c cp' ({[buf]} ∪ out) /\ core_ok core_id cp' /\
    match next_round core_id cp with Some (x, a) => buf = word (kpages s) a | None => buf ∉ out /\ mags cp' = mags cp end).
  { intros (s' & cp' & buf & E & Hc' & Hk' & Hm). exists s', cp', buf. split_and!; try done.
    - apply (out_placed s' c cp' _ buf Hc'). set_solver.
    - intros b Hb Hne. apply (out_disjoint s' c cp' ({[buf]} ∪ out)); [done|set_solver|set_solver|done]. }
  destruct (next_round core_id cp) as [[x a]|] eqn:En.
  - destruct H as (Hin & Ha & Hout). unfold next_round in En. destruct (magazines_enabled cp) eqn:Em; [|done].
    destruct (Hcore Em) as (y & Hy & Hs). rewrite Hy in En. cbn in En. destruct (top_round cp y) as [b|] eqn:Et; [|done].
    injection En as -> ->. destruct (mag_alloc_top s c core_id cp x a Hg Hy Hs Et Ha) as (s' & x' & E & [Hm (e & f & Hg')] & Hs').
    exists s'. eexists _, (word (kpages s) a). split_and!; [|..|done].
    + cbn [kmem_cache_alloc]. rewrite (bind_ok (get_cache c) _ s s cp) by (unfold get_cache; by rewrite Hg).
      rewrite Em, (bind_ok _ _ _ _ _ E). done.
    + replace ({[word (kpages s) a]} ∪ out) with out by set_solver.
      eapply cache_ok_mags; [exact Hc|exact Hg'|exact Hm|]. by intros q ->.
    + by eapply core_ok_step.
  - destruct (slab_layer_alloc_spec (kmem_cache_alloc HIGH_VMA depth core_id) s c cp out Hc H)
      as (s' & cp' & buf & E & Hn & Hc' & _ & Hmg).
    exists s', cp', buf. split_and!; try done; [by rewrite (alloc_falls_back s depth core_id c cp Hg Hcore En)|by eapply core_ok_same].
Qed.

(** C6: [kmem_cache_free] of a small object in use, on a consistent cache
    without constructor or destructor.  With magazines on, and room in the
    processor's loaded magazine, or an empty previous one, or an empty one in
    the depot (all outside of the cache's pages), the object goes into a
    magazine, from which the next allocation on that processor takes it; the
    slab layer still counts it as in use.  With magazines off, and when the
    page allocator accepts the page back ([pr_valid]: for [pmm_free], no
    module below the page takes the request for its own), the cache is
    consistent without the object; the words of the other buffers in use are
    unchanged and their pages stay allocated; at most the page of the freed
    buffer goes back, and only when no other buffer in use lies on it.  Not
    covered: the allocation of a new magazine when every other is full. *)
Theorem kmem_cache_free_correct (s : kst) (depth core_id c : nat) (cp : kmem_cache) (out : gset Z) (buf : Z) :
  cache_ok s c cp out -> core_ok core_id cp -> buf ∈ out ->
  match free_place core_id cp with
  | Some (x, a) => outside cp a /\ outside cp (mag_next (previous x))
  | None => magazines_enabled cp = false /\ pr_valid (kpages s) (buf / PAGE_SIZE * PAGE_SIZE - HIGH_VMA) 1
  end ->
  exists s' cp', kmem_cache_free HIGH_VMA (Datatypes.S depth) core_id c buf s = (s', Ok tt) /\ core_ok core_id cp' /\
    match free_place core_id cp with
    | Some (x, a) =>
        cache_ok s' c cp' out /\ word (kpages s') a = buf /\ (exists x', next_round core_id cp' = Some (x', a)) /\
        mem_step (fun q => q = a \/ q = mag_next (previous x)) (kpages s) (kpages s')
    | None => cache_ok s' c cp' (out ∖ {[buf]}) /\ others_kept s s' cp cp' out buf /\ page_returned s s' out buf
    end.
Proof.
  intros Hc Hcore Hb H. pose proof (co_get _ _ _ _ Hc) as Hg.
  assert (Hget : get_cache c s = (s, Ok cp)) by (unfold get_cache; by rewrite Hg).
  destruct (free_place core_id cp) as [[x a]|] eqn:En.
  - destruct H as (Ha & Hpr). unfold free_place in En. destruct (magazines_enabled cp) eqn:Em; [|done].
    destruct (Hcore Em) as (y & Hy & Hs). rewrite Hy in En. cbn in En. destruct (free_round cp y) as [b|] eqn:Et; [|done].
    injection En as -> ->.
    destruct (mag_free_place (kmem_cache_alloc HIGH_VMA depth core_id) s c core_id cp x buf a Hg Hy Hs Et)
      as (s' & x' & E & [Hm (e & f & Hg')] & Hw & Htop & Hs').
    exists s'. eexists. split_and!; [|by eapply core_ok_step| |done| |exact Hm].
    + cbn [kmem_cache_free]. rewrite (bind_ok _ _ _ _ _ Hget), Em, (bind_ok _ _ _ _ _ E). done.
    + eapply cache_ok_mags; [exact Hc|exact Hg'|exact Hm|]. by intros q [->| ->].
    + exists x'. unfold next_round. cbn [magazines_enabled cpu with_mags set_cpus set_depot]. rewrite Em.
      rewrite list_lookup_insert_eq by (by eapply lookup_lt_Some). cbn. by rewrite Htop.
  - destruct H as [He Hv].
    destruct (slab_free_effect (kmem_cache_free HIGH_VMA depth core_id) s c cp out buf Hc Hb Hv) as (s' & cp' & E & Hc' & Hmg & H1 & H2).
    exists s', cp'. split_and!; try done; [|by eapply core_ok_same].
    cbn [kmem_cache_free]. rewrite (bind_ok _ _ _ _ _ Hget), He. done.
Qed.

End SlabOk.

(** ** Creating caches *)

Section Create.
Context {AB : AriaBase} {AO : AriaBaseOk AB} {AD : AriaDict}.
Context {S : Type} {PS : PageSource S} {PO : PageSourceOk S PS} {PR : PageReturn S}.
Context (HIGH_VMA : Z) (logical_processor_cnt : nat).

Lemma align_chunk (size k : Z) :
  0 < size <= SMALL_SLAB_SIZE -> 3 <= k <= 10 ->
  let c0 := ALIGN_UP size SLAB_ALIGN in
  let c1 := ALIGN_UP c0 (2 ^ k) in
  size <= c0 <= 512 /\ c0 mod 8 = 0 /\ c0 <= c1 < c0 + 2 ^ k /\ c1 mod 2 ^ k = 0 /\ c1 mod 8 = 0 /\ 8 <= c0 /\ c1 <= 2048.
Proof.
  intros Hsz Hk c0 c1. unfold SMALL_SLAB_SIZE in Hsz.
  pose proof (align_up_ge size 3 ltac:(lia) ltac:(lia) ltac:(lia)) as G0.
  pose proof (align_up_mod size 3 ltac:(lia) ltac:(lia) ltac:(lia)) as M0.
  change (2 ^ 3) with 8 in G0, M0. change (ALIGN_UP size 8) with c0 in G0, M0.
  pose proof (Z.pow_le_mono_r 2 3 k ltac:(lia) ltac:(lia)) as P1. pose proof (Z.pow_le_mono_r 2 k 10 ltac:(lia) ltac:(lia)) as P2.
  change (2 ^ 3) with 8 in P1. change (2 ^ 10) with 1024 in P2.
  pose proof (Z.div_mod c0 8 ltac:(lia)) as D0. rewrite M0 in D0.
  pose proof (align_up_ge c0 k ltac:(lia) ltac:(lia) ltac:(lia)) as G1.
  pose proof (align_up_mod c0 k ltac:(lia) ltac:(lia) ltac:(lia)) as M1. fold c1 in G1, M1.
  split_and!; try done; try lia.
  apply Z.mod_divide; [lia|]. apply Z.mod_divide in M1; [|lia]. etrans; [|exact M1].
  exists (2 ^ (k - 3)). change 8 with (2 ^ 3). rewrite <- Z.pow_add_r by lia. f_equal. lia.
Qed.

Lemma kmem_cache_create_spec (s : kst) (c : nat) (fl : list nat) (cache : kmem_cache) (size align k : Z) :
  cache_freelist s = c :: fl -> caches s !! c = Some cache -> magazines_enabled cache = false -> ps_ok (kpages s) ->
  0 < size <= SMALL_SLAB_SIZE -> 3 <= k <= 10 -> align = 0 /\ k = 3 \/ align = 2 ^ k ->
  exists s' cp, kmem_cache_create logical_processor_cnt size align None None s = (s', Ok (Some c)) /\
    cache_ok HIGH_VMA s' c cp ∅ /\ object_size cp = size /\ object_align cp = 2 ^ k /\
    magazines_enabled cp = false /\ cache_freelist s' = fl.
Proof.
  intros Hfl Hg He Hp Hsz Hk Hal. destruct (align_chunk size k Hsz Hk) as (A1 & A2 & A3 & A4 & A5 & A6 & A7).
  set (c0 := ALIGN_UP size SLAB_ALIGN) in *. set (c1 := ALIGN_UP c0 (2 ^ k)) in *.
  pose proof (Z.pow_le_mono_r 2 3 k ltac:(lia) ltac:(lia)) as P1. pose proof (Z.pow_le_mono_r 2 k 10 ltac:(lia) ltac:(lia)) as P2.
  change (2 ^ 3) with 8 in P1. change (2 ^ 10) with 1024 in P2.
  set (mt := select_magtype magtypes c1 0).
  set (cp := MkCache size c1 PAGE_SIZE (c0 - 8) (2 ^ k) ((PAGE_SIZE - sizeof_kmem_slab) mod c1) 0 [] [] (bufmap cache)
               (empty_magazines cache) (full_magazines cache) mt (cpu cache) false None None).
  exists (MkK (<[c := cp]> (caches s)) fl (cache_num s + 1) (bufctl_cache s) (slab_cache s)
            (generic_caches s) (mag_caches s) (kpages s)), cp.
  assert (Ea : (if align =? 0 then SLAB_ALIGN else align) = 2 ^ k).
  { unfold SLAB_ALIGN. destruct Hal as [[-> ->]| ->]; [done|]. by rewrite (proj2 (Z.eqb_neq _ _)) by lia. }
  split_and!; try done.
  - unfold kmem_cache_create. unfold mbind, M_bind, gets. rewrite Hfl. unfold get_cache at 1. rewrite Hg. cbv zeta.
    rewrite Ea. unfold SMALL_SLAB_SIZE in *.
    rewrite (proj2 (Z.leb_le SLAB_ALIGN (2 ^ k))) by (unfold SLAB_ALIGN; lia).
    rewrite (proj2 (Z.leb_le size 512)) by lia. fold c0. fold c1. fold mt. rewrite He.
    unfold SLAB_ALIGN. rewrite u64_small by lia. unfold modify, put_cache, mret, M_ret.
    destruct (option_bind nat kmem_magtype (fun i => magtypes !! i) mt); reflexivity.
  - split.
    + cbn. apply list_lookup_insert_eq. by eapply lookup_lt_Some.
    + split; try done; cbn.
      * split_and!; [lia|lia|lia|done].
      * split_and!; [lia|lia|]. apply Z.mod_divide; [lia|]. apply Z.mod_divide in A2; [|lia].
        apply Z.divide_sub_r; [done|reflexivity].
      * split_and!; [lia|lia| |done]. change 8 with (2 ^ 3). apply Z.mod_divide; [lia|]. exists (2 ^ (k - 3)).
        rewrite <- Z.pow_add_r by lia. f_equal. lia.
      * split; [|done]. split; [lia|]. apply Z.mod_pos_bound. lia.
    + done.
    + constructor.
    + exists (fun _ => []), (fun _ => []). split_and!; try done; intros x; cbn; rewrite ?elem_of_nil; try done.
      split; [set_solver|]. intros (y & Hy & _). by apply elem_of_nil in Hy.
Qed.

(** a cache created for objects of at most 512 bytes, with the default
    alignment or a power of two of at least 8, is consistent and empty: its
    chunks hold the object and the link, keep the alignment, and the slack of
    a page bounds the colors. *)
Theorem kmem_cache_create_correct (s : kst) (c : nat) (fl : list nat) (cache : kmem_cache) (size align k : Z) :
  cache_freelist s = c :: fl -> caches s !! c = Some cache -> magazines_enabled cache = false -> ps_ok (kpages s) ->
  0 < size <= SMALL_SLAB_SIZE -> 3 <= k <= 10 -> align = 0 /\ k = 3 \/ align = 2 ^ k ->
  exists s' cp, kmem_cache_create logical_processor_cnt size align None None s = (s', Ok (Some c)) /\
    cache_ok HIGH_VMA s' c cp ∅ /\ object_size cp = size /\ object_align cp = 2 ^ k /\
    magazines_enabled cp = false /\ cache_freelist s' = fl.
Proof. apply kmem_cache_create_spec. Qed.

End Create.

(** ** Magazines *)

Section Magazines.
Context {AB : AriaBase} {AD : AriaDict} {S : Type} {PS : PageSource S} {PO : PageSourceOk S PS}.
Context {PR : PageReturn S} {RO : PageReturnOk S PS PO PR} (HIGH_VMA : Z).

(** an object freed into a loaded magazine that has room is the next one
    allocated on that processor, and the cache is as it was before: neither
    the slab layer nor another processor's magazines are involved. *)
Theorem magazine_roundtrip (s : kst (S := S)) (depth core_id c : nat) (cp : kmem_cache) (x : kmem_cpu) (ptr : Z) :
  caches s !! c = Some cp -> magazines_enabled cp = true -> cpu cp !! core_id = Some x ->
  0 <= rounds x < magazine_size x -> magazine_size x < 2 ^ 31 ->
  exists s1 s2, kmem_cache_free HIGH_VMA (Datatypes.S depth) core_id c ptr s = (s1, Ok tt) /\
    kmem_cache_alloc HIGH_VMA (Datatypes.S depth) core_id c s1 = (s2, Ok ptr) /\ caches s2 = caches s /\
    mem_step HIGH_VMA (fun a => a = mag_round (loaded x) (rounds x)) (kpages s) (kpages s2).
Proof.
  intros Hg He Hx Hr Hsz.
  assert (Hlt : (c < length (caches s))%nat) by (by eapply lookup_lt_Some).
  assert (Hlx : (core_id < length (cpu cp))%nat) by (by eapply lookup_lt_Some).
  destruct (store_eq HIGH_VMA (mag_round (loaded x) (rounds x)) ptr s) as (p & E & Hm & Hw & _).
  set (x1 := MkCpu (loaded x) (previous x) (rounds x + 1) (rounds_previous x) (magazine_size x)).
  set (cp1 := set_cpus cp (<[core_id := x1]> (cpu cp)) (magazines_enabled cp)).
  set (s1 := set_caches (set_kpages s p) (<[c := cp1]> (caches s))).
  assert (Hg1 : caches s1 !! c = Some cp1) by (cbn; by rewrite list_lookup_insert_eq).
  exists s1, (set_kpages s p). split; [|split].
  - cbn [kmem_cache_free]. rewrite (bind_ok (get_cache c) _ s s cp) by (unfold get_cache; by rewrite Hg). rewrite He.
    rewrite (bind_ok (mag_free _ _ _ _ _ _) _ s s1 true); [done|]. cbn [mag_free].
    rewrite (bind_ok _ _ _ _ _ (get_cpu_eq s c core_id cp x Hg Hx)), u64_small by lia.
    rewrite (proj2 (Z.ltb_lt _ _)) by lia. rewrite (bind_ok _ _ _ _ _ E).
    rewrite (bind_ok _ _ _ _ _ (put_cpu_eq (set_kpages s p) c core_id cp x1 Hg)). done.
  - cbn [kmem_cache_alloc]. rewrite (bind_ok (get_cache c) _ s1 s1 cp1) by (unfold get_cache; by rewrite Hg1).
    change (magazines_enabled cp1) with (magazines_enabled cp). rewrite He.
    rewrite (bind_ok (mag_alloc _ _ _ _) _ s1 (set_kpages s p) (Some ptr)); [done|]. cbn [mag_alloc].
    rewrite (bind_ok _ _ _ _ _ (get_cpu_eq s1 c core_id cp1 x1 Hg1 (list_lookup_insert_eq _ _ _ Hlx))).
    cbn [rounds x1 loaded]. rewrite (proj2 (Z.ltb_lt _ _)) by lia. replace (rounds x + 1 - 1) with (rounds x) by lia.
    rewrite (bind_ok _ _ _ _ _ (load_eq HIGH_VMA _ s1)). rewrite (bind_ok _ _ _ _ _ (put_cpu_eq s1 c core_id cp1 _ Hg1)).
    change (word HIGH_VMA (kpages s1)) with (word HIGH_VMA p). rewrite Hw. unfold mret, M_ret. f_equal.
    unfold set_caches, set_kpages. cbn. f_equal. rewrite list_insert_insert_eq, list_insert_insert_eq.
    rewrite list_insert_id; [by destruct s|]. rewrite Hg. f_equal. unfold set_cpus. cbn. rewrite list_insert_id by (by destruct x).
    by destruct cp.
  - split; [done|exact Hm].
Qed.

End Magazines.

(** ** Concrete runs *)

Definition demo_vma : Z := 0xffff800000000000.
Definition demo_pages : bump_state := MkBump 0x1000 [] ∅.
Definition demo_boot : kst (S := bump_state) :=
  MkK (replicate CACHES_NUM empty_cache) (reverse (seq 0 CACHES_NUM)) 0 None None [] [] demo_pages.
Definition demo_created : kst (S := bump_state) := fst (kmem_cache_create 1 16 0 None None demo_boot).
Definition demo_early : kst (S := bump_state) := fst (kmem_early_init 1 demo_pages).

Lemma demo_pages_ok : ps_ok demo_pages.
Proof. constructor; cbn; [split; [lia|reflexivity]|constructor]. Qed.

Lemma demo_vma_ok : 0 < demo_vma /\ demo_vma mod PAGE_SIZE = 0.
Proof. split; reflexivity. Qed.

Lemma kmem_cache_create_correct_witness :
  exists s' cp, kmem_cache_create 1 16 0 None None demo_boot = (s', Ok (Some 31%nat)) /\ cache_ok demo_vma s' 31 cp ∅.
Proof.
  destruct (kmem_cache_create_correct demo_vma 1 demo_boot 31 (reverse (seq 0 31)) empty_cache 16 0 3)
    as (s' & cp & E & Hc & _); try reflexivity.
  - exact demo_pages_ok.
  - unfold SMALL_SLAB_SIZE. lia.
  - lia.
  - left. split; reflexivity.
  - exists s', cp. split; [exact E|exact Hc].
Defined.

(** The cache of the witnesses below. *)
Lemma demo_created_ok : exists cp, cache_ok demo_vma demo_created 31 cp ∅ /\ magazines_enabled cp = false.
Proof.
  destruct (kmem_cache_create_spec demo_vma 1 demo_boot 31 (reverse (seq 0 31)) empty_cache 16 0 3)
    as (s' & cp & E & Hc & _ & _ & He & _); try reflexivity.
  - exact demo_pages_ok.
  - unfold SMALL_SLAB_SIZE. lia.
  - lia.
  - left. split; reflexivity.
  - exists cp. unfold demo_created. rewrite E. done.
Qed.

Lemma demo_avail (s : kst (S := bump_state)) : kpages s = demo_pages -> ps_avail (kpages s) 1.
Proof. intros ->. split; [reflexivity|]. cbn. unfold PAGE_SIZE. lia. Qed.

(** The same cache with magazines on: processor 0 has a loaded magazine with
    [n] rounds, of which the first holds [buf]. *)
Lemma demo_with_magazine (s : kst (S := bump_state)) (cp : kmem_cache) (buf n : Z) :
  cache_ok demo_vma s 31 cp {[buf]} ->
  exists s' cp', cache_ok demo_vma s' 31 cp' {[buf]} /\ magazines_enabled cp' = true /\
    cpu cp' !! 0%nat = Some (MkCpu 0x1000 0 n (-1) 15) /\ word demo_vma (kpages s') (mag_round 0x1000 0) = buf /\
    (forall a, a < demo_vma -> outside cp' a).
Proof.
  intros Hc. assert (Hout : forall a, a < demo_vma -> outside cp a).
  { intros a Ha slab Hin. destruct (co_slabs _ _ _ _ _ Hc) as (fr & ou & Hsl & _). pose proof (sk_page _ _ _ _ _ _ (Hsl slab Hin)). lia. }
  destruct (store_eq demo_vma (mag_round 0x1000 0) buf s) as (p & _ & Hm & Hw & _).
  set (cp' := set_cpus (set_depot cp 0 0) [MkCpu 0x1000 0 n (-1) 15] true).
  exists (set_caches (set_kpages s p) (<[31%nat := cp']> (caches s))), cp'. split_and!; [|done|done|exact Hw|exact Hout].
  eapply (cache_ok_mags demo_vma demo_vma_ok _ s); [exact Hc| |exact Hm|].
  - cbn. apply list_lookup_insert_eq. eapply lookup_lt_Some. exact (co_get _ _ _ _ _ Hc).
  - intros a ->. apply Hout. reflexivity.
Qed.

Lemma demo_off (cp : kmem_cache) : magazines_enabled cp = false -> core_ok 0 cp /\ next_round 0 cp = None /\ free_place 0 cp = None.
Proof. intros E. unfold core_ok, next_round, free_place. rewrite E. done. Qed.

(** A buffer from the slab layer; and one from a magazine. *)
Lemma kmem_cache_alloc_correct_witness :
  exists s1 cp1 buf, kmem_cache_alloc demo_vma 1 0 31 demo_created = (s1, Ok buf) /\ cache_ok demo_vma s1 31 cp1 {[buf]} /\
  exists s2 s3, kmem_cache_alloc demo_vma 1 0 31 s2 = (s3, Ok buf).
Proof.
  destruct demo_created_ok as (cp & Hc & He). destruct (demo_off cp He) as (Hk & Hn & _).
  destruct (kmem_cache_alloc_correct demo_vma demo_vma_ok demo_created 0 0 31 cp ∅ Hc Hk) as (s1 & cp1 & buf & E & Hc1 & _).
  { rewrite Hn. right. apply demo_avail. reflexivity. }
  rewrite (right_id_L ∅ (∪)) in Hc1. exists s1, cp1, buf. split; [exact E|]. split; [exact Hc1|].
  destruct (demo_with_magazine s1 cp1 buf 1 Hc1) as (s2 & cp2 & Hc2 & He2 & Hx & Hw & Ho).
  assert (En : next_round 0 cp2 = Some (MkCpu 0x1000 0 1 (-1) 15, mag_round 0x1000 0)) by (unfold next_round; rewrite He2, Hx; reflexivity).
  destruct (kmem_cache_alloc_correct demo_vma demo_vma_ok s2 0 0 31 cp2 {[buf]} Hc2) as (s3 & cp3 & b & E3 & H3).
  - intros _. eexists. split; [exact Hx|]. constructor; cbn; lia.
  - rewrite En. split; [rewrite Hw; apply elem_of_singleton; reflexivity|]. split; [discriminate|]. apply Ho. reflexivity.
  - rewrite En in H3. destruct H3 as (_ & _ & _ & _ & Hb). rewrite Hw in Hb. subst b. exists s2, s3. exact E3.
Defined.

(** A buffer given back to its slab; and one into a magazine. *)
Lemma kmem_cache_free_correct_witness :
  exists s1 s2 buf cp, kmem_cache_alloc demo_vma 1 0 31 demo_created = (s1, Ok buf) /\
    kmem_cache_free demo_vma 1 0 31 buf s1 = (s2, Ok tt) /\ cache_ok demo_vma s2 31 cp ({[buf]} ∖ {[buf]}) /\
  exists s3 s4, kmem_cache_free demo_vma 1 0 31 buf s3 = (s4, Ok tt) /\ word demo_vma (kpages s4) (mag_round 0x1000 0) = buf.
Proof.
  destruct demo_created_ok as (cp & Hc & He). destruct (demo_off cp He) as (Hk & Hn & _).
  destruct (slab_layer_alloc_spec demo_vma demo_vma_ok (kmem_cache_alloc demo_vma 0 0) demo_created 31 cp ∅ Hc)
    as (s1 & cp1 & buf & E & _ & Hc1 & _ & Hmg); [right; apply demo_avail; reflexivity|].
  rewrite (right_id_L ∅ (∪)) in Hc1. rewrite <- (alloc_falls_back demo_vma demo_created 0 0 31 cp (co_get _ _ _ _ _ Hc) Hk Hn) in E.
  assert (He1 : magazines_enabled cp1 = false) by (unfold mags in Hmg; congruence). destruct (demo_off cp1 He1) as (Hk1 & _ & Hf1).
  destruct (kmem_cache_free_correct demo_vma demo_vma_ok s1 0 0 31 cp1 {[buf]} buf Hc1 Hk1) as (s2 & cp2 & E2 & _ & H2).
  { apply elem_of_singleton. reflexivity. }
  { rewrite Hf1. split; [exact He1|exact I]. }
  rewrite Hf1 in H2. exists s1, s2, buf, cp2. split; [exact E|]. split; [exact E2|]. split; [apply H2|].
  destruct (demo_with_magazine s1 cp1 buf 0 Hc1) as (s3 & cp3 & Hc3 & He3 & Hx & _ & Ho).
  assert (En : free_place 0 cp3 = Some (MkCpu 0x1000 0 0 (-1) 15, mag_round 0x1000 0)) by (unfold free_place; rewrite He3, Hx; reflexivity).
  destruct (kmem_cache_free_correct demo_vma demo_vma_ok s3 0 0 31 cp3 {[buf]} buf Hc3) as (s4 & cp4 & E4 & _ & H4).
  - intros _. eexists. split; [exact Hx|]. constructor; cbn; lia.
  - apply elem_of_singleton. reflexivity.
  - rewrite En. split; apply Ho; reflexivity.
  - rewrite En in H4. exists s3, s4. split; [exact E4|apply H4].
Defined.

Definition demo_mag_cpu : kmem_cpu := MkCpu 0xffff800000002000 0 2 (-1) 15.
Definition demo_mag_cache : kmem_cache := set_cpus empty_cache [demo_mag_cpu] true.
Definition demo_mag : kst (S := bump_state) := MkK [demo_mag_cache] [] 1 None None [] [] demo_pages.

Lemma magazine_roundtrip_witness :
  exists s1 s2, kmem_cache_free demo_vma 1 0 0 0xffff800000005000 demo_mag = (s1, Ok tt) /\
    kmem_cache_alloc demo_vma 1 0 0 s1 = (s2, Ok 0xffff800000005000) /\ caches s2 = caches demo_mag.
Proof.
  destruct (magazine_roundtrip demo_vma demo_mag 0 0 0 demo_mag_cache demo_mag_cpu 0xffff800000005000)
    as (s1 & s2 & E1 & E2 & E3 & _); [reflexivity|reflexivity|reflexivity|cbn; lia|cbn; lia|].
  exists s1, s2. split; [exact E1|split; [exact E2|exact E3]].
Defined.

(** ** Behaviours worth knowing *)

Local Abbreviation malloc := (kmem_malloc demo_vma 3 0).
Local Abbreviation free := (kmem_free demo_vma 4 0).

(** A small object that is freed is the next one handed out again. *)
Example malloc_small_reuses :
  exists a, snd ((a ← malloc 10; _ ← malloc 10; _ ← free a; b ← malloc 10; mret (a, b)) demo_early) = Ok (a, a).
Proof. eexists. vm_compute. reflexivity. Qed.

(** A large object is entered in [bufmap] under the first word it has when it
    is allocated; [kmem_malloc] then writes the size there, so that
    [kmem_free] does not find it and the object is lost. *)
Lemma malloc_large_lost :
  exists a b, snd ((a ← malloc 600; _ ← malloc 600; _ ← free a; b ← malloc 600; mret (a, b)) demo_early) = Ok (a, b) /\ a <> b.
Proof. eexists _, _. split; [vm_compute; reflexivity|discriminate]. Qed.

(** Two large objects with the same first word share one entry: freeing the
    first one gives back the second. *)
Lemma large_free_confused :
  exists a b, snd ((a ← kmem_cache_alloc demo_vma 3 0 22; b ← kmem_cache_alloc demo_vma 3 0 22;
                    _ ← kmem_cache_free demo_vma 4 0 22 a; x ← kmem_cache_alloc demo_vma 3 0 22; mret (a, b, x)) demo_early)
              = Ok (a, b, b) /\ a <> b.
Proof. eexists _, _. split; [vm_compute; reflexivity|discriminate]. Qed.

(** Destroying a large slab keeps its pages. *)
Lemma large_slab_pages_lost :
  let s := fst ((a ← kmem_cache_alloc demo_vma 3 0 22; kmem_cache_free demo_vma 4 0 22 a) demo_early) in
  slabs <$> caches s !! 22%nat = Some [] /\ full_slabs <$> caches s !! 22%nat = Some [] /\
  (4 <= length (bump_frames (kpages s)))%nat.
Proof. vm_compute. split; [reflexivity|]. split; [reflexivity|]. repeat constructor. Qed.

(** A constructor that clears the whole object, like the one of
    [core/object.c], also clears the link in the object's last word: all
    buffers of the slab but one are lost, and the next object comes from
    another page. *)
Definition zero_object (size : Z) : hook := fun p mem =>
  foldl (fun m i => <[p - demo_vma + 8 * i := 0]> m) mem (seqZ 0 (size / 8)).

Lemma constructor_cuts_freelist :
  exists a b, snd ((c ← kmem_cache_create 1 64 0 (Some (zero_object 64)) None;
                    c ← the c; a ← kmem_cache_alloc demo_vma 1 0 c; b ← kmem_cache_alloc demo_vma 1 0 c; mret (a, b)) demo_boot)
              = Ok (a, b) /\ a / PAGE_SIZE <> b / PAGE_SIZE.
Proof. eexists _, _. split; [vm_compute; reflexivity|vm_compute; discriminate]. Qed.
