(* ===== verification/Clock.v ===== *)
(** * Time, interrupt levels and deferred calls
      ([core/clock.c], [core/timer.c], [core/dpc.c], [core/ipl.c])

    One processor: its interrupt priority level, its pending software
    interrupts, its queue of deferred procedure calls, its tick count and its
    heap of timers.  The scheduler is seen through the three calls made from
    here, which act on what [sched_view] holds.  Linking a deferred call that
    is already queued destroys the queue and counts as a halt. *)

From S2P Require Import Prelude Aria Ule.

Definition NANOSECONDS_PER_SECOND : Z := 1000000000.

Inductive timer_state := TIMER_RUNNING | TIMER_PENDING | TIMER_STOPPED.
#[global] Instance timer_state_eq_dec : EqDecision timer_state.
Proof. solve_decision. Defined.

(** A timer; the waiting threads of its header are those of [Wait.v]. *)
Record ktimer := MkTimer {
  deadline : Z;
  tstate : timer_state;
  tcount : Z;
}.

Definition set_tstate (t : ktimer) (st : timer_state) : ktimer := MkTimer (deadline t) st (tcount t).

Inductive dpc_id := TIMER_DPC | BALANCE_DPC.
#[global] Instance dpc_id_eq_dec : EqDecision dpc_id.
Proof. solve_decision. Defined.

(** What the scheduler reads and writes here. *)
Record sched_view := MkView {
  v_idle : bool;
  v_next : option Z;
  v_reason : preemption_reason;
  v_softints : Z;
}.

Section Clock.
Context `{PH : PairingHeap}.
Context (balance_load sched_reschedule sched_switch : sched_view -> sched_view).

Record clk := MkClk {
  k_core : Z;
  k_ipl : Z;
  k_intr : bool;
  k_ticks : Z;
  k_heap : pairing_heap;
  k_dpcs : list (dpc_id * (Z * Z));
  k_view : sched_view;
  k_timers : gmap Z ktimer;
  k_fired : list Z;
  k_eoi : Z;   (* ends of interrupt written to the local APIC *)
}.

Definition set_ipl (c : clk) (ipl : Z) (intr : bool) : clk :=
  MkClk (k_core c) ipl intr (k_ticks c) (k_heap c) (k_dpcs c) (k_view c) (k_timers c) (k_fired c) (k_eoi c).
Definition set_ticks (c : clk) (n : Z) : clk :=
  MkClk (k_core c) (k_ipl c) (k_intr c) n (k_heap c) (k_dpcs c) (k_view c) (k_timers c) (k_fired c) (k_eoi c).
Definition set_heap (c : clk) (h : pairing_heap) : clk :=
  MkClk (k_core c) (k_ipl c) (k_intr c) (k_ticks c) h (k_dpcs c) (k_view c) (k_timers c) (k_fired c) (k_eoi c).
Definition set_dpcs (c : clk) (l : list (dpc_id * (Z * Z))) : clk :=
  MkClk (k_core c) (k_ipl c) (k_intr c) (k_ticks c) (k_heap c) l (k_view c) (k_timers c) (k_fired c) (k_eoi c).
Definition set_view (c : clk) (v : sched_view) : clk :=
  MkClk (k_core c) (k_ipl c) (k_intr c) (k_ticks c) (k_heap c) (k_dpcs c) v (k_timers c) (k_fired c) (k_eoi c).
Definition set_timer (c : clk) (t : Z) (x : ktimer) : clk :=
  MkClk (k_core c) (k_ipl c) (k_intr c) (k_ticks c) (k_heap c) (k_dpcs c) (k_view c) (<[t := x]> (k_timers c)) (k_fired c) (k_eoi c).
Definition add_fired (c : clk) (t : Z) : clk :=
  MkClk (k_core c) (k_ipl c) (k_intr c) (k_ticks c) (k_heap c) (k_dpcs c) (k_view c) (k_timers c) (k_fired c ++ [t]) (k_eoi c).

Definition count_eoi (c : clk) : clk :=
  MkClk (k_core c) (k_ipl c) (k_intr c) (k_ticks c) (k_heap c) (k_dpcs c) (k_view c) (k_timers c) (k_fired c) (k_eoi c + 1).

Definition set_softints (v : sched_view) (n : Z) : sched_view := MkView (v_idle v) (v_next v) (v_reason v) n.
Definition set_vreason (v : sched_view) (r : preemption_reason) : sched_view := MkView (v_idle v) (v_next v) r (v_softints v).

Definition the_timer (t : Z) : M clk ktimer := fun c =>
  match k_timers c !! t with Some x => (c, Ok x) | None => (c, Halt) end.

(** ** Timers *)

(** Timers are compared by their deadlines. *)
Definition deadline_of (c : clk) (t : Z) : Z := default 0 (deadline <$> k_timers c !! t).
Definition timer_compare (c : clk) : Z -> Z -> bool := key_compare (deadline_of c).

Definition TICKS_TO_NS (ticks : Z) : Z := u64 (ticks * (NANOSECONDS_PER_SECOND / HZ)).

Definition timer_init : ktimer := MkTimer 0 TIMER_STOPPED 0.

(** [timer_start], on the timer's own processor. *)
Definition timer_start (t nanoseconds : Z) : M clk unit :=
  x ← the_timer t;
  match tstate x with
  | TIMER_STOPPED =>
      modify (fun c =>
        let c := set_timer c t (MkTimer (u64 (TICKS_TO_NS (k_ticks c) + nanoseconds)) TIMER_PENDING (tcount x)) in
        set_heap c (pairing_heap_insert (timer_compare c) (k_heap c) t))
  | _ => mret tt
  end.

Definition dequeue_timer (t : Z) (c : clk) : clk :=
  set_heap c (pairing_heap_remove (timer_compare c) (k_heap c) t).

(** [timer_stop] waits for a running timer with the timer's lock held, which
    the expiry needs to finish: it never ends. *)
Definition timer_stop (t : Z) : M clk unit :=
  x ← the_timer t;
  match tstate x with
  | TIMER_STOPPED => mret tt
  | TIMER_PENDING =>
      modify (fun c => set_timer (dequeue_timer t c) t (set_tstate x TIMER_STOPPED))
  | TIMER_RUNNING => halt
  end.

(** [ipl_raise] and the first half of [ipl_lower]. *)
Definition ipl_raise (ipl : Z) : M clk Z := fun c =>
  if k_ipl c <=? ipl then (set_ipl c ipl (if IPL_DISPATCH <? ipl then false else k_intr c), Ok (k_ipl c))
  else (c, Halt).

Definition ipl_restore (ipl : Z) : M clk unit := fun c =>
  if ipl <=? k_ipl c then (set_ipl c ipl (if ipl <=? IPL_DISPATCH then true else k_intr c), Ok tt)
  else (c, Halt).

(** One round of the loop of [timer_handle_expiry]: it says whether to go on.
    The lock is released at a level that dispatches nothing. *)
Definition expire_one : M clk bool :=
  ipl ← ipl_raise IPL_HIGH;
  top ← gets (fun c => pairing_heap_top (k_heap c));
  match top with
  | None => _ ← ipl_restore ipl; mret false
  | Some t =>
      x ← the_timer t;
      now ← gets (fun c => TICKS_TO_NS (k_ticks c));
      if now <? deadline x then _ ← ipl_restore ipl; mret false
      else
        _ ← modify (fun c => set_heap c (pairing_heap_pop (timer_compare c) (k_heap c)));
        _ ← ipl_restore ipl;
        match tstate x with
        | TIMER_PENDING =>
            _ ← modify (fun c => add_fired (set_timer c t (MkTimer (deadline x) TIMER_STOPPED 1)) t);
            mret true
        | _ => mret true
        end
  end.

Fixpoint timer_handle_expiry (n : nat) : M clk unit :=
  match n with
  | O => halt
  | S n => more ← expire_one; if (more : bool) then timer_handle_expiry n else mret tt
  end.

(** ** Deferred calls *)

Definition clk_set_softint (ipl : Z) : M clk unit :=
  modify (fun c => set_view c (set_softints (k_view c) (u8 (Z.lor (v_softints (k_view c)) (Z.shiftl 1 ipl))))).
Definition clk_clear_softint (ipl : Z) : M clk unit :=
  modify (fun c => set_view c (set_softints (k_view c) (Z.land (v_softints (k_view c)) (u8 (Z.lnot (Z.shiftl 1 ipl)))))).
Definition clk_softint_pending (c : clk) (ipl : Z) : bool := negb (Z.shiftr (v_softints (k_view c)) ipl =? 0).

Definition dpc_enqueue (d : dpc_id) (arg1 arg2 : Z) : M clk unit :=
  q ← gets k_dpcs;
  if bool_decide (d ∈ q.*1) then halt
  else
    _ ← modify (fun c => set_dpcs c (q ++ [(d, (arg1, arg2))]));
    clk_set_softint IPL_DISPATCH.

(** The routine of each deferred call; [n] bounds the timers that expire. *)
Definition dpc_routine (n : nat) (d : dpc_id) (arg1 arg2 : Z) : M clk unit :=
  match d with
  | TIMER_DPC => timer_handle_expiry n
  | BALANCE_DPC => modify (fun c => set_view c (balance_load (k_view c)))
  end.

(** [dispatch_dpc_queue]: [fuel] bounds the calls, [n] the timers. *)
Fixpoint dispatch_dpc_queue (fuel n : nat) : M clk unit :=
  match fuel with
  | O => halt
  | S fuel =>
      q ← gets k_dpcs;
      match q with
      | [] => mret tt
      | (d, (arg1, arg2)) :: q =>
          _ ← modify (fun c => set_dpcs c q);
          ipl ← gets k_ipl;
          if negb (ipl =? IPL_DISPATCH) then halt
          else
            _ ← dpc_routine n d arg1 arg2;
            dispatch_dpc_queue fuel n
      end
  end.

(** ** Software interrupts *)

Definition dispatch_dpc (fuel n : nat) : M clk unit :=
  int_state ← gets k_intr;
  oldipl ← gets k_ipl;
  preempt_reason ← gets (fun c => v_reason (k_view c));
  _ ← modify (fun c => set_ipl c IPL_DISPATCH true);
  _ ← dispatch_dpc_queue fuel n;
  _ ← match preempt_reason with
      | PREEMPT_QUANTUM_END | PREEMPT_MIGRATION => modify (fun c => set_view c (sched_reschedule (k_view c)))
      | _ => mret tt
      end;
  _ ← modify (fun c => set_view c (set_vreason (k_view c) PREEMPT_NONE));
  next ← gets (fun c => v_next (k_view c));
  _ ← match next with
      | Some _ => modify (fun c => set_view c (sched_switch (k_view c)))
      | None => mret tt
      end;
  modify (fun c => set_ipl c oldipl (if (int_state : bool) then k_intr c else false)).

Definition dispatch_software_interrupts (fuel n : nat) (ipl : Z) : M clk unit :=
  pending ← gets (fun c => clk_softint_pending c ipl);
  if (pending : bool) then _ ← clk_clear_softint ipl; dispatch_dpc fuel n else mret tt.

Definition ipl_lower (fuel n : nat) (ipl : Z) : M clk unit :=
  _ ← ipl_restore ipl;
  pending ← gets (fun c => clk_softint_pending c ipl);
  if (ipl <? IPL_DISPATCH) && pending then dispatch_software_interrupts fuel n ipl else mret tt.

(** ** The clock interrupt *)

Definition hardclock : M clk unit :=
  _ ← modify (fun c => set_ticks c (u64 (k_ticks c + 1)));
  nanos ← gets (fun c => TICKS_TO_NS (k_ticks c));
  ipl ← ipl_raise IPL_HIGH;
  top ← gets (fun c => pairing_heap_top (k_heap c));
  timer_expired ← match top with
                  | None => mret false
                  | Some t => x ← the_timer t; mret (deadline x <=? nanos)
                  end;
  _ ← ipl_restore ipl;
  _ ← (if (timer_expired : bool) then dpc_enqueue TIMER_DPC 0 0 else mret tt);
  c ← gets (fun c => c);
  _ ← (if (k_core c =? 0) && (k_ticks c mod HZ =? 0) then dpc_enqueue BALANCE_DPC 0 0 else mret tt);
  _ ← modify (fun c => if v_idle (k_view c) then c else set_view c (set_vreason (k_view c) PREEMPT_QUANTUM_END));
  clk_set_softint IPL_DISPATCH.

(** [isr_handler_main] around the handler of the vector: the level is that of
    devices while it runs, the local APIC is told, and pending software
    interrupts are dispatched on the way back.  [on] is how the processor is
    part of the state the handler works on. *)
Definition isr_common {T} (on : M clk unit -> M T unit) (level : T -> Z) (serve : M T unit) (fuel n : nat) : M T unit :=
  oldipl ← gets level;
  _ ← on (modify (fun c => set_ipl c IPL_DEVICE (k_intr c)));
  _ ← serve;
  on (
    _ ← modify count_eoi;
    _ ← modify (fun c => set_ipl c oldipl (k_intr c));
    pending ← gets (fun c => clk_softint_pending c oldipl);
    if (oldipl <? IPL_DISPATCH) && pending then dispatch_software_interrupts fuel n oldipl else mret tt).

(** The interrupt of the clock: the handler of its vector is
    [amd64_hardclock]. *)
Definition clock_interrupt (fuel n : nat) : M clk unit := isr_common id k_ipl hardclock fuel n.

End Clock.

(** ** Timers expire on time *)

Section ClockOk.
Context {PH : PairingHeap} {PO : PairingHeapOk PH}.
Context (balance_load sched_reschedule sched_switch : sched_view -> sched_view).

(** The heap holds exactly the pending timers, and no timer is running. *)
Record timers_ok (c : clk) : Prop := {
  to_nodup : NoDup (ph_elems (k_heap c));
  to_wf : ph_wf (deadline_of c) (k_heap c);
  to_elems t : t ∈ ph_elems (k_heap c) <-> exists x, k_timers c !! t = Some x /\ tstate x = TIMER_PENDING;
  to_running t x : k_timers c !! t = Some x -> tstate x <> TIMER_RUNNING;
}.

Definition now (c : clk) : Z := TICKS_TO_NS (k_ticks c).

Definition due (c : clk) (t : Z) : Prop := exists x, k_timers c !! t = Some x /\ tstate x = TIMER_PENDING /\ deadline x <= now c.

Lemma deadline_of_eq (c : clk) (t : Z) (x : ktimer) : k_timers c !! t = Some x -> deadline_of c t = deadline x.
Proof. intros E. unfold deadline_of. by rewrite E. Qed.

(** The effect of one expired timer. *)
Definition fire (c : clk) (t : Z) (x : ktimer) : clk :=
  add_fired (set_timer (set_heap c (pairing_heap_pop (timer_compare c) (k_heap c))) t (MkTimer (deadline x) TIMER_STOPPED 1)) t.

Lemma set_ipl_id (c : clk) : set_ipl c (k_ipl c) (k_intr c) = c.
Proof. by destruct c. Qed.

Lemma expire_one_spec (c : clk) :
  timers_ok c -> k_ipl c = IPL_DISPATCH -> k_intr c = true ->
  (expire_one c = (c, Ok false) /\ (forall t, ~ due c t)) \/
  exists t x, pairing_heap_top (k_heap c) = Some t /\ k_timers c !! t = Some x /\ due c t /\
    (forall t', due c t' -> deadline x <= deadline_of c t') /\ expire_one c = (fire c t x, Ok true).
Proof.
  intros [Hnd Hwf Hel Hrun] Hipl Hin. pose proof (ph_top_ok _ _ Hwf) as Htop.
  assert (Hback : set_ipl (set_ipl c IPL_HIGH false) IPL_DISPATCH true = c) by (rewrite <- Hipl, <- Hin; by destruct c).
  unfold expire_one. unfold mbind, M_bind, ipl_raise. rewrite Hipl. cbn [Z.leb IPL_DISPATCH IPL_HIGH Z.compare Pos.compare Pos.compare_cont].
  unfold gets. cbn [k_heap set_ipl].
  change (IPL_DISPATCH <=? IPL_HIGH) with true. change (IPL_DISPATCH <? IPL_HIGH) with true. cbn iota.
  destruct (pairing_heap_top (k_heap c)) as [t|] eqn:Et.
  - destruct Htop as [Hin_t Hmin]. destruct (proj1 (Hel t) Hin_t) as (x & Hx & Hst).
    unfold the_timer. cbn [k_timers set_ipl]. rewrite Hx. cbn [k_ticks set_ipl]. fold (now c).
    assert (Hle : forall t', due c t' -> deadline x <= deadline_of c t').
    { intros t' (x' & Hx' & Hst' & _). rewrite <- (deadline_of_eq c t x Hx). apply Hmin, Hel. by exists x'. }
    destruct (now c <? deadline x) eqn:E; zify_bools.
    + left. unfold ipl_restore. cbn. rewrite Hback. split; [done|]. intros t' Hd. pose proof (Hle t' Hd) as H.
      destruct Hd as (x' & Hx' & _ & Hd). rewrite (deadline_of_eq c t' x' Hx') in H. lia.
    + right. exists t, x. split_and!; try done; [by exists x|]. unfold modify, ipl_restore. cbn. rewrite Hst. f_equal.
      unfold fire. rewrite <- Hipl, <- Hin. by destruct c.
  - left. unfold ipl_restore. cbn. rewrite Hback. split; [done|]. intros t (x & Hx & Hst & _).
    assert (H : t ∈ ph_elems (k_heap c)) by (apply Hel; by exists x). rewrite Htop in H. by apply elem_of_nil in H.
Qed.

Lemma fire_deadline (c : clk) (t t' : Z) (x : ktimer) :
  k_timers c !! t = Some x -> deadline_of (fire c t x) t' = deadline_of c t'.
Proof.
  intros Hx. unfold deadline_of. cbn. destruct (decide (t = t')) as [->|Hne].
  - by rewrite lookup_insert_eq, Hx.
  - by rewrite lookup_insert_ne.
Qed.

Lemma fire_ok (c : clk) (t : Z) (x : ktimer) :
  timers_ok c -> pairing_heap_top (k_heap c) = Some t -> k_timers c !! t = Some x ->
  timers_ok (fire c t x) /\ ph_elems (k_heap c) ≡ₚ t :: ph_elems (k_heap (fire c t x)) /\
  (forall t', due (fire c t x) t' <-> due c t' /\ t' <> t).
Proof.
  intros [Hnd Hwf Hel Hrun] Ht Hx. destruct (ph_pop_ok _ _ _ Hwf Ht) as [Hwf' Hperm].
  pose proof Hnd as Hnd0. rewrite Hperm in Hnd0. apply NoDup_cons in Hnd0 as [Hni Hnd'].
  assert (Hel' : forall t', t' ∈ ph_elems (pairing_heap_pop (timer_compare c) (k_heap c)) <->
            exists y, <[t := MkTimer (deadline x) TIMER_STOPPED 1]> (k_timers c) !! t' = Some y /\ tstate y = TIMER_PENDING).
  { intros t'. destruct (decide (t' = t)) as [->|Hne].
    - rewrite lookup_insert_eq. split; [done|]. by intros (y & [= <-] & ?).
    - rewrite lookup_insert_ne by done. rewrite <- Hel. rewrite Hperm, elem_of_cons. unfold timer_compare. tauto. }
  split; [split|split].
  - exact Hnd'.
  - cbn. eapply ph_wf_ext; [exact Hwf'|]. intros y _. symmetry. by apply fire_deadline.
  - exact Hel'.
  - intros t' y. cbn. intros [[_ <-]|[_ H]]%lookup_insert_Some; [done|by eapply Hrun].
  - exact Hperm.
  - intros t'. unfold due, now. cbn. destruct (decide (t' = t)) as [->|Hne].
    + rewrite lookup_insert_eq. naive_solver.
    + rewrite lookup_insert_ne by done. naive_solver.
Qed.

(** What [timer_handle_expiry] does to timers. *)
Record expiry_post (c c' : clk) (l : list Z) : Prop := {
  ep_ok : timers_ok c';
  ep_fired : k_fired c' = k_fired c ++ l;
  ep_sorted : StronglySorted (fun a b => deadline_of c a <= deadline_of c b) l;
  ep_nodup : NoDup l;
  ep_due t : t ∈ l <-> due c t;
  ep_done t x : t ∈ l -> k_timers c !! t = Some x -> k_timers c' !! t = Some (MkTimer (deadline x) TIMER_STOPPED 1);
  ep_other t : t ∉ l -> k_timers c' !! t = k_timers c !! t;
  ep_ticks : k_ticks c' = k_ticks c;
}.

Lemma expiry_post_none (c : clk) : timers_ok c -> (forall t, ~ due c t) -> expiry_post c c [].
Proof.
  intros Hok Hno. split; try done.
  - by rewrite app_nil_r.
  - constructor.
  - constructor.
  - intros t. rewrite elem_of_nil. split; [done|apply Hno].
  - intros t y Hl. by apply elem_of_nil in Hl.
Qed.

(** Only these parts of a processor matter to timers. *)
Definition same_time (c1 c2 : clk) : Prop :=
  k_heap c1 = k_heap c2 /\ k_timers c1 = k_timers c2 /\ k_fired c1 = k_fired c2 /\ k_ticks c1 = k_ticks c2.

Lemma timers_ok_same (c1 c2 : clk) : same_time c1 c2 -> timers_ok c1 -> timers_ok c2.
Proof.
  intros (E1 & E2 & _ & _) [H1 H2 H3 H4]. split; rewrite <- ?E1, <- ?E2; try done.
  unfold deadline_of in *. by rewrite <- E2.
Qed.

Lemma due_same (c1 c2 : clk) (t : Z) : same_time c1 c2 -> due c1 t <-> due c2 t.
Proof. intros (E1 & E2 & _ & E3). unfold due, now. by rewrite E2, E3. Qed.

Lemma expiry_post_same (c1 c2 d1 d2 : clk) (l : list Z) :
  same_time c1 c2 -> same_time d1 d2 -> expiry_post c1 d1 l -> expiry_post c2 d2 l.
Proof.
  intros Hc Hd [P1 P2 P3 P4 P5 P6 P7 P8]. split; [by eapply timers_ok_same|..].
  - destruct Hc as (_ & _ & <- & _), Hd as (_ & _ & <- & _). done.
  - destruct Hc as (_ & E & _ & _). unfold deadline_of in *. by rewrite <- E.
  - done.
  - intros t. by rewrite P5, (due_same c1 c2).
  - destruct Hc as (_ & <- & _ & _), Hd as (_ & <- & _ & _). done.
  - destruct Hc as (_ & <- & _ & _), Hd as (_ & <- & _ & _). done.
  - destruct Hc as (_ & _ & _ & <-), Hd as (_ & _ & _ & <-). done.
Qed.

Lemma timer_handle_expiry_spec (n : nat) (c : clk) :
  timers_ok c -> k_ipl c = IPL_DISPATCH -> k_intr c = true -> (length (ph_elems (k_heap c)) < n)%nat ->
  exists c' l, timer_handle_expiry n c = (c', Ok tt) /\ expiry_post c c' l /\
    k_ipl c' = k_ipl c /\ k_intr c' = k_intr c /\ k_dpcs c' = k_dpcs c /\ k_view c' = k_view c.
Proof.
  revert c. induction n as [|n IH]; intros c Hok Hipl Hin Hn; [lia|]. cbn [timer_handle_expiry].
  destruct (expire_one_spec c Hok Hipl Hin) as [[E Hno]|(t & x & Ht & Hx & Hdue & Hmin & E)].
  - exists c, []. rewrite (bind_ok _ _ _ _ _ E). split; [done|]. split; [|done]. by apply expiry_post_none.
  - destruct (fire_ok c t x Hok Ht Hx) as (Hok' & Hperm & Hdue').
    destruct (IH (fire c t x) Hok') as (c' & l & E' & [P1 P2 P3 P4 P5 P6 P7 P8] & Hrest); [done|done| |].
    { apply Permutation_length in Hperm. cbn [length] in Hperm. lia. }
    exists c', (t :: l). rewrite (bind_ok _ _ _ _ _ E). split; [done|]. split; [|done].
    assert (Htl : t ∉ l) by (rewrite P5, Hdue'; tauto).
    split; try done.
    + rewrite P2. cbn. by rewrite <- app_assoc.
    + constructor.
      * clear -P3 Hx. induction P3 as [|a l Hs IHl Hf]; constructor; [done|].
        eapply Forall_impl; [exact Hf|]. cbn. intros b. by rewrite !fire_deadline.
      * apply Forall_forall. intros t' Hl. rewrite (deadline_of_eq c t x Hx). apply Hmin. by apply P5, Hdue' in Hl as [? _].
    + by apply NoDup_cons.
    + intros t'. rewrite elem_of_cons, P5, Hdue'. split; [naive_solver|]. intros Hd. destruct (decide (t' = t)); tauto.
    + intros t' y [->|Hl]%elem_of_cons Hy.
      * rewrite P7 by done. cbn. rewrite lookup_insert_eq. congruence.
      * apply P6; [done|]. cbn. rewrite lookup_insert_ne; [done|]. intros ->. done.
    + intros t' [Hne Hl]%not_elem_of_cons. rewrite P7 by done. cbn. by rewrite lookup_insert_ne.
Qed.

Lemma expiry_none_due (c c' : clk) (l : list Z) : expiry_post c c' l -> forall t, ~ due c' t.
Proof.
  intros [P1 P2 P3 P4 P5 P6 P7 P8] t (x & Hx & Hst & Hd). unfold now in Hd. rewrite P8 in Hd.
  destruct (decide (t ∈ l)) as [Hl|Hl].
  - destruct (proj1 (P5 t) Hl) as (y & Hy & _). rewrite (P6 t y Hl Hy) in Hx. by injection Hx as <-.
  - rewrite P7 in Hx by done. apply Hl, P5. by exists x.
Qed.

Lemma expiry_shrinks (c c' : clk) (l : list Z) :
  timers_ok c -> expiry_post c c' l -> (length (ph_elems (k_heap c')) <= length (ph_elems (k_heap c)))%nat.
Proof.
  intros Hok [P1 P2 P3 P4 P5 P6 P7 P8]. apply submseteq_length, NoDup_submseteq; [apply P1|].
  intros t (x & Hx & Hst)%(to_elems _ P1). apply (to_elems _ Hok). destruct (decide (t ∈ l)) as [Hl|Hl].
  - destruct (proj1 (P5 t) Hl) as (y & Hy & _). rewrite (P6 t y Hl Hy) in Hx. by injection Hx as <-.
  - rewrite P7 in Hx by done. by exists x.
Qed.

Lemma expiry_then_none (c1 c2 c3 : clk) (l : list Z) : expiry_post c1 c2 l -> expiry_post c2 c3 [] -> expiry_post c1 c3 l.
Proof.
  intros [P1 P2 P3 P4 P5 P6 P7 P8] [Q1 Q2 Q3 Q4 Q5 Q6 Q7 Q8].
  assert (E : forall t, k_timers c3 !! t = k_timers c2 !! t) by (intros t; apply Q7; by apply not_elem_of_nil).
  split; try done.
  - by rewrite Q2, app_nil_r.
  - intros t x. rewrite E. apply P6.
  - intros t. rewrite E. apply P7.
  - by rewrite Q8.
Qed.

(** ** Deferred calls run and leave an empty queue *)

Lemma dispatch_dpc_queue_spec (fuel n : nat) (c : clk) :
  timers_ok c -> k_ipl c = IPL_DISPATCH -> k_intr c = true -> (length (ph_elems (k_heap c)) < n)%nat ->
  NoDup (k_dpcs c).*1 -> (length (k_dpcs c) < fuel)%nat -> (TIMER_DPC ∈ (k_dpcs c).*1 \/ forall t, ~ due c t) ->
  exists c' l, dispatch_dpc_queue balance_load fuel n c = (c', Ok tt) /\ expiry_post c c' l /\ k_dpcs c' = [] /\
    k_ipl c' = IPL_DISPATCH /\ k_intr c' = true.
Proof.
  revert c. induction fuel as [|fuel IH]; intros c Hok Hipl Hin Hn Hnd Hlen Hdue; [lia|].
  destruct (k_dpcs c) as [|[d [a1 a2]] q] eqn:Eq.
  { exists c, []. cbn. unfold mbind, M_bind, gets. rewrite Eq. split; [done|]. split_and!; try done.
    apply expiry_post_none; [done|]. destruct Hdue as [H|]; [by apply elem_of_nil in H|done]. }
  cbn in Hnd, Hlen. apply NoDup_cons in Hnd as [Hni Hnd].
  set (c1 := set_dpcs c q). assert (Hsame : same_time c c1) by done.
  assert (Hok1 : timers_ok c1) by (by eapply timers_ok_same).
  assert (Hstep : dispatch_dpc_queue balance_load (S fuel) n c =
    (_ ← dpc_routine balance_load n d a1 a2; dispatch_dpc_queue balance_load fuel n) c1).
  { cbn [dispatch_dpc_queue]. unfold mbind at 1, M_bind at 1, gets at 1. rewrite Eq.
    erewrite bind_ok by reflexivity. erewrite bind_ok by reflexivity. cbn [k_ipl set_dpcs]. rewrite Hipl. done. }
  rewrite Hstep. destruct d; cbn [dpc_routine].
  - destruct (timer_handle_expiry_spec n c1 Hok1 Hipl Hin Hn) as (c2 & l & E & Hpost & R1 & R2 & R3 & R4).
    rewrite (bind_ok _ _ _ _ _ E). destruct (IH c2) as (c3 & l3 & E3 & Hp3 & Hd3 & Hi3 & Hr3).
    + apply Hpost.
    + by rewrite R1.
    + by rewrite R2.
    + eapply Nat.le_lt_trans; [|exact Hn]. by eapply (expiry_shrinks c1).
    + by rewrite R3.
    + rewrite R3. cbn. lia.
    + right. by eapply expiry_none_due.
    + exists c3, l. split_and!; [done| |done..]. assert (l3 = []) as ->.
      { destruct l3 as [|t l3]; [done|]. exfalso. eapply expiry_none_due; [exact Hpost|]. apply (ep_due _ _ _ Hp3). left. }
      eapply expiry_post_same; [|done|by eapply expiry_then_none]. done.
  - erewrite bind_ok by reflexivity. set (c2 := set_view c1 (balance_load (k_view c1))).
    destruct (IH c2) as (c3 & l3 & E3 & Hp3 & Hd3 & Hi3 & Hr3); try done.
    + by eapply timers_ok_same.
    + cbn. lia.
    + destruct Hdue as [Ht|Hno]; [left; cbn in Ht; by apply elem_of_cons in Ht as [?|?]|by right].
    + exists c3, l3. split_and!; [done| |done..]. by eapply expiry_post_same; [| |exact Hp3].
Qed.

(** ** The clock interrupt *)

Lemma softint_set (n : Z) : u8 (Z.lor n (Z.shiftl 1 IPL_DISPATCH)) <> 0.
Proof.
  intros H. apply (f_equal (fun x => Z.testbit x 1)) in H. unfold u8 in H.
  rewrite Z.mod_pow2_bits_low, Z.lor_spec in H by lia. change (Z.testbit (Z.shiftl 1 IPL_DISPATCH) 1) with true in H.
  rewrite orb_true_r, Z.bits_0 in H. done.
Qed.

Lemma dpc_enqueue_spec (d : dpc_id) (a1 a2 : Z) (c : clk) :
  d ∉ (k_dpcs c).*1 ->
  dpc_enqueue d a1 a2 c =
  (set_view (set_dpcs c (k_dpcs c ++ [(d, (a1, a2))]))
     (set_softints (k_view c) (u8 (Z.lor (v_softints (k_view c)) (Z.shiftl 1 IPL_DISPATCH)))), Ok tt).
Proof.
  intros Hd. unfold dpc_enqueue. unfold mbind, M_bind, gets. rewrite bool_decide_false by done. done.
Qed.

(** [hardclock] at device level with an empty queue: the time advances, the
    timer call is queued exactly when a timer is due, and a software
    interrupt is pending. *)
Lemma hardclock_spec (c : clk) :
  timers_ok c -> k_ipl c = IPL_DEVICE -> k_dpcs c = [] ->
  exists c', hardclock c = (c', Ok tt) /\ same_time (set_ticks c (u64 (k_ticks c + 1))) c' /\
    NoDup (k_dpcs c').*1 /\ (length (k_dpcs c') <= 2)%nat /\
    (TIMER_DPC ∈ (k_dpcs c').*1 <-> exists t, due c' t) /\
    v_softints (k_view c') <> 0 /\
    v_reason (k_view c') = (if v_idle (k_view c) then v_reason (k_view c) else PREEMPT_QUANTUM_END).
Proof.
  intros Hok Hipl Hq. set (c1 := set_ticks c (u64 (k_ticks c + 1))).
  assert (Hok1 : timers_ok c1) by (by destruct Hok).
  set (c2 := set_ipl c1 IPL_DEVICE false).
  set (expired := match pairing_heap_top (k_heap c) with
                  | None => false
                  | Some t => deadline_of c t <=? now c1
                  end).
  assert (Hexp : expired = true <-> exists t, due c1 t).
  { pose proof (ph_top_ok _ _ (to_wf _ Hok)) as Htop. subst expired. destruct (pairing_heap_top (k_heap c)) as [t|].
    - destruct Htop as [Hin Hmin]. destruct (proj1 (to_elems _ Hok t) Hin) as (x & Hx & Hst). rewrite Z.leb_le.
      split.
      + intros Hle. exists t, x. rewrite (deadline_of_eq c t x Hx) in Hle. done.
      + intros (t' & y & Hy & Hst' & Hle). etrans; [apply (Hmin t'), (to_elems _ Hok); by exists y|].
        by rewrite (deadline_of_eq c t' y Hy).
    - split; [done|]. intros (t' & y & Hy & Hst' & _). assert (H : t' ∈ ph_elems (k_heap c)) by (apply (to_elems _ Hok); by exists y).
      rewrite Htop in H. by apply elem_of_nil in H. }
  assert (Hpre : forall (B : Type) (k : bool -> M clk B),
    (_ ← modify (fun c => set_ticks c (u64 (k_ticks c + 1)));
     nanos ← gets (fun c => TICKS_TO_NS (k_ticks c));
     ipl ← ipl_raise IPL_HIGH;
     top ← gets (fun c => pairing_heap_top (k_heap c));
     timer_expired ← match top with
                     | None => mret false
                     | Some t => x ← the_timer t; mret (deadline x <=? nanos)
                     end;
     _ ← ipl_restore ipl; k timer_expired) c = k expired c2).
  { intros B k. unfold mbind, M_bind, modify, gets, ipl_raise. fold c1. change (k_ipl c1) with (k_ipl c). rewrite Hipl.
    change (IPL_DEVICE <=? IPL_HIGH) with true. cbn iota. change (k_heap (set_ipl c1 _ _)) with (k_heap c).
    pose proof (ph_top_ok _ _ (to_wf _ Hok)) as Htop. subst expired. destruct (pairing_heap_top (k_heap c)) as [t|].
    - destruct Htop as [Hin _]. destruct (proj1 (to_elems _ Hok t) Hin) as (x & Hx & Hst).
      unfold the_timer. cbn. rewrite Hx, (deadline_of_eq c t x Hx). done.
    - done. }
  unfold hardclock. rewrite Hpre. clear Hpre.
  destruct expired.
  all: rewrite ?(bind_ok _ _ _ _ _ (dpc_enqueue_spec TIMER_DPC 0 0 c2 ltac:(cbn; rewrite Hq; apply not_elem_of_nil))).
  all: unfold mbind, M_bind, gets, mret, M_ret; cbn [k_core k_ticks set_view set_dpcs c2 set_ipl].
  all: destruct ((k_core c1 =? 0) && (k_ticks c1 mod HZ =? 0)).
  all: rewrite ?dpc_enqueue_spec by (cbn; rewrite Hq; set_solver).
  all: unfold modify, clk_set_softint; eexists; (split; [reflexivity|]).
  all: cbn; rewrite ?Hq; destruct (v_idle (k_view c)) eqn:Ei; cbn; rewrite ?Hq; cbn; split_and!; try done; try (apply softint_set); try lia.
  all: try (match goal with |- NoDup _ => repeat (apply NoDup_cons; split; [set_solver|]); constructor end).
  all: match goal with |- ?P <-> _ => change (P <-> exists t, due c1 t) end; rewrite <- Hexp, ?elem_of_cons, elem_of_nil; naive_solver.
Qed.

(** The clock interrupt on a processor that runs threads: all timers that are
    due fire, the earliest first, and no other. *)
Lemma clock_interrupt_spec (fuel n : nat) (c : clk) :
  timers_ok c -> k_ipl c = IPL_ZERO -> k_dpcs c = [] -> (2 < fuel)%nat -> (length (ph_elems (k_heap c)) < n)%nat ->
  exists c' l, clock_interrupt balance_load sched_reschedule sched_switch fuel n c = (c', Ok tt) /\
    expiry_post (set_ticks c (u64 (k_ticks c + 1))) c' l /\ k_dpcs c' = [] /\ k_ipl c' = IPL_ZERO.
Proof.
  intros Hok Hipl Hq Hf Hn. unfold clock_interrupt, isr_common, id.
  erewrite bind_ok by reflexivity. erewrite bind_ok by reflexivity. set (c0 := set_ipl c IPL_DEVICE (k_intr c)).
  destruct (hardclock_spec c0) as (c1 & E1 & Hst & Hnd & Hlen & Htd & Hsoft & _); [by eapply timers_ok_same; [|exact Hok]|done|done|].
  rewrite (bind_ok _ _ _ _ _ E1). do 2 (erewrite bind_ok by reflexivity). set (c2 := set_ipl (count_eoi c1) (k_ipl c) (k_intr (count_eoi c1))).
  unfold mbind at 1, M_bind at 1, gets at 1.
  assert (Hpend : clk_softint_pending c2 (k_ipl c) = true).
  { unfold clk_softint_pending. rewrite Hipl. cbn. unfold IPL_ZERO. rewrite Z.shiftr_0_r. by rewrite (proj2 (Z.eqb_neq _ _) Hsoft). }
  assert (Hlt : (k_ipl c <? IPL_DISPATCH) = true) by (by rewrite Hipl).
  rewrite Hpend, Hlt. cbn [andb]. unfold dispatch_software_interrupts. unfold mbind at 1, M_bind at 1, gets at 1. rewrite Hpend. erewrite bind_ok by reflexivity.
  match goal with |- context [dispatch_dpc _ _ _ _ _ ?x] => set (c3 := x) end.
  assert (Hst3 : same_time c1 c3) by done.
  assert (Hok3 : timers_ok c3).
  { eapply timers_ok_same; [exact Hst3|]. eapply timers_ok_same; [exact Hst|]. destruct Hok; by split. }
  unfold dispatch_dpc. do 3 (erewrite bind_ok by reflexivity). erewrite bind_ok by reflexivity.
  set (c4 := set_ipl c3 IPL_DISPATCH true).
  assert (Hheap : k_heap c4 = k_heap c) by (destruct Hst as (E & _); exact (eq_sym E)).
  destruct (dispatch_dpc_queue_spec fuel n c4) as (c5 & l & E5 & Hp5 & Hd5 & Hi5 & Hr5); try done.
  - by eapply timers_ok_same; [|exact Hok3].
  - by rewrite Hheap.
  - cbn. lia.
  - destruct (decide (TIMER_DPC ∈ (k_dpcs c4).*1)) as [?|Hnt]; [by left|right]. intros t Hd. apply Hnt, Htd.
    exists t. by apply (due_same c1 c4).
  - rewrite (bind_ok _ _ _ _ _ E5).
    assert (Hpost : expiry_post (set_ticks c (u64 (k_ticks c + 1))) c5 l).
    { eapply expiry_post_same; [|done|exact Hp5]. destruct Hst as (H1 & H2 & H3 & H4).
      split_and!; symmetry; [exact H1|exact H2|exact H3|exact H4]. }
    unfold mbind, M_bind, modify, gets, mret, M_ret.
    destruct (v_reason (k_view c3)); cbn; (destruct (v_next _));
      (eexists; exists l; split; [reflexivity|]; split; [eapply expiry_post_same; [| |exact Hpost]; done|done]).
Qed.

(** ** Starting and stopping timers *)

Lemma timer_start_spec (c : clk) (t ns : Z) (x : ktimer) :
  timers_ok c -> k_timers c !! t = Some x -> tstate x = TIMER_STOPPED ->
  exists c', timer_start t ns c = (c', Ok tt) /\ timers_ok c' /\
    k_timers c' = <[t := MkTimer (u64 (now c + ns)) TIMER_PENDING (tcount x)]> (k_timers c) /\
    ph_elems (k_heap c') ≡ₚ t :: ph_elems (k_heap c) /\ k_ticks c' = k_ticks c /\ k_fired c' = k_fired c /\
    k_dpcs c' = k_dpcs c /\ k_ipl c' = k_ipl c.
Proof.
  intros [Hnd Hwf Hel Hrun] Hx Hst. unfold timer_start.
  rewrite (bind_ok (the_timer t) _ c c x) by (unfold the_timer; by rewrite Hx). rewrite Hst.
  eexists. split; [reflexivity|]. fold (now c). set (y := MkTimer (u64 (now c + ns)) TIMER_PENDING (tcount x)).
  set (c1 := set_timer c t y).
  assert (Hni : t ∉ ph_elems (k_heap c)).
  { intros (z & Hz & Hsz)%Hel. rewrite Hx in Hz. injection Hz as <-. congruence. }
  assert (Hwf1 : ph_wf (deadline_of c1) (k_heap c)).
  { eapply ph_wf_ext; [exact Hwf|]. intros z Hz. unfold deadline_of. cbn. by rewrite lookup_insert_ne by (intros ->; done). }
  destruct (ph_insert_ok _ _ t Hwf1 Hni) as [Hwf2 Hperm].
  split; [|split; [done|split; [exact Hperm|done]]]. split.
  - cbn. unfold timer_compare. fold c1. rewrite Hperm. by apply NoDup_cons.
  - exact Hwf2.
  - intros z. cbn. unfold timer_compare. fold c1. rewrite Hperm, elem_of_cons. destruct (decide (z = t)) as [->|Hne].
    + rewrite lookup_insert_eq. naive_solver.
    + rewrite lookup_insert_ne, Hel by done. naive_solver.
  - intros z w. cbn. intros [[_ <-]|[_ H]]%lookup_insert_Some; [done|by eapply Hrun].
Qed.

Lemma timer_stop_spec (c : clk) (t : Z) (x : ktimer) :
  timers_ok c -> k_timers c !! t = Some x ->
  exists c', timer_stop t c = (c', Ok tt) /\ timers_ok c' /\
    k_timers c' = <[t := set_tstate x TIMER_STOPPED]> (k_timers c) /\
    (forall z, z ∈ ph_elems (k_heap c') <-> z ∈ ph_elems (k_heap c) /\ z <> t) /\ k_ticks c' = k_ticks c /\ k_fired c' = k_fired c /\
    k_dpcs c' = k_dpcs c /\ k_ipl c' = k_ipl c.
Proof.
  intros Hok Hx. pose proof Hok as [Hnd Hwf Hel Hrun]. unfold timer_stop.
  rewrite (bind_ok (the_timer t) _ c c x) by (unfold the_timer; by rewrite Hx).
  destruct (tstate x) eqn:Est; [by destruct (Hrun t x Hx)| |].
  - assert (Hin : t ∈ ph_elems (k_heap c)) by (apply Hel; by exists x).
    destruct (ph_remove_ok _ _ _ Hwf Hin) as [Hwf' Hperm]. pose proof Hnd as Hnd0. rewrite Hperm in Hnd0.
    apply NoDup_cons in Hnd0 as [Hni Hnd']. fold (timer_compare c) in Hwf', Hperm, Hni, Hnd'.
    assert (Hmem : forall z, z ∈ ph_elems (pairing_heap_remove (timer_compare c) (k_heap c) t) <-> z ∈ ph_elems (k_heap c) /\ z <> t).
    { intros z. rewrite Hperm, elem_of_cons. destruct (decide (z = t)) as [->|]; tauto. }
    eexists. split; [reflexivity|]. split; [split|done].
    + exact Hnd'.
    + cbn. eapply ph_wf_ext; [exact Hwf'|]. intros z Hz. unfold deadline_of. cbn. by rewrite lookup_insert_ne by (intros ->; done).
    + intros z. cbn. rewrite Hmem. destruct (decide (z = t)) as [->|Hne].
      * rewrite lookup_insert_eq. naive_solver.
      * rewrite lookup_insert_ne by done. rewrite Hel. tauto.
    + intros z w. cbn. intros [[_ <-]|[_ H]]%lookup_insert_Some; [done|by eapply Hrun].
  - exists c. split; [done|]. split; [done|]. split; [|split; [|done]].
    + symmetry. apply insert_id. rewrite Hx. f_equal. unfold set_tstate. destruct x; cbn in *. by subst.
    + intros z. split; [|tauto]. intros Hz. split; [done|]. intros ->. apply Hel in Hz as (y & Hy & Hsy). congruence.
Qed.

(** C7: the clock interrupt, taken while the processor runs threads with no
    deferred call queued, advances the time by one tick and returns with an
    empty queue of deferred calls; the pending timers whose deadline has come
    are exactly the ones that fire, in the order of their deadlines, and each
    of them ends stopped and signaled. *)
Theorem clock_interrupt_correct (fuel n : nat) (c : clk) :
  timers_ok c -> k_ipl c = IPL_ZERO -> k_dpcs c = [] -> (2 < fuel)%nat -> (length (ph_elems (k_heap c)) < n)%nat ->
  let c1 := set_ticks c (u64 (k_ticks c + 1)) in
  exists c' l, clock_interrupt balance_load sched_reschedule sched_switch fuel n c = (c', Ok tt) /\
    timers_ok c' /\ k_ticks c' = k_ticks c1 /\ k_dpcs c' = [] /\ k_ipl c' = IPL_ZERO /\
    k_fired c' = k_fired c ++ l /\ (forall t, t ∈ l <-> due c1 t) /\ NoDup l /\
    StronglySorted (fun a b => deadline_of c a <= deadline_of c b) l /\
    (forall t x, t ∈ l -> k_timers c !! t = Some x -> k_timers c' !! t = Some (MkTimer (deadline x) TIMER_STOPPED 1)) /\
    (forall t, t ∉ l -> k_timers c' !! t = k_timers c !! t).
Proof.
  intros Hok Hipl Hq Hf Hn c1.
  destruct (clock_interrupt_spec fuel n c Hok Hipl Hq Hf Hn) as (c' & l & E & [P1 P2 P3 P4 P5 P6 P7 P8] & Hd & Hi).
  exists c', l. split_and!; done.
Qed.

(** a stopped timer that is started is pending with the deadline asked
    for, and when the deadline does not wrap it cannot fire before it; when it
    is stopped again it is in no heap and all other timers are as before. *)
Theorem timer_start_stop_correct (c : clk) (t ns : Z) (x : ktimer) :
  timers_ok c -> k_timers c !! t = Some x -> tstate x = TIMER_STOPPED -> 0 < ns -> now c + ns < 2 ^ 64 ->
  exists c1 c2, timer_start t ns c = (c1, Ok tt) /\ timer_stop t c1 = (c2, Ok tt) /\
    timers_ok c1 /\ timers_ok c2 /\ t ∈ ph_elems (k_heap c1) /\ deadline_of c1 t = now c + ns /\ ~ due c1 t /\
    (forall z, z ∈ ph_elems (k_heap c2) <-> z ∈ ph_elems (k_heap c)) /\
    (forall z, z <> t -> k_timers c2 !! z = k_timers c !! z).
Proof.
  intros Hok Hx Hst Hns Hw. destruct (timer_start_spec c t ns x Hok Hx Hst) as (c1 & E1 & Hok1 & Ht1 & He1 & Hk1 & _).
  assert (Hn0 : 0 <= now c) by (unfold now, TICKS_TO_NS; apply u64_range).
  assert (Hx1 : k_timers c1 !! t = Some (MkTimer (now c + ns) TIMER_PENDING (tcount x))).
  { rewrite Ht1, lookup_insert_eq, u64_small by lia. done. }
  destruct (timer_stop_spec c1 t _ Hok1 Hx1) as (c2 & E2 & Hok2 & Ht2 & He2 & _).
  assert (Hni : t ∉ ph_elems (k_heap c)).
  { intros (z & Hz & Hsz)%(to_elems _ Hok). rewrite Hx in Hz. injection Hz as <-. congruence. }
  exists c1, c2. split_and!; try done.
  - rewrite He1. left.
  - by rewrite (deadline_of_eq c1 t _ Hx1).
  - intros (z & Hz & _ & Hd). rewrite Hx1 in Hz. injection Hz as <-. cbn in Hd. unfold now in *. rewrite Hk1 in Hd. lia.
  - intros z. rewrite He2, He1, elem_of_cons. destruct (decide (z = t)) as [->|]; tauto.
  - intros z Hne. rewrite Ht2, Ht1, !lookup_insert_ne by done. done.
Qed.

End ClockOk.

(** ** Concrete runs *)

Definition demo_view : sched_view := MkView false None PREEMPT_NONE 0.

(** Two timers due at the next tick and one later. *)
Definition demo_clk : clk :=
  MkClk 1 IPL_ZERO true 6 [3; 1; 2] [] demo_view
    {[ 1 := MkTimer 70000000 TIMER_PENDING 0; 2 := MkTimer 90000000 TIMER_PENDING 0;
       3 := MkTimer 65000000 TIMER_PENDING 0; 4 := timer_init ]} [] 0.

Lemma demo_clk_ok : timers_ok demo_clk.
Proof.
  split.
  - apply (bool_decide_unpack _). vm_compute. exact I.
  - unfold HeapRef.sorted. cbn. repeat (constructor; [|repeat constructor; vm_compute; discriminate]). constructor.
  - intros t. cbn. split.
    + intros H. repeat (apply elem_of_cons in H as [->|H]; [eexists; split; [vm_compute; reflexivity|reflexivity]|]).
      by apply elem_of_nil in H.
    + intros (x & Hx & Hst). unfold demo_clk in Hx. cbn in Hx.
      repeat (apply lookup_insert_Some in Hx as [[<- <-]|[_ Hx]]; [first [set_solver|done]|]).
      apply lookup_singleton_Some in Hx as [<- <-]. done.
  - intros t x Hx. cbn in Hx.
    repeat (apply lookup_insert_Some in Hx as [[<- <-]|[_ Hx]]; [done|]).
    apply lookup_singleton_Some in Hx as [<- <-]. done.
Qed.

Lemma clock_interrupt_correct_witness :
  exists c' l, clock_interrupt id id id 3 4 demo_clk = (c', Ok tt) /\ k_fired c' = l /\ (forall t, t ∈ l <-> due (set_ticks demo_clk 7) t).
Proof.
  destruct (clock_interrupt_correct id id id 3 4 demo_clk) as (c' & l & E & _ & _ & _ & _ & Hf & Hl & _).
  - exact demo_clk_ok.
  - reflexivity.
  - reflexivity.
  - lia.
  - cbn. lia.
  - exists c', l. split; [exact E|]. split; [exact Hf|exact Hl].
Defined.

Example demo_fires : k_fired (fst (clock_interrupt id id id 3 4 demo_clk)) = [3; 1].
Proof. vm_compute. reflexivity. Qed.

Lemma timer_start_stop_correct_witness :
  exists c1 c2, timer_start 4 5000000 demo_clk = (c1, Ok tt) /\ timer_stop 4 c1 = (c2, Ok tt) /\ deadline_of c1 4 = 65000000.
Proof.
  destruct (timer_start_stop_correct demo_clk 4 5000000 timer_init) as (c1 & c2 & E1 & E2 & _ & _ & _ & Hd & _).
  - exact demo_clk_ok.
  - vm_compute. reflexivity.
  - reflexivity.
  - lia.
  - vm_compute. reflexivity.
  - exists c1, c2. split; [exact E1|]. split; [exact E2|exact Hd].
Defined.

(** ** Behaviours worth knowing *)

(** [dispatch_software_interrupts] clears the bit of the level it returns to,
    not the one of the interrupt it serves: the dispatch interrupt stays
    pending, and every later [ipl_lower] dispatches again. *)
Lemma softint_stays_pending :
  v_softints (k_view (fst (clock_interrupt id id id 3 4 demo_clk))) = 2 /\
  v_softints (k_view (fst (ipl_lower id id id 3 4 IPL_ZERO (fst (clock_interrupt id id id 3 4 demo_clk))))) = 2.
Proof. split; vm_compute; reflexivity. Qed.

(** A processor that stays at dispatch level for two ticks with a timer due
    queues the same deferred call twice. *)
Lemma dpc_queued_twice :
  let c := set_ipl demo_clk IPL_DISPATCH true in
  let r := (_ ← clock_interrupt id id id 3 4; clock_interrupt id id id 3 4) c in
  (k_dpcs (fst (clock_interrupt id id id 3 4 c))).*1 = [TIMER_DPC] /\ snd r = Halt.
Proof. split; vm_compute; reflexivity. Qed.

(** A timeout close to the largest value wraps around: the timer fires at the
    next tick. *)
Lemma timer_deadline_wraps :
  let c := fst (timer_start 4 (2 ^ 64 - 10000000) demo_clk) in
  deadline_of c 4 = 50000000 /\ 4 ∈ k_fired (fst (clock_interrupt id id id 3 5 c)).
Proof. split; [vm_compute; reflexivity|]. apply (bool_decide_unpack _). vm_compute. exact I. Qed.
