(* ===== verification/Timers.v ===== *)
(** * Timers over time ([core/timer.c] and the timer test of [sync_test.c])

    [Clock] says what one clock interrupt does.  Here a processor takes clock
    interrupts between calls that start and stop timers, in any order, and the
    theorem says when a timer fires that is left alone: once, at the first
    tick at which the time asked for has passed.  The timer test is the
    program the kernel runs at its start. *)

From S2P Require Import Prelude Aria Ule Clock.

(** What happens to the timers of a processor. *)
Inductive tevent :=
  | ETick
  | EStart (t nanoseconds : Z)
  | EStop (t : Z).

(** The nanoseconds of a tick. *)
Definition TICK : Z := NANOSECONDS_PER_SECOND / HZ.

Definition ticks_of (e : tevent) : Z := match e with ETick => 1 | _ => 0 end.
Fixpoint elapsed (es : list tevent) : Z := match es with [] => 0 | e :: es => ticks_of e + elapsed es end.

Definition touches (t : Z) (e : tevent) : Prop :=
  match e with ETick => False | EStart t' _ | EStop t' => t' = t end.
Definition names_timer (m : gmap Z ktimer) (e : tevent) : Prop :=
  match e with ETick => True | EStart t _ | EStop t => is_Some (m !! t) end.

Lemma elapsed_nonneg (es : list tevent) : 0 <= elapsed es.
Proof. induction es as [|[]]; cbn; lia. Qed.

Section Timers.
Context {PH : PairingHeap} {PO : PairingHeapOk PH}.
Context (balance_load sched_reschedule sched_switch : sched_view -> sched_view).

(** [n] bounds the timers of the processor. *)
Definition do_event (n : nat) (e : tevent) : M clk unit :=
  match e with
  | ETick => clock_interrupt balance_load sched_reschedule sched_switch 3 n
  | EStart t nanoseconds => timer_start t nanoseconds
  | EStop t => timer_stop t
  end.

Fixpoint do_events (n : nat) (es : list tevent) : M clk unit :=
  match es with
  | [] => mret tt
  | e :: es => _ ← do_event n e; do_events n es
  end.

(** Between two events the processor runs threads and no call is deferred. *)
Record quiet (n : nat) (c : clk) : Prop := {
  q_timers : timers_ok c;
  q_ipl : k_ipl c = IPL_ZERO;
  q_dpcs : k_dpcs c = [];
  q_size : (size (k_timers c) < n)%nat;
}.

Lemma heap_le_timers (c : clk) : timers_ok c -> (length (ph_elems (k_heap c)) <= size (k_timers c))%nat.
Proof.
  intros [Hnd _ Hel _]. rewrite <- (size_list_to_set (C := gset Z)) by done. rewrite <- size_dom.
  apply subseteq_size. intros t Ht%elem_of_list_to_set. apply Hel in Ht as (x & Hx & _). by apply elem_of_dom_2 in Hx.
Qed.

(** What an event does: [l] are the timers it fires. *)
Record event_post (n : nat) (e : tevent) (c c' : clk) (l : list Z) : Prop := {
  ev_quiet : quiet n c';
  ev_ticks : k_ticks c' = u64 (k_ticks c + ticks_of e);
  ev_fired : k_fired c' = k_fired c ++ l;
  ev_nodup : NoDup l;
  ev_dom : dom (k_timers c') = dom (k_timers c);
  ev_due t : t ∈ l <-> e = ETick /\ due (set_ticks c (u64 (k_ticks c + 1))) t;
  ev_timer t x : ~ touches t e -> k_timers c !! t = Some x ->
    k_timers c' !! t = Some (if decide (t ∈ l) then MkTimer (deadline x) TIMER_STOPPED 1 else x);
}.

(** An event that changes one timer and fires none. *)
Lemma event_post_one (n : nat) (e : tevent) (c c' : clk) (t : Z) (x : ktimer) :
  quiet n c -> timers_ok c' -> touches t e -> is_Some (k_timers c !! t) -> 0 <= k_ticks c < 2 ^ 64 ->
  k_timers c' = <[t := x]> (k_timers c) -> k_ticks c' = k_ticks c -> k_fired c' = k_fired c ->
  k_dpcs c' = k_dpcs c -> k_ipl c' = k_ipl c -> event_post n e c c' [].
Proof.
  intros [Hok Hipl Hq Hn] Hok' Ht [y Hy] Hr Hm Hk Hf Hd Hi.
  assert (Hdom : dom (k_timers c') = dom (k_timers c)) by (rewrite Hm; apply dom_insert_lookup_L; by exists y).
  assert (Hnt : e <> ETick /\ ticks_of e = 0) by (by destruct e). destruct Hnt as [Hnt Hte].
  split.
  - split; [done|congruence|congruence|]. by rewrite <- size_dom, Hdom, size_dom.
  - by rewrite Hk, Hte, Z.add_0_r, u64_small.
  - by rewrite app_nil_r.
  - constructor.
  - done.
  - intros t'. rewrite elem_of_nil. tauto.
  - intros t' z Hnz Hz. rewrite Hm, decide_False by apply not_elem_of_nil. rewrite lookup_insert_ne; [done|].
    intros ->. done.
Qed.

Lemma event_ok (n : nat) (e : tevent) (c : clk) :
  quiet n c -> names_timer (k_timers c) e -> 0 <= k_ticks c < 2 ^ 64 ->
  exists c' l, do_event n e c = (c', Ok tt) /\ event_post n e c c' l.
Proof.
  intros Hq Hname Hr. pose proof Hq as [Hok Hipl Hd Hn]. destruct e as [|t ns|t]; cbn [do_event].
  - pose proof (heap_le_timers c Hok) as Hle.
    destruct (clock_interrupt_spec balance_load sched_reschedule sched_switch 3 n c) as (c' & l & E & P & Hd' & Hi'); try done; try lia.
    exists c', l. split; [done|]. destruct P as [P1 P2 P3 P4 P5 P6 P7 P8].
    assert (Hall : forall t x, k_timers c !! t = Some x ->
              k_timers c' !! t = Some (if decide (t ∈ l) then MkTimer (deadline x) TIMER_STOPPED 1 else x)).
    { intros t x Hx. destruct (decide (t ∈ l)); [by apply P6|]. by rewrite P7. }
    assert (Hdom : dom (k_timers c') = dom (k_timers c)).
    { apply set_eq. intros t. rewrite !elem_of_dom. destruct (k_timers c !! t) as [x|] eqn:Hx.
      - rewrite (Hall t x Hx). split; eauto.
      - rewrite P7; [by rewrite <- Hx|]. rewrite P5. intros (x & Hx' & _). cbn in Hx'. congruence. }
    split; try done.
    + split; try done. by rewrite <- size_dom, Hdom, size_dom.
    + intros t. rewrite P5. tauto.
    + intros t x _. apply Hall.
  - destruct Hname as [x Hx]. destruct (tstate x) eqn:Hst; [by destruct (to_running _ Hok t x Hx)| |].
    + exists c, []. split; [unfold timer_start, the_timer, mbind, M_bind; by rewrite Hx, Hst|].
      eapply (event_post_one n _ c c t x); try done. symmetry. by apply insert_id.
    + destruct (timer_start_spec c t ns x Hok Hx Hst) as (c' & E & Hok' & Hm & _ & Hk & Hf & Hd' & Hi'). exists c', [].
      split; [done|]. by eapply event_post_one.
  - destruct Hname as [x Hx]. destruct (timer_stop_spec c t x Hok Hx) as (c' & E & Hok' & Hm & _ & Hk & Hf & Hd' & Hi').
    exists c', []. split; [done|]. by eapply event_post_one.
Qed.

Lemma event_names (n : nat) (e : tevent) (c c' : clk) (l : list Z) (es : list tevent) :
  event_post n e c c' l -> Forall (names_timer (k_timers c)) es -> Forall (names_timer (k_timers c')) es.
Proof.
  intros P Hes. eapply Forall_impl; [exact Hes|]. intros [|t ns|t]; cbn; rewrite <- ?elem_of_dom, ?(ev_dom _ _ _ _ _ P); done.
Qed.

(** A timer that is due fires in the tick of an event. *)
Lemma event_timer (n : nat) (e : tevent) (c c' : clk) (l : list Z) (t : Z) (x : ktimer) :
  event_post n e c c' l -> ~ touches t e -> k_timers c !! t = Some x -> 0 <= k_ticks c ->
  (k_ticks c + 1) * TICK < 2 ^ 64 ->
  (t ∈ l <-> tstate x = TIMER_PENDING /\ ticks_of e = 1 /\ deadline x <= (k_ticks c + ticks_of e) * TICK) /\
  (filter (eq t) l = if decide (t ∈ l) then [t] else []) /\ k_ticks c' = k_ticks c + ticks_of e.
Proof.
  intros P Hnt Hx H0 Hw. assert (Ht : 0 < TICK) by reflexivity. assert (Hk : k_ticks c + 1 < 2 ^ 64) by nia. split; [|split].
  - rewrite (ev_due _ _ _ _ _ P). unfold due, now, TICKS_TO_NS. cbn [k_timers k_ticks set_ticks]. fold TICK.
    rewrite (u64_small (k_ticks c + 1)), (u64_small ((k_ticks c + 1) * TICK)) by nia.
    destruct e; cbn; [|naive_solver lia..]. rewrite Hx. naive_solver.
  - pose proof (ev_nodup _ _ _ _ _ P) as Hnd. clear -Hnd. induction Hnd as [|a l Ha Hl IH]; [done|].
    rewrite filter_cons. destruct (decide (t = a)) as [->|Hne].
    + rewrite IH, decide_False by done. by rewrite decide_True by left.
    + rewrite IH. apply decide_ext. rewrite elem_of_cons. tauto.
  - rewrite (ev_ticks _ _ _ _ _ P). apply u64_small. destruct e; cbn; lia.
Qed.

(** Whether a pending timer is due after the events. *)
Definition fires (x : ktimer) (c : clk) (es : list tevent) : Prop :=
  tstate x = TIMER_PENDING /\ 0 < elapsed es /\ deadline x <= (k_ticks c + elapsed es) * TICK.
#[local] Instance fires_dec x c es : Decision (fires x c es).
Proof. unfold fires. apply _. Defined.

Lemma fires_step (e : tevent) (es : list tevent) (x : ktimer) (c c1 : clk) :
  k_ticks c1 = k_ticks c + ticks_of e -> 0 <= k_ticks c ->
  let due_now := tstate x = TIMER_PENDING /\ ticks_of e = 1 /\ deadline x <= (k_ticks c + ticks_of e) * TICK in
  (due_now -> fires x c (e :: es)) /\ (~ due_now -> fires x c1 es <-> fires x c (e :: es)).
Proof.
  assert (HT : 0 < TICK) by reflexivity. intros Hk H0. cbn zeta. unfold fires. cbn [elapsed]. rewrite Hk.
  pose proof (elapsed_nonneg es) as Hes. assert (He : 0 <= ticks_of e <= 1) by (destruct e; cbn; lia). split.
  - intros (Hp & Htk & Hdl). split_and!; [done|lia|nia].
  - intros Hno. rewrite <- Z.add_assoc. split; [intros (?&?&?); split_and!; done || lia|]. intros (Hp & Hpos & Hdl).
    split; [done|]. split; [|done]. apply Z.nle_gt. intros Hz. apply Hno.
    assert (Hz0 : elapsed es = 0) by lia. rewrite Hz0, Z.add_0_r in *. split_and!; [done|lia|done].
Qed.

Lemma do_events_timer (n : nat) (es : list tevent) (t : Z) (c : clk) (x : ktimer) :
  quiet n c -> Forall (names_timer (k_timers c)) es -> Forall (fun e => ~ touches t e) es ->
  k_timers c !! t = Some x -> 0 <= k_ticks c -> (k_ticks c + elapsed es + 1) * TICK < 2 ^ 64 ->
  exists c' l, do_events n es c = (c', Ok tt) /\ quiet n c' /\ k_fired c' = k_fired c ++ l /\
    k_ticks c' = k_ticks c + elapsed es /\
    filter (eq t) l = (if decide (fires x c es) then [t] else []) /\
    k_timers c' !! t = Some (if decide (fires x c es) then MkTimer (deadline x) TIMER_STOPPED 1 else x).
Proof.
  assert (HT : 0 < TICK) by reflexivity. intros Hq Hn Ht Hx H0 Hw.
  revert c x Hq Hn Hx H0 Hw. induction Ht as [|e es Hte Ht IH]; intros c x Hq Hn Hx H0 Hw.
  - exists c, []. unfold fires. cbn. rewrite app_nil_r, !decide_False by lia. split_and!; done || lia.
  - apply Forall_cons in Hn as [Hn1 Hn]. cbn [elapsed] in Hw. pose proof (elapsed_nonneg es) as Hes.
    assert (He : 0 <= ticks_of e <= 1) by (destruct e; cbn; lia).
    destruct (event_ok n e c Hq Hn1) as (c1 & l1 & E1 & P); [nia|].
    destruct (event_timer n e c c1 l1 t x P Hte Hx H0) as (Hl1 & Hf1 & Hk1); [nia|].
    pose proof (ev_timer _ _ _ _ _ P t x Hte Hx) as Hx1.
    destruct (IH c1 _ (ev_quiet _ _ _ _ _ P) (event_names _ _ _ _ _ _ P Hn) Hx1) as (c2 & l2 & E2 & Hq2 & F2 & K2 & L2 & X2); [lia| |].
    { rewrite Hk1. nia. }
    exists c2, (l1 ++ l2). cbn [do_events elapsed]. rewrite (bind_ok _ _ _ _ _ E1). split; [exact E2|]. split; [done|].
    split; [by rewrite F2, (ev_fired _ _ _ _ _ P), app_assoc|]. split; [lia|]. rewrite filter_app, Hf1, L2, X2.
    destruct (fires_step e es x c c1 Hk1) as [Hnow Hlater]; [lia|]. rewrite <- Hl1 in Hnow, Hlater.
    destruct (decide (t ∈ l1)) as [Hl|Hl].
    + rewrite !(decide_True (P := fires x c (e :: es))) by auto. rewrite !decide_False by (intros [? _]; done). done.
    + rewrite !(decide_ext (fires x c1 es) (fires x c (e :: es))) by auto. done.
Qed.

(** C16: a timer that is stopped and is started for [ns] nanoseconds fires on
    time.  Let the processor then take any sequence of clock interrupts and of
    starts and stops of other timers: every one of them returns, and the timer
    has fired exactly when at least one tick has passed and the ticks since
    make up [ns] nanoseconds.  It has fired then only once, and is stopped and
    signaled; until then it is pending with its deadline. *)
Theorem timer_fires_on_time (n : nat) (c : clk) (t ns : Z) (x : ktimer) (es : list tevent) :
  quiet n c -> k_timers c !! t = Some x -> tstate x = TIMER_STOPPED ->
  0 <= ns -> 0 <= k_ticks c -> k_ticks c * TICK + ns < 2 ^ 64 -> (k_ticks c + elapsed es + 1) * TICK < 2 ^ 64 ->
  Forall (names_timer (k_timers c)) es -> Forall (fun e => ~ touches t e) es ->
  exists c' l, do_events n (EStart t ns :: es) c = (c', Ok tt) /\ quiet n c' /\ k_fired c' = k_fired c ++ l /\
    if decide (0 < elapsed es /\ ns <= elapsed es * TICK)
    then filter (eq t) l = [t] /\ k_timers c' !! t = Some (MkTimer (k_ticks c * TICK + ns) TIMER_STOPPED 1)
    else filter (eq t) l = [] /\ k_timers c' !! t = Some (MkTimer (k_ticks c * TICK + ns) TIMER_PENDING (tcount x)).
Proof.
  assert (HT : 0 < TICK) by reflexivity. intros Hq Hx Hst Hns H0 Hw Hw2 Hn Ht. pose proof (elapsed_nonneg es) as Hes.
  destruct (timer_start_spec c t ns x (q_timers _ _ Hq) Hx Hst) as (c1 & E1 & Hok1 & Hm1 & _ & Hk1 & Hf1 & Hd1 & Hi1).
  assert (Hnow : u64 (now c + ns) = k_ticks c * TICK + ns).
  { unfold now, TICKS_TO_NS. fold TICK. rewrite (u64_small (k_ticks c * TICK)) by nia. apply u64_small. nia. }
  rewrite Hnow in Hm1.
  assert (P : event_post n (EStart t ns) c c1 []) by (eapply event_post_one; try done; nia).
  destruct (do_events_timer n es t c1 _ (ev_quiet _ _ _ _ _ P) (event_names _ _ _ _ _ _ P Hn) Ht
              (eq_trans (f_equal _ Hm1) (lookup_insert_eq _ _ _))) as (c2 & l & E2 & Hq2 & F2 & K2 & L2 & X2); [lia| |].
  { by rewrite Hk1. }
  exists c2, l. cbn [do_events do_event]. rewrite (bind_ok _ _ _ _ _ E1). split_and!; [done|done|congruence|].
  assert (Hiff : fires (MkTimer (k_ticks c * TICK + ns) TIMER_PENDING (tcount x)) c1 es <-> 0 < elapsed es /\ ns <= elapsed es * TICK).
  { unfold fires. cbn [tstate deadline]. rewrite Hk1, Z.mul_add_distr_r. split; [intros (_ & ? & ?); lia|intros []; split_and!; done || lia]. }
  rewrite L2, X2. do 2 case_decide; try done; tauto.
Qed.

(** ** The timer test *)

(** The addresses of [timer] and [other_timer]. *)
Definition timer : Z := 0.
Definition other_timer : Z := 1.

(** [timer_test] initializes both timers; each thread then starts its timer
    and waits for it. *)
Definition timer_test : M clk unit :=
  _ ← modify (fun c => set_timer c timer timer_init);
  modify (fun c => set_timer c other_timer timer_init).
Definition timer1 : M clk unit := timer_start timer (NANOSECONDS_PER_SECOND * 4).
Definition timer2 : M clk unit :=
  _ ← modify (fun c => set_timer c other_timer timer_init);
  timer_start other_timer NANOSECONDS_PER_SECOND.

End Timers.

(** ** Concrete runs *)

Definition run_timers : nat -> list tevent -> M clk unit := do_events id id id.

Lemma demo_clk_quiet : quiet 5 demo_clk.
Proof. split; [exact demo_clk_ok|reflexivity|reflexivity|vm_compute; lia]. Qed.

(** A timer started for 15ms between others, over two ticks. *)
Lemma timer_fires_on_time_witness :
  exists c' l, run_timers 5 [EStart 4 15000000; ETick; EStop 1; EStart 3 1; ETick] demo_clk = (c', Ok tt) /\
    k_fired c' = l /\ filter (eq 4) l = [4].
Proof.
  destruct (timer_fires_on_time id id id 5 demo_clk 4 15000000 timer_init [ETick; EStop 1; EStart 3 1; ETick])
    as (c' & l & E & _ & F & H).
  - exact demo_clk_quiet.
  - vm_compute. reflexivity.
  - reflexivity.
  - lia.
  - cbn. lia.
  - vm_compute. reflexivity.
  - vm_compute. reflexivity.
  - repeat constructor; cbn; try exact I; eexists; vm_compute; reflexivity.
  - repeat constructor; cbn; lia.
  - exists c', l. split; [exact E|]. split; [exact F|]. rewrite decide_True in H by (split; vm_compute; done). apply H.
Defined.

(** The timer test on a processor without other timers: the second thread's
    timer fires a second after its start and the first thread's after four. *)
Definition test_run (k : nat) : list Z :=
  k_fired (fst ((_ ← timer_test; _ ← timer1; _ ← run_timers 3 [ETick; ETick]; _ ← timer2; run_timers 3 (replicate k ETick))
    (MkClk 1 IPL_ZERO true 0 [] [] demo_view ∅ [] 0))).

Example timer_test_runs :
  (test_run 99, test_run 100, test_run 397, test_run 398, test_run 1000)
  = ([], [other_timer], [other_timer], [other_timer; timer], [other_timer; timer]).
Proof. vm_compute. reflexivity. Qed.
