(* ===== verification/Irq.v ===== *)
(** * Interrupts ([arch/amd64/idt.c], [core/irq.c])

    The interrupt descriptor table, the table of vectors and their handlers,
    the common interrupt routine, and the user-supplied handlers ("cortexes")
    with the list of anchors they serve. *)

From S2P Require Import Prelude Aria Ule Clock.

(** ** The descriptor table *)

Record idt_descriptor := MkDesc {
  offset_low : Z;
  desc_cs : Z;
  desc_ist : Z;
  desc_attributes : Z;
  offset_mid : Z;
  offset_high : Z;
  desc_zero : Z;
}.

Definition no_descriptor : idt_descriptor := MkDesc 0 0 0 0 0 0 0.

Definition set_idt_descriptor (cs ist attributes offset index : Z) (idt : list idt_descriptor) : list idt_descriptor :=
  <[Z.to_nat index := MkDesc (Z.land offset 0xffff) cs ist attributes (Z.land (Z.shiftr offset 16) 0xffff)
                             (Z.land (Z.shiftr offset 32) 0xffffffff) 0]> idt.

(** The vectors whose stub is an [error_isr]. *)
Definition error_vector (i : Z) : bool := (i =? 8) || ((10 <=? i) && (i <=? 14)).

(** ** Vectors *)

(** What a vector runs: a routine of the kernel, or code at an address. *)
Inductive handler :=
| amd64_hardclock
| syscall_handler_entry
| code_at (entry : Z).

Record vector := MkVector {
  vec_handler : option handler;
  vec_ptr : option Z;
  vec_reserved : bool;
  vec_cortex : option Z;
}.

Definition no_vector : vector := MkVector None None false None.

Definition reserve (v : vector) : vector := MkVector (vec_handler v) (vec_ptr v) true (vec_cortex v).

(** [idt_reserve_vector]: the first vector that is not reserved. *)
Fixpoint reserve_loop (i : Z) (vs : list vector) : option (Z * list vector) :=
  match vs with
  | [] => None
  | v :: vs =>
      if vec_reserved v
      then '(n, vs') ← reserve_loop (i + 1) vs; Some (n, v :: vs')
      else Some (i, reserve v :: vs)
  end.

Definition idt_reserve_vector (vs : list vector) : option (Z * list vector) := reserve_loop 0 vs.

Definition idt_release_vector (n : Z) (vs : list vector) : list vector :=
  alter (fun v => MkVector (vec_handler v) (vec_ptr v) false (vec_cortex v)) (Z.to_nat (u8 n)) vs.

Definition idt_instantiate_vector (n : Z) (h : handler) (ptr cortex : option Z) (vs : list vector) : list vector :=
  <[Z.to_nat (u8 n) := MkVector (Some h) ptr true cortex]> vs.

(** [idt_init]: the vectors, and the descriptors of the 256 stubs. *)
Definition init_vectors : list vector :=
  let vs := (reserve <$> replicate 48 no_vector) ++ replicate 208 no_vector in
  let vs := idt_instantiate_vector 32 amd64_hardclock None None vs in
  idt_instantiate_vector 128 syscall_handler_entry None None vs.

(** The run of calls from the stub of vector [a] on, [n] of them. *)
Definition install_stubs (isr error_isr : Z -> Z) (a n : Z) (idt : list idt_descriptor) : list idt_descriptor :=
  foldl (fun idt i => set_idt_descriptor 0x28 0 0x8e (if error_vector i then error_isr i else isr i) i idt) idt (seqZ a n).

Definition descriptors_low (isr error_isr : Z -> Z) : list idt_descriptor :=
  install_stubs isr error_isr 0 148 (replicate 256 no_descriptor).

Definition init_descriptors (isr error_isr : Z -> Z) : list idt_descriptor :=
  install_stubs isr error_isr 148 108 (descriptors_low isr error_isr).

(** ** Cortexes and anchors *)

Record anchor := MkAnchor {
  anchor_identifier : Z;
  anchor_paddr : Z;
  anchor_next : option Z;
  anchor_last : option Z;
  anchor_refcnt : Z;
}.

Record irq_cortex := MkCortex {
  cx_identifier : list Z;
  anchor_root : option Z;
  lower_bound : Z;
  upper_bound : Z;
  cx_flush : Z;
}.

Section Irq.
Context `{PH : PairingHeap} `{AD : AriaDict}.
Context (balance_load sched_reschedule sched_switch : sched_view -> sched_view).

Record istate := MkI {
  i_clk : clk;                          (* the processor *)
  i_vectors : list vector;              (* [interrupt_vectors] *)
  i_cortexes : gmap Z irq_cortex;
  i_table : dictionary Z;               (* [cortex_table] *)
  i_anchors : gmap Z anchor;
  i_heap : list bool;                   (* which of the coming allocations succeed *)
  i_next : Z;
}.

Definition set_clk (s : istate) x := MkI x (i_vectors s) (i_cortexes s) (i_table s) (i_anchors s) (i_heap s) (i_next s).
Definition set_vectors (s : istate) x := MkI (i_clk s) x (i_cortexes s) (i_table s) (i_anchors s) (i_heap s) (i_next s).
Definition set_cortexes (s : istate) x := MkI (i_clk s) (i_vectors s) x (i_table s) (i_anchors s) (i_heap s) (i_next s).
Definition set_itable (s : istate) x := MkI (i_clk s) (i_vectors s) (i_cortexes s) x (i_anchors s) (i_heap s) (i_next s).
Definition set_anchors (s : istate) x := MkI (i_clk s) (i_vectors s) (i_cortexes s) (i_table s) x (i_heap s) (i_next s).

Definition on_clk {A} (m : M clk A) : M istate A := fun s => let '(x, r) := m (i_clk s) in (set_clk s x, r).

(** The code a vector points at: it is given the anchors (or whatever [ptr]
    is) and the error code. *)
Context (device : Z -> option Z -> Z -> M istate unit).
Context (syscall_handler : M istate unit).

Definition run_handler (h : handler) (ptr : option Z) (error_code : Z) : M istate unit :=
  match h with
  | amd64_hardclock => on_clk hardclock
  | syscall_handler_entry => syscall_handler
  | code_at entry => device entry ptr error_code
  end.

Definition get_cortex (c : Z) : M istate irq_cortex := fun s =>
  match i_cortexes s !! c with Some x => (s, Ok x) | None => (s, Halt) end.

Definition set_flush (x : irq_cortex) (n : Z) : irq_cortex :=
  MkCortex (cx_identifier x) (anchor_root x) (lower_bound x) (upper_bound x) n.

Definition put_cortex (c : Z) (x : irq_cortex) : M istate unit :=
  modify (fun s => set_cortexes s (<[c := x]> (i_cortexes s))).

(** The part of [isr_handler_main] that runs the vector's handler. *)
Definition serve_vector (isr_number error_code : Z) : M istate unit :=
  vs ← gets i_vectors;
  match vs !! Z.to_nat isr_number with
  | None => halt
  | Some v =>
      match vec_handler v, vec_cortex v with
      | None, _ => mret tt
      | Some h, None => run_handler h (vec_ptr v) error_code
      | Some h, Some c =>
          x ← get_cortex c;
          run_handler h (vec_ptr v) (cx_flush x);;
          x ← get_cortex c;
          if cx_flush x =? 0 then mret tt else put_cortex c (set_flush x 0)
      end
  end.

(** [isr_handler_main]; an exception is reported and stops the processor. *)
Definition isr_handler_main (fuel n : nat) (isr_number error_code : Z) : M istate unit :=
  isr_common balance_load sched_reschedule sched_switch on_clk (fun s => k_ipl (i_clk s))
    (if isr_number <? 32 then halt else serve_vector isr_number error_code) fuel n.

(** [irq_cortex_resolve_fault] starts with a panic. *)
Definition irq_cortex_resolve_fault (faulting_address error_code : Z) : M istate unit := halt.

Definition i_alloc : M istate (option Z) := fun s =>
  match i_heap s with
  | true :: h => (MkI (i_clk s) (i_vectors s) (i_cortexes s) (i_table s) (i_anchors s) h (i_next s + 1),
                  Ok (Some (i_next s)))
  | _ :: h => (MkI (i_clk s) (i_vectors s) (i_cortexes s) (i_table s) (i_anchors s) h (i_next s), Ok None)
  | [] => (s, Ok None)
  end.

(** [p = alloc(...)] followed by a null test, or used at once. *)
Definition i_alloc_or_fail : M istate Z := x ← i_alloc; match x with Some a => mret a | None => fail end.
Definition i_alloc_used : M istate Z := x ← i_alloc; match x with Some a => mret a | None => halt end.

(** What the program loader of [aria] makes of a module: whether its three
    steps succeed, the entry point and the range the program was given. *)
Record elf_outcome := MkElf {
  elf_init : bool;
  elf_aux : bool;
  elf_load : bool;
  at_entry : Z;
  elf_lower : Z;
  elf_upper : Z;
}.

(** What the memory of a new cortex holds. *)
Context (junk_anchor_root : option Z) (junk_flush : Z).

Definition irq_cortex_instantiate (module : option elf_outcome) (identifier : option (list Z)) (vec : Z) : M istate unit :=
  match identifier with
  | None => fail
  | Some identifier =>
      c ← i_alloc_or_fail;
      match module with
      | None => fail
      | Some elf =>
          i_alloc_or_fail;;
          i_alloc_used;;
          i_alloc_used;;
          if negb (elf_init elf) then fail
          else
            put_cortex c (MkCortex identifier junk_anchor_root (elf_lower elf) (elf_upper elf) junk_flush);;
            if negb (elf_aux elf && elf_load elf) then fail
            else
              d ← gets i_table;
              let '(d, ok) := dictionary_push d (bytes_key identifier) c in
              modify (fun s => set_itable s d);;
              if negb ok then fail
              else modify (fun s => set_vectors s
                     (idt_instantiate_vector vec (code_at (at_entry elf)) (Some c) (Some c) (i_vectors s)))
      end
  end.

Definition set_root (x : irq_cortex) (r : option Z) (flush : Z) : irq_cortex :=
  MkCortex (cx_identifier x) r (lower_bound x) (upper_bound x) flush.

(** [irq_cortex_anchor]: a copy of the caller's anchor goes to the front of
    the list, and the cortex is told to look again. *)
Definition irq_cortex_anchor (identifier : option (list Z)) (a : option anchor) : M istate unit :=
  match identifier, a with
  | Some identifier, Some a =>
      d ← gets i_table;
      match dictionary_search d (bytes_key identifier) with
      | None => fail
      | Some c =>
          x ← get_cortex c;
          put_cortex c (set_flush x 1);;
          p ← i_alloc_used;
          modify (fun s => set_anchors s (<[p := MkAnchor (anchor_identifier a) (anchor_paddr a) (anchor_root x) None
                                                          (anchor_refcnt a)]> (i_anchors s)));;
          match anchor_root x with
          | None => mret tt
          | Some r => fun s =>
              match i_anchors s !! r with
              | Some y => (set_anchors s (<[r := MkAnchor (anchor_identifier y) (anchor_paddr y) (anchor_next y) (Some p)
                                                          (anchor_refcnt y)]> (i_anchors s)), Ok tt)
              | None => (s, Halt)
              end
          end;;
          put_cortex c (set_root x (Some p) 1)
      end
  | _, _ => fail
  end.

End Irq.

(** ** The descriptors *)

(** The address a processor reads out of a descriptor. *)
Definition target (d : idt_descriptor) : Z :=
  offset_low d + Z.shiftl (offset_mid d) 16 + Z.shiftl (offset_high d) 32.

Lemma target_offset cs ist attr offset :
  0 <= offset < 2 ^ 64 ->
  target (MkDesc (Z.land offset 0xffff) cs ist attr (Z.land (Z.shiftr offset 16) 0xffff)
                 (Z.land (Z.shiftr offset 32) 0xffffffff) 0) = offset.
Proof.
  intros Ho. unfold target. cbn [offset_low offset_mid offset_high].
  change 0xffff with (2 ^ 16 - 1). change 0xffffffff with (2 ^ 32 - 1).
  rewrite !land_low, !Z.shiftr_div_pow2, !Z.shiftl_mul_pow2 by lia.
  rewrite (Z.mod_small (offset / 2 ^ 32)) by (split; [apply Z.div_pos; lia|apply Z.div_lt_upper_bound; lia]).
  pose proof (Z.div_mod offset (2 ^ 16) ltac:(lia)). pose proof (Z.div_mod (offset / 2 ^ 16) (2 ^ 16) ltac:(lia)).
  rewrite Z.div_div in * by lia. change (2 ^ 16 * 2 ^ 16) with (2 ^ 32) in *. lia.
Qed.

(** Filling a table by index. *)
Lemma foldl_set (f : Z -> idt_descriptor) (l : list Z) : forall (idt : list idt_descriptor) (i : nat),
  (forall x, x ∈ l -> 0 <= x) -> (i < length idt)%nat ->
  foldl (fun idt x => <[Z.to_nat x := f x]> idt) idt l !! i =
    if decide (Z.of_nat i ∈ l) then Some (f (Z.of_nat i)) else idt !! i.
Proof.
  induction l as [|x l IH]; intros idt i Hl Hi; cbn [foldl].
  { rewrite decide_False; [done|]. apply not_elem_of_nil. }
  rewrite IH; [|set_solver|by rewrite length_insert]. pose proof (Hl x ltac:(left)).
  destruct (decide (Z.of_nat i ∈ l)) as [Hin|Hin].
  - rewrite decide_True by (by right). done.
  - destruct (decide (Z.of_nat i = x)) as [<-|Hne].
    + rewrite decide_True by left. rewrite Nat2Z.id. apply list_lookup_insert_eq. done.
    + rewrite decide_False by set_solver. apply list_lookup_insert_ne. lia.
Qed.

Lemma init_descriptors_all (isr error_isr : Z -> Z) :
  init_descriptors isr error_isr = install_stubs isr error_isr 0 256 (replicate 256 no_descriptor).
Proof.
  unfold init_descriptors, descriptors_low, install_stubs. rewrite <- foldl_app.
  done.
Qed.

(** after [idt_init] every one of the 256 descriptors is an interrupt
    gate of the kernel's code segment that leads to the stub of its own
    vector. *)
Theorem idt_init_targets (isr error_isr : Z -> Z) (i : Z) :
  0 <= i < 256 -> (forall n, 0 <= isr n < 2 ^ 64) -> (forall n, 0 <= error_isr n < 2 ^ 64) ->
  exists d, init_descriptors isr error_isr !! Z.to_nat i = Some d /\
    desc_cs d = 0x28 /\ desc_attributes d = 0x8e /\ desc_ist d = 0 /\
    target d = (if error_vector i then error_isr i else isr i).
Proof.
  intros Hi H1 H2. rewrite init_descriptors_all. unfold install_stubs, set_idt_descriptor. eexists. split.
  - rewrite (foldl_set (fun j => let offset := if error_vector j then error_isr j else isr j in
      MkDesc (Z.land offset 0xffff) 0x28 0 0x8e (Z.land (Z.shiftr offset 16) 0xffff)
             (Z.land (Z.shiftr offset 32) 0xffffffff) 0)).
    + rewrite Z2Nat.id by lia. rewrite decide_True by (apply elem_of_seqZ; lia). reflexivity.
    + intros x Hx%elem_of_seqZ. lia.
    + rewrite length_replicate. lia.
  - split_and!; try done. apply target_offset. destruct (error_vector i); auto.
Qed.

(** ** Reservation *)

Definition reserved_at (vs : list vector) (n : Z) : Prop :=
  exists v, vs !! Z.to_nat n = Some v /\ vec_reserved v = true.

Lemma reserve_loop_spec vs : forall i,
  match reserve_loop i vs with
  | Some (n, vs') =>
      i <= n < i + Z.of_nat (length vs) /\
      (exists v, vs !! Z.to_nat (n - i) = Some v /\ vec_reserved v = false /\ vs' = <[Z.to_nat (n - i) := reserve v]> vs) /\
      Forall (fun v => vec_reserved v = true) (take (Z.to_nat (n - i)) vs)
  | None => Forall (fun v => vec_reserved v = true) vs
  end.
Proof.
  induction vs as [|v vs IH]; intros i; cbn [reserve_loop]; [done|].
  destruct (vec_reserved v) eqn:Ev.
  - specialize (IH (i + 1)). destruct (reserve_loop (i + 1) vs) as [[n vs']|]; cbn [mbind option_bind].
    + destruct IH as (Hn & (w & Hw & Hr & ->) & HF). cbn [length].
      replace (Z.to_nat (n - i)) with (Datatypes.S (Z.to_nat (n - (i + 1)))) by lia.
      split_and!; [lia|lia| |constructor; done]. exists w. done.
    + by constructor.
  - replace (Z.to_nat (i - i)) with 0%nat by lia. cbn [length]. split_and!; [lia|lia| |constructor].
    exists v. done.
Qed.

(** The table as drivers see it: the vectors they own, and every operation an
    owner may perform. *)
Inductive vstep : list vector * gset Z -> list vector * gset Z -> Prop :=
| v_reserve vs own n vs' :
    idt_reserve_vector vs = Some (n, vs') -> vstep (vs, own) (vs', {[n]} ∪ own)
| v_release vs own n :
    n ∈ own -> vstep (vs, own) (idt_release_vector n vs, own ∖ {[n]})
| v_instantiate vs own n h ptr cortex :
    n ∈ own -> vstep (vs, own) (idt_instantiate_vector n h ptr cortex vs, own).

(** Vectors 0 to 47 and the system call vector are the kernel's. *)
Definition kernel_vector (n : Z) : Prop := 0 <= n < 48 \/ n = 128.

Record vectors_ok (vs : list vector) (own : gset Z) : Prop := {
  vo_length : length vs = 256%nat;
  vo_own : forall n, n ∈ own -> 0 <= n < 256 /\ ~ kernel_vector n /\ reserved_at vs n;
  vo_kernel : forall n, kernel_vector n ->
    exists v, init_vectors !! Z.to_nat n = Some v /\ vs !! Z.to_nat n = Some v /\ vec_reserved v = true;
  vo_all : forall n, 0 <= n < 256 -> reserved_at vs n -> kernel_vector n \/ n ∈ own;
}.

Lemma init_reserved n : 0 <= n < 256 ->
  exists v, init_vectors !! Z.to_nat n = Some v /\ (vec_reserved v = true <-> kernel_vector n).
Proof.
  intros Hn.
  assert (Hall : forallb (fun i => match init_vectors !! Z.to_nat i with
      | Some v => eqb (vec_reserved v) ((i <? 48) || (i =? 128)) | None => false end) (seqZ 0 256) = true)
    by (vm_compute; reflexivity).
  rewrite forallb_forall in Hall. specialize (Hall n).
  destruct (init_vectors !! Z.to_nat n) as [v|] eqn:E.
  - exists v. split; [done|]. unfold kernel_vector.
    assert (Hv : vec_reserved v = (n <? 48) || (n =? 128)).
    { apply eqb_prop, Hall. apply list_elem_of_In, elem_of_seqZ. lia. }
    rewrite Hv, orb_true_iff, Z.ltb_lt, Z.eqb_eq. lia.
  - exfalso. discriminate Hall. apply list_elem_of_In, elem_of_seqZ. lia.
Qed.

Lemma init_vectors_ok : vectors_ok init_vectors ∅.
Proof.
  constructor.
  - vm_compute. reflexivity.
  - intros n ?%elem_of_empty. done.
  - intros n Hk. destruct (init_reserved n) as (v & Hv & Hr); [unfold kernel_vector in Hk; lia|].
    exists v. split_and!; try done. by apply Hr.
  - intros n Hn (v & Hv & Hr). left. destruct (init_reserved n Hn) as (w & Hw & Hr'). simplify_eq. by apply Hr'.
Qed.

Lemma reserved_insert vs n m v :
  0 <= n < Z.of_nat (length vs) -> 0 <= m ->
  reserved_at (<[Z.to_nat n := v]> vs) m <-> (m = n /\ vec_reserved v = true) \/ (m <> n /\ reserved_at vs m).
Proof.
  intros Hn Hm. unfold reserved_at. destruct (decide (m = n)) as [->|Hne].
  - rewrite list_lookup_insert_eq by lia. naive_solver.
  - rewrite list_lookup_insert_ne by lia. naive_solver.
Qed.

(** Replacing the entry of a vector that is not the kernel's. *)
Lemma vectors_put vs own own' n v :
  vectors_ok vs own -> 0 <= n < 256 -> ~ kernel_vector n ->
  (forall m, m ∈ own' <-> (m = n /\ vec_reserved v = true) \/ (m <> n /\ m ∈ own)) ->
  vectors_ok (<[Z.to_nat n := v]> vs) own'.
Proof.
  intros [Hl Ho Hk Ha] Hn Hnk Hown.
  assert (Hk0 : forall m, kernel_vector m -> 0 <= m < 256) by (unfold kernel_vector; lia).
  constructor.
  - by rewrite length_insert.
  - intros m [[-> Hv]|[Hne Hm]]%Hown.
    + split_and!; try lia; [done|]. apply reserved_insert; [lia|lia|by left].
    + destruct (Ho m Hm) as (? & ? & ?). split_and!; try lia; [done|].
      apply reserved_insert; [lia|lia|by right].
  - intros m Hm. destruct (Hk m Hm) as (w & Hi & Hw & Hr). exists w. split_and!; try done.
    rewrite list_lookup_insert_ne; [done|]. pose proof (Hk0 m Hm). intros Hx. apply Hnk.
    replace n with m by lia. done.
  - intros m Hm. rewrite reserved_insert by lia. rewrite Hown. intros [[-> ?]|[? ?%Ha]]; [by right; left| |done].
    destruct H0; auto.
Qed.

Lemma vstep_ok vs own vs' own' : vectors_ok vs own -> vstep (vs, own) (vs', own') -> vectors_ok vs' own'.
Proof.
  intros HV Hs. pose proof HV as [Hl Ho Hk Ha].
  assert (Hu8 : forall n, 0 <= n < 256 -> u8 n = n) by (intros; apply u8_small; lia).
  inversion Hs; subst; clear Hs.
  - match goal with H : idt_reserve_vector vs = _ |- _ => rename H into Hr end.
    unfold idt_reserve_vector in Hr. pose proof (reserve_loop_spec vs 0) as Hsp. rewrite Hr in Hsp.
    destruct Hsp as (Hn & (v & Hv & Hf & ->) & _). rewrite Z.sub_0_r in *.
    assert (Hn' : ~ kernel_vector n).
    { intros Hkv. destruct (Hk n Hkv) as (w & _ & Hw & Hr'). simplify_eq. congruence. }
    assert (Hno : n ∉ own).
    { intros Hno. destruct (Ho n Hno) as (_ & _ & w & Hw & Hr'). simplify_eq. congruence. }
    apply (vectors_put vs own); [done|lia|done|]. intros m. cbn [reserve vec_reserved].
    rewrite elem_of_union, elem_of_singleton. destruct (decide (m = n)); naive_solver.
  - match goal with H : _ ∈ own |- _ => rename H into Hin end. destruct (Ho n Hin) as (Hn & Hnk & v & Hv & _).
    unfold idt_release_vector. rewrite Hu8 by lia.
    assert (Hal : alter (fun v => MkVector (vec_handler v) (vec_ptr v) false (vec_cortex v)) (Z.to_nat n) vs =
                  <[Z.to_nat n := MkVector (vec_handler v) (vec_ptr v) false (vec_cortex v)]> vs).
    { apply list_eq. intros i. destruct (decide (i = Z.to_nat n)) as [->|Hne].
      - rewrite list_lookup_alter_eq, Hv, list_lookup_insert_eq by lia. done.
      - rewrite list_lookup_alter_ne, list_lookup_insert_ne by done. done. }
    rewrite Hal. apply (vectors_put vs own); [done|lia|done|]. intros m. cbn [vec_reserved]. set_solver.
  - match goal with H : _ ∈ own' |- _ => rename H into Hin end. destruct (Ho n Hin) as (Hn & Hnk & _).
    unfold idt_instantiate_vector. rewrite Hu8 by lia.
    apply (vectors_put vs own'); [done|lia|done|]. intros m. cbn [vec_reserved].
    destruct (decide (m = n)) as [->|]; naive_solver.
Qed.

Lemma vectors_reachable x y :
  rtc vstep x y -> vectors_ok x.1 x.2 -> vectors_ok y.1 y.2.
Proof.
  induction 1 as [x|[vs own] [vs' own'] z Hs _ IH]; [done|]. intros HV. apply IH. eapply vstep_ok; done.
Qed.

(** C28: from [idt_init] on, through any sequence of reservations and of
    releases and installations by the owners, a reservation never yields a
    vector of the kernel or one that somebody owns, it fails only when every
    vector is taken, and the kernel's own vectors keep their handlers. *)
Theorem idt_vectors_safe vs own :
  rtc vstep (init_vectors, ∅) (vs, own) ->
  (forall n, kernel_vector n -> vs !! Z.to_nat n = init_vectors !! Z.to_nat n) /\
  match idt_reserve_vector vs with
  | Some (n, _) => 0 <= n < 256 /\ ~ kernel_vector n /\ n ∉ own
  | None => forall n, 0 <= n < 256 -> kernel_vector n \/ n ∈ own
  end.
Proof.
  intros Hr. pose proof (vectors_reachable _ _ Hr init_vectors_ok) as [Hl Ho Hk Ha]. cbn [fst snd] in *.
  split; [intros n Hn; destruct (Hk n Hn) as (v & -> & -> & _); done|].
  pose proof (reserve_loop_spec vs 0) as Hs. unfold idt_reserve_vector.
  destruct (reserve_loop 0 vs) as [[n vs']|].
  - destruct Hs as (Hn & (v & Hv & Hf & _) & _). rewrite Z.sub_0_r in Hv. split_and!; [lia|lia|..].
    + intros Hkv. destruct (Hk n Hkv) as (w & _ & Hw & Hr'). simplify_eq. congruence.
    + intros Hin. destruct (Ho n Hin) as (_ & _ & w & Hw & Hr'). simplify_eq. congruence.
  - intros n Hn. apply Ha; [done|]. destruct (lookup_lt_is_Some_2 vs (Z.to_nat n)) as [v Hv]; [lia|].
    exists v. split; [done|]. rewrite Forall_forall in Hs. apply Hs. eapply list_elem_of_lookup_2. done.
Qed.

(** ** The common interrupt routine *)

Section IrqOk.
Context {PH : PairingHeap} {AD : AriaDict} {ADO : AriaDictOk AD}.
Context (balance_load sched_reschedule sched_switch : sched_view -> sched_view).
Context (device : Z -> option Z -> Z -> M istate unit) (syscall_handler : M istate unit).
Context (junk_anchor_root : option Z) (junk_flush : Z).

Local Abbreviation isr_handler_main :=
  (isr_handler_main balance_load sched_reschedule sched_switch device syscall_handler).

Lemma on_clk_modify (f : clk -> clk) (s : istate) : on_clk (modify f) s = (set_clk s (f (i_clk s)), Ok tt).
Proof. done. Qed.

Lemma serve_timer error_code (s : istate) :
  i_vectors s !! 32%nat = init_vectors !! 32%nat ->
  serve_vector device syscall_handler 32 error_code s = on_clk hardclock s.
Proof.
  intros Hv. change (init_vectors !! 32%nat) with (Some (MkVector (Some amd64_hardclock) None true None)) in Hv.
  unfold serve_vector. erewrite bind_ok by reflexivity. change (Z.to_nat 32) with 32%nat. rewrite Hv. done.
Qed.

(** On the timer's vector, as [idt_init] leaves it, the common routine is the
    interrupt of the clock, and touches nothing but the processor. *)
Lemma isr_is_clock_interrupt fuel n error_code (s : istate) :
  i_vectors s !! 32%nat = init_vectors !! 32%nat ->
  isr_handler_main fuel n 32 error_code s =
    on_clk (clock_interrupt balance_load sched_reschedule sched_switch fuel n) s.
Proof.
  intros Hv. unfold Irq.isr_handler_main, clock_interrupt, isr_common, id.
  erewrite bind_ok by reflexivity. rewrite (bind_ok _ _ _ _ _ (on_clk_modify _ s)). change (32 <? 32) with false. cbv iota.
  unfold on_clk at 2. erewrite (bind_ok (gets k_ipl)) by reflexivity. erewrite (bind_ok (modify _) _ (i_clk s)) by reflexivity.
  set (c1 := set_ipl (i_clk s) IPL_DEVICE (k_intr (i_clk s))).
  assert (Hb : forall {T} (m : M T unit) (k : unit -> M T unit) t, (m ≫= k) t = match m t with (t, Ok a) => k a t | (t, Err) => (t, Err) | (t, Halt) => (t, Halt) end) by done.
  rewrite !Hb, serve_timer by done. unfold on_clk. cbn [i_clk set_clk].
  destruct (hardclock c1) as [c [[]| |]]; [|done|done].
  change (i_clk (set_clk (set_clk s c1) c)) with c. by destruct ((modify count_eoi ≫= _) c).
Qed.

(** *** Anchors *)

(** The doubly linked list of anchors from [root] on, after [last]. *)
Fixpoint linked (anchors : gmap Z anchor) (last root : option Z) (l : list Z) : Prop :=
  match l with
  | [] => root = None
  | p :: l => root = Some p /\
      exists a, anchors !! p = Some a /\ anchor_last a = last /\ linked anchors (Some p) (anchor_next a) l
  end.

Lemma linked_frame (anchors anchors' : gmap Z anchor) l : forall last root,
  (forall p, p ∈ l -> anchors' !! p = anchors !! p) -> linked anchors last root l -> linked anchors' last root l.
Proof.
  induction l as [|p l IH]; intros last root Hf; cbn [linked]; [done|]. intros [-> (a & Ha & Hl & Hr)].
  split; [done|]. exists a. rewrite Hf by left. split_and!; try done.
  apply IH; [|done]. intros q Hq. apply Hf. by right.
Qed.

Definition relink (a : anchor) (next last : option Z) : anchor :=
  MkAnchor (anchor_identifier a) (anchor_paddr a) next last (anchor_refcnt a).

(** Linking a new anchor in front. *)
Lemma linked_push (anchors : gmap Z anchor) root l p a :
  linked anchors None root l -> NoDup l -> p ∉ l ->
  let m := <[p := relink a root None]> anchors in
  linked (match root with
          | Some r => match m !! r with Some y => <[r := relink y (anchor_next y) (Some p)]> m | None => m end
          | None => m end) None (Some p) (p :: l).
Proof.
  intros Hl Hnd Hp m. cbn [linked]. split; [done|]. destruct l as [|q l]; cbn [linked] in *.
  - subst root. exists (relink a None None). split_and!; try done. apply lookup_insert_eq.
  - destruct Hl as [-> (y & Hy & Hyl & Hrest)]. apply NoDup_cons in Hnd as [Hq Hnd].
    assert (p <> q) by (intros ->; apply Hp; left).
    assert (Hm : m !! q = Some y) by (unfold m; by rewrite lookup_insert_ne). rewrite Hm.
    exists (relink a (Some q) None). split_and!.
    + rewrite lookup_insert_ne by done. apply lookup_insert_eq.
    + done.
    + done.
    + exists (relink y (anchor_next y) (Some p)). split_and!; [apply lookup_insert_eq|done|].
      eapply linked_frame; [|exact Hrest]. intros x Hx. unfold m.
      rewrite !lookup_insert_ne; [done|intros ->; apply Hp; by right|intros ->; done].
Qed.

(** anchoring to a known cortex puts a copy of the caller's anchor in
    front of its list, which stays a well-formed doubly linked list with all
    the anchors it had, and raises the cortex's flush mark. *)
Theorem irq_cortex_anchor_correct (s : istate) identifier a c x l h :
  dictionary_search (i_table s) (bytes_key identifier) = Some c -> i_cortexes s !! c = Some x ->
  i_heap s = true :: h -> linked (i_anchors s) None (anchor_root x) l -> NoDup l -> i_anchors s !! i_next s = None ->
  exists s' x', irq_cortex_anchor (Some identifier) (Some a) s = (s', Ok tt) /\
    i_cortexes s' = <[c := x']> (i_cortexes s) /\ cx_flush x' = 1 /\ cx_identifier x' = cx_identifier x /\
    linked (i_anchors s') None (anchor_root x') (i_next s :: l) /\
    (exists y, i_anchors s' !! i_next s = Some y /\ anchor_paddr y = anchor_paddr a /\
       anchor_identifier y = anchor_identifier a) /\
    (forall p y, i_anchors s !! p = Some y -> exists y', i_anchors s' !! p = Some y' /\
       anchor_paddr y' = anchor_paddr y /\ anchor_identifier y' = anchor_identifier y) /\
    i_vectors s' = i_vectors s /\ i_clk s' = i_clk s.
Proof.
  intros Hd Hx Hh Hl Hnd Hfr.
  assert (Hp : i_next s ∉ l).
  { intros Hin. clear -Hl Hin Hfr. revert Hl. generalize (@None Z) (anchor_root x).
    induction l as [|q l IH]; intros last root; [by apply elem_of_nil in Hin|]. cbn [linked]. intros [_ (y & Hy & _ & Hr)].
    apply elem_of_cons in Hin as [Heq|Hin]; [congruence|eauto]. }
  pose proof (linked_push (i_anchors s) (anchor_root x) l (i_next s) a Hl Hnd Hp) as HL. cbv zeta in HL.
  set (m := <[i_next s := relink a (anchor_root x) None]> (i_anchors s)) in *.
  unfold irq_cortex_anchor. erewrite bind_ok by reflexivity. rewrite Hd.
  erewrite bind_ok by (unfold get_cortex; rewrite Hx; reflexivity).
  erewrite bind_ok by reflexivity.
  erewrite bind_ok by (unfold i_alloc_used, i_alloc, mbind, M_bind; cbn [i_heap set_cortexes]; rewrite Hh; reflexivity).
  erewrite bind_ok by reflexivity. fold (relink a (anchor_root x) None).
  cbn [set_cortexes set_anchors i_clk i_vectors i_cortexes i_table i_anchors i_heap i_next]. fold m.
  assert (Hm0 : forall p y, i_anchors s !! p = Some y -> m !! p = Some y).
  { intros p y Hy. unfold m. rewrite lookup_insert_ne; [done|congruence]. }
  destruct (anchor_root x) as [r|] eqn:Er.
  - destruct l as [|q l]; cbn [linked] in Hl; [done|]. destruct Hl as [[= <-] (y & Hy & _)].
    rewrite (Hm0 r y Hy) in HL.
    erewrite bind_ok by (cbn [i_anchors set_anchors]; rewrite (Hm0 r y Hy); reflexivity).
    eexists _, (set_root x (Some (i_next s)) 1). split; [reflexivity|].
    cbn [put_cortex modify fst set_cortexes set_anchors i_cortexes i_anchors i_vectors i_clk].
    rewrite insert_insert_eq. split_and!; try done.
    + exists (relink a (Some r) None). split; [|done]. fold (relink y (anchor_next y) (Some (i_next s))).
      rewrite lookup_insert_ne by congruence. apply lookup_insert_eq.
    + intros p z Hz. destruct (decide (p = r)) as [->|Hne].
      * simplify_eq. eexists. rewrite lookup_insert_eq. done.
      * exists z. rewrite lookup_insert_ne by done. auto.
  - erewrite bind_ok by reflexivity.
    eexists _, (set_root x (Some (i_next s)) 1). split; [reflexivity|].
    cbn [put_cortex modify fst set_cortexes set_anchors i_cortexes i_anchors i_vectors i_clk].
    rewrite insert_insert_eq. split_and!; try done.
    + exists (relink a None None). split; [|done]. apply lookup_insert_eq.
    + intros p z Hz. eauto.
Qed.

(** *** The flush mark *)

(** when the handler of a cortex leaves the cortexes alone, an interrupt
    shows it the flush mark in place of the error code and clears the mark:
    a mark raised once is seen by exactly one interrupt. *)
Theorem irq_flush_seen_once (s s1 : istate) (isr error_code : Z) v e c x :
  i_vectors s !! Z.to_nat isr = Some v -> vec_handler v = Some (code_at e) -> vec_cortex v = Some c ->
  i_cortexes s !! c = Some x ->
  device e (vec_ptr v) (cx_flush x) s = (s1, Ok tt) -> i_cortexes s1 = i_cortexes s -> i_vectors s1 = i_vectors s ->
  exists s2, serve_vector device syscall_handler isr error_code s = (s2, Ok tt) /\
    i_cortexes s2 !! c = Some (set_flush x 0) /\
    serve_vector device syscall_handler isr error_code s2 =
      (device e (vec_ptr v) 0;;
       x ← get_cortex c;
       if cx_flush x =? 0 then mret tt else put_cortex c (set_flush x 0)) s2.
Proof.
  intros Hv Hh Hc Hx Hd Hcx Hvs.
  assert (Hserve : forall t, i_vectors t = i_vectors s -> forall y, i_cortexes t !! c = Some y ->
    serve_vector device syscall_handler isr error_code t =
      (device e (vec_ptr v) (cx_flush y);;
       x ← get_cortex c;
       if cx_flush x =? 0 then mret tt else put_cortex c (set_flush x 0)) t).
  { intros t Ht y Hy. unfold serve_vector. erewrite bind_ok by reflexivity. rewrite Ht, Hv, Hh, Hc.
    erewrite bind_ok by (unfold get_cortex; rewrite Hy; reflexivity). done. }
  exists (if cx_flush x =? 0 then s1 else set_cortexes s1 (<[c := set_flush x 0]> (i_cortexes s1))).
  assert (H2 : i_cortexes (if cx_flush x =? 0 then s1 else set_cortexes s1 (<[c := set_flush x 0]> (i_cortexes s1))) !! c =
               Some (set_flush x 0)).
  { case_if; cbn [set_cortexes i_cortexes]; [|apply lookup_insert_eq]. rewrite Hcx, Hx. unfold set_flush. rewrite <- E.
    by destruct x. }
  split_and!; [|done|].
  - rewrite (Hserve s eq_refl x Hx), (bind_ok _ _ _ _ _ Hd).
    erewrite bind_ok by (unfold get_cortex; rewrite Hcx, Hx; reflexivity). case_if; done.
  - apply (fun H => Hserve _ H (set_flush x 0) H2). case_if; done.
Qed.

End IrqOk.

(** ** Witnesses and edges *)

Module IrqExamples.

Definition stub (n : Z) : Z := 0xffffffff80100000 + 16 * (n mod 256).

Definition demo_cortex (flush : Z) : irq_cortex := MkCortex [110; 118] (Some 7) 0xffffe00000000000 0xffffe00000010000 flush.
Definition demo_vectors : list vector := idt_instantiate_vector 60 (code_at 0xffffe00000001000) (Some 5) (Some 5) init_vectors.
Definition demo_irq (flush : Z) : istate :=
  MkI demo_clk demo_vectors {[5 := demo_cortex flush]} (<[bytes_key [110; 118] := 5]> (∅ : gmap Z Z) : @dictionary dict_ref Z)
      {[7 := MkAnchor 1 0x5000 None None 1]} [true] 100.

Definition quiet (entry : Z) (ptr : option Z) (error_code : Z) : M istate unit := mret tt.

End IrqExamples.
Import IrqExamples.

Lemma idt_init_targets_witness :
  exists d, init_descriptors stub stub !! 14%nat = Some d /\ target d = 0xffffffff801000e0.
Proof.
  destruct (idt_init_targets stub stub 14) as (d & Hd & _ & _ & _ & Ht).
  - lia.
  - intros n. unfold stub. pose proof (Z.mod_pos_bound n 256). lia.
  - intros n. unfold stub. pose proof (Z.mod_pos_bound n 256). lia.
  - exists d. split; [exact Hd|rewrite Ht; reflexivity].
Defined.

Lemma idt_vectors_safe_witness :
  exists vs, rtc vstep (init_vectors, ∅) (vs, {[48]} ∪ ∅) /\ vs !! 32%nat = init_vectors !! 32%nat.
Proof.
  destruct (idt_reserve_vector init_vectors) as [[n vs]|] eqn:E; [|vm_compute in E; discriminate E].
  assert (n = 48) as -> by (vm_compute in E; congruence).
  assert (Hr : rtc vstep (init_vectors, ∅) (vs, {[48]} ∪ ∅)) by (eapply rtc_once, v_reserve; exact E).
  exists vs. split; [exact Hr|]. apply (proj1 (idt_vectors_safe vs ({[48]} ∪ ∅) Hr) 32). left. lia.
Defined.

Lemma irq_cortex_anchor_correct_witness :
  exists s' x', irq_cortex_anchor (Some [110; 118]) (Some (MkAnchor 2 0x6000 None None 1)) (demo_irq 0) = (s', Ok tt) /\
    cx_flush x' = 1 /\ linked (i_anchors s') None (anchor_root x') [100; 7].
Proof.
  destruct (irq_cortex_anchor_correct (demo_irq 0) [110; 118] (MkAnchor 2 0x6000 None None 1) 5 (demo_cortex 0) [7] [])
    as (s' & x' & E & _ & Hf & _ & Hl & _).
  - vm_compute. reflexivity.
  - reflexivity.
  - reflexivity.
  - split; [reflexivity|]. eexists. split; [reflexivity|]. done.
  - apply NoDup_singleton.
  - reflexivity.
  - exists s', x'. split; [exact E|]. split; [exact Hf|exact Hl].
Defined.

Lemma irq_flush_seen_once_witness :
  exists s2, serve_vector quiet (mret tt) 60 0 (demo_irq 1) = (s2, Ok tt) /\
    i_cortexes s2 !! 5 = Some (demo_cortex 0).
Proof.
  destruct (irq_flush_seen_once quiet (mret tt) (demo_irq 1) (demo_irq 1) 60 0
              (MkVector (Some (code_at 0xffffe00000001000)) (Some 5) true (Some 5)) 0xffffe00000001000 5 (demo_cortex 1))
    as (s2 & E & Hc & _); [reflexivity..|].
  exists s2. split; [exact E|exact Hc].
Defined.

(** Vector 17, the alignment check, pushes an error code, but its stub is one
    that pushes a second one. *)
Lemma alignment_check_stub : error_vector 17 = false /\ error_vector 14 = true.
Proof. done. Qed.

(** A cortex can be installed on any vector, the clock's included, whether or
    not it was reserved. *)
Lemma cortex_takes_the_clock :
  let s := fst (irq_cortex_instantiate None 0 (Some (MkElf true true true 0x401000 0 0)) (Some [120]) (256 + 32)
     (MkI demo_clk init_vectors ∅ dict_empty ∅ [true; true; true; true] 100)) in
  vec_handler <$> (i_vectors s !! 32%nat) = Some (Some (code_at 0x401000)).
Proof. vm_compute. reflexivity. Qed.

(** A failed allocation of the file buffer is not noticed. *)
Lemma cortex_without_memory :
  snd (irq_cortex_instantiate None 0 (Some (MkElf true true true 0x401000 0 0)) (Some [120]) 60
     (MkI demo_clk init_vectors ∅ dict_empty ∅ [true; true; false] 100)) = Halt.
Proof. vm_compute. reflexivity. Qed.

(** An anchor added while the handler runs raises the mark again, and the
    mark is cleared without having been shown. *)
Lemma flush_lost :
  let racing : Z -> option Z -> Z -> M istate unit :=
    fun _ _ _ => irq_cortex_anchor (Some [110; 118]) (Some (MkAnchor 2 0x6000 None None 1)) in
  let s := fst (serve_vector racing (mret tt) 60 0 (demo_irq 0)) in
  cx_flush <$> (i_cortexes s !! 5) = Some 0 /\ anchor_root <$> (i_cortexes s !! 5) = Some (Some 100).
Proof. split; vm_compute; reflexivity. Qed.
