(* ===== verification/Futex.v ===== *)
(** * Futexes and the system call table
      ([core/futex.c], [core/events.c], [core/syscall.c])

    A futex is found by the physical address of its word.  Blocking on its
    event queue is not implemented in the source: the routine panics. *)

From S2P Require Import Prelude Aria.

Definition FUTEX_WAIT : Z := 1.
Definition FUTEX_WAKE : Z := 2.

(** ** Event queues *)

Record etrigger := MkTrigger {
  trig_queues : list Z;   (* the [VECTOR] of event queues *)
  trig_refcnt : Z;
}.

(** [VECTOR_PUSH] appends, [VECTOR_REMOVE_BY_VALUE] takes the first match out. *)
Fixpoint remove_value (q : Z) (l : list Z) : list Z :=
  match l with
  | [] => []
  | x :: l => if x =? q then l else x :: remove_value q l
  end.

Definition equeue_add (equeue : option Z) (trigger : option etrigger) : cres etrigger :=
  match equeue, trigger with
  | Some q, Some t => Ok (MkTrigger (trig_queues t ++ [q]) (s32 (trig_refcnt t + 1)))
  | _, _ => Err
  end.

(** The trigger that is left, or nothing when it was freed. *)
Definition equeue_remove (equeue : option Z) (trigger : option etrigger) : cres (option etrigger) :=
  match equeue, trigger with
  | Some q, Some t =>
      let t := MkTrigger (remove_value q (trig_queues t)) (s32 (trig_refcnt t - 1)) in
      Ok (if trig_refcnt t =? 0 then None else Some t)
  | _, _ => Err
  end.

Definition equeue_wake {A} : cres A := Halt.
Definition equeue_block {A} : cres A := Halt.

(** ** Futexes *)

Record futex := MkFutex {
  fx_paddr : Z;
  fx_expected : Z;
  fx_refcnt : Z;
  fx_locked : bool;
  fx_trigger : etrigger;
}.

(** What a page of the address space says about physical memory: the frame's
    address if it has a frame, and its own. *)
Record fpage := MkFPage { fp_frame : option Z; fp_paddr : Z }.

Section Futex.
Context `{AD : AriaDict}.
(** The trigger a fresh futex holds in its memory. *)
Context (junk_trigger : etrigger).

Record fstate := MkF {
  f_table : dictionary Z;         (* [futex_table] *)
  f_futexes : gmap Z futex;
  f_heap : list bool;
  f_next : Z;
  f_words : gmap Z Z;             (* physical memory, by word *)
}.

Definition set_futexes (s : fstate) x := MkF (f_table s) x (f_heap s) (f_next s) (f_words s).
Definition set_ftable (s : fstate) x := MkF x (f_futexes s) (f_heap s) (f_next s) (f_words s).

Definition word (s : fstate) (a : Z) : Z := default 0 (f_words s !! a).

Definition f_alloc_or_fail : M fstate Z := fun s =>
  match f_heap s with
  | true :: h => (MkF (f_table s) (f_futexes s) h (f_next s + 1) (f_words s), Ok (f_next s))
  | _ :: h => (MkF (f_table s) (f_futexes s) h (f_next s) (f_words s), Err)
  | [] => (s, Err)
  end.

Definition put_futex (p : Z) (x : futex) : M fstate unit := modify (fun s => set_futexes s (<[p := x]> (f_futexes s))).
Definition get_futex (p : Z) : M fstate futex := fun s =>
  match f_futexes s !! p with Some x => (s, Ok x) | None => (s, Halt) end.

(** The physical address of the word. *)
Definition futex_address (pages : option (dictionary fpage)) (uaddr virtual : Z) : cres Z :=
  if virtual =? 0 then Ok uaddr
  else
    match pages with
    | None => Err
    | Some d =>
        match dictionary_search d (Z.land uaddr (u64 (Z.lnot 0xfff))) with
        | None => Err
        | Some p => Ok (u64 (default (fp_paddr p) (fp_frame p) + Z.land uaddr 0xfff))
        end
    end.

(** The futex of an address, made on first use. *)
Definition find_futex (paddr ops expected : Z) : M fstate Z :=
  d ← gets f_table;
  match dictionary_search d paddr with
  | Some p => mret p
  | None =>
      if (ops =? FUTEX_WAIT) || (ops =? FUTEX_WAKE) then
        p ← f_alloc_or_fail;
        match equeue_add (Some p) (Some junk_trigger) with
        | Ok t =>
            put_futex p (MkFutex paddr expected 0 false t);;
            d ← gets f_table;
            let '(d, ok) := dictionary_push d paddr p in
            modify (fun s => set_ftable s d);;
            if ok then mret p else fail
        | Err => fail
        | Halt => halt
        end
      else fail
  end.

Definition with_lock (x : futex) (b : bool) : futex :=
  MkFutex (fx_paddr x) (fx_expected x) (fx_refcnt x) b (fx_trigger x).
Definition with_refcnt (x : futex) (n : Z) : futex :=
  MkFutex (fx_paddr x) (fx_expected x) n (fx_locked x) (fx_trigger x).

(** [futex]; taking a lock that is held never returns. *)
Definition futex_call (thread : bool) (pages : option (dictionary fpage)) (uaddr ops expected virtual : Z) : M fstate unit :=
  if negb thread then fail
  else
    match futex_address pages uaddr virtual with
    | Err => fail
    | Halt => halt
    | Ok paddr =>
        p ← find_futex paddr ops expected;
        x ← get_futex p;
        if fx_locked x then halt
        else
          put_futex p (with_lock x true);;
          (if ops =? FUTEX_WAIT then
             put_futex p (with_refcnt (with_lock x true) (s32 (fx_refcnt x + 1)));;
             w ← gets (fun s => word s (fx_paddr x));
             if negb (w =? u32 expected) then halt
             else
               let n := s32 (s32 (fx_refcnt x + 1) - 1) in
               put_futex p (with_refcnt (with_lock x true) n);;
               if n <=? 0 then modify (fun s => set_ftable s (dictionary_delete (f_table s) paddr)) else mret tt
           else if ops =? FUTEX_WAKE then
             modify (fun s => MkF (f_table s) (f_futexes s) (f_heap s) (f_next s)
                                  (<[fx_paddr x := u32 (fx_expected x)]> (f_words s)))
           else fail);;
          x ← get_futex p;
          put_futex p (with_lock x false)
    end.

End Futex.

(** ** The system call table *)

Inductive syscall :=
| sys_log | sys_portal | sys_irq_cortex_instantiate | sys_irq_cortex_anchor | sys_futex | sys_msg_recv | sys_msg_send
| sys_create_obj | sys_duplicate_obj | sys_destroy_obj | sys_as_action.
#[global] Instance syscall_eq_dec : EqDecision syscall.
Proof. solve_decision. Defined.

(** The initializer, in order; the entries that are commented out leave no
    gap. *)
Definition syscall_handles : list syscall :=
  [sys_log; sys_portal; sys_irq_cortex_instantiate; sys_irq_cortex_anchor; sys_futex; sys_msg_recv; sys_msg_send;
   sys_create_obj; sys_duplicate_obj; sys_destroy_obj; sys_as_action].

(** The number the comment beside each entry gives. *)
Definition documented (c : syscall) : Z :=
  match c with
  | sys_log => 0 | sys_portal => 1 | sys_irq_cortex_instantiate => 12 | sys_irq_cortex_anchor => 13 | sys_futex => 14
  | sys_msg_recv => 15 | sys_msg_send => 16 | sys_create_obj => 17 | sys_duplicate_obj => 18 | sys_destroy_obj => 19
  | sys_as_action => 20
  end.

(** [syscall_handler]: the call that runs, if any, and the error left for the
    return to user mode; [run] is the handler. *)
Definition syscall_handler {T} (run : syscall -> M T Z) (current : bool) (rax : Z) : M T (option syscall * Z) :=
  match (if rax <? Z.of_nat (length syscall_handles) then syscall_handles !! Z.to_nat rax else None) with
  | None => mret (None, 0)
  | Some c =>
      if negb current then halt
      else fun s => match run c s with
                    | (s', Ok error) => (s', Ok (Some c, error))
                    | (s', Err) => (s', Ok (Some c, -1))
                    | (s', Halt) => (s', Halt)
                    end
  end.

(** ** Waking and waiting *)

Section FutexOk.
Context {AD : AriaDict} {ADO : AriaDictOk AD}.
Context (junk_trigger : etrigger).
Context (dictionary_room : forall A (d : dictionary A) k v, (dictionary_push d k v).2 = true).
Local Abbreviation fstate := (fstate (AD := AD)).

Definition new_futex (p paddr e : Z) : futex :=
  MkFutex paddr e 0 false (MkTrigger (trig_queues junk_trigger ++ [p]) (s32 (trig_refcnt junk_trigger + 1))).

(** The futex a first use leaves in the table. *)
Lemma find_futex_new (s : fstate) paddr ops e h :
  dictionary_search (f_table s) paddr = None -> f_heap s = true :: h -> ops = FUTEX_WAIT \/ ops = FUTEX_WAKE ->
  exists d, dictionary_push (f_table s) paddr (f_next s) = (d, true) /\
    find_futex junk_trigger paddr ops e s =
      (MkF d (<[f_next s := new_futex (f_next s) paddr e]> (f_futexes s)) h (f_next s + 1) (f_words s), Ok (f_next s)).
Proof.
  intros Hd Hh Ho. pose proof (dictionary_room _ (f_table s) paddr (f_next s)) as Hr.
  destruct (dictionary_push (f_table s) paddr (f_next s)) as [d ok] eqn:E. cbn [snd] in Hr. subst ok.
  exists d. split; [done|]. unfold find_futex. erewrite bind_ok by reflexivity. rewrite Hd.
  replace ((ops =? FUTEX_WAIT) || (ops =? FUTEX_WAKE)) with true by (destruct Ho as [->| ->]; done).
  erewrite bind_ok by (unfold f_alloc_or_fail; rewrite Hh; reflexivity). cbn [equeue_add].
  erewrite bind_ok by reflexivity. erewrite bind_ok by reflexivity. cbn [f_table set_futexes]. rewrite E.
  erewrite bind_ok by reflexivity. done.
Qed.

Lemma find_futex_old (s : fstate) paddr ops e p :
  dictionary_search (f_table s) paddr = Some p -> find_futex junk_trigger paddr ops e s = (s, Ok p).
Proof. intros Hd. unfold find_futex. erewrite bind_ok by reflexivity. by rewrite Hd. Qed.

Lemma wake_eq (s s1 : fstate) pages uaddr e virtual paddr p x :
  futex_address pages uaddr virtual = Ok paddr -> find_futex junk_trigger paddr FUTEX_WAKE e s = (s1, Ok p) ->
  f_futexes s1 !! p = Some x -> fx_locked x = false ->
  futex_call junk_trigger true pages uaddr FUTEX_WAKE e virtual s =
    (MkF (f_table s1) (f_futexes s1) (f_heap s1) (f_next s1) (<[fx_paddr x := u32 (fx_expected x)]> (f_words s1)), Ok tt).
Proof.
  intros Ha Hf Hx Hl. unfold futex_call. cbn [negb]. rewrite Ha, (bind_ok _ _ _ _ _ Hf).
  erewrite bind_ok by (unfold get_futex; rewrite Hx; reflexivity). rewrite Hl.
  erewrite bind_ok by reflexivity. change (FUTEX_WAKE =? FUTEX_WAIT) with false. cbv iota.
  change (FUTEX_WAKE =? FUTEX_WAKE) with true. cbv iota. erewrite bind_ok by reflexivity.
  erewrite bind_ok by (unfold get_futex; cbn [f_futexes set_futexes]; rewrite lookup_insert_eq; reflexivity).
  unfold put_futex, modify. cbn [set_futexes f_table f_futexes f_heap f_next f_words]. rewrite insert_insert_eq.
  unfold with_lock. cbn [fx_paddr fx_expected fx_refcnt fx_trigger].
  rewrite (insert_id (f_futexes s1) p (MkFutex (fx_paddr x) (fx_expected x) (fx_refcnt x) false (fx_trigger x))); [done|].
  rewrite Hx, <- Hl. by destruct x.
Qed.

Lemma wait_eq (s s1 : fstate) pages uaddr e virtual paddr p x :
  futex_address pages uaddr virtual = Ok paddr -> find_futex junk_trigger paddr FUTEX_WAIT e s = (s1, Ok p) ->
  f_futexes s1 !! p = Some x -> fx_locked x = false -> fx_refcnt x = 0 ->
  if word s1 (fx_paddr x) =? u32 e
  then futex_call junk_trigger true pages uaddr FUTEX_WAIT e virtual s =
         (MkF (dictionary_delete (f_table s1) paddr) (f_futexes s1) (f_heap s1) (f_next s1) (f_words s1), Ok tt)
  else snd (futex_call junk_trigger true pages uaddr FUTEX_WAIT e virtual s) = Halt.
Proof.
  intros Ha Hf Hx Hl Hr. unfold futex_call. cbn [negb]. rewrite Ha, (bind_ok _ _ _ _ _ Hf).
  erewrite bind_ok by (unfold get_futex; rewrite Hx; reflexivity). rewrite Hl, Hr.
  erewrite bind_ok by reflexivity. change (FUTEX_WAIT =? FUTEX_WAIT) with true. cbv iota.
  case_if.
  - erewrite bind_ok.
    2:{ erewrite bind_ok by reflexivity. erewrite bind_ok by reflexivity.
        unfold word at 1. cbn [f_words set_futexes]. fold (word s1 (fx_paddr x)). rewrite E, Z.eqb_refl. cbn [negb].
        erewrite bind_ok by reflexivity. change (s32 (s32 (0 + 1) - 1)) with 0. reflexivity. }
    erewrite bind_ok by (unfold get_futex; cbn [f_futexes set_futexes set_ftable]; rewrite lookup_insert_eq; reflexivity).
    unfold put_futex, modify. cbn [set_futexes set_ftable f_table f_futexes f_heap f_next f_words]. rewrite !insert_insert_eq.
    unfold with_lock, with_refcnt. cbn [fx_paddr fx_expected fx_refcnt fx_trigger fx_locked].
    rewrite (insert_id (f_futexes s1) p (MkFutex (fx_paddr x) (fx_expected x) 0 false (fx_trigger x))); [done|].
    rewrite Hx, <- Hl, <- Hr. by destruct x.
  - unfold mbind at 1, M_bind at 1. erewrite bind_ok by reflexivity. erewrite bind_ok by reflexivity.
    unfold word at 1. cbn [f_words set_futexes]. fold (word s1 (fx_paddr x)).
    rewrite (proj2 (Z.eqb_neq _ _)) by done. done.
Qed.

(** the first wake on a word stores the expected value there and changes
    no other word; a wait for that value then returns and takes the futex out
    of the table, while a wait for another value does not return. *)
Theorem futex_wake_then_wait (s : fstate) pages uaddr e virtual paddr h :
  futex_address pages uaddr virtual = Ok paddr -> dictionary_search (f_table s) paddr = None -> f_heap s = true :: h ->
  exists s1 s2,
    futex_call junk_trigger true pages uaddr FUTEX_WAKE e virtual s = (s1, Ok tt) /\
    word s1 paddr = u32 e /\ (forall a, a <> paddr -> word s1 a = word s a) /\
    futex_call junk_trigger true pages uaddr FUTEX_WAIT e virtual s1 = (s2, Ok tt) /\
    (forall k, dictionary_search (f_table s2) k = dictionary_search (f_table s) k) /\
    (forall e', u32 e' <> u32 e -> snd (futex_call junk_trigger true pages uaddr FUTEX_WAIT e' virtual s1) = Halt).
Proof.
  intros Ha Hd Hh. destruct (find_futex_new s paddr FUTEX_WAKE e h Hd Hh) as (d & Ed & Ef); [by right|].
  pose proof (wake_eq s _ pages uaddr e virtual paddr _ (new_futex (f_next s) paddr e) Ha Ef
    (lookup_insert_eq _ _ _) eq_refl) as Ew.
  cbn [f_table f_futexes f_heap f_next f_words new_futex fx_paddr fx_expected] in Ew.
  match type of Ew with _ = (?t, _) => set (s1 := t) in * end.
  assert (Hs1 : dictionary_search (f_table s1) paddr = Some (f_next s)).
  { unfold s1. cbn [f_table]. rewrite (dict_search_push _ _ _ _ _ _ Ed), Z.eqb_refl. done. }
  assert (Hx : f_futexes s1 !! f_next s = Some (new_futex (f_next s) paddr e)) by apply lookup_insert_eq.
  assert (Hw : word s1 paddr = u32 e) by (unfold word, s1; cbn [f_words]; by rewrite lookup_insert_eq).
  assert (Hwait : forall e', if word s1 paddr =? u32 e'
    then futex_call junk_trigger true pages uaddr FUTEX_WAIT e' virtual s1 =
           (MkF (dictionary_delete (f_table s1) paddr) (f_futexes s1) (f_heap s1) (f_next s1) (f_words s1), Ok tt)
    else snd (futex_call junk_trigger true pages uaddr FUTEX_WAIT e' virtual s1) = Halt).
  { intros e'. apply (wait_eq s1 s1 pages uaddr e' virtual paddr (f_next s) (new_futex (f_next s) paddr e) Ha); try done.
    by apply find_futex_old. }
  eexists s1, _. split; [exact Ew|]. split_and!.
  - done.
  - intros a Hne. unfold word, s1. cbn [f_words]. by rewrite lookup_insert_ne.
  - specialize (Hwait e). rewrite Hw, Z.eqb_refl in Hwait. exact Hwait.
  - intros k. cbn [f_table]. rewrite dict_search_delete. unfold s1. cbn [f_table].
    rewrite (dict_search_push _ _ _ _ _ _ Ed). case_if; [by subst|done].
  - intros e' Hne. specialize (Hwait e'). rewrite Hw, (proj2 (Z.eqb_neq _ _)) in Hwait by done. exact Hwait.
Qed.

End FutexOk.

(** ** Witnesses and edges *)

Module FutexExamples.

Definition quiet_trigger : etrigger := MkTrigger [] 0.
Definition fresh_futexes (heap : list bool) : fstate := MkF dict_empty ∅ heap 1 {[0x5000 := 7]}.
Definition mapped : option (dictionary fpage) := Some (<[0x400000 := MkFPage (Some 0x5000) 0]> (∅ : gmap Z fpage) : @dictionary dict_ref fpage).

End FutexExamples.
Import FutexExamples.

Lemma futex_wake_then_wait_witness :
  exists s1 s2, futex_call quiet_trigger true mapped 0x400004 FUTEX_WAKE 1 1 (fresh_futexes [true]) = (s1, Ok tt) /\
    word s1 0x5004 = 1 /\ futex_call quiet_trigger true mapped 0x400004 FUTEX_WAIT 1 1 s1 = (s2, Ok tt).
Proof.
  destruct (futex_wake_then_wait quiet_trigger (fun A d k v => eq_refl : (@dictionary_push dict_ref A d k v).2 = true)
    (fresh_futexes [true]) mapped 0x400004 1 1 0x5004 []) as (s1 & s2 & Ew & Hw & _ & Ewt & _).
  - vm_compute. reflexivity.
  - reflexivity.
  - reflexivity.
  - exists s1, s2. split; [exact Ew|]. split; [exact Hw|exact Ewt].
Defined.

(** A wait that would have to block ends the kernel instead. *)
Lemma wait_panics : snd (futex_call quiet_trigger true mapped 0x400000 FUTEX_WAIT 1 1 (fresh_futexes [true])) = Halt.
Proof. vm_compute. reflexivity. Qed.

(** The wake stores the value of whoever made the futex, not its own. *)
Lemma wake_stores_first_value :
  let s1 := fst (futex_call quiet_trigger true mapped 0x400000 FUTEX_WAKE 1 1 (fresh_futexes [true])) in
  let s2 := fst (futex_call quiet_trigger true mapped 0x400000 FUTEX_WAKE 2 1 s1) in
  word s2 0x5000 = 1.
Proof. vm_compute. reflexivity. Qed.

(** An unknown operation on a known futex returns with its lock held. *)
Lemma unknown_operation_keeps_lock :
  let s1 := fst (futex_call quiet_trigger true mapped 0x400000 FUTEX_WAKE 1 1 (fresh_futexes [true])) in
  let s2 := futex_call quiet_trigger true mapped 0x400000 3 1 1 s1 in
  snd s2 = Err /\ snd (futex_call quiet_trigger true mapped 0x400000 FUTEX_WAKE 1 1 (fst s2)) = Halt.
Proof. split; vm_compute; reflexivity. Qed.

(** The numbers in the comments, which user programs use, are not the
    indices: the first program's request to create an object has number 17,
    which is past the end of the table and reports no error. *)
Lemma syscall_numbers_shifted :
  syscall_handles !! 7%nat = Some sys_create_obj /\ documented sys_create_obj = 17 /\
  (forall T (run : syscall -> M T Z) s, syscall_handler run true 17 s = (s, Ok (None, 0))).
Proof. split_and!; [done|done|]. intros. done. Qed.
