(* ===== verification/Acpi.v ===== *)
(** * Firmware tables and interrupt routing
      ([acpi/rsdp.c], [acpi/madt.h], [arch/amd64/apic.c], [arch/amd64/hpet.c])

    The search for a table by signature, the list of processors and interrupt
    controllers, the redirection entries of an I/O APIC, and waiting on the
    high precision timer.  Device registers are part of the state. *)

From S2P Require Import Prelude.
From S2P Require Import Aria.

(** ** Tables *)

(** [sizeof(struct acpi_hdr)] *)
Definition sizeof_acpi_hdr : Z := 36.

(** A root table: the length in its header and its array of pointers, which
    the search may read past the end. *)
Record sdt_root := MkRoot {
  root_length : Z;
  acpi_ptr : Z -> Z;
}.

Section FindSdt.
(** The signature at a physical address. *)
Context (signature_at : Z -> list Z).

Fixpoint find_loop (n : nat) (i : Z) (ptr : Z -> Z) (signature : list Z) : option Z :=
  match n with
  | O => None
  | Datatypes.S n =>
      if bool_decide (signature_at (ptr i) = signature) then Some (ptr i) else find_loop n (i + 1) ptr signature
  end.

(** The loops run over the bytes after the header, not over the pointers. *)
Definition search_root (r : option sdt_root) (signature : list Z) : option Z :=
  match r with
  | None => None
  | Some r => find_loop (Z.to_nat (u64 (root_length r - sizeof_acpi_hdr))) 0 (acpi_ptr r) signature
  end.

Definition acpi_find_sdt (xsdt rsdt : option sdt_root) (signature : list Z) : option Z :=
  match search_root xsdt signature with
  | Some a => Some a
  | None => search_root rsdt signature
  end.

End FindSdt.

(** ** The multiple APIC description table *)

Record madt_ent0 := MkEnt0 { e0_acpi_id : Z; e0_apic_id : Z; e0_flags : Z }.
Record madt_ent1 := MkEnt1 { ioapic_id1 : Z; e1_reserved : Z; ioapic_addr : Z; gsi_base : Z }.
Record madt_ent2 := MkEnt2 { bus_src : Z; irq_src : Z; e2_gsi : Z; e2_flags : Z }.
Record madt_ent4 := MkEnt4 { e4_acpi_id : Z; e4_flags : Z; e4_lint : Z }.
Record madt_ent5 := MkEnt5 { e5_reserved : Z; lapic_override : Z }.

Record madt_lists := MkLists {
  madt_ent0_list : list madt_ent0;
  madt_ent1_list : list madt_ent1;
  madt_ent2_list : list madt_ent2;
  madt_ent4_list : list madt_ent4;
  madt_ent5_list : list madt_ent5;
}.

(** Little-endian fields of packed structures. *)
Definition rd8 (mem : list Z) (i : Z) : Z := default 0 (mem !! Z.to_nat i).
Definition rd16 (mem : list Z) (i : Z) : Z := rd8 mem i + 256 * rd8 mem (i + 1).
Definition rd32 (mem : list Z) (i : Z) : Z := rd16 mem i + 65536 * rd16 mem (i + 2).

Section Madt.
Context {AV : AriaVector}.

(** The [switch] on the type of the entry whose contents start at [i]. *)
Definition push_entry (mem : list Z) (ty i : Z) (m : madt_lists) : madt_lists :=
  let '(MkLists l0 l1 l2 l4 l5) := m in
  match ty with
  | 0 => MkLists (VECTOR_PUSH l0 (MkEnt0 (rd8 mem i) (rd8 mem (i + 1)) (rd32 mem (i + 2)))) l1 l2 l4 l5
  | 1 => MkLists l0 (VECTOR_PUSH l1 (MkEnt1 (rd8 mem i) (rd8 mem (i + 1)) (rd32 mem (i + 2)) (rd32 mem (i + 6)))) l2 l4 l5
  | 2 => MkLists l0 l1 (VECTOR_PUSH l2 (MkEnt2 (rd8 mem i) (rd8 mem (i + 1)) (rd32 mem (i + 2)) (rd16 mem (i + 6)))) l4 l5
  | 4 => MkLists l0 l1 l2 (VECTOR_PUSH l4 (MkEnt4 (rd8 mem i) (rd16 mem (i + 1)) (rd8 mem (i + 3)))) l5
  | 5 => MkLists l0 l1 l2 l4 (VECTOR_PUSH l5 (MkEnt5 (rd16 mem i) (rd8 mem (i + 2))))
  | _ => m
  end.

(** The loop of [apic_init] over the [n] bytes of entries.  Every turn but one
    over an entry of size zero moves on, so that a loop that outlives [n]
    turns never ends. *)
Fixpoint madt_loop (fuel : nat) (mem : list Z) (n i : Z) (m : madt_lists) : cres madt_lists :=
  if negb (i <? n) then Ok m
  else
    match fuel with
    | O => Halt
    | Datatypes.S fuel =>
        let entry_type := rd8 mem i in
        let entry_size := rd8 mem (i + 1) in
        madt_loop fuel mem n (u64 (u64 (i + 2 + (entry_size - 3)) + 1)) (push_entry mem entry_type (i + 2) m)
    end.

Definition parse_madt (mem : list Z) (n : Z) : cres madt_lists :=
  madt_loop (Z.to_nat n) mem n 0 (MkLists [] [] [] [] []).

End Madt.

(** ** I/O APICs *)

Definition IOAPIC_INT_MASK : Z := 2 ^ 16.
Definition IOAPIC_TRIGGER_MODE : Z := 2 ^ 15.
Definition IOAPIC_INTPOL : Z := 2 ^ 13.

(** The device: its index register and the registers behind it. *)
Record ioapic_dev := MkDev { io_select : Z; io_regs : gmap Z Z }.

Record ioapic := MkIoapic {
  maximum_redirection_entry : Z;
  io_gsi_base : Z;
  io_dev : ioapic_dev;
}.

Definition ioapic_read (reg : Z) (d : ioapic_dev) : ioapic_dev * Z :=
  let d := MkDev (u8 reg) (io_regs d) in (d, default 0 (io_regs d !! io_select d)).

Definition ioapic_write (reg data : Z) (d : ioapic_dev) : ioapic_dev :=
  let d := MkDev (u8 reg) (io_regs d) in MkDev (io_select d) (<[io_select d := u32 data]> (io_regs d)).

Definition ioapic_write_redirection_table (redirection_entry data : Z) (d : ioapic_dev) : ioapic_dev :=
  let d := ioapic_write (redirection_entry + 0x10) (Z.land data 0xffffffff) d in
  ioapic_write (redirection_entry + 0x10 + 1) (Z.land (Z.shiftr data 32) 0xffffffff) d.

Definition ioapic_read_redirection_table (redirection_entry : Z) (d : ioapic_dev) : ioapic_dev * Z :=
  let '(d, low) := ioapic_read (redirection_entry + 0x10) d in
  let '(d, high) := ioapic_read (redirection_entry + 0x10 + 1) d in
  (d, Z.lor low (Z.shiftl high 32)).

(** The first override for the interrupt line: flags, and the line it becomes. *)
Definition find_override (overrides : list madt_ent2) (irq : Z) : Z * Z :=
  match list_find (fun o => irq_src o = irq) overrides with
  | Some (_, o) =>
      ((if Z.testbit (e2_flags o) 1 then IOAPIC_INTPOL
        else if Z.testbit (e2_flags o) 3 then IOAPIC_TRIGGER_MODE else 0), u8 (e2_gsi o))
  | None => (0, irq)
  end.

Definition redirection (lapic_id vector flags : Z) : Z :=
  Z.lor (Z.lor vector flags) (u64 (Z.shiftl lapic_id 56)).

(** The first controller that takes the line gets the entry. *)
Fixpoint redirect_loop (apics : list ioapic) (irq entry : Z) : list ioapic :=
  match apics with
  | [] => []
  | a :: apics =>
      if (irq <=? maximum_redirection_entry a) && (io_gsi_base a <=? irq)
      then MkIoapic (maximum_redirection_entry a) (io_gsi_base a)
             (ioapic_write_redirection_table ((irq - io_gsi_base a) * 2) entry (io_dev a)) :: apics
      else a :: redirect_loop apics irq entry
  end.

Definition ioapic_set_irq_redirection (overrides : list madt_ent2) (apics : list ioapic)
    (lapic_id vector irq : Z) (mask : bool) : list ioapic * Z :=
  let '(flags, irq) := find_override overrides irq in
  let flags := if mask then Z.lor flags IOAPIC_INT_MASK else flags in
  (redirect_loop apics irq (redirection lapic_id vector flags), irq).

(** The values read from a controller when it is found. *)
Definition ioapic_probe (madt1 : madt_ent1) (d : ioapic_dev) : ioapic :=
  let '(d, _) := ioapic_read 0 d in
  let '(d, _) := ioapic_read 1 d in
  let '(d, version) := ioapic_read 1 d in
  let '(d, _) := ioapic_read 2 d in
  MkIoapic (Z.land (Z.shiftr version 16) 0xff) (gsi_base madt1) d.

Section Init.
Context {AB : AriaBase} {AV : AriaVector}.

(** [devices] are the register banks at the addresses of the controllers. *)
Fixpoint ioapic_probe_all (devices : Z -> ioapic_dev) (l : list madt_ent1) (apics : list ioapic) : list ioapic :=
  match l with
  | [] => apics
  | madt1 :: l =>
      ioapic_probe_all devices l (VECTOR_PUSH apics (ioapic_probe madt1 (devices (ioapic_addr madt1))))
  end.

(** The loop of [apic_init] over the 16 legacy lines: [i] is skipped when an
    earlier line was redirected to it.  The set of lines done has 8 bytes: a
    line from 64 on sets a bit outside of them. *)
Fixpoint init_redirections (n : nat) (i : Z) (irq_bitmap : list Z) (overrides : list madt_ent2) (lapic_id : Z)
    (apics : list ioapic) : cres (list ioapic) :=
  match n with
  | O => Ok apics
  | Datatypes.S n =>
      if BIT_TEST irq_bitmap i then init_redirections n (i + 1) irq_bitmap overrides lapic_id apics
      else
        let '(apics, irq) := ioapic_set_irq_redirection overrides apics lapic_id (i + 32) i true in
        if irq <? 64 then init_redirections n (i + 1) (BIT_SET irq_bitmap irq) overrides lapic_id apics
        else Halt
  end.

(** [apic_init] up to the local controller, on the bytes of the table's
    entries; the processor that runs it gets the lines. *)
Definition apic_init (mem : list Z) (n : Z) (devices : Z -> ioapic_dev) (lapic_id : Z) :
    cres (madt_lists * list ioapic) :=
  match parse_madt mem n with
  | Ok m =>
      match init_redirections 16 0 (replicate 8 0) (madt_ent2_list m) lapic_id
              (ioapic_probe_all devices (madt_ent1_list m) []) with
      | Ok apics => Ok (m, apics)
      | Err => Err
      | Halt => Halt
      end
  | Err => Err
  | Halt => Halt
  end.

End Init.

(** ** The local APIC *)

Definition XAPIC_ICR_OFF : Z := 0x300.
Definition XAPIC_ICR_1 : Z := 0x310.
Definition XAPIC_TIMER_LVT_OFF : Z := 0x320.
Definition XAPIC_TIMER_INITAL_COUNT_OFF : Z := 0x380.
Definition XAPIC_TIMER_DIVIDE_CONF_OFF : Z := 0x3E0.

(** The register writes in order, as pairs of register and value. *)
Definition xapic_write (reg data : Z) (t : list (Z * Z)) : list (Z * Z) := t ++ [(u32 reg, u32 data)].

(** [current] is the count register after the wait. *)
Definition apic_timer_init (current : Z) (t : list (Z * Z)) : list (Z * Z) :=
  let t := xapic_write XAPIC_TIMER_DIVIDE_CONF_OFF 0x3 t in
  let t := xapic_write XAPIC_TIMER_INITAL_COUNT_OFF (-1) t in
  let ticks := u32 (-1 - current) in
  let t := xapic_write XAPIC_TIMER_LVT_OFF (Z.lor 0x20 (2 ^ 17)) t in
  let t := xapic_write XAPIC_TIMER_DIVIDE_CONF_OFF 0x3 t in
  xapic_write XAPIC_TIMER_INITAL_COUNT_OFF ticks t.

(** [icr] are the values the command register gives, one per turn of the
    loop: the first without the pending bit ends it; [Halt] when it stays
    pending for all of them. *)
Fixpoint ipi_wait (icr : list Z) : cres unit :=
  match icr with
  | [] => Halt
  | v :: icr => if Z.testbit v 12 then ipi_wait icr else Ok tt
  end.

Definition arch_send_ipi (core_id ipi : Z) (icr : list Z) (t : list (Z * Z)) : list (Z * Z) * cres unit :=
  let t := xapic_write XAPIC_ICR_1 (Z.shiftl core_id 24) t in
  let t := xapic_write XAPIC_ICR_OFF ipi t in
  (t, ipi_wait icr).

(** ** The high precision timer *)

Definition hpet_period (capabilities : Z) : Z := Z.shiftr capabilities 32.

(** The counter value a wait ends at; a period of zero divides by zero. *)
Definition hpet_deadline (unit_fs capabilities counter amount : Z) : Z :=
  u64 (counter + u64 (amount * (unit_fs / hpet_period capabilities))).
Definition hpet_msleep := hpet_deadline 1000000000000.
Definition hpet_usleep := hpet_deadline 1000000000.
Definition hpet_nsleep := hpet_deadline 1000000.

Definition hpet_get_timestamp_ns (capabilities counter : Z) : Z :=
  u64 (counter / (1000000000 / hpet_period capabilities) * 1000).

(** ** Reading back a description table *)

Definition le16 (x : Z) : list Z := [x mod 256; x / 256 mod 256].
Definition le32 (x : Z) : list Z := le16 (x mod 65536) ++ le16 (x / 65536).

(** Entries as the specification has them; the size counts its two header
    bytes. *)
Inductive madt_entry :=
| Ent0 (e : madt_ent0)
| Ent1 (e : madt_ent1)
| Ent2 (e : madt_ent2)
| Ent4 (e : madt_ent4)
| Ent5 (e : madt_ent5)
| EntOther (ty : Z) (contents : list Z).

Definition entry_type (e : madt_entry) : Z :=
  match e with Ent0 _ => 0 | Ent1 _ => 1 | Ent2 _ => 2 | Ent4 _ => 4 | Ent5 _ => 5 | EntOther ty _ => ty end.

Definition contents (e : madt_entry) : list Z :=
  match e with
  | Ent0 e => [e0_acpi_id e; e0_apic_id e] ++ le32 (e0_flags e)
  | Ent1 e => [ioapic_id1 e; e1_reserved e] ++ le32 (ioapic_addr e) ++ le32 (gsi_base e)
  | Ent2 e => [bus_src e; irq_src e] ++ le32 (e2_gsi e) ++ le16 (e2_flags e)
  | Ent4 e => [e4_acpi_id e] ++ le16 (e4_flags e) ++ [e4_lint e]
  | Ent5 e => le16 (e5_reserved e) ++ [lapic_override e]
  | EntOther _ l => l
  end.

Definition print_entry (e : madt_entry) : list Z :=
  entry_type e :: 2 + Z.of_nat (length (contents e)) :: contents e.

Definition add_entry (m : madt_lists) (e : madt_entry) : madt_lists :=
  let '(MkLists l0 l1 l2 l4 l5) := m in
  match e with
  | Ent0 e => MkLists (l0 ++ [e]) l1 l2 l4 l5
  | Ent1 e => MkLists l0 (l1 ++ [e]) l2 l4 l5
  | Ent2 e => MkLists l0 l1 (l2 ++ [e]) l4 l5
  | Ent4 e => MkLists l0 l1 l2 (l4 ++ [e]) l5
  | Ent5 e => MkLists l0 l1 l2 l4 (l5 ++ [e])
  | EntOther _ _ => m
  end.

Definition wf_entry (e : madt_entry) : Prop :=
  match e with
  | Ent0 e => 0 <= e0_flags e < 2 ^ 32
  | Ent1 e => 0 <= ioapic_addr e < 2 ^ 32 /\ 0 <= gsi_base e < 2 ^ 32
  | Ent2 e => 0 <= e2_gsi e < 2 ^ 32 /\ 0 <= e2_flags e < 2 ^ 16
  | Ent4 e => 0 <= e4_flags e < 2 ^ 16
  | Ent5 e => 0 <= e5_reserved e < 2 ^ 16
  | EntOther ty l => ty ∉ [0; 1; 2; 4; 5] /\ (length l <= 253)%nat
  end.

Lemma le16_value x : 0 <= x < 2 ^ 16 -> x mod 256 + 256 * (x / 256 mod 256) = x.
Proof.
  intros. rewrite (Z.mod_small (x / 256)) by (split; [apply Z.div_pos; lia|apply Z.div_lt_upper_bound; lia]).
  pose proof (Z.div_mod x 256). lia.
Qed.

Lemma le32_value x : 0 <= x < 2 ^ 32 ->
  (x mod 65536) mod 256 + 256 * (x mod 65536 / 256 mod 256) +
  65536 * (x / 65536 mod 256 + 256 * (x / 65536 / 256 mod 256)) = x.
Proof.
  intros. pose proof (Z.mod_pos_bound x 65536 ltac:(lia)). pose proof (Z.div_mod x 65536).
  assert (0 <= x / 65536 < 2 ^ 16) by (split; [apply Z.div_pos; lia|apply Z.div_lt_upper_bound; lia]).
  rewrite !le16_value by lia. lia.
Qed.

Lemma contents_length e : wf_entry e -> (length (contents e) <= 253)%nat.
Proof. destruct e; cbn; lia || tauto. Qed.

Lemma rd8_drop mem i k l :
  drop (Z.to_nat i) mem = l -> 0 <= i -> 0 <= k -> rd8 mem (i + k) = rd8 l k.
Proof.
  intros <- Hi Hk. unfold rd8. rewrite lookup_drop. do 3 f_equal. lia.
Qed.

Section MadtOk.
Context {AV : AriaVector} {AVO : AriaVectorOk AV}.

(** The entry at [i] only depends on the bytes from there on. *)
Lemma push_entry_drop mem i l ty m :
  drop (Z.to_nat i) mem = l -> 0 <= i -> push_entry mem ty i m = push_entry l ty 0 m.
Proof.
  intros Hd Hi.
  assert (H8 : forall k, 0 <= k -> rd8 mem (i + k) = rd8 l (0 + k)) by (intros; by apply rd8_drop).
  assert (H0 : rd8 mem i = rd8 l 0) by (rewrite <- (Z.add_0_r i), H8 by lia; done).
  assert (H16 : forall k, 0 <= k -> rd16 mem (i + k) = rd16 l (0 + k)).
  { intros. unfold rd16. rewrite H8, <- (Z.add_assoc i), H8 by lia. by rewrite Z.add_assoc. }
  assert (H16' : rd16 mem i = rd16 l 0) by (rewrite <- (Z.add_0_r i), H16 by lia; done).
  assert (H32 : forall k, 0 <= k -> rd32 mem (i + k) = rd32 l (0 + k)).
  { intros. unfold rd32. rewrite H16, <- (Z.add_assoc i), H16 by lia. by rewrite Z.add_assoc. }
  unfold push_entry. rewrite H0, H16', !H8, !H16, !H32 by lia. done.
Qed.

Lemma rd16_le16 p x rest : 0 <= x < 2 ^ 16 -> rd16 (p ++ le16 x ++ rest) (Z.of_nat (length p)) = x.
Proof.
  intros Hx. rewrite <- (le16_value x Hx) at 2. unfold rd16, rd8.
  rewrite (lookup_app_r p _ (Z.to_nat (Z.of_nat (length p)))) by lia.
  rewrite (lookup_app_r p _ (Z.to_nat (Z.of_nat (length p) + 1))) by lia.
  replace (Z.to_nat (Z.of_nat (length p)) - length p)%nat with 0%nat by lia.
  by replace (Z.to_nat (Z.of_nat (length p) + 1) - length p)%nat with 1%nat by lia.
Qed.

Lemma rd32_le32 p x rest : 0 <= x < 2 ^ 32 -> rd32 (p ++ le32 x ++ rest) (Z.of_nat (length p)) = x.
Proof.
  intros Hx. unfold rd32, le32. rewrite <- (app_assoc (le16 _)).
  pose proof (Z.mod_pos_bound x 65536 ltac:(lia)). pose proof (Z.div_mod x 65536).
  rewrite rd16_le16 by lia.
  pose proof (rd16_le16 (p ++ le16 (x mod 65536)) (x / 65536) rest) as Hr.
  rewrite length_app, Nat2Z.inj_add, <- app_assoc in Hr. cbn [length le16 Z.of_nat] in Hr.
  change (Z.of_nat 2) with 2 in Hr. rewrite Hr; [lia|split; [apply Z.div_pos; lia|apply Z.div_lt_upper_bound; lia]].
Qed.

(** What the parser stores for an entry is that entry. *)
Lemma push_entry_contents e rest m :
  wf_entry e -> push_entry (contents e ++ rest) (entry_type e) 0 m = add_entry m e.
Proof.
  intros Hw. destruct m as [l0 l1 l2 l4 l5].
  destruct e as [[a b c]|[a b c d]|[a b c d]|[a b c]|[a b]|ty l]; unfold push_entry; cbn [entry_type add_entry wf_entry] in *;
    rewrite ?vector_push_spec.
  - repeat f_equal. exact (rd32_le32 [a; b] c rest Hw).
  - destruct Hw as [Hc Hd]. repeat f_equal.
    + exact (rd32_le32 [a; b] c (le32 d ++ rest) Hc).
    + exact (rd32_le32 ([a; b] ++ le32 c) d rest Hd).
  - destruct Hw as [Hc Hd]. repeat f_equal.
    + exact (rd32_le32 [a; b] c (le16 d ++ rest) Hc).
    + exact (rd16_le16 ([a; b] ++ le32 c) d rest Hd).
  - repeat f_equal. exact (rd16_le16 [a] b ([c] ++ rest) Hw).
  - repeat f_equal. exact (rd16_le16 [] a ([b] ++ rest) Hw).
  - destruct Hw as [Hty _]. repeat (apply not_elem_of_cons in Hty as [? Hty]).
    destruct ty as [|p|p]; try done. repeat (destruct p as [p|p|]; try done).
Qed.

Definition print_madt (es : list madt_entry) : list Z := concat (print_entry <$> es).

Lemma madt_loop_print fuel mem es i m :
  Forall wf_entry es -> 0 <= i -> Z.of_nat (length mem) < 2 ^ 32 ->
  drop (Z.to_nat i) mem = print_madt es -> (length es <= fuel)%nat -> i <= Z.of_nat (length mem) ->
  madt_loop fuel mem (Z.of_nat (length mem)) i m = Ok (foldl add_entry m es).
Proof.
  revert es i m. induction fuel as [|fuel IH]; intros es i m Hw Hi Hn Hd Hf Hle; destruct es as [|e es].
  all: assert (Hlen := f_equal length Hd); rewrite length_drop in Hlen; cbn in Hlen.
  1, 3: cbn [madt_loop]; destruct (Z.ltb_spec i (Z.of_nat (length mem))); [lia|done].
  { cbn in Hf. lia. }
  apply Forall_cons in Hw as [He Hw]. pose proof (contents_length e He) as Hc.
  rewrite length_app in Hlen.
  set (n := length (contents e)) in *. cbn [madt_loop foldl].
  destruct (Z.ltb_spec i (Z.of_nat (length mem))); [|cbn in Hlen; lia]. cbn [negb].
  assert (Hd2 : drop (Z.to_nat (i + 2)) mem = contents e ++ print_madt es).
  { rewrite Z2Nat.inj_add, <- drop_drop, Hd by lia. done. }
  assert (Hty : rd8 mem i = entry_type e) by (rewrite <- (Z.add_0_r i), (rd8_drop _ _ _ _ Hd) by lia; done).
  rewrite (rd8_drop _ _ _ _ Hd), Hty, (push_entry_drop _ _ _ _ _ Hd2), push_entry_contents by (done || lia).
  change (rd8 (print_madt (e :: es)) 1) with (2 + Z.of_nat n).
  replace (u64 _) with (i + 2 + Z.of_nat n).
  2:{ rewrite (u64_small (i + 2 + _)), u64_small; lia. }
  apply IH; try done; try (cbn in Hf, Hlen; lia).
  rewrite Z2Nat.inj_add, Nat2Z.id, <- drop_drop, Hd2 by lia. apply drop_app_length.
Qed.

(** C29: Reading the entries of a description table back gives the entries
    it was written from: processors, I/O APICs, overrides and non-maskable
    lines end up in the list of their type in the order of the table, and an
    entry of a type the kernel does not know is skipped by its size. *)
Theorem madt_roundtrip es :
  Forall wf_entry es -> Z.of_nat (length (print_madt es)) < 2 ^ 32 ->
  parse_madt (print_madt es) (Z.of_nat (length (print_madt es))) =
  Ok (foldl add_entry (MkLists [] [] [] [] []) es).
Proof.
  intros Hw Hn. unfold parse_madt. apply madt_loop_print; try (done || lia).
  rewrite Nat2Z.id. induction es as [|e es IH]; [done|].
  unfold print_madt in *. rewrite fmap_cons in *. cbn in *. rewrite length_app in *.
  apply Forall_cons in Hw as [_ Hw]. specialize (IH Hw ltac:(lia)). lia.
Qed.

End MadtOk.

Lemma madt_roundtrip_witness :
  let es := [Ent0 (MkEnt0 0 3 1); EntOther 10 [0; 0; 7]; Ent1 (MkEnt1 1 0 4273995776 24); Ent2 (MkEnt2 0 0 2 13)] in
  parse_madt (print_madt es) (Z.of_nat (length (print_madt es))) =
  Ok (MkLists [MkEnt0 0 3 1] [MkEnt1 1 0 4273995776 24] [MkEnt2 0 0 2 13] [] []).
Proof.
  intros es. apply (madt_roundtrip (AVO := vector_ref_ok) es); [|by vm_compute].
  repeat (apply Forall_cons; split); [| | | |by apply Forall_nil]; cbn; try lia.
  split; [|lia]. rewrite !not_elem_of_cons. repeat split; try done. apply not_elem_of_nil.
Defined.

(** An entry of size zero is read for ever. *)
Lemma madt_loop_stuck `{AriaVector} fuel ty m n : 0 < n -> madt_loop fuel [ty; 0] n 0 m = Halt.
Proof.
  intros Hn. revert m.
  induction fuel as [|fuel IH]; intros m; cbn [madt_loop]; destruct (Z.ltb_spec 0 n); (done || lia || apply IH).
Qed.

(** ** Redirection entries *)

Lemma bits_above w x n : 0 <= x < 2 ^ w -> 0 <= w <= n -> Z.testbit x n = false.
Proof.
  intros Hx Hn. destruct (Z.eq_dec x 0) as [->|]; [apply Z.bits_0|].
  apply Z.bits_above_log2; [lia|]. assert (Z.log2 x < w) by (apply Z.log2_lt_pow2; lia). lia.
Qed.

Lemma read_halves data :
  0 <= data < 2 ^ 64 ->
  Z.lor (u32 (Z.land data 0xffffffff)) (Z.shiftl (u32 (Z.land (Z.shiftr data 32) 0xffffffff)) 32) = data.
Proof.
  intros Hd. unfold u32. change 0xffffffff with (Z.ones 32). rewrite <- !Z.land_ones by lia.
  apply Z.bits_inj'. intros n Hn. rewrite Z.lor_spec, Z.shiftl_spec, !Z.land_spec, !Z.testbit_ones by lia.
  destruct (Z.leb_spec 0 n), (Z.ltb_spec n 32); try lia; cbn [andb].
  - rewrite (Z.testbit_neg_r _ (n - 32)) by lia. by rewrite !andb_true_r, orb_false_r.
  - rewrite !andb_false_r, orb_false_l, Z.shiftr_spec, Z.sub_add by lia.
    destruct (Z.ltb_spec (n - 32) 32), (Z.leb_spec 0 (n - 32)); try lia; cbn [andb].
    + by rewrite !andb_true_r.
    + by rewrite (bits_above 64) by lia.
Qed.

Lemma redirection_table_read e data d :
  0 <= e < 239 -> 0 <= data < 2 ^ 64 ->
  (ioapic_read_redirection_table e (ioapic_write_redirection_table e data d)).2 = data.
Proof.
  intros He Hd. unfold ioapic_read_redirection_table, ioapic_write_redirection_table. cbn.
  rewrite !u8_small by lia. rewrite lookup_insert_ne, !lookup_insert_eq by lia. by apply read_halves.
Qed.

Lemma redirection_table_other e e' data d :
  0 <= e < 239 -> 0 <= e' < 239 -> Z.even e = true -> Z.even e' = true -> e' <> e ->
  (ioapic_read_redirection_table e' (ioapic_write_redirection_table e data d)).2 =
  (ioapic_read_redirection_table e' d).2.
Proof.
  intros He He' [k Hk]%Z.even_spec [k' Hk']%Z.even_spec Hne.
  unfold ioapic_read_redirection_table, ioapic_write_redirection_table. cbn.
  rewrite !u8_small by lia. by rewrite !lookup_insert_ne by lia.
Qed.

(** The bits that an override and the mask add stay clear of the vector and
    of the destination. *)
Definition entry_flags (override : Z) (mask : bool) : Z :=
  if mask then Z.lor override IOAPIC_INT_MASK else override.

Lemma redirection_fields lapic_id vector override mask :
  override ∈ [0; IOAPIC_INTPOL; IOAPIC_TRIGGER_MODE] -> 0 <= vector < 2 ^ 8 -> 0 <= lapic_id ->
  let entry := redirection lapic_id vector (entry_flags override mask) in
  0 <= entry < 2 ^ 64 /\ entry mod 2 ^ 8 = vector /\ Z.testbit entry 16 = mask /\ entry / 2 ^ 56 = u8 lapic_id.
Proof.
  intros Ho Hv Hl entry.
  assert (Hd : u64 (Z.shiftl lapic_id 56) = Z.shiftl (u8 lapic_id) 56).
  { unfold u64, u8. rewrite !Z.shiftl_mul_pow2 by lia. change (2 ^ 64) with (2 ^ 8 * 2 ^ 56).
    by rewrite Zmult_mod_distr_r. }
  set (f := entry_flags override mask / 2 ^ 13).
  assert (Hf : entry_flags override mask = Z.shiftl f 13 /\ 0 <= f < 2 ^ 4 /\ Z.testbit f 3 = mask).
  { subst f. rewrite !elem_of_cons, elem_of_nil in Ho.
    destruct Ho as [->|[->|[->|[]]]], mask; vm_compute; repeat split; discriminate. }
  destruct Hf as (Hf & Hr & Hm). subst entry. unfold redirection. rewrite Hd, Hf.
  split; [|split; [|split]].
  3:{ rewrite !Z.lor_spec, (bits_above 8 vector), (Z.shiftl_spec_low (u8 _)), (Z.shiftl_spec f), orb_false_r by lia.
      exact Hm. }
  all: rewrite (Z.lor_comm vector), (lor_low (Z.shiftl f 13) vector 13), Z.lor_comm, (lor_low _ _ 56);
    rewrite ?Z.shiftl_mul_pow2 in *; pose proof (u8_range lapic_id);
    try lia; try (rewrite Z.mod_mul; lia).
  - change (2 ^ 56) with (2 ^ 48 * 2 ^ 8). change (2 ^ 13) with (2 ^ 5 * 2 ^ 8).
    rewrite !Z.mul_assoc, Z.add_comm, Z.mod_add, Z.add_comm, Z.mod_add by lia. by apply Z.mod_small.
  - rewrite Z.div_add_l by lia. rewrite Z.div_small; lia.
Qed.

Lemma find_override_flags overrides irq : (find_override overrides irq).1 ∈ [0; IOAPIC_INTPOL; IOAPIC_TRIGGER_MODE].
Proof. unfold find_override. repeat case_match; set_solver. Qed.

Lemma redirect_loop_at apics k a irq entry :
  apics !! k = Some a -> io_gsi_base a <= irq <= maximum_redirection_entry a ->
  (forall j b, apics !! j = Some b -> (j < k)%nat -> ~ (io_gsi_base b <= irq <= maximum_redirection_entry b)) ->
  redirect_loop apics irq entry =
  <[k := MkIoapic (maximum_redirection_entry a) (io_gsi_base a)
           (ioapic_write_redirection_table ((irq - io_gsi_base a) * 2) entry (io_dev a))]> apics.
Proof.
  revert k. induction apics as [|b apics IH]; intros k Hk Ha Hfirst; [done|]. cbn [redirect_loop].
  destruct k as [|k]; cbn in Hk; simplify_eq.
  - rewrite (proj2 (Z.leb_le _ _) (proj1 Ha)), (proj2 (Z.leb_le _ _) (proj2 Ha)). done.
  - destruct (_ && _) eqn:E.
    + apply andb_prop in E as [?%Z.leb_le ?%Z.leb_le]. destruct (Hfirst 0%nat b); (done || lia).
    + cbn. f_equal. apply IH; try done. intros j c Hj Hjk. apply (Hfirst (S j) c Hj). lia.
Qed.

(** Routing an interrupt line: the line is replaced by that of its
    first override; the first controller that takes the line gets one entry
    with the vector, the mask and the low byte of the processor's identifier
    in their places; reading any other entry of that controller gives what
    it was, and the other controllers do not change. *)
Theorem ioapic_set_irq_redirection_correct overrides apics lapic_id vector irq mask k a :
  let gsi := (find_override overrides irq).2 in
  let e := (gsi - io_gsi_base a) * 2 in
  apics !! k = Some a -> io_gsi_base a <= gsi <= maximum_redirection_entry a ->
  (forall j b, apics !! j = Some b -> (j < k)%nat -> ~ (io_gsi_base b <= gsi <= maximum_redirection_entry b)) ->
  gsi - io_gsi_base a < 120 -> 0 <= vector < 2 ^ 8 -> 0 <= lapic_id ->
  exists d,
    ioapic_set_irq_redirection overrides apics lapic_id vector irq mask =
      (<[k := MkIoapic (maximum_redirection_entry a) (io_gsi_base a) d]> apics, gsi) /\
    (let entry := (ioapic_read_redirection_table e d).2 in
     entry mod 2 ^ 8 = vector /\ Z.testbit entry 16 = mask /\ entry / 2 ^ 56 = u8 lapic_id) /\
    (forall e', 0 <= e' < 239 -> Z.even e' = true -> e' <> e ->
      (ioapic_read_redirection_table e' d).2 = (ioapic_read_redirection_table e' (io_dev a)).2).
Proof.
  intros gsi e Hk Ha Hfirst He Hv Hl.
  pose proof (find_override_flags overrides irq) as Hf.
  destruct (redirection_fields lapic_id vector _ mask Hf Hv Hl) as (Hr & Hfields).
  exists (ioapic_write_redirection_table e (redirection lapic_id vector (entry_flags (find_override overrides irq).1 mask)) (io_dev a)).
  split; [|split].
  - unfold ioapic_set_irq_redirection. subst gsi e. destruct (find_override overrides irq) as [flags gsi].
    by rewrite (redirect_loop_at _ k a).
  - rewrite redirection_table_read by lia. exact Hfields.
  - intros e' He' Hev Hne. apply redirection_table_other; try (done || lia).
    subst e. by rewrite Z.even_mul, orb_true_r.
Qed.

(** An override sends line 0 to line 2 of the second controller's range. *)
Lemma ioapic_set_irq_redirection_witness :
  let apics := [MkIoapic 1 0 (MkDev 0 ∅); MkIoapic 23 2 (MkDev 0 ∅)] in
  exists d, ioapic_set_irq_redirection [MkEnt2 0 0 2 0] apics 1 32 0 true = (<[1%nat := MkIoapic 23 2 d]> apics, 2) /\
    (ioapic_read_redirection_table 0 d).2 = 0x100000000010020.
Proof.
  intros apics.
  assert (Hfirst : forall j b, apics !! j = Some b -> (j < 1)%nat -> ~ (io_gsi_base b <= 2 <= maximum_redirection_entry b)).
  { intros [|j] b Hb Hj; [|lia]. cbn in Hb. simplify_eq. cbn. lia. }
  destruct (ioapic_set_irq_redirection_correct [MkEnt2 0 0 2 0] apics 1 32 0 true 1 (MkIoapic 23 2 (MkDev 0 ∅)) eq_refl
    ltac:(vm_compute; split; discriminate) Hfirst ltac:(by vm_compute) ltac:(lia) ltac:(lia)) as (d & Hd & _ & _).
  exists d. split; [exact Hd|]. vm_compute in Hd. injection Hd as <-. by vm_compute.
Defined.

(** ** Waiting *)

(** A wait on the timer ends at a counter value that is never later
    than asked, and earlier by less than one period per unit waited for: in
    femtoseconds, with a period [p] and [ticks] counted, [ticks * p] is at
    most the time asked and [(ticks + amount) * p] is more. *)
Theorem hpet_deadline_bounds unit_fs capabilities counter amount :
  let p := hpet_period capabilities in
  let ticks := hpet_deadline unit_fs capabilities counter amount - counter in
  0 < p -> 0 <= unit_fs -> 0 <= counter -> 0 < amount -> counter + amount * (unit_fs / p) < 2 ^ 64 ->
  0 <= ticks /\ ticks * p <= amount * unit_fs < (ticks + amount) * p.
Proof.
  intros p ticks Hp Hu Hc Ha Hov.
  assert (0 <= unit_fs / p) by (apply Z.div_pos; lia).
  assert (Ht : ticks = amount * (unit_fs / p)).
  { subst ticks. unfold hpet_deadline. fold p. rewrite (u64_small (amount * _)), u64_small by nia. lia. }
  rewrite Ht. pose proof (Z.mul_div_le unit_fs p ltac:(lia)). pose proof (Z.mul_succ_div_gt unit_fs p ltac:(lia)). nia.
Qed.

(** One millisecond at 10 MHz. *)
Lemma hpet_deadline_bounds_witness :
  let caps := 100000000 * 2 ^ 32 in
  hpet_msleep caps 5 1 - 5 = 10000 /\ 10000 * 100000000 <= 1 * 1000000000000 < (10000 + 1) * 100000000.
Proof.
  intros caps.
  pose proof (hpet_deadline_bounds 1000000000000 caps 5 1 ltac:(by vm_compute) ltac:(lia) ltac:(lia) ltac:(lia) ltac:(by vm_compute)) as [_ H].
  split; [by vm_compute|]. vm_compute in H |- *. exact H.
Defined.

(** At 10 MHz a wait of any number of nanoseconds counts no tick. *)
Lemma hpet_nsleep_does_not_wait counter ns :
  0 <= counter < 2 ^ 64 -> hpet_nsleep (100000000 * 2 ^ 32) counter ns = counter.
Proof.
  intros Hc. unfold hpet_nsleep, hpet_deadline. change (1000000 / _) with 0.
  rewrite Z.mul_0_r. change (u64 0) with 0. rewrite Z.add_0_r. by apply u64_small.
Qed.

(** The identifier register holds the identifier in its top byte, which the
    shift throws away: every line goes to processor 0. *)
Lemma redirection_loses_id id vector flags :
  0 <= id < 2 ^ 8 -> redirection (Z.shiftl id 24) vector flags = redirection 0 vector flags.
Proof.
  intros Hid. unfold redirection. f_equal. rewrite Z.shiftl_shiftl by lia. unfold u64.
  rewrite Z.shiftl_mul_pow2 by lia. change (2 ^ (24 + 56)) with (2 ^ 16 * 2 ^ 64).
  rewrite Z.mul_assoc, Z.mod_mul by lia. done.
Qed.

(** An override that asks for a level-triggered, active-low line loses the
    trigger mode. *)
Lemma override_drops_level :
  find_override [MkEnt2 0 9 9 0xf] 9 = (IOAPIC_INTPOL, 9).
Proof. done. Qed.

(** A controller whose lines start at 24 and that has 24 entries takes no line. *)
Lemma second_controller_takes_nothing irq entry d :
  redirect_loop [MkIoapic 23 24 d] irq entry = [MkIoapic 23 24 d].
Proof.
  cbn [redirect_loop io_gsi_base maximum_redirection_entry].
  destruct (Z.leb_spec irq 23), (Z.leb_spec 24 irq); (done || lia).
Qed.

(** The search goes on past the last pointer: a table of one 8-byte pointer
    is read eight times. *)
Lemma find_sdt_reads_past_end ptr :
  search_root (fun a => [a]) (Some (MkRoot 44 ptr)) [ptr 7] <> None.
Proof.
  unfold search_root. change (Z.to_nat _) with 8%nat. cbn [find_loop acpi_ptr Z.add Pos.add].
  repeat (case_bool_decide; [done|]). done.
Qed.

(** The legacy lines of a machine with one controller and the usual override
    of the timer: line 0 goes to entry 2, line 2 has no entry of its own, and
    every entry is masked. *)
Lemma legacy_lines_example :
  let apics := [MkIoapic 23 0 (MkDev 0 ∅)] in
  match init_redirections 16 0 (replicate 8 0) [MkEnt2 0 0 2 0] 0 apics with
  | Ok [a] =>
      (fun e => (ioapic_read_redirection_table (2 * e) (io_dev a)).2) <$> [0; 1; 2; 3; 15] =
      [0; 0x10021; 0x10020; 0x10023; 0x1002f]
  | _ => False
  end.
Proof. by vm_compute. Qed.

(** The timer is programmed with what it counted during the calibration. *)
Lemma apic_timer_counts current t :
  0 <= current < 2 ^ 32 ->
  last (apic_timer_init current t) = Some (XAPIC_TIMER_INITAL_COUNT_OFF, 2 ^ 32 - 1 - current).
Proof.
  intros Hc. unfold apic_timer_init, xapic_write. rewrite last_snoc. do 2 f_equal. unfold u32.
  rewrite Zmod_mod. change (-1 - current) with (-1 - current). rewrite <- (Z.mod_add _ 1) by lia.
  rewrite Z.mod_small by lia. lia.
Qed.

(** A redirection to a line from 64 on writes outside the word. *)
Lemma high_line_halts `{AriaBase} overrides lapic_id apics n irq_bitmap i :
  BIT_TEST irq_bitmap i = false -> 64 <= (find_override overrides i).2 ->
  init_redirections (S n) i irq_bitmap overrides lapic_id apics = Halt.
Proof.
  intros Hb Hi. cbn [init_redirections]. rewrite Hb. unfold ioapic_set_irq_redirection.
  destruct (find_override overrides i) as [f g]. cbn in Hi.
  destruct (Z.ltb_spec g 64); (done || lia).
Qed.
