(* ===== verification/Cap.v ===== *)
(** * Objects, capabilities and messages
      ([core/object.c], [core/capability.c], [core/message.c])

    A process holds a table of capabilities: a bitmap of the handles in use
    and a vector of bindings.  Objects are counted by the handles that name
    them; ports are objects with a queue of messages.  Memory comes from the
    slab allocator: an argument says which address an allocation returns, if
    any.  A binding read at an index the vector does not have, and the port
    of a null pointer, are wild accesses. *)

From S2P Require Import Prelude Aria.

Definition CAPABILITY_ACCESS_READ : Z := 1.
Definition CAPABILITY_ACCESS_WRITE : Z := 2.
Definition PORT_RIGHT_RECV : Z := 1.
Definition PORT_RIGHT_SEND : Z := 2.
Definition PORT_RIGHT_SEND_ONCE : Z := 4.
Definition OBJ_CLASS_PORT : Z := 0.

Record capability_binding := MkBinding {
  access : Z;
  obj : Z;
}.

Record capability_table := MkTable {
  values : list capability_binding;
  bitmap : bitmap_t;
}.

Record object_header := MkHeader {
  hclass : Z;
  refcount : Z;
}.

(** A registered class: its size and its cache. *)
Record object_class := MkClass {
  csize : Z;
  ccache : Z;
}.

(** A user's message: the header's fields and the bytes that follow it. *)
Record message_header := MkMessage {
  destination : Z;
  reply : Z;
  msize : Z;
  mdata : list Z;
}.

(** The kernel's copy of the first [size] bytes; the header takes 16 of them. *)
Record kernel_message := MkKMsg {
  header : option message_header;
  reply_port : Z;
}.

Record cstate := MkC {
  classes : gmap Z object_class;
  objects : gmap Z object_header;
  table : capability_table;
  ports : gmap Z (list kernel_message);
  released : list (Z * Z);
}.

Section Cap.
Context `{AB : AriaBase, AM : AriaBitmap}.

Definition set_table (s : cstate) (t : capability_table) : cstate :=
  MkC (classes s) (objects s) t (ports s) (released s).
Definition set_objects (s : cstate) (o : gmap Z object_header) : cstate :=
  MkC (classes s) o (table s) (ports s) (released s).
Definition set_port (s : cstate) (p : Z) (q : list kernel_message) : cstate :=
  MkC (classes s) (objects s) (table s) (<[p := q]> (ports s)) (released s).

(** ** Objects *)

Definition put_class (s : cstate) (class : Z) (c : object_class) : cstate :=
  MkC (<[class := c]> (classes s)) (objects s) (table s) (ports s) (released s).

(** [new_cache] is what [kmem_cache_create] returns. *)
Definition object_register_class (class : Z) (data : object_class) (new_cache : option Z) : M cstate unit := fun s =>
  if 0 <? csize (default (MkClass 0 0) (classes s !! class)) then (s, Err)
  else if ccache data =? 0 then
    match new_cache with
    | None => (s, Err)
    | Some k => (put_class s class (MkClass (csize data) k), Ok tt)
    end
  else (put_class s class data, Ok tt).

(** [object_new] leaves the header as the memory has it: zeroed by the
    constructor, or as the last object at that address left it. *)
Definition object_new (class : Z) (alloc : option Z) : M cstate Z := fun s =>
  match classes s !! class with
  | None => (s, Err)
  | Some c =>
      if csize c =? 0 then (s, Err)
      else
        match alloc with
        | None => (s, Err)
        | Some a => (set_objects s (<[a := default (MkHeader 0 0) (objects s !! a)]> (objects s)), Ok a)
        end
  end.

Definition object_retain (o : Z) : M cstate unit := fun s =>
  match objects s !! o with
  | None => (s, Halt)
  | Some h => (set_objects s (<[o := MkHeader (hclass h) (u32 (refcount h + 1))]> (objects s)), Ok tt)
  end.

(** [object_release] frees the object into the cache of the class its header
    names when the last handle goes. *)
Definition object_release (o : Z) : M cstate unit := fun s =>
  match objects s !! o with
  | None => (s, Halt)
  | Some h =>
      let s' := set_objects s (<[o := MkHeader (hclass h) (u32 (refcount h - 1))]> (objects s)) in
      if refcount h =? 1 then
        (MkC (classes s') (objects s') (table s') (ports s')
             (released s' ++ [(default 0 (ccache <$> classes s' !! hclass h), o)]), Ok tt)
      else (s', Ok tt)
  end.

(** ** Capabilities *)

Definition capability_table_init : capability_table := MkTable [] (MkBitmap None 64 true).

(** [capability_lookup] sets the bit it means to test, and takes the value of
    that assignment as the answer. *)
Definition capability_lookup (handle : Z) : M cstate (option capability_binding) := fun s =>
  let t := table s in
  match bm_data (bitmap t) with
  | None => (s, Ok None)
  | Some d =>
      if bm_size (bitmap t) <? s32 handle then (s, Ok None)
      else if handle <? 8 * Z.of_nat (length d) then
        let s' := set_table s (MkTable (values t) (MkBitmap (Some (BIT_SET d handle)) (bm_size (bitmap t)) (bm_resizable (bitmap t)))) in
        if BIT_SET_value d handle then
          match values t !! Z.to_nat handle with
          | Some b => (s', Ok (Some b))
          | None => (s', Halt)
          end
        else (s', Ok None)
      else (s, Halt)
  end.

Definition capability_create (o acc : Z) : M cstate Z := fun s =>
  let t := table s in
  match bitmap_alloc (bitmap t) with
  | (b, None) => (set_table s (MkTable (values t) b), Err)
  | (b, Some free_bit) =>
      let v := VECTOR_INDEX (values t) (MkBinding 0 0) free_bit in
      let v := <[Z.to_nat free_bit := MkBinding acc o]> v in
      (_ ← object_retain o; mret free_bit) (set_table s (MkTable v b))
  end.

Definition capability_destroy (handle : Z) : M cstate unit :=
  b ← capability_lookup handle;
  match b with
  | None => fail
  | Some b =>
      _ ← modify (fun s => set_table s (MkTable (values (table s)) (bitmap_free (bitmap (table s)) handle)));
      object_release (obj b)
  end.

(** The system calls. *)
Definition create_obj (class acc : Z) (alloc : option Z) : M cstate Z :=
  o ← object_new class alloc;
  capability_create o acc.

Definition duplicate_obj (handle acc : Z) : M cstate Z :=
  b ← capability_lookup handle;
  match b with
  | None => fail
  | Some b =>
      if Z.land (access b) acc =? 0 then fail
      else
        _ ← object_retain (obj b);
        capability_create (obj b) acc
  end.

Definition destroy_obj (handle : Z) : M cstate unit :=
  b ← capability_lookup handle;
  match b with
  | None => fail
  | Some _ => capability_destroy handle
  end.

(** ** Messages *)

Definition lookup_port (port : Z) : M cstate (option (Z * Z)) :=
  b ← capability_lookup port;
  mret ((fun b => (obj b, access b)) <$> b).

Definition copy_message (m : message_header) : option message_header :=
  if msize m <? 16 then None
  else Some (MkMessage (destination m) (reply m) (msize m) (take (Z.to_nat (msize m - 16)) (mdata m))).

(** [alloc_msg] and [alloc_header] say whether the two allocations succeed. *)
Definition message_send (m : message_header) (alloc_msg alloc_header : bool) : M cstate unit :=
  if negb alloc_msg then fail
  else
    dst ← lookup_port (destination m);
    rep ← lookup_port (reply m);
    match dst, rep with
    | Some (dport, dest_rights), Some (rport, _) =>
        if (Z.land dest_rights PORT_RIGHT_SEND =? 0) && (Z.land dest_rights PORT_RIGHT_SEND_ONCE =? 0) then fail
        else if negb alloc_header then fail
        else fun s =>
          match ports s !! dport with
          | None => (s, Halt)
          | Some q => (set_port s dport (q ++ [MkKMsg (copy_message m) rport]), Ok tt)
          end
    | _, _ => fail
    end.

(** [rights] is not set when there is no port: [garbage] is what it holds.
    Waiting on an empty port ends in a panic. *)
Definition message_receive (port garbage : Z) : M cstate message_header :=
  r ← lookup_port port;
  let rights := match r with Some (_, acc) => acc | None => garbage end in
  if Z.land rights PORT_RIGHT_RECV =? 0 then fail
  else
    match r with
    | None => halt
    | Some (p, _) => fun s =>
        match ports s !! p with
        | Some (first :: q) =>
            match header first with
            | Some m => (set_port s p q, Ok m)
            | None => (s, Halt)
            end
        | _ => (s, Halt)
        end
    end.

End Cap.

(** ** Handles and reference counts *)

Section CapOk.
Context {AB : AriaBase} {AO : AriaBaseOk AB} {AM : AriaBitmap} {AMO : AriaBitmapOk AB AM}.

(** The handles in use. *)
Definition handles (b : bitmap_t) : list Z :=
  match bm_data b with
  | Some d => filter (fun i => BIT_TEST d i = true) (seqZ 0 (8 * Z.of_nat (length d)))
  | None => []
  end.

Lemma handles_used (b : bitmap_t) (i : Z) : i ∈ handles b <-> bit_used b i.
Proof.
  unfold handles, bit_used. destruct (bm_data b) as [d|].
  - rewrite list_elem_of_filter, elem_of_seqZ. unfold in_bits. split; [intros [? ?]; exists d; split_and!; done || lia|].
    intros (d' & [= <-] & ? & ?). split; [done|lia].
  - rewrite elem_of_nil. naive_solver.
Qed.

Lemma handles_nodup (b : bitmap_t) : NoDup (handles b).
Proof. unfold handles. destruct (bm_data b); [apply NoDup_filter, NoDup_seqZ|constructor]. Qed.

(** The number of handles that name an object. *)
Definition names (v : list capability_binding) (o i : Z) : Prop := obj <$> v !! Z.to_nat i = Some o.
#[local] Instance names_dec v o i : Decision (names v o i).
Proof. unfold names. apply _. Defined.

Definition refs (t : capability_table) (o : Z) : Z :=
  Z.of_nat (length (filter (fun i => names (values t) o i) (handles (bitmap t)))).

(** Every handle in use has a binding to a live object, and every object
    counts the handles that name it. *)
Record table_ok (s : cstate) : Prop := {
  tk_size : bm_size (bitmap (table s)) < 2 ^ 31;
  tk_bound i : bit_used (bitmap (table s)) i ->
    0 <= i <= bm_size (bitmap (table s)) /\
    exists b h, values (table s) !! Z.to_nat i = Some b /\ objects s !! obj b = Some h;
  tk_refs o h : objects s !! o = Some h -> refcount h = refs (table s) o;
}.

(** Bitmaps are equal when the same bits are in use; so are states. *)
Definition bitmap_eq (b1 b2 : bitmap_t) : Prop :=
  bm_size b1 = bm_size b2 /\ forall i, bit_used b1 i <-> bit_used b2 i.
Definition ceq (s1 s2 : cstate) : Prop :=
  classes s1 = classes s2 /\ objects s1 = objects s2 /\ ports s1 = ports s2 /\ released s1 = released s2 /\
  values (table s1) = values (table s2) /\ bitmap_eq (bitmap (table s1)) (bitmap (table s2)).

#[export] Instance ceq_equivalence : Equivalence ceq.
Proof.
  split.
  - intros s. by split_and!.
  - intros s1 s2 (E1 & E2 & E3 & E4 & E5 & E6 & E7). split_and!; done.
  - intros s1 s2 s3 (E1 & E2 & E3 & E4 & E5 & E6 & E7) (F1 & F2 & F3 & F4 & F5 & F6 & F7).
    split_and!; try congruence. split; [congruence|]. intros i. by rewrite E7.
Qed.

Lemma refs_perm (t1 t2 : capability_table) (o : Z) :
  values t1 = values t2 -> bitmap_eq (bitmap t1) (bitmap t2) -> refs t1 o = refs t2 o.
Proof.
  intros Hv [_ Hb]. unfold refs. rewrite Hv. f_equal. apply Permutation_length.
  assert (Hp : handles (bitmap t1) ≡ₚ handles (bitmap t2)).
  { apply NoDup_Permutation; [apply handles_nodup..|]. intros i. by rewrite !handles_used. }
  by rewrite Hp.
Qed.

#[export] Instance table_ok_proper : Proper (ceq ==> iff) table_ok.
Proof.
  assert (H : forall s1 s2, ceq s1 s2 -> table_ok s1 -> table_ok s2).
  { intros s1 s2 (E1 & E2 & E3 & E4 & E5 & E6 & E7) [H1 H2 H3]. split.
    - by rewrite <- E6.
    - intros i Hi. rewrite <- E5, <- E6, <- E2. by apply H2, E7.
    - intros o h. rewrite <- E2. intros Ho. rewrite (H3 o h Ho). by apply refs_perm. }
  intros s1 s2 Hs. split; apply H; [done|by symmetry].
Qed.

(** Looking up a handle that is in use finds its binding and changes nothing
    that matters. *)
Lemma capability_lookup_used (s : cstate) (i : Z) (b : capability_binding) :
  table_ok s -> bit_used (bitmap (table s)) i -> values (table s) !! Z.to_nat i = Some b ->
  exists s', capability_lookup i s = (s', Ok (Some b)) /\ ceq s' s.
Proof.
  intros [Hsz Hb _] Hu Hv. destruct (Hb i Hu) as [Hi _]. destruct Hu as (d & Hd & Hin & Ht).
  unfold capability_lookup. rewrite Hd. assert (Hs : s32 i = i).
  { unfold s32, signed. change (2 ^ (32 - 1)) with (2 ^ 31). rewrite Z.mod_small by lia. case_if; lia. }
  rewrite Hs, (proj2 (Z.ltb_ge _ _)) by lia. unfold in_bits in Hin.
  rewrite (proj2 (Z.ltb_lt _ _)) by lia. rewrite bit_set_value by done. rewrite Hv.
  eexists. split; [done|]. split_and!; try done. split; [done|]. intros j. unfold bit_used. cbn. rewrite Hd. split.
  - intros (d' & [= <-] & Hj & Hc). unfold in_bits in Hj. rewrite bit_set_length in Hj. exists d. split; [done|]. split; [exact Hj|].
    rewrite bit_test_set in Hc by done. apply orb_true_iff in Hc as [Hc|Hc]; zify_bools; [by subst|done].
  - intros (d' & [= <-] & Hj & Hc). eexists. split; [done|]. unfold in_bits. rewrite bit_set_length. split; [done|].
    rewrite bit_test_set by done. by rewrite Hc, orb_true_r.
Qed.

Lemma object_retain_eq (s : cstate) (o : Z) (h : object_header) :
  objects s !! o = Some h ->
  object_retain o s = (set_objects s (<[o := MkHeader (hclass h) (u32 (refcount h + 1))]> (objects s)), Ok tt).
Proof. intros E. unfold object_retain. by rewrite E. Qed.

(** Adding handle [i], bound to [o]. *)
Lemma refs_add (t t' : capability_table) (i o acc : Z) :
  0 <= i -> ~ bit_used (bitmap t) i -> (forall j, bit_used (bitmap t') j <-> j = i \/ bit_used (bitmap t) j) ->
  values t' !! Z.to_nat i = Some (MkBinding acc o) ->
  (forall j, bit_used (bitmap t) j -> 0 <= j /\ values t' !! Z.to_nat j = values t !! Z.to_nat j) ->
  forall o', refs t' o' = refs t o' + (if o' =? o then 1 else 0).
Proof.
  intros Hi Hni Hu Hv Hold o'. unfold refs.
  assert (Hp : handles (bitmap t') ≡ₚ i :: handles (bitmap t)).
  { apply NoDup_Permutation; [apply handles_nodup|apply NoDup_cons; split; [by rewrite handles_used|apply handles_nodup]|].
    intros j. rewrite elem_of_cons, !handles_used. apply Hu. }
  rewrite Hp. rewrite filter_cons.
  assert (Hf : filter (fun j => names (values t') o' j) (handles (bitmap t)) = filter (fun j => names (values t) o' j) (handles (bitmap t))).
  { apply filter_ext_in. intros j Hj. apply handles_used in Hj. unfold names. by rewrite (proj2 (Hold j Hj)). }
  rewrite Hf. case_decide as Hn; unfold names in Hn; rewrite Hv in Hn; cbn in Hn.
  - injection Hn as ->. rewrite Z.eqb_refl. cbn [length]. lia.
  - rewrite (proj2 (Z.eqb_neq _ _)) by congruence. lia.
Qed.

(** creating a capability to a live object gives a handle that was not in
    use; looking it up finds the object with the access asked for, every
    other handle keeps its binding, and the object counts one more handle. *)
Theorem capability_create_correct (s : cstate) (o acc : Z) (h : object_header) (b : bitmap_t) (i : Z) :
  table_ok s -> objects s !! o = Some h -> refcount h < 2 ^ 32 - 1 -> bitmap_alloc (bitmap (table s)) = (b, Some i) ->
  exists s', capability_create o acc s = (s', Ok i) /\ table_ok s' /\ ~ bit_used (bitmap (table s)) i /\
    (exists s2, capability_lookup i s' = (s2, Ok (Some (MkBinding acc o))) /\ ceq s2 s') /\
    (forall j, bit_used (bitmap (table s)) j ->
       bit_used (bitmap (table s')) j /\ values (table s') !! Z.to_nat j = values (table s) !! Z.to_nat j) /\
    objects s' !! o = Some (MkHeader (hclass h) (refcount h + 1)).
Proof.
  intros Hok Ho Hr Ha. destruct (bitmap_alloc_ok _ _ _ Ha) as (Hi & Hisz & Hsz & Hni & Hu). pose proof Hok as [K1 K2 K3].
  destruct (vector_index_ok _ (values (table s)) (MkBinding 0 0) i (proj1 Hi)) as [Hlen Hkeep].
  assert (Hr0 : 0 <= refcount h) by (rewrite (K3 o h Ho); unfold refs; lia).
  assert (Hu32 : u32 (refcount h + 1) = refcount h + 1) by (apply Z.mod_small; lia).
  set (v := <[Z.to_nat i := MkBinding acc o]> (VECTOR_INDEX (values (table s)) (MkBinding 0 0) i)).
  assert (Hvi : v !! Z.to_nat i = Some (MkBinding acc o)) by (apply list_lookup_insert_eq; lia).
  assert (Hvj : forall j, bit_used (bitmap (table s)) j -> 0 <= j /\ v !! Z.to_nat j = values (table s) !! Z.to_nat j).
  { intros j Hj. destruct (K2 j Hj) as (Hj0 & bj & hj & Hbj & _). split; [lia|].
    assert (j <> i) by (intros ->; done). unfold v. rewrite list_lookup_insert_ne by lia. rewrite Hbj. by apply Hkeep. }
  exists (set_objects (set_table s (MkTable v b)) (<[o := MkHeader (hclass h) (refcount h + 1)]> (objects s))).
  assert (Hok' : table_ok (set_objects (set_table s (MkTable v b)) (<[o := MkHeader (hclass h) (refcount h + 1)]> (objects s)))).
  { split; cbn.
    - lia.
    - intros j Hj. apply Hu in Hj as [->|Hj].
      + split; [lia|]. eexists _, _. split; [exact Hvi|]. cbn. by rewrite lookup_insert_eq.
      + destruct (K2 j Hj) as (Hj0 & bj & hj & Hbj & Hoj). split; [lia|]. exists bj.
        destruct (decide (obj bj = o)) as [->|Hne].
        * eexists. rewrite (proj2 (Hvj j Hj)), lookup_insert_eq. done.
        * exists hj. rewrite (proj2 (Hvj j Hj)), lookup_insert_ne by done. done.
    - intros o' h' Ho'.
      rewrite (refs_add (table s) (MkTable v b) i o acc (proj1 Hi) Hni Hu Hvi Hvj).
      apply lookup_insert_Some in Ho' as [[<- <-]|[Hne Ho']].
      + rewrite Z.eqb_refl. cbn. by rewrite (K3 o h Ho).
      + rewrite (proj2 (Z.eqb_neq _ _)) by done. rewrite (K3 o' h' Ho'). lia. }
  split; [|split; [done|split; [done|split; [|split]]]].
  - unfold capability_create. rewrite Ha. fold v. erewrite bind_ok by (apply object_retain_eq; exact Ho). cbn. by rewrite Hu32.
  - apply capability_lookup_used; [done| |done]. cbn. apply Hu. by left.
  - intros j Hj. cbn. split; [apply Hu; by right|by apply Hvj].
  - cbn. by rewrite lookup_insert_eq.
Qed.

(** Removing handle [i], which was bound to [o]. *)
Lemma refs_remove (t t' : capability_table) (i o acc : Z) :
  bit_used (bitmap t) i -> (forall j, bit_used (bitmap t') j <-> bit_used (bitmap t) j /\ j <> i) ->
  values t !! Z.to_nat i = Some (MkBinding acc o) -> values t' = values t ->
  forall o', refs t o' = refs t' o' + (if o' =? o then 1 else 0).
Proof.
  intros Hi Hu Hv Heq o'. unfold refs. rewrite Heq.
  assert (Hp : handles (bitmap t) ≡ₚ i :: handles (bitmap t')).
  { apply NoDup_Permutation; [apply handles_nodup|apply NoDup_cons; split; [rewrite handles_used, Hu; tauto|apply handles_nodup]|].
    intros j. rewrite elem_of_cons, !handles_used, Hu. destruct (decide (j = i)) as [->|]; tauto. }
  rewrite Hp. rewrite filter_cons.
  case_decide as Hn; unfold names in Hn; rewrite Hv in Hn; cbn in Hn.
  - injection Hn as ->. rewrite Z.eqb_refl. cbn [length]. lia.
  - rewrite (proj2 (Z.eqb_neq _ _)) by congruence. lia.
Qed.

(** destroying a handle that is in use frees exactly that handle; the
    object counts one handle less, and it goes back to its cache exactly when
    that was the last one. *)
Theorem capability_destroy_correct (s : cstate) (i : Z) (b : capability_binding) (h : object_header) :
  table_ok s -> bit_used (bitmap (table s)) i -> values (table s) !! Z.to_nat i = Some b -> objects s !! obj b = Some h ->
  refcount h < 2 ^ 32 ->
  exists s', capability_destroy i s = (s', Ok tt) /\ table_ok s' /\ ~ bit_used (bitmap (table s')) i /\
    (forall j, j <> i -> bit_used (bitmap (table s')) j <-> bit_used (bitmap (table s)) j) /\
    values (table s') = values (table s) /\
    objects s' !! obj b = Some (MkHeader (hclass h) (refcount h - 1)) /\
    released s' = released s ++ (if refcount h =? 1 then [(default 0 (ccache <$> classes s !! hclass h), obj b)] else []).
Proof.
  intros Hok Hi Hv Ho Hr. destruct (capability_lookup_used s i b Hok Hi Hv) as (s1 & E1 & Hs1).
  pose proof Hok as Hok1. rewrite <- Hs1 in Hok1. pose proof Hs1 as (F1 & F2 & F3 & F4 & F5 & F6 & F7).
  assert (Hi1 : bit_used (bitmap (table s1)) i) by (by apply F7).
  destruct (bitmap_free_ok _ _ Hi1) as [Hsz Hu]. pose proof Hok1 as [K1 K2 K3]. rewrite <- F2 in Ho. rewrite <- F5 in Hv.
  set (t' := MkTable (values (table s1)) (bitmap_free (bitmap (table s1)) i)).
  assert (Hrem : forall o', refs (table s1) o' = refs t' o' + (if o' =? obj b then 1 else 0)).
  { destruct b as [acc o]. by apply (refs_remove (table s1) t' i o acc). }
  assert (Hpos : 1 <= refcount h).
  { rewrite (K3 _ _ Ho), Hrem, Z.eqb_refl. unfold refs. lia. }
  assert (Hu32 : u32 (refcount h - 1) = refcount h - 1) by (apply Z.mod_small; lia).
  set (os := <[obj b := MkHeader (hclass h) (refcount h - 1)]> (objects s1)).
  set (rel := released s1 ++ (if refcount h =? 1 then [(default 0 (ccache <$> classes s1 !! hclass h), obj b)] else [])).
  exists (MkC (classes s1) os t' (ports s1) rel). split.
  { unfold capability_destroy. rewrite (bind_ok _ _ _ _ _ E1). erewrite bind_ok by reflexivity. unfold object_release.
    cbn [objects set_table]. rewrite Ho, Hu32. subst rel. case_if; [done|]. by rewrite app_nil_r. }
  split; [split; cbn|].
  - lia.
  - intros j Hj. apply Hu in Hj as [Hj Hne]. destruct (K2 j Hj) as (Hj0 & bj & hj & Hbj & Hoj).
    split; [lia|]. exists bj. destruct (decide (obj bj = obj b)) as [E|Hne'].
    + eexists. split; [done|]. rewrite E. subst os. by rewrite lookup_insert_eq.
    + exists hj. split; [done|]. subst os. by rewrite lookup_insert_ne.
  - intros o' h' Ho'. specialize (Hrem o'). apply lookup_insert_Some in Ho' as [[<- <-]|[Hne Ho']].
    + rewrite Z.eqb_refl in Hrem. cbn. rewrite (K3 _ _ Ho), Hrem. lia.
    + rewrite (proj2 (Z.eqb_neq _ _)) in Hrem by done. rewrite (K3 o' h' Ho'). lia.
  - split_and!; cbn.
    + rewrite Hu. tauto.
    + intros j Hne. rewrite Hu, F7. tauto.
    + done.
    + subst os. by rewrite lookup_insert_eq.
    + subst rel. by rewrite F1, F4.
Qed.

(** ** Messages are delivered in order *)

(** A port with a sender's and a receiver's handle, and a reply port. *)
Record channel (s : cstate) (snd rcv rep port : Z) : Prop := {
  ch_ok : table_ok s;
  ch_snd : bit_used (bitmap (table s)) snd /\ exists acc, values (table s) !! Z.to_nat snd = Some (MkBinding acc port) /\
             Z.land acc PORT_RIGHT_SEND <> 0;
  ch_rcv : bit_used (bitmap (table s)) rcv /\ exists acc, values (table s) !! Z.to_nat rcv = Some (MkBinding acc port) /\
             Z.land acc PORT_RIGHT_RECV <> 0;
  ch_rep : bit_used (bitmap (table s)) rep /\ exists b, values (table s) !! Z.to_nat rep = Some b;
}.

Lemma channel_ceq (s1 s2 : cstate) (a b c p : Z) : ceq s1 s2 -> channel s1 a b c p -> channel s2 a b c p.
Proof.
  intros Hs [H1 H2 H3 H4]. pose proof Hs as (_ & _ & _ & _ & E5 & _ & E7).
  split; rewrite <- ?E5, <- ?E7; try done. by rewrite <- Hs.
Qed.

Lemma channel_port (s : cstate) (a b c p x : Z) (q : list kernel_message) : channel s a b c p -> channel (set_port s x q) a b c p.
Proof. intros [[K1 K2 K3] H2 H3 H4]. split; done. Qed.

Lemma lookup_port_used (s : cstate) (i : Z) (b : capability_binding) :
  table_ok s -> bit_used (bitmap (table s)) i -> values (table s) !! Z.to_nat i = Some b ->
  exists s', lookup_port i s = (s', Ok (Some (obj b, access b))) /\ ceq s' s.
Proof.
  intros Hok Hu Hv. destruct (capability_lookup_used s i b Hok Hu Hv) as (s' & E & Hs). exists s'.
  unfold lookup_port. by rewrite (bind_ok _ _ _ _ _ E).
Qed.

Lemma ceq_port (s1 s2 : cstate) (x : Z) (q : list kernel_message) : ceq s1 s2 -> ceq (set_port s1 x q) (set_port s2 x q).
Proof. intros (E1 & E2 & E3 & E4 & E5 & E6). split_and!; try done; cbn; [by rewrite E3|apply E6..]. Qed.

Lemma message_send_ceq (s : cstate) (a b c p : Z) (m : message_header) (q : list kernel_message) :
  channel s a b c p -> destination m = a -> reply m = c -> ports s !! p = Some q ->
  exists s' r, message_send m true true s = (s', Ok tt) /\ channel s' a b c p /\
    ceq s' (set_port s p (q ++ [MkKMsg (copy_message m) r])).
Proof.
  intros Hc Hd Hre Hq. pose proof Hc as [Hok [Hua (acc & Hva & Hacc)] _ [Huc (bc & Hvc)]].
  destruct (lookup_port_used s a _ Hok Hua Hva) as (s1 & E1 & Hs1).
  assert (Hc1 : channel s1 a b c p) by (eapply channel_ceq; [symmetry; exact Hs1|done]).
  pose proof Hc1 as [Hok1 _ _ [Huc1 (bc1 & Hvc1)]].
  destruct (lookup_port_used s1 c _ Hok1 Huc1 Hvc1) as (s2 & E2 & Hs2).
  assert (Hc2 : channel s2 a b c p) by (eapply channel_ceq; [symmetry; exact Hs2|done]).
  assert (Hp : ports s2 = ports s) by (destruct Hs1 as (_ & _ & P1 & _), Hs2 as (_ & _ & P2 & _); congruence).
  exists (set_port s2 p (q ++ [MkKMsg (copy_message m) (obj bc1)])), (obj bc1). split; [|split; [by apply channel_port|apply ceq_port; by rewrite Hs2]].
  unfold message_send. cbn [negb]. rewrite Hd, Hre, (bind_ok _ _ _ _ _ E1), (bind_ok _ _ _ _ _ E2). cbn [obj access].
  rewrite (proj2 (Z.eqb_neq _ _) Hacc). cbn [andb]. by rewrite Hp, Hq.
Qed.

Lemma message_send_spec (s : cstate) (a b c p : Z) (m : message_header) (q : list kernel_message) :
  channel s a b c p -> destination m = a -> reply m = c -> ports s !! p = Some q ->
  exists s' r, message_send m true true s = (s', Ok tt) /\ channel s' a b c p /\
    ports s' = <[p := q ++ [MkKMsg (copy_message m) r]]> (ports s).
Proof.
  intros Hc Hd Hr Hq. destruct (message_send_ceq s a b c p m q Hc Hd Hr Hq) as (s' & r & E & Hc' & (_ & _ & Hp & _)). by exists s', r.
Qed.

Lemma message_receive_ceq (s : cstate) (a b c p g : Z) (m : message_header) (r : Z) (q : list kernel_message) :
  channel s a b c p -> ports s !! p = Some (MkKMsg (Some m) r :: q) ->
  exists s', message_receive b g s = (s', Ok m) /\ channel s' a b c p /\ ceq s' (set_port s p q).
Proof.
  intros Hc Hq. pose proof Hc as [Hok _ [Hub (acc & Hvb & Hacc)] _].
  destruct (lookup_port_used s b _ Hok Hub Hvb) as (s1 & E1 & Hs1).
  assert (Hc1 : channel s1 a b c p) by (eapply channel_ceq; [symmetry; exact Hs1|done]).
  assert (Hp : ports s1 = ports s) by (destruct Hs1 as (_ & _ & P1 & _); exact P1).
  exists (set_port s1 p q). split; [|split; [by apply channel_port|by apply ceq_port]].
  unfold message_receive. rewrite (bind_ok _ _ _ _ _ E1). cbn [obj access].
  rewrite (proj2 (Z.eqb_neq _ _) Hacc). by rewrite Hp, Hq.
Qed.

Lemma message_receive_spec (s : cstate) (a b c p g : Z) (m : message_header) (r : Z) (q : list kernel_message) :
  channel s a b c p -> ports s !! p = Some (MkKMsg (Some m) r :: q) ->
  exists s', message_receive b g s = (s', Ok m) /\ channel s' a b c p /\ ports s' = <[p := q]> (ports s).
Proof.
  intros Hc Hq. destruct (message_receive_ceq s a b c p g m r q Hc Hq) as (s' & E & Hc' & (_ & _ & Hp & _)). by exists s'.
Qed.

Fixpoint send_all (ms : list message_header) : M cstate unit :=
  match ms with
  | [] => mret tt
  | m :: ms => _ ← message_send m true true; send_all ms
  end.

Fixpoint receive_all (port g : Z) (n : nat) : M cstate (list message_header) :=
  match n with
  | O => mret []
  | S n => m ← message_receive port g; l ← receive_all port g n; mret (m :: l)
  end.

(** A message whose size covers its header and its data. *)
Definition full_message (m : message_header) : Prop := msize m = 16 + Z.of_nat (length (mdata m)).

Lemma copy_full (m : message_header) : full_message m -> copy_message m = Some m.
Proof.
  unfold full_message, copy_message. intros H. rewrite (proj2 (Z.ltb_ge _ _)) by lia. f_equal. destruct m as [x y z l]. cbn in *.
  f_equal. apply take_ge. lia.
Qed.

Lemma send_all_spec (ms : list message_header) (s : cstate) (a b c p : Z) (q : list kernel_message) :
  channel s a b c p -> Forall (fun m => destination m = a /\ reply m = c /\ full_message m) ms -> ports s !! p = Some q ->
  exists s' q', send_all ms s = (s', Ok tt) /\ channel s' a b c p /\
    ports s' !! p = Some (q ++ q') /\ header <$> q' = Some <$> ms.
Proof.
  intros Hc HF. revert s q Hc. induction HF as [|m ms (Hd & Hr & Hf) _ IH]; intros s q Hc Hq.
  - exists s, []. rewrite app_nil_r. done.
  - destruct (message_send_spec s a b c p m q Hc Hd Hr Hq) as (s1 & r & E1 & Hc1 & Hp1).
    destruct (IH s1 (q ++ [MkKMsg (copy_message m) r]) Hc1) as (s2 & q2 & E2 & Hc2 & Hp2 & Hh).
    { by rewrite Hp1, lookup_insert_eq. }
    exists s2, (MkKMsg (copy_message m) r :: q2). cbn [send_all]. rewrite (bind_ok _ _ _ _ _ E1).
    split_and!; [done|done| |].
    + by rewrite Hp2, <- app_assoc.
    + cbn. by rewrite Hh, copy_full.
Qed.

Lemma receive_all_spec (ms : list message_header) (s : cstate) (a b c p g : Z) (q q' : list kernel_message) :
  channel s a b c p -> header <$> q' = Some <$> ms -> ports s !! p = Some (q' ++ q) ->
  exists s', receive_all b g (length ms) s = (s', Ok ms) /\ channel s' a b c p /\ ports s' !! p = Some q.
Proof.
  revert s q'. induction ms as [|m ms IH]; intros s q' Hc Hh Hq; destruct q' as [|[hd r] q']; cbn in Hh; try done.
  - exists s. done.
  - injection Hh as -> Hh. destruct (message_receive_spec s a b c p g m r (q' ++ q) Hc Hq) as (s1 & E1 & Hc1 & Hp1).
    destruct (IH s1 q' Hc1 Hh) as (s2 & E2 & Hc2 & Hp2); [by rewrite Hp1, lookup_insert_eq|].
    exists s2. cbn [receive_all length]. rewrite (bind_ok _ _ _ _ _ E1), (bind_ok _ _ _ _ _ E2). done.
Qed.

(** C11: a port is a first-in first-out queue: messages sent through a handle
    with the send right are received, whole and in order, through a handle
    with the receive right, after those that were queued before. *)
Theorem message_fifo (ms ms0 : list message_header) (s : cstate) (a b c p g : Z) (q : list kernel_message) :
  channel s a b c p -> Forall (fun m => destination m = a /\ reply m = c /\ full_message m) ms ->
  ports s !! p = Some q -> header <$> q = Some <$> ms0 ->
  exists s1 s2, send_all ms s = (s1, Ok tt) /\ receive_all b g (length (ms0 ++ ms)) s1 = (s2, Ok (ms0 ++ ms)) /\
    ports s2 !! p = Some [].
Proof.
  intros Hc HF Hq Hq0. destruct (send_all_spec ms s a b c p q Hc HF Hq) as (s1 & q1 & E1 & Hc1 & Hp1 & Hh1).
  destruct (receive_all_spec (ms0 ++ ms) s1 a b c p g [] (q ++ q1) Hc1) as (s2 & E2 & Hc2 & Hp2).
  - by rewrite !fmap_app, Hq0, Hh1.
  - by rewrite app_nil_r.
  - exists s1, s2. done.
Qed.

End CapOk.

(** ** Concrete runs *)

(** Port 100 with a handle to send (0) and one to receive (1), and a reply
    port 200 (handle 2). *)
Definition demo_bits : bitmap_t := MkBitmap (Some [7; 0; 0; 0; 0; 0; 0; 0]) 64 true.
Definition demo_cap : cstate :=
  MkC {[ 0 := MkClass 48 9 ]} {[ 100 := MkHeader 0 2; 200 := MkHeader 0 1 ]}
    (MkTable [MkBinding 2 100; MkBinding 1 100; MkBinding 2 200] demo_bits) {[ 100 := []; 200 := [] ]} [].

Lemma demo_used (i : Z) : bit_used demo_bits i <-> i = 0 \/ i = 1 \/ i = 2.
Proof.
  rewrite <- handles_used. replace (handles demo_bits) with [0; 1; 2] by (vm_compute; reflexivity).
  rewrite !elem_of_cons, elem_of_nil. tauto.
Qed.

Lemma demo_cap_ok : table_ok demo_cap.
Proof.
  split.
  - cbn. lia.
  - intros i Hi. apply demo_used in Hi. destruct Hi as [->|[->| ->]]; (split; [cbn; lia|]; eexists _, _; split; vm_compute; reflexivity).
  - intros o h. cbn. intros H. apply lookup_insert_Some in H as [[<- <-]|[_ H]]; [vm_compute; reflexivity|].
    apply lookup_singleton_Some in H as [<- <-]. vm_compute. reflexivity.
Qed.

Lemma capability_create_correct_witness :
  exists s', capability_create 200 6 demo_cap = (s', Ok 3) /\ table_ok s' /\ objects s' !! 200 = Some (MkHeader 0 2).
Proof.
  destruct (capability_create_correct demo_cap 200 6 (MkHeader 0 1) (MkBitmap (Some [15; 0; 0; 0; 0; 0; 0; 0]) 64 true) 3)
    as (s' & E & Hok & _ & _ & _ & Ho).
  - exact demo_cap_ok.
  - vm_compute. reflexivity.
  - cbn. lia.
  - vm_compute. reflexivity.
  - exists s'. split; [exact E|split; [exact Hok|exact Ho]].
Defined.

Lemma capability_destroy_correct_witness :
  exists s', capability_destroy 2 demo_cap = (s', Ok tt) /\ table_ok s' /\ released s' = [(9, 200)].
Proof.
  destruct (capability_destroy_correct demo_cap 2 (MkBinding 2 200) (MkHeader 0 1))
    as (s' & E & Hok & _ & _ & _ & _ & Hr).
  - exact demo_cap_ok.
  - apply demo_used. right. right. reflexivity.
  - vm_compute. reflexivity.
  - vm_compute. reflexivity.
  - cbn. lia.
  - exists s'. split; [exact E|split; [exact Hok|exact Hr]].
Defined.

Lemma demo_channel : channel demo_cap 0 1 2 100.
Proof.
  split.
  - exact demo_cap_ok.
  - split; [apply demo_used; tauto|]. exists 2. split; [vm_compute; reflexivity|vm_compute; discriminate].
  - split; [apply demo_used; tauto|]. exists 1. split; [vm_compute; reflexivity|vm_compute; discriminate].
  - split; [apply demo_used; tauto|]. exists (MkBinding 2 200). vm_compute. reflexivity.
Qed.

Lemma message_fifo_witness :
  exists s1 s2, send_all [MkMessage 0 2 18 [5; 6]; MkMessage 0 2 17 [7]] demo_cap = (s1, Ok tt) /\
    receive_all 1 0 2 s1 = (s2, Ok [MkMessage 0 2 18 [5; 6]; MkMessage 0 2 17 [7]]).
Proof.
  destruct (message_fifo [MkMessage 0 2 18 [5; 6]; MkMessage 0 2 17 [7]] [] demo_cap 0 1 2 100 0 []) as (s1 & s2 & E1 & E2 & _).
  - exact demo_channel.
  - repeat constructor.
  - vm_compute. reflexivity.
  - reflexivity.
  - exists s1, s2. split; [exact E1|exact E2].
Defined.

(** ** Behaviours worth knowing *)

(** Looking up a handle that was destroyed succeeds and puts it back in use:
    [capability_lookup] sets the bit it means to test. *)
Lemma lookup_revives_handle :
  let s := fst (capability_destroy 2 demo_cap) in
  ~ bit_used (bitmap (table s)) 2 /\
  snd (capability_lookup 2 s) = Ok (Some (MkBinding 2 200)) /\ bit_used (bitmap (table (fst (capability_lookup 2 s)))) 2.
Proof.
  cbv zeta. rewrite <- !handles_used. split; [|split].
  - replace (handles _) with [0; 1] by (vm_compute; reflexivity). rewrite !elem_of_cons, elem_of_nil. lia.
  - vm_compute. reflexivity.
  - replace (handles _) with [0; 1; 2] by (vm_compute; reflexivity). rewrite !elem_of_cons. tauto.
Qed.

(** The check of the handle against the size lets the size itself through. *)
Lemma lookup_reads_past_end : snd (capability_lookup 64 demo_cap) = Halt.
Proof. vm_compute. reflexivity. Qed.

(** [duplicate_obj] retains the object and [capability_create] retains it
    again: the count never comes back to zero. *)
Lemma duplicate_leaks :
  let s := fst (duplicate_obj 2 2 demo_cap) in
  (refcount <$> objects s !! 200) = Some 3 /\ refs (table s) 200 = 2.
Proof. split; vm_compute; reflexivity. Qed.

(** [object_new] does not record the class, so an object of any class is
    released into the cache of class 0. *)
Lemma release_wrong_cache :
  let s := MkC {[ 0 := MkClass 48 9; 1 := MkClass 64 10 ]} ∅ (MkTable [] (MkBitmap None 64 true)) ∅ [] in
  released (fst ((h ← create_obj 1 3 (Some 500); capability_destroy h) s)) = [(9, 500)].
Proof. vm_compute. reflexivity. Qed.
