(* ===== verification/Port.v ===== *)
(** * Ports as memory ([core/object.c], [core/message.c])

    [Cap] keeps the messages of a port in a list.  Here a port is the head of
    a tail queue and a message a block of memory on it: the constructors and
    destructors of objects, and what sending and receiving do to the queue,
    in step with the lists of [Cap].  A read of freed memory is [Halt]. *)

From S2P Require Import Prelude Aria Queue Cap.

(** The code a class names; ports are the only class that has any. *)
Record class_code := MkCode { constructor : bool; destructor : bool }.

Record pstate := MkPort {
  codes : gmap Z class_code;            (* [classes], by number *)
  headers : gmap Z object_header;       (* memory before the objects, as it is *)
  links : qheap;
  ready : gset Z;                       (* heads that were initialised *)
  msgs : gmap Z kernel_message;         (* the allocated messages *)
  trigger : gmap Z (list Z);            (* [port->trigger.equeue] *)
}.

Definition set_links (p : pstate) (l : qheap) : pstate := MkPort (codes p) (headers p) l (ready p) (msgs p) (trigger p).
Definition set_msgs (p : pstate) (m : gmap Z kernel_message) : pstate := MkPort (codes p) (headers p) (links p) (ready p) m (trigger p).

Definition port_constructor (o : Z) : M pstate unit :=
  modify (fun p => MkPort (codes p) (headers p) (TAILQ_INIT (links p) o) ({[o]} ∪ ready p) (msgs p) (trigger p)).

(** [TAILQ_FOREACH] reads the link of a message after the body freed it. *)
Fixpoint destroy_loop (fuel : nat) (msg : option Z) : M pstate unit :=
  match fuel, msg with
  | S fuel, Some m =>
      p ← gets id;
      match msgs p !! m with
      | None => halt
      | Some _ =>
          modify (fun p => set_msgs p (delete m (msgs p)));;
          p ← gets id;
          match msgs p !! m with
          | None => halt
          | Some _ => destroy_loop fuel (TAILQ_NEXT (links p) m)
          end
      end
  | O, Some _ => halt
  | _, None => mret tt
  end.

Definition port_destructor (fuel : nat) (o : Z) : M pstate unit :=
  p ← gets id;
  destroy_loop fuel (TAILQ_FIRST (links p) o).

(** The class is read before the memory is cleared. *)
Definition obj_constructor (o : Z) : M pstate unit :=
  p ← gets id;
  let class := default (MkCode false false) (codes p !! hclass (default (MkHeader 0 0) (headers p !! o))) in
  modify (fun p => MkPort (codes p) (<[o := MkHeader 0 0]> (headers p)) (links p) (ready p ∖ {[o]}) (msgs p) (trigger p));;
  if constructor class then port_constructor o else mret tt.

Definition obj_destructor (fuel : nat) (o : Z) : M pstate unit :=
  p ← gets id;
  let class := default (MkCode false false) (codes p !! hclass (default (MkHeader 0 0) (headers p !! o))) in
  if destructor class then port_destructor fuel o else mret tt.

Definition message_init : M pstate unit :=
  modify (fun p => MkPort (<[OBJ_CLASS_PORT := MkCode true true]> (codes p)) (headers p) (links p) (ready p) (msgs p) (trigger p)).

(** The end of [message_send]: [m] is the memory of the new message. *)
Definition port_push (o m : Z) (k : kernel_message) : M pstate unit :=
  p ← gets id;
  if bool_decide (o ∈ ready p) then
    modify (fun p => set_msgs p (<[m := k]> (msgs p)));;
    modify (fun p => set_links p (TAILQ_INSERT_TAIL (links p) o m));;
    modify (fun p => MkPort (codes p) (headers p) (links p) (ready p) (msgs p) (<[o := default [] (trigger p !! o) ++ [o]]> (trigger p)))
  else halt.

(** The end of [message_receive]: the first message is copied, taken off the
    queue and freed; a port that is empty panics ([equeue_block]). *)
Definition port_pop (o : Z) : M pstate kernel_message :=
  p ← gets id;
  if bool_decide (o ∈ ready p) then
    match TAILQ_FIRST (links p) o with
    | None => halt
    | Some first =>
        match msgs p !! first with
        | None => halt
        | Some k =>
            modify (fun p => set_links p (TAILQ_REMOVE (links p) o first));;
            modify (fun p => set_msgs p (delete first (msgs p)));;
            mret k
        end
    end
  else halt.

(** ** In step with [Cap] *)

(** The addresses [l] hold the messages [q]. *)
Definition holds (ms : gmap Z kernel_message) (l : list Z) (q : list kernel_message) : Prop := Forall2 (fun a k => ms !! a = Some k) l q.

Record ports_rel (p : pstate) (Q : gmap Z (list Z)) (qs : gmap Z (list kernel_message)) : Prop := {
  pr_repr : repr (links p) Q;
  pr_ready o : is_Some (Q !! o) -> o ∈ ready p;
  pr_holds o : option_Forall2 (holds (msgs p)) (Q !! o) (qs !! o);
}.

Lemma holds_same ms ms' l q : (forall a, a ∈ l -> ms' !! a = ms !! a) -> holds ms l q -> holds ms' l q.
Proof.
  intros Hs H. induction H as [|a k l q Ha H IH]; [constructor|]. constructor; [|apply IH; set_solver].
  rewrite Hs; [done|set_solver].
Qed.

Lemma holds_alloc ms l q a : holds ms l q -> a ∈ l -> is_Some (ms !! a).
Proof. intros H (i & Hi)%list_elem_of_lookup. destruct (Forall2_lookup_l _ _ _ _ _ H Hi) as (k & _ & Hk). by exists k. Qed.

(** The queue of one port changes, with its memory. *)
Lemma rel_update p p' Q qs o l q :
  ports_rel p Q qs -> repr (links p') (<[o := l]> Q) -> ready p' = ready p -> o ∈ ready p -> holds (msgs p') l q ->
  (forall o' l', o' <> o -> Q !! o' = Some l' -> forall a, a ∈ l' -> msgs p' !! a = msgs p !! a) ->
  ports_rel p' (<[o := l]> Q) (<[o := q]> qs).
Proof.
  intros [H1 H2 H3] HR Hrd Ho Hh Hs. split; [done|..].
  - intros o'. rewrite Hrd. destruct (decide (o' = o)) as [->|Hne]; [done|]. rewrite lookup_insert_ne by done. apply H2.
  - intros o'. destruct (decide (o' = o)) as [->|Hne]; [rewrite !lookup_insert_eq; by constructor|].
    rewrite !lookup_insert_ne by done. pose proof (H3 o') as Ho'. destruct (Q !! o') as [l'|] eqn:E; inversion Ho' as [? q' Hl|]; subst; constructor.
    eapply holds_same; [|exact Hl]. eapply Hs; eauto.
Qed.

Lemma push_rel p Q qs o m k q :
  ports_rel p Q qs -> qs !! o = Some q -> msgs p !! m = None ->
  exists p' Q', port_push o m k p = (p', Ok tt) /\ ports_rel p' Q' (<[o := q ++ [k]]> qs) /\ msgs p' = <[m := k]> (msgs p).
Proof.
  intros H Hq Hm. pose proof H as [HR Hrd Hho]. pose proof (Hho o) as Ho. rewrite Hq in Ho. inversion Ho as [l ? Hl HQ|]; subst.
  assert (Hr : o ∈ ready p) by (apply Hrd; by rewrite <- HQ).
  assert (Hfree : map_Forall (fun _ l => m ∉ l) Q).
  { intros o' l' E Hin. pose proof (Hho o') as Ho'. rewrite E in Ho'. inversion Ho' as [? q' Hl'|]; subst.
    destruct (holds_alloc _ _ _ _ Hl' Hin). congruence. }
  eexists _, (<[o := l ++ [m]]> Q). split; [|split].
  - unfold port_push, mbind, M_bind, gets. cbn [id]. rewrite bool_decide_true by done. reflexivity.
  - apply (rel_update p); [done| |done|done| |]; cbn [links msgs set_links set_msgs].
    + pose proof (repr_step (links p) Q (OpInsertTail o m) HR) as Hs. cbn [run_ptr run_list valid] in Hs. unfold queue in Hs.
      rewrite <- HQ in Hs. apply Hs. split; [by eexists|done].
    + apply Forall2_app; [|constructor; [by rewrite lookup_insert_eq|constructor]].
      eapply holds_same; [|exact Hl]. intros a Ha. rewrite lookup_insert_ne; [done|]. intros ->. by apply (Hfree o l).
    + intros o' l' _ E a Ha. rewrite lookup_insert_ne; [done|]. intros ->. by apply (Hfree o' l').
  - done.
Qed.

Lemma pop_rel p Q qs o k q :
  ports_rel p Q qs -> qs !! o = Some (k :: q) ->
  exists p' Q' m, port_pop o p = (p', Ok k) /\ ports_rel p' Q' (<[o := q]> qs) /\ msgs p !! m = Some k /\ msgs p' = delete m (msgs p).
Proof.
  intros H Hq. pose proof H as [HR Hrd Hho]. pose proof (Hho o) as Ho. rewrite Hq in Ho. inversion Ho as [l0 ? Hl HQ|]; subst.
  inversion Hl as [|m ? l ? Hm Hl']; subst. assert (Hr : o ∈ ready p) by (apply Hrd; by rewrite <- HQ).
  pose proof (re_queue _ _ HR _ _ (eq_sym HQ)) as Ht. pose proof (tq_nodup _ _ _ Ht) as [Hml Hnd]%NoDup_cons.
  eexists _, (<[o := l]> Q), m. split; [|split; [|split]].
  - unfold port_pop, mbind, M_bind, gets. cbn [id]. rewrite bool_decide_true by done.
    rewrite (tailq_first _ _ _ Ht). cbn [head]. rewrite Hm. reflexivity.
  - apply (rel_update p); [done| |done|done| |]; cbn [links msgs set_links set_msgs].
    + pose proof (repr_step (links p) Q (OpRemove o m) HR) as Hs. cbn [run_ptr run_list valid] in Hs. unfold queue in Hs.
      rewrite <- HQ in Hs. change (default [] (Some (m :: l))) with ([] ++ m :: l) in Hs.
      rewrite qdel_split in Hs by (by constructor). apply Hs. split; [by eexists|set_solver].
    + eapply holds_same; [|exact Hl']. intros a Ha. rewrite lookup_delete_ne; [done|]. by intros ->.
    + intros o' l' Hne E a Ha. rewrite lookup_delete_ne; [done|]. intros ->.
      apply (re_disj _ _ HR o' o l' (a :: l) a); [done|done|done|done|constructor].
  - done.
  - done.
Qed.

(** ** Sequences of messages *)

Inductive port_op := Send (o : Z) (k : kernel_message) | Receive (o : Z).

(** The memory of a new message is none that is in use. *)
Fixpoint run_ports (ops : list port_op) : M pstate (list kernel_message) :=
  match ops with
  | [] => mret []
  | Send o k :: ops => p ← gets id; _ ← port_push o (fresh (dom (msgs p))) k; run_ports ops
  | Receive o :: ops => k ← port_pop o; ks ← run_ports ops; mret (k :: ks)
  end.

Fixpoint run_lists (ops : list port_op) (qs : gmap Z (list kernel_message)) : option (list kernel_message * gmap Z (list kernel_message)) :=
  match ops with
  | [] => Some ([], qs)
  | Send o k :: ops => q ← qs !! o; run_lists ops (<[o := q ++ [k]]> qs)
  | Receive o :: ops =>
      match qs !! o with
      | Some (k :: q) => r ← run_lists ops (<[o := q]> qs); Some (k :: r.1, r.2)
      | _ => None
      end
  end.

(** Ports in memory do what the lists of [Cap] do. *)
Theorem ports_refine (ops : list port_op) : forall p Q qs ks qs',
  ports_rel p Q qs -> run_lists ops qs = Some (ks, qs') ->
  exists p' Q', run_ports ops p = (p', Ok ks) /\ ports_rel p' Q' qs'.
Proof.
  induction ops as [|[o k|o] ops IH]; intros p Q qs ks qs' H; cbn [run_lists run_ports].
  - intros [= <- <-]. by exists p, Q.
  - destruct (qs !! o) as [q|] eqn:E; [|done]. cbn [mbind option_bind]. intros Hr.
    destruct (push_rel p Q qs o (fresh (dom (msgs p))) k q H E) as (p1 & Q1 & E1 & H1 & _); [apply not_elem_of_dom, is_fresh|].
    destruct (IH p1 Q1 _ ks qs' H1 Hr) as (p2 & Q2 & E2 & H2). exists p2, Q2. split; [|done].
    rewrite (bind_ok (gets id) _ p p p) by done. by rewrite (bind_ok _ _ _ _ _ E1).
  - destruct (qs !! o) as [[|k q]|] eqn:E; [done| |done]. intros Hr.
    destruct (pop_rel p Q qs o k q H E) as (p1 & Q1 & m & E1 & H1 & _).
    destruct (run_lists ops (<[o := q]> qs)) as [[ks1 qs1]|] eqn:E2; [|done]. injection Hr as <- <-.
    destruct (IH p1 Q1 _ _ _ H1 E2) as (p2 & Q2 & E3 & H2). exists p2, Q2. split; [|done].
    rewrite (bind_ok _ _ _ _ _ E1), (bind_ok _ _ _ _ _ E3). done.
Qed.

(** ** Construction and destruction *)

(** A constructed port is an empty queue, if its memory happened to name the
    class of ports. *)
Lemma construct_port p o c :
  codes p !! hclass (default (MkHeader 0 0) (headers p !! o)) = Some c -> constructor c = true ->
  exists p', obj_constructor o p = (p', Ok tt) /\ is_tailq (links p') o [] /\ o ∈ ready p' /\ headers p' !! o = Some (MkHeader 0 0).
Proof.
  intros E Hc. eexists. split; [|split; [|split]].
  - unfold obj_constructor, mbind, M_bind, gets. cbn [id]. rewrite E. cbn [default]. unfold id. rewrite Hc. reflexivity.
  - apply tailq_init.
  - cbn. set_solver.
  - apply lookup_insert_eq.
Qed.

(** A port in memory that was used for something else. *)
Lemma construct_garbage :
  match (message_init;; obj_constructor 8;; port_push 8 64 (MkKMsg None 8)) (MkPort ∅ {[8 := MkHeader 7 0]} (MkHeap ∅ ∅) ∅ ∅ ∅) with
  | (_, r) => r = Halt
  end.
Proof. vm_compute. reflexivity. Qed.

(** An empty port can be destroyed; one with a message cannot. *)
Lemma destroy_empty p o fuel : is_tailq (links p) o [] -> port_destructor fuel o p = (p, Ok tt).
Proof.
  intros Hq. unfold port_destructor, mbind, M_bind, gets. unfold id. rewrite (tailq_first _ _ _ Hq). cbn [head]. destruct fuel; cbn; reflexivity.
Qed.

Lemma destroy_reads_freed p o m l fuel : is_tailq (links p) o (m :: l) -> snd (port_destructor fuel o p) = Halt.
Proof.
  intros Hq. unfold port_destructor, mbind, M_bind, gets. unfold id. rewrite (tailq_first _ _ _ Hq). cbn [head].
  destruct fuel as [|fuel]; [done|]. cbn. unfold mbind, M_bind, gets, id. destruct (msgs p !! m); [|reflexivity]. cbn. by rewrite lookup_delete_eq.
Qed.
