(* ===== verification/InitServer.v ===== *)
(** * The first program ([servers/sys/init/init.c])

    [init] creates a port, sends itself a message through it, receives it,
    prints its first character and destroys the port.  It makes its system
    calls by the numbers the comments of the kernel's table give; the table
    itself is shorter.  On a table that had the calls at those numbers the
    program would get its message back; on the kernel's own, none of its calls
    reaches a handler. *)

From S2P Require Import Prelude Aria Cap Futex.

(** A system call whose error the program sees as [ret == -1]. *)
Definition attempt {S A} (m : M S A) : M S (option A) := fun s =>
  match m s with
  | (s, Ok a) => (s, Ok (Some a))
  | (s, Err) => (s, Ok None)
  | (s, Halt) => (s, Halt)
  end.

Lemma attempt_ok {S A} (m : M S A) s s' a : m s = (s', Ok a) -> attempt m s = (s', Ok (Some a)).
Proof. intros E. unfold attempt. by rewrite E. Qed.

Definition letter_h : Z := 104.
Definition sizeof_msg : Z := 32.

Section Init.
Context `{AB : AriaBase, AM : AriaBitmap}.

(** What a program gets for a number of [table]: the answer of the handler it
    finds there, or [unknown] when there is none.  Another handler than the
    one meant is outside this model. *)
Definition by_number {A} (table : Z -> option syscall) (unknown : option A) (number : Z) (meant : syscall)
    (call : M cstate A) : M cstate (option A) :=
  match table number with
  | None => mret unknown
  | Some c => if bool_decide (c = meant) then attempt call else halt
  end.

(** [main]: [tail] is the rest of [omsg->str], [unset] what [msg->str[0]] and
    [rights] held before, [unknown] the response to an unknown number; the
    character is the one printed.  The program loops when the port cannot be
    created. *)
Definition init_main (table : Z -> option syscall) (unknown : option Z) (object : option Z) (alloc_msg alloc_header : bool)
    (tail : list Z) (unset : Z) : M cstate Z :=
  response ← by_number table unknown 17 sys_create_obj
    (create_obj OBJ_CLASS_PORT (Z.lor (Z.shiftl 1 0) (Z.shiftl 1 1)) object);
  match response with
  | None => halt
  | Some port =>
      let omsg := MkMessage port port sizeof_msg (letter_h :: tail) in
      _ ← by_number table None 16 sys_msg_send (message_send omsg alloc_msg alloc_header);
      response ← by_number table None 15 sys_msg_recv (message_receive port unset);
      let c := match response with Some msg => default unset (head (mdata msg)) | None => unset end in
      _ ← by_number table None 19 sys_destroy_obj (destroy_obj port);
      mret c
  end.

(** The kernel's table. *)
Definition kernel_table (number : Z) : option syscall := syscall_handles !! Z.to_nat number.

(** With the kernel's table the program changes nothing: it loops, or prints
    what its memory held. *)
Lemma init_main_does_nothing unknown object alloc_msg alloc_header tail unset (s : cstate) :
  init_main kernel_table unknown object alloc_msg alloc_header tail unset s =
    (s, match unknown with None => Halt | Some _ => Ok unset end).
Proof. by destruct unknown. Qed.

End Init.

Section InitOk.
Context {AB : AriaBase} {AO : AriaBaseOk AB} {AM : AriaBitmap} {AMO : AriaBitmapOk AB AM}.

(** Memory that no handle names is not counted. *)
Lemma unnamed_refs s o : table_ok s -> objects s !! o = None -> refs (table s) o = 0.
Proof.
  intros [_ K2 _] Ho. unfold refs. destruct (filter _ (handles (bitmap (table s)))) as [|i l] eqn:E; [done|].
  assert (Hi : i ∈ i :: l) by constructor. rewrite <- E, list_elem_of_filter, handles_used in Hi. destruct Hi as [Hn Hi].
  destruct (K2 i Hi) as (_ & b & h & Hb & Hh). unfold names in Hn. rewrite Hb in Hn. cbn in Hn. congruence.
Qed.

Lemma object_new_spec s c a :
  table_ok s -> classes s !! OBJ_CLASS_PORT = Some c -> csize c <> 0 -> objects s !! a = None ->
  object_new OBJ_CLASS_PORT (Some a) s = (set_objects s (<[a := MkHeader 0 0]> (objects s)), Ok a) /\
  table_ok (set_objects s (<[a := MkHeader 0 0]> (objects s))).
Proof.
  intros Hok Hc Hs Ha. split.
  - unfold object_new. rewrite Hc, (proj2 (Z.eqb_neq _ _) Hs), Ha. done.
  - pose proof Hok as [K1 K2 K3]. split; cbn; [done| |].
    + intros i Hi. destruct (K2 i Hi) as (Hi0 & b & h & Hb & Hh). split; [done|]. exists b, h. split; [done|].
      rewrite lookup_insert_ne; [done|]. congruence.
    + intros o h. rewrite lookup_insert_Some. intros [[<- <-]|[_ Ho]]; [|by apply K3]. cbn. by rewrite (unnamed_refs s).
Qed.

(** What a new handle is, and what creating it leaves alone. *)
Lemma capability_create_handle s o acc h b i :
  table_ok s -> objects s !! o = Some h -> bitmap_alloc (bitmap (table s)) = (b, Some i) ->
  exists s', capability_create o acc s = (s', Ok i) /\ bit_used (bitmap (table s')) i /\
    values (table s') !! Z.to_nat i = Some (MkBinding acc o) /\
    ports s' = ports s /\ classes s' = classes s /\ released s' = released s.
Proof.
  intros Hok Ho Ha. destruct (bitmap_alloc_ok _ _ _ Ha) as (Hi & _ & _ & _ & Hu).
  destruct (vector_index_ok _ (values (table s)) (MkBinding 0 0) i (proj1 Hi)) as [Hlen _].
  eexists. split; [|split; [|split]].
  - unfold capability_create. rewrite Ha. erewrite bind_ok by (apply object_retain_eq; exact Ho). reflexivity.
  - cbn. apply Hu. by left.
  - cbn. apply list_lookup_insert_eq. lia.
  - done.
Qed.

(** The port is a channel to itself. *)
Lemma new_port_spec s c a b i :
  table_ok s -> classes s !! OBJ_CLASS_PORT = Some c -> csize c <> 0 -> objects s !! a = None ->
  bitmap_alloc (bitmap (table s)) = (b, Some i) ->
  exists s', create_obj OBJ_CLASS_PORT 3 (Some a) s = (s', Ok i) /\ channel s' i i i a /\
    values (table s') !! Z.to_nat i = Some (MkBinding 3 a) /\ objects s' !! a = Some (MkHeader 0 1) /\
    ports s' = ports s /\ classes s' = classes s /\ released s' = released s.
Proof.
  intros Hok Hc Hs Ha Hb. destruct (object_new_spec s c a Hok Hc Hs Ha) as (E1 & Hok1).
  set (s1 := set_objects s (<[a := MkHeader 0 0]> (objects s))) in *.
  assert (Ho1 : objects s1 !! a = Some (MkHeader 0 0)) by apply lookup_insert_eq.
  destruct (capability_create_correct s1 a 3 (MkHeader 0 0) b i Hok1 Ho1) as (s' & E2 & Hok' & _ & _ & _ & Ho'); [cbn; lia|exact Hb|].
  destruct (capability_create_handle s1 a 3 _ b i Hok1 Ho1 Hb) as (s2 & E2' & Hu & Hv & Hp & Hcl & Hr).
  rewrite E2 in E2'. injection E2' as <-. exists s'. split; [|split; [|done]].
  - unfold create_obj. by rewrite (bind_ok _ _ _ _ _ E1).
  - split; [done|..]; (split; [done|]); [exists 3|exists 3|]; (split; [done|done]) || by eexists.
Qed.

(** On a table of system calls that has the calls at the numbers [init] uses,
    the first program works: on any sound table of capabilities with room for a handle,
    with the class of ports registered, memory for the port, its constructor
    run, and memory for the message, it prints the character it sent; its
    port is empty, its handle is free again, and the port's memory is back in
    its cache. *)
Lemma init_prints_h (table : Z -> option syscall) (unknown : option Z) (s : cstate) (c : object_class) (a : Z) (b : bitmap_t) (i : Z) (tail : list Z) (unset : Z) :
  table 17 = Some sys_create_obj -> table 16 = Some sys_msg_send -> table 15 = Some sys_msg_recv -> table 19 = Some sys_destroy_obj ->
  table_ok s -> classes s !! OBJ_CLASS_PORT = Some c -> csize c <> 0 -> objects s !! a = None -> ports s !! a = Some [] ->
  bitmap_alloc (bitmap (Cap.table s)) = (b, Some i) ->
  exists s', init_main table unknown (Some a) true true tail unset s = (s', Ok letter_h) /\ table_ok s' /\
    ~ bit_used (bitmap (Cap.table s')) i /\ released s' = released s ++ [(ccache c, a)].
Proof.
  intros T17 T16 T15 T19 Hok Hc Hs Ha Hp Hb. destruct (new_port_spec s c a b i Hok Hc Hs Ha Hb) as (s1 & E1 & Hch1 & Hv1 & Ho1 & Hp1 & Hc1 & Hr1).
  set (m := MkMessage i i sizeof_msg (letter_h :: tail)).
  destruct (message_send_ceq s1 i i i a m []) as (s2 & r & E2 & Hch2 & Hs2); [done|done|done|by rewrite Hp1|].
  destruct (message_receive_ceq s2 i i i a unset (MkMessage i i sizeof_msg (letter_h :: take 15 tail)) r []) as (s3 & E3 & Hch3 & Hs3).
  { done. }
  { pose proof Hs2 as (_ & _ & -> & _). cbn. by rewrite lookup_insert_eq. }
  assert (Hv3 : values (Cap.table s3) !! Z.to_nat i = Some (MkBinding 3 a)).
  { destruct Hs3 as (_ & _ & _ & _ & -> & _), Hs2 as (_ & _ & _ & _ & Hv2 & _). cbn. by rewrite Hv2. }
  destruct (capability_lookup_used s3 i _ (ch_ok _ _ _ _ _ Hch3) (proj1 (ch_snd _ _ _ _ _ Hch3)) Hv3) as (s4 & E4 & Hs4).
  assert (Hch4 : channel s4 i i i a) by (eapply channel_ceq; [symmetry; exact Hs4|done]).
  assert (Hall : classes s4 = classes s /\ objects s4 = objects s1 /\ released s4 = released s /\ values (Cap.table s4) = values (Cap.table s3)).
  { destruct Hs4 as (F1 & F2 & _ & F4 & F5 & _), Hs3 as (G1 & G2 & _ & G4 & _), Hs2 as (K1 & K2 & _ & K4 & _). cbn in *.
    split_and!; congruence. }
  destruct Hall as (Hc4 & Ho4 & Hr4 & Hv4).
  destruct (capability_destroy_correct s4 i (MkBinding 3 a) (MkHeader 0 1)) as (s5 & E5 & Hok5 & Hn5 & _ & _ & _ & Hr5);
    [apply Hch4|apply Hch4|by rewrite Hv4|cbn; by rewrite Ho4|cbn; lia|].
  exists s5. split; [|split; [done|split; [done|]]].
  - unfold init_main, by_number. rewrite T17, T16, T15, T19, !bool_decide_true by done. change (Z.lor (Z.shiftl 1 0) (Z.shiftl 1 1)) with 3.
    rewrite (bind_ok _ _ _ _ _ (attempt_ok _ _ _ _ E1)), (bind_ok _ _ _ _ _ (attempt_ok _ _ _ _ E2)), (bind_ok _ _ _ _ _ (attempt_ok _ _ _ _ E3)).
    erewrite bind_ok; [reflexivity|]. apply attempt_ok. unfold destroy_obj. by rewrite (bind_ok _ _ _ _ _ E4).
  - rewrite Hr5, Hr4, Hc4. cbn. unfold OBJ_CLASS_PORT in Hc. by rewrite Hc.
Qed.
End InitOk.

(** An empty table, the class of ports, a constructed port at 100. *)
Definition boot_cap : cstate :=
  MkC {[ 0 := MkClass 48 9 ]} ∅ (MkTable [] (MkBitmap (Some [0; 0; 0; 0; 0; 0; 0; 0]) 64 true)) {[ 100 := [] ]} [].

Lemma boot_cap_ok : table_ok boot_cap.
Proof.
  split; [cbn; lia| |by intros o h].
  intros i Hi%handles_used. replace (handles (bitmap (table boot_cap))) with (@nil Z) in Hi by (vm_compute; reflexivity). by apply elem_of_nil in Hi.
Qed.

(** The table of the comments: the number after each entry of the source. *)
Definition commented_table (number : Z) : option syscall :=
  if number =? 15 then Some sys_msg_recv else if number =? 16 then Some sys_msg_send
  else if number =? 17 then Some sys_create_obj else if number =? 19 then Some sys_destroy_obj else None.

Example init_prints_h_by_the_comments :
  snd (init_main commented_table None (Some 100) true true [] 0 boot_cap) = Ok letter_h.
Proof. vm_compute. reflexivity. Qed.

(** The result of sending is not looked at: without memory for the message
    the program waits on an empty port and panics. *)
Lemma init_waits_for_nothing : snd (init_main commented_table None (Some 100) false true [] 0 boot_cap) = Halt.
Proof. vm_compute. reflexivity. Qed.
