(* ===== verification/Abi.v ===== *)
(** * The system call interface ([core/syscall.h], [core/syscall.c], [arch/amd64/cpu.h])

    How the registers of a user program become the arguments of a handler, and
    the way from a system call number through the table to the operation of a
    component.  The handlers are a record of operations; the capability and
    message handlers are those of [Cap].  The first program is run again with
    the numbers it really uses. *)

From S2P Require Import Prelude Aria Cap Futex.

Record registers := MkRegs {
  r15 : Z; r14 : Z; r13 : Z; r12 : Z; r11 : Z; r10 : Z; r9 : Z; r8 : Z;
  rsi : Z; rdi : Z; rbp : Z; rdx : Z; rcx : Z; rbx : Z; rax : Z;
  isr_number : Z; error_code : Z;
  rip : Z; cs : Z; rflags : Z; rsp : Z; ss : Z;
}.

(** [SWAP_TLS]: an interrupt that came from user mode swaps the base of [gs]. *)
Definition from_user (regs : registers) : bool := Z.land (cs regs) 3 =? 3.
Definition SWAP_TLS (regs : registers) (gs : Z * Z) : Z * Z := if from_user regs then (snd gs, fst gs) else gs.

(** The argument registers, in the order of the [SYSCALL_DEFINE] macros. *)
Definition ARG0 (regs : registers) : Z := rdi regs.
Definition ARG1 (regs : registers) : Z := rsi regs.
Definition ARG2 (regs : registers) : Z := rdx regs.
Definition ARG3 (regs : registers) : Z := r10 regs.
Definition ARG4 (regs : registers) : Z := r8 regs.

(** [SYSCALL_DEFINEn]: the body returns a value or runs to its end. *)
Section Define.
Context {T : Type}.
Definition SYSCALL_DEFINE0 (BODY : M T Z) (_ : registers) : M T Z := BODY.
Definition SYSCALL_DEFINE1 (t0 : Z -> Z) (BODY : Z -> M T Z) (regs : registers) : M T Z := BODY (t0 (ARG0 regs)).
Definition SYSCALL_DEFINE2 (t0 t1 : Z -> Z) (BODY : Z -> Z -> M T Z) (regs : registers) : M T Z :=
  BODY (t0 (ARG0 regs)) (t1 (ARG1 regs)).
Definition SYSCALL_DEFINE3 (t0 t1 t2 : Z -> Z) (BODY : Z -> Z -> Z -> M T Z) (regs : registers) : M T Z :=
  BODY (t0 (ARG0 regs)) (t1 (ARG1 regs)) (t2 (ARG2 regs)).
Definition SYSCALL_DEFINE4 (t0 t1 t2 t3 : Z -> Z) (BODY : Z -> Z -> Z -> Z -> M T Z) (regs : registers) : M T Z :=
  BODY (t0 (ARG0 regs)) (t1 (ARG1 regs)) (t2 (ARG2 regs)) (t3 (ARG3 regs)).
Definition SYSCALL_DEFINE5 (t0 t1 t2 t3 t4 : Z -> Z) (BODY : Z -> Z -> Z -> Z -> Z -> M T Z) (regs : registers) : M T Z :=
  BODY (t0 (ARG0 regs)) (t1 (ARG1 regs)) (t2 (ARG2 regs)) (t3 (ARG3 regs)) (t4 (ARG4 regs)).
End Define.

(** Conversions of a register to the type of a parameter. *)
Definition as_pointer (x : Z) : Z := u64 x.
Definition as_size (x : Z) : Z := u64 x.
Definition as_capability (x : Z) : Z := u32 x.
Definition as_int (x : Z) : Z := s32 x.
Definition as_char (x : Z) : Z := signed 8 x.

(** ** The operations behind the table *)

Class SyscallOps (T : Type) := {
  op_log : Z -> M T Z;
  op_portal : Z -> Z -> M T Z;
  op_irq_cortex_instantiate : Z -> Z -> Z -> M T Z;
  op_irq_cortex_anchor : Z -> Z -> M T Z;
  op_futex : Z -> Z -> Z -> Z -> M T Z;
  op_msg_recv : Z -> Z -> M T Z;
  op_msg_send : Z -> M T Z;
  op_create_obj : Z -> Z -> M T Z;
  op_duplicate_obj : Z -> Z -> M T Z;
  op_destroy_obj : Z -> M T Z;
  op_as_action : Z -> Z -> Z -> Z -> M T Z;
}.

Section Dispatch.
Context {T : Type} `{SyscallOps T}.

Definition syscall_entry (regs : registers) (c : syscall) : M T Z :=
  match c with
  | sys_log => SYSCALL_DEFINE1 as_char op_log regs
  | sys_portal => SYSCALL_DEFINE2 as_pointer as_pointer op_portal regs
  | sys_irq_cortex_instantiate => SYSCALL_DEFINE3 as_pointer as_pointer as_int op_irq_cortex_instantiate regs
  | sys_irq_cortex_anchor => SYSCALL_DEFINE2 as_pointer as_pointer op_irq_cortex_anchor regs
  | sys_futex => SYSCALL_DEFINE4 as_pointer as_int u32 as_int op_futex regs
  | sys_msg_recv => SYSCALL_DEFINE2 as_capability as_pointer op_msg_recv regs
  | sys_msg_send => SYSCALL_DEFINE1 as_pointer op_msg_send regs
  | sys_create_obj => SYSCALL_DEFINE2 u8 u8 op_create_obj regs
  | sys_duplicate_obj => SYSCALL_DEFINE2 as_capability u8 op_duplicate_obj regs
  | sys_destroy_obj => SYSCALL_DEFINE1 as_capability op_destroy_obj regs
  | sys_as_action => SYSCALL_DEFINE4 as_capability as_int as_pointer as_size op_as_action regs
  end.

(** The whole way of a system call; [error] of the processor's block is set
    only when a handler ran or the number is unknown. *)
Definition syscall_trap (regs : registers) (current : bool) : M T (option syscall * Z) :=
  syscall_handler (syscall_entry regs) current (u64 (rax regs)).

(** Numbers past the table change nothing and report no error. *)
Lemma syscall_unknown (regs : registers) (current : bool) (s : T) :
  11 <= u64 (rax regs) -> syscall_trap regs current s = (s, Ok (None, 0)).
Proof.
  intros Hr. unfold syscall_trap, syscall_handler.
  rewrite (proj2 (Z.ltb_ge (u64 (rax regs)) (Z.of_nat (length syscall_handles)))) by (cbn; lia). done.
Qed.

(** A number below the end of the table runs its entry, and only that. *)
Lemma syscall_known (regs : registers) (c : syscall) (s : T) :
  syscall_handles !! Z.to_nat (u64 (rax regs)) = Some c ->
  syscall_trap regs true s =
    match syscall_entry regs c s with
    | (s', Ok error) => (s', Ok (Some c, error))
    | (s', Err) => (s', Ok (Some c, -1))
    | (s', Halt) => (s', Halt)
    end.
Proof.
  intros Hc. unfold syscall_trap, syscall_handler. pose proof (lookup_lt_Some _ _ _ Hc) as Hl.
  pose proof (u64_range (rax regs)). rewrite (proj2 (Z.ltb_lt (u64 (rax regs)) _)) by lia. rewrite Hc. done.
Qed.

(** Without a thread a known number stops the kernel. *)
Lemma syscall_no_thread (regs : registers) (c : syscall) (s : T) :
  syscall_handles !! Z.to_nat (u64 (rax regs)) = Some c -> syscall_trap regs false s = (s, Halt).
Proof.
  intros Hc. unfold syscall_trap, syscall_handler. pose proof (lookup_lt_Some _ _ _ Hc) as Hl.
  pose proof (u64_range (rax regs)). rewrite (proj2 (Z.ltb_lt (u64 (rax regs)) _)) by lia. rewrite Hc. done.
Qed.

(** A handler depends on the number and on at most four registers. *)
Lemma syscall_registers (regs regs' : registers) (current : bool) (s : T) :
  rax regs = rax regs' -> rdi regs = rdi regs' -> rsi regs = rsi regs' -> rdx regs = rdx regs' -> r10 regs = r10 regs' ->
  syscall_trap regs current s = syscall_trap regs' current s.
Proof.
  intros E0 E1 E2 E3 E4. unfold syscall_trap. rewrite E0.
  assert (Hc : forall c, syscall_entry regs c s = syscall_entry regs' c s).
  { intros c. unfold syscall_entry, SYSCALL_DEFINE1, SYSCALL_DEFINE2, SYSCALL_DEFINE3, SYSCALL_DEFINE4, ARG0, ARG1, ARG2, ARG3.
    rewrite E1, E2, E3, E4. done. }
  unfold syscall_handler. case_match; [|done]. destruct (negb current); [done|]. by rewrite Hc.
Qed.

End Dispatch.

(** ** The capability and message handlers *)

Section CapCalls.
Context `{AB : AriaBase, AM : AriaBitmap}.

(** What the handlers take from outside the capability tables: the memory the
    object cache hands out, the message at a user address, the outcome of the
    two allocations of a message, an uninitialized variable, and the handlers
    of the other components, which do not touch capabilities. *)
Record cap_env := MkCapEnv {
  ce_object : option Z;
  ce_message : Z -> message_header;
  ce_alloc_msg : bool;
  ce_alloc_header : bool;
  ce_garbage : Z;
  ce_other : syscall -> registers -> Z;
}.
Context (env : cap_env) (regs0 : registers).

Definition other (c : syscall) : M cstate Z := mret (ce_other env c regs0).

#[local] Instance cap_ops : SyscallOps cstate := {
  op_log _ := other sys_log;
  op_portal _ _ := other sys_portal;
  op_irq_cortex_instantiate _ _ _ := other sys_irq_cortex_instantiate;
  op_irq_cortex_anchor _ _ := other sys_irq_cortex_anchor;
  op_futex _ _ _ _ := other sys_futex;
  op_msg_recv port out := _ ← message_receive port (ce_garbage env); mret 0;
  op_msg_send msg := message_send (ce_message env msg) (ce_alloc_msg env) (ce_alloc_header env);; mret 0;
  op_create_obj class access := h ← create_obj class access (ce_object env); mret (s32 h);
  op_duplicate_obj handle access := h ← duplicate_obj handle access; mret (s32 h);
  op_destroy_obj handle := destroy_obj handle;; mret 0;
  op_as_action _ _ _ _ := other sys_as_action;
}.

(** The registers of [SYSCALL1] and [SYSCALL2] in a program. *)
Definition user_regs (number a0 a1 : Z) : registers :=
  MkRegs 0 0 0 0 0 0 0 0 a1 a0 0 0 0 0 number 0 0 0 0x43 0 0 0.

Definition user_call (number a0 a1 : Z) : M cstate (option syscall * Z) := syscall_trap (user_regs number a0 a1) true.

(** With the numbers of the table a call is the operation of [Cap]. *)
Lemma create_obj_call (class access : Z) (s s' : cstate) (h : Z) :
  0 <= class < 256 -> 0 <= access < 256 -> 0 <= h < 2 ^ 31 ->
  create_obj class access (ce_object env) s = (s', Ok h) ->
  user_call 7 class access s = (s', Ok (Some sys_create_obj, h)).
Proof.
  intros Hc Ha Hh E. unfold user_call. rewrite (syscall_known _ sys_create_obj) by done. cbn.
  unfold SYSCALL_DEFINE2, ARG0, ARG1. cbn. unfold u8. rewrite !Z.mod_small by lia. rewrite (bind_ok _ _ _ _ _ E). cbn.
  rewrite s32_small by lia. done.
Qed.

Lemma destroy_obj_call (handle : Z) (s s' : cstate) :
  0 <= handle < 2 ^ 32 -> destroy_obj handle s = (s', Ok tt) ->
  user_call 9 handle 0 s = (s', Ok (Some sys_destroy_obj, 0)).
Proof.
  intros Hh E. unfold user_call. rewrite (syscall_known _ sys_destroy_obj) by done. cbn.
  unfold SYSCALL_DEFINE1, ARG0, as_capability. cbn. unfold u32. rewrite Z.mod_small by lia. rewrite (bind_ok _ _ _ _ _ E). done.
Qed.

(** ** The first program with its own numbers *)

(** The calls of [init]'s [main], in order: it creates a port, sends, receives
    and destroys with the numbers of the comments. *)
Definition init_calls (port omsg msg : Z) : M cstate unit :=
  user_call 17 OBJ_CLASS_PORT 3;; user_call 16 omsg 0;; user_call 15 port msg;; user_call 19 port 0;; mret tt.

(** None of them reaches its handler: the program creates nothing, sends
    nothing and receives nothing, and is told of no error. *)
Lemma init_calls_do_nothing (port omsg msg : Z) (s : cstate) : init_calls port omsg msg s = (s, Ok tt).
Proof.
  unfold init_calls, user_call.
  do 4 (erewrite bind_ok by (apply syscall_unknown; cbn; vm_compute; discriminate)). done.
Qed.

End CapCalls.
