(* ===== verification/Bcache.v ===== *)
(** * The block cache ([core/bcache.c], [core/bcache.h])

    Blocks of a device hang in a search tree by their number.  A reader names
    the device by a capability; the blocks of its range are looked up and
    copied.  Buffers of the caller are memory by address. *)

From S2P Require Import Prelude Aria Cap.

Record blk := MkBlk { blk_lba : Z; blk_buffer : list Z }.
Record blk_handle := MkBlkHandle { bh_lba_start : Z; bh_lba_cnt : Z; bh_lba_size : Z }.

(** [bc_handle] is [capability_binding->obj]; blocks are named by numbers. *)
Record bcache := MkBcache {
  blk_tree : ptree;
  bc_access : Z;
  bc_handle : option blk_handle;
}.

Section Bcache.
Context {AB : AriaBase} {AM : AriaBitmap} {AD : AriaDict}.
(** The bytes of a binding, padding included, as a key. *)
Context (binding_key : capability_binding -> Z).
Context (bcache_table : dictionary bcache) (blks : gmap Z blk).

(** [bcache == NULL] never holds for the callers in the file. *)
Definition bcache_lookup (handle : Z) : M cstate bcache :=
  binding ← capability_lookup handle;
  match binding with
  | None => fail
  | Some b =>
      match dictionary_search bcache_table (binding_key b) with
      | None => fail
      | Some c => mret c
      end
  end.

(** The walk down the tree: [Halt] when a pointer is wild. *)
Fixpoint search_blk (root : ptree) (lba : Z) : cres (option Z) :=
  match root with
  | PLeaf => Ok None
  | PNode l n r =>
      match blks !! n with
      | None => Halt
      | Some b =>
          if blk_lba b =? lba then Ok (Some n)
          else search_blk (if lba <? blk_lba b then l else r) lba
      end
  end.

(** [for (lba = lba_start, i = 0; lba < lba_cnt; lba++, i++)]: the array is
    filled from its start, [n] is the number of turns left. *)
Fixpoint lookup_loop (n : nat) (tree : ptree) (lba : Z) (i : nat) (out : list (option Z)) : cres (list (option Z)) :=
  match n with
  | O => Ok out
  | Datatypes.S n =>
      match search_blk tree lba with
      | Ok b => lookup_loop n tree (lba + 1) (Datatypes.S i) (<[i := b]> out)
      | Err => Err
      | Halt => Halt
      end
  end.

Definition bcache_lookup_blk (c : bcache) (lba_start lba_cnt : Z) (out : list (option Z)) : cres (list (option Z)) :=
  match bc_handle c with
  | None => Err
  | Some _ => lookup_loop (Z.to_nat (lba_cnt - lba_start)) (blk_tree c) lba_start 0 out
  end.

(** [memcpy] to the caller's memory from a block of known contents. *)
Definition copy_out (mem : gmap Z Z) (dest : Z) (src : list Z) (from n : Z) : cres (gmap Z Z) :=
  if from + n <=? Z.of_nat (length src) then
    Ok (foldl (fun m i => <[dest + i := default 0 (src !! Z.to_nat (from + i))]> m) mem (seqZ 0 n))
  else Halt.

(** The positions of one turn of the loop of both routines: where in the
    block, how many bytes, and the counters; [count] is converted to
    [size_t]. *)
Definition turn (lba_size count location bytes_read : Z) : Z * Z * Z :=
  let index_into_blk := location mod lba_size in
  let byte_cnt := lba_size - index_into_blk in
  let bytes_read := u64 (bytes_read + byte_cnt) in
  if u64 count <? bytes_read then
    let byte_cnt := u64 (count - bytes_read - byte_cnt) in
    (index_into_blk, byte_cnt, u64 (bytes_read - byte_cnt))
  else (index_into_blk, byte_cnt, bytes_read).

(** The loop of [bcache_consult_read]; a block that is not cached is not
    read. *)
Fixpoint read_loop (n : nat) (lba_size count buffer : Z) (l : list (option Z)) (location bytes_read : Z) (mem : gmap Z Z)
    : cres (gmap Z Z) :=
  match n with
  | O => Ok mem
  | Datatypes.S n =>
      let '(index_into_blk, byte_cnt, bytes_read) := turn lba_size count location bytes_read in
      let next mem := read_loop n lba_size count buffer (tail l) (u64 (location + byte_cnt)) (u64 (bytes_read + lba_size)) mem in
      match l with
      | [] => Halt
      | None :: _ => next mem
      | Some b :: _ =>
          match blks !! b with
          | None => Halt
          | Some x =>
              match copy_out mem (u64 (buffer + bytes_read)) (blk_buffer x) index_into_blk byte_cnt with
              | Ok mem => next mem
              | Err => Err
              | Halt => Halt
              end
          end
      end
  end.

(** The numbers of the range; [DIV_ROUNDUP] is the macro of aria. *)
Definition lba_first (h : blk_handle) (offset : Z) : Z := offset / bh_lba_size h.
Definition lba_count (h : blk_handle) (offset count : Z) : Z :=
  u64 (DIV_ROUNDUP (u64 (offset + count)) (bh_lba_size h) - lba_first h offset).

(** [junk] is what [alloc] leaves in the array; [alloc_ok] whether it
    succeeds. *)
Definition bcache_consult_read (handle offset count buffer : Z) (alloc_ok : bool) (junk : nat -> list (option Z)) (mem : gmap Z Z)
    : M cstate (Z * gmap Z Z) :=
  if buffer =? 0 then fail
  else
    c ← bcache_lookup handle;
    if Z.land (bc_access c) CAPABILITY_ACCESS_READ =? 0 then fail
    else
      match bc_handle c with
      | None => fail
      | Some h =>
          let lba_start := lba_first h offset in
          let lba_cnt := lba_count h offset count in
          if lba_cnt =? 0 then fail
          else if negb alloc_ok then fail
          else fun s =>
            match bcache_lookup_blk c lba_start lba_cnt (junk (Z.to_nat lba_cnt)) with
            | Ok l =>
                match read_loop (Z.to_nat (lba_cnt - lba_start)) (bh_lba_size h) count buffer l offset 0 mem with
                | Ok mem => (s, Ok (count, mem))
                | Err => (s, Err)
                | Halt => (s, Halt)
                end
            | Err => (s, Err)
            | Halt => (s, Halt)
            end
      end.

(** [bcache_consult_write] goes through the same motions and writes nothing. *)
Definition bcache_consult_write (handle offset count buffer : Z) (alloc_ok : bool) (junk : nat -> list (option Z)) : M cstate Z :=
  if buffer =? 0 then fail
  else
    c ← bcache_lookup handle;
    if Z.land (bc_access c) CAPABILITY_ACCESS_WRITE =? 0 then fail
    else
      match bc_handle c with
      | None => fail
      | Some h =>
          let lba_start := lba_first h offset in
          let lba_cnt := lba_count h offset count in
          if negb alloc_ok then fail
          else fun s =>
            match bcache_lookup_blk c lba_start lba_cnt (junk (Z.to_nat lba_cnt)) with
            | Ok _ => (s, Ok count)
            | Err => (s, Err)
            | Halt => (s, Halt)
            end
      end.

End Bcache.

(** ** What the lookup finds *)

Section BcacheOk.
Context (blks : gmap Z blk).

Definition lba_of (n : Z) : Z := match blks !! n with Some b => blk_lba b | None => 0 end.

Record blk_tree_ok (t : ptree) : Prop := {
  bt_sorted : bst lba_of t;
  bt_there n : n ∈ nodes t -> is_Some (blks !! n);
  bt_distinct n m : n ∈ nodes t -> m ∈ nodes t -> lba_of n = lba_of m -> n = m;
}.

(** The cached block of a number, by a search through all blocks. *)
Definition cached (t : ptree) (lba : Z) : option Z := snd <$> list_find (fun n => lba_of n = lba) (nodes t).

Lemma blk_tree_sub l n r : blk_tree_ok (PNode l n r) -> blk_tree_ok l /\ blk_tree_ok r.
Proof.
  intros [(Hl & Hr & _) Ht Hd]. cbn in Ht, Hd. setoid_rewrite elem_of_app in Ht. setoid_rewrite elem_of_cons in Ht.
  setoid_rewrite elem_of_app in Hd. setoid_rewrite elem_of_cons in Hd. split; split; auto.
Qed.

Lemma cached_Some t lba n : blk_tree_ok t -> (cached t lba = Some n <-> n ∈ nodes t /\ lba_of n = lba).
Proof.
  intros [_ _ Hd]. unfold cached. rewrite fmap_Some. split.
  - intros ([i m] & (Hi & Hm & _)%list_find_Some & ->). split; [by eapply list_elem_of_lookup_2|done].
  - intros [Hn Hl]. destruct (list_find_elem_of (fun n => lba_of n = lba) (nodes t) n Hn Hl) as ([i m] & Hf).
    exists (i, m). split; [done|]. apply list_find_Some in Hf as (Hi & Hm & _). apply list_elem_of_lookup_2 in Hi.
    cbn. apply Hd; [done|done|congruence].
Qed.

Lemma cached_None t lba : (cached t lba = None <-> forall n, n ∈ nodes t -> lba_of n <> lba).
Proof. unfold cached. rewrite fmap_None, list_find_None, Forall_forall. done. Qed.

(** The walk down the tree finds what the search through all blocks does. *)
Lemma search_blk_cached t lba : blk_tree_ok t -> search_blk blks t lba = Ok (cached t lba).
Proof.
  induction t as [|l IHl n r IHr]; intros Ht; [done|]. cbn [search_blk].
  destruct (bt_there _ Ht n ltac:(cbn; set_solver)) as (b & Hb). rewrite Hb.
  assert (En : lba_of n = blk_lba b) by (unfold lba_of; by rewrite Hb).
  pose proof (blk_tree_sub l n r Ht) as (Hl & Hr). pose proof (bt_sorted _ Ht) as (_ & _ & Fl & Fr).
  rewrite Forall_forall in Fl, Fr. case_if.
  - f_equal. symmetry. apply cached_Some; [done|]. split; [cbn; set_solver|congruence].
  - case_if; rewrite IHl || rewrite IHr; try done; f_equal; symmetry.
    + destruct (cached l lba) as [m|] eqn:Ec.
      * apply cached_Some in Ec as []; [|done]. apply cached_Some; [done|]. split; [cbn; set_solver|done].
      * rewrite cached_None in Ec. apply cached_None. intros m [Hm|[->|Hm]%elem_of_cons]%elem_of_app; [by apply Ec|lia|].
        specialize (Fr m Hm). lia.
    + destruct (cached r lba) as [m|] eqn:Ec.
      * apply cached_Some in Ec as []; [|done]. apply cached_Some; [done|]. split; [cbn; set_solver|done].
      * rewrite cached_None in Ec. apply cached_None. intros m [Hm|[->|Hm]%elem_of_cons]%elem_of_app; [|lia|by apply Ec].
        specialize (Fl m Hm). lia.
Qed.

Lemma lookup_loop_spec n t lba i out :
  blk_tree_ok t -> (i + n <= length out)%nat ->
  exists out', lookup_loop blks n t lba i out = Ok out' /\ length out' = length out /\
    forall j, out' !! j = if decide (i <= j < i + n)%nat then Some (cached t (lba + Z.of_nat (j - i))) else out !! j.
Proof.
  intros Ht. revert lba i out. induction n as [|n IH]; intros lba i out Hl; cbn [lookup_loop].
  - exists out. split_and!; try done. intros j. case_decide; [lia|done].
  - rewrite search_blk_cached by done.
    destruct (IH (lba + 1) (S i) (<[i := cached t lba]> out)) as (out' & -> & Hlen & Hj); [rewrite length_insert; lia|].
    exists out'. rewrite length_insert in Hlen. split_and!; try done. intros j. rewrite Hj.
    destruct (decide (j = i)) as [->|Hne].
    + rewrite !decide_False, decide_True, list_lookup_insert_eq by lia. do 2 f_equal. lia.
    + rewrite list_lookup_insert_ne by done. repeat case_decide; try lia; [|done]. do 2 f_equal. lia.
Qed.

(** Looking up [cnt] blocks from number [first] gives, for each number
    below [cnt], the cached block of that number (what a search through all
    blocks finds) or [NULL]; the entries of the array past these, which exist
    as soon as [first] is not 0, are left as they were. *)
Theorem bcache_lookup_blk_correct (c : bcache) h first cnt junk :
  bc_handle c = Some h -> blk_tree_ok (blk_tree c) -> 0 <= first -> 0 <= cnt -> length junk = Z.to_nat cnt ->
  exists out, bcache_lookup_blk blks c first cnt junk = Ok out /\ length out = length junk /\
    forall i, (i < length junk)%nat ->
      out !! i = if first + Z.of_nat i <? cnt then Some (cached (blk_tree c) (first + Z.of_nat i)) else junk !! i.
Proof.
  intros Hh Ht Hf Hc Hj. unfold bcache_lookup_blk. rewrite Hh.
  destruct (lookup_loop_spec (Z.to_nat (cnt - first)) (blk_tree c) first 0 junk Ht ltac:(lia)) as (out & E & Hl & Hi).
  exists out. split_and!; try done. intros i Hlt. rewrite Hi, Nat.sub_0_r.
  destruct (Z.ltb_spec (first + Z.of_nat i) cnt); case_decide; (done || lia).
Qed.

End BcacheOk.

(** ** A cache of two blocks *)

Definition demo_blks : gmap Z blk := {[1 := MkBlk 0 [10; 11]; 2 := MkBlk 2 [20; 21]]}.
Definition demo_tree : ptree := PNode PLeaf 1 (PNode PLeaf 2 PLeaf).
Definition demo_cache : bcache := MkBcache demo_tree 3 (Some (MkBlkHandle 0 4 2)).

Lemma demo_tree_ok : blk_tree_ok demo_blks demo_tree.
Proof.
  split.
  - cbn. repeat split; repeat constructor; by vm_compute.
  - cbn. intros n [->|[->|[]%elem_of_nil]%elem_of_cons]%elem_of_cons; by eexists.
  - cbn. intros n m [->|[->|[]%elem_of_nil]%elem_of_cons]%elem_of_cons
      [->|[->|[]%elem_of_nil]%elem_of_cons]%elem_of_cons H; (done || by vm_compute in H).
Qed.

Lemma bcache_lookup_blk_correct_witness :
  exists out, bcache_lookup_blk demo_blks demo_cache 0 3 [None; None; None] = Ok out /\ out = [Some 1; None; Some 2].
Proof.
  destruct (bcache_lookup_blk_correct demo_blks demo_cache (MkBlkHandle 0 4 2) 0 3 [None; None; None] eq_refl demo_tree_ok
    ltac:(lia) ltac:(lia) eq_refl) as (out & E & Hl & Hi).
  exists out. split; [exact E|]. apply (list_eq_same_length _ _ 3); [done|done|].
  intros i x y Hlt Hx Hy. rewrite Hi in Hx by done. destruct i as [|[|[|i]]]; vm_compute in Hx, Hy; try congruence; cbn in Hlt; lia.
Defined.

(** A range that does not start at block 0 is not looked up: the entries are
    whatever the array held. *)
Lemma later_range_not_looked_up junk :
  bcache_lookup_blk demo_blks demo_cache 2 1 [junk] = Ok [junk].
Proof. done. Qed.

(** Reading the first block puts its bytes behind the caller's buffer. *)
Lemma read_goes_past_the_buffer :
  read_loop demo_blks 1 2 2 100 [Some 1] 0 0 ∅ = Ok {[102 := 10; 103 := 11]}.
Proof. by vm_compute. Qed.

(** Reading one byte of a cached block copies from behind the block. *)
Lemma short_read_runs_off : read_loop demo_blks 1 2 1 100 [Some 1] 0 0 ∅ = Halt.
Proof. by vm_compute. Qed.
