(* ===== verification/Address.v ===== *)
(** * Address spaces ([mm/address.c], [mm/address.h])

    An address space hands out virtual addresses from a bump pointer and
    knows holes it must avoid; user programs reach it through the [as_action]
    system call with a capability that carries the number of the space. *)

From S2P Require Import Prelude Aria PageSource Physical Paging Virtual Cap.

Definition AS_ACTION_CONSTRUCT : Z := 0.
Definition AS_ACTION_ALLOCATE : Z := 1.
Definition AS_ACTION_FREE : Z := 2.

(** Pointers are numbers; [None] is [NULL]. *)
Record address_hole := MkHole {
  hole_base : Z;
  hole_limit : Z;
  hole_next : option Z;
  hole_last : option Z;
}.

Record address_space := MkAs {
  hole_root : option Z;
  hole_tail : option Z;
  as_current : Z;
  as_base : Z;
  as_limit : Z;
  as_pmlt : Z;            (* [page_table->pmap->pmlt] *)
  as_asid : Z;
  minimum_vaddr : Z;
  maximum_vaddr : Z;
}.

(** ** Allocation *)

(** The loop of [as_address].  Its body ends with [hole = hole->next] and the
    loop steps again, so that the hole after the one looked at is skipped;
    when there is none, the step dereferences [NULL].  [fuel] bounds the walk
    by the number of holes: a longer one is a cycle, which never ends. *)
Fixpoint hole_loop (fuel : nat) (holes : gmap Z address_hole) (hole : option Z) (size address : Z) : cres Z :=
  match hole with
  | None => Ok address
  | Some h =>
      match fuel, holes !! h with
      | Datatypes.S fuel, Some x =>
          let address :=
            if (address <? u64 (hole_base x + hole_limit x)) && (hole_base x <? u64 (address + size))
            then u64 (address + hole_limit x) else address in
          match hole_next x with
          | None => Halt
          | Some n => match holes !! n with
                      | Some y => hole_loop fuel holes (hole_next y) size address
                      | None => Halt
                      end
          end
      | _, _ => Halt
      end
  end.

(** [as_address]: the space and the address handed out. *)
Definition as_address (holes : gmap Z address_hole) (space : address_space) (size : Z) : cres (address_space * Z) :=
  if (size =? 0) || (u64 (as_base space + as_limit space) <? u64 (as_current space + size)) then Err
  else
    match hole_loop (Datatypes.S (base.size holes)) holes (hole_root space) size (as_current space) with
    | Ok address =>
        Ok (MkAs (hole_root space) (hole_tail space) (u64 (address + size)) (as_base space) (as_limit space)
                 (as_pmlt space) (as_asid space) (minimum_vaddr space) (maximum_vaddr space), address)
    | Err => Err
    | Halt => Halt
    end.

(** [as_insert_hole]; the first hole keeps whatever [next] it came with. *)
Definition as_insert_hole (holes : gmap Z address_hole) (space : address_space) (hole : Z)
    : cres (gmap Z address_hole * address_space) :=
  let put root tail := MkAs root tail (as_current space) (as_base space) (as_limit space)
    (as_pmlt space) (as_asid space) (minimum_vaddr space) (maximum_vaddr space) in
  match hole_root space with
  | None => Ok (holes, put (Some hole) (Some hole))
  | Some root =>
      match holes !! hole with
      | None => Halt
      | Some x =>
          let holes := <[hole := MkHole (hole_base x) (hole_limit x) None (hole_tail space)]> holes in
          match hole_tail space with
          | None => Halt
          | Some t =>
              match holes !! t with
              | None => Halt
              | Some y =>
                  Ok (<[t := MkHole (hole_base y) (hole_limit y) (Some hole) (hole_last y)]> holes,
                      put (Some root) (Some hole))
              end
          end
      end
  end.

Section Address.
Context {S : Type} `{PS : PageSource S} `{AB : AriaBase} `{AM : AriaBitmap} `{AD : AriaDict}.
Context (kernel_pmlt : Z).
(** What a fresh [struct address_space] holds where its holes should be. *)
Context (junk_hole_root : option Z).
(** What lies in front of a freshly allocated capability record, where
    [object_retain] looks for the header of an object. *)
Context (in_front : object_header).

Record astate := MkA {
  a_src : S;
  a_heap : list bool;                 (* which of the coming allocations succeed *)
  a_next : Z;
  a_spaces : gmap Z address_space;
  a_holes : gmap Z address_hole;
  a_caps : gmap Z Z;                  (* [address_space_capability] to [asid] *)
  as_table : dictionary Z;            (* [asid] to the space *)
  asid_bump : Z;
  a_process : cstate;                 (* the capabilities of the current process *)
}.

Definition a_alloc : M astate (option Z) := fun s =>
  match a_heap s with
  | true :: h => (MkA (a_src s) h (a_next s + 1) (a_spaces s) (a_holes s) (a_caps s) (as_table s) (asid_bump s)
                      (a_process s), Ok (Some (a_next s)))
  | _ :: h => (MkA (a_src s) h (a_next s) (a_spaces s) (a_holes s) (a_caps s) (as_table s) (asid_bump s)
                   (a_process s), Ok None)
  | [] => (s, Ok None)
  end.

Definition a_alloc_or_fail : M astate Z :=
  x ← a_alloc; match x with Some a => mret a | None => fail end.

Definition put_space (p : Z) (x : address_space) : M astate unit := modify (fun s =>
  MkA (a_src s) (a_heap s) (a_next s) (<[p := x]> (a_spaces s)) (a_holes s) (a_caps s) (as_table s) (asid_bump s)
      (a_process s)).

Definition get_space (p : Z) : M astate address_space := fun s =>
  match a_spaces s !! p with Some x => (s, Ok x) | None => (s, Halt) end.

(** Run a routine of the page tables, or of the capabilities. *)
Definition on_src {A} (m : M S A) : M astate A := fun s =>
  let '(x, r) := m (a_src s) in
  (MkA x (a_heap s) (a_next s) (a_spaces s) (a_holes s) (a_caps s) (as_table s) (asid_bump s) (a_process s), r).
Definition on_process {A} (m : M cstate A) : M astate A := fun s =>
  let '(x, r) := m (a_process s) in
  (MkA (a_src s) (a_heap s) (a_next s) (a_spaces s) (a_holes s) (a_caps s) (as_table s) (asid_bump s) x, r).

Definition address_find_as (asid : Z) : M astate Z := fun s =>
  match dictionary_search (as_table s) asid with Some p => (s, Ok p) | None => (s, Err) end.

Definition set_asid (x : address_space) (n : Z) : address_space :=
  MkAs (hole_root x) (hole_tail x) (as_current x) (as_base x) (as_limit x) (as_pmlt x) n
       (minimum_vaddr x) (maximum_vaddr x).

Definition address_push_as (p : Z) : M astate unit :=
  x ← get_space p;
  n ← gets asid_bump;
  put_space p (set_asid x n);;
  d ← gets as_table;
  let '(d, ok) := dictionary_push d n p in
  modify (fun s => MkA (a_src s) (a_heap s) (a_next s) (a_spaces s) (a_holes s) (a_caps s) d (s32 (n + 1)) (a_process s));;
  if ok then mret tt else fail.

(** The layout every new space starts with. *)
Definition AS_BASE : Z := 0xa0000000.
Definition AS_LIMIT : Z := 0x0000fffffffff0ff.

Definition address_space_construct : M astate Z :=
  p ← a_alloc_or_fail;
  put_space p (MkAs junk_hole_root None 0 0 0 0 0 0 0);;
  _ ← a_alloc_or_fail;
  dict ← a_alloc;
  pmap ← match dict with Some _ => a_alloc | None => mret None end;
  root ← on_src (vmm_default_table (Some tt) (bool_decide (dict <> None)) (bool_decide (pmap <> None)) kernel_pmlt);
  x ← get_space p;
  put_space p (MkAs (hole_root x) (hole_tail x) (as_current x) (as_base x) (as_limit x) root (as_asid x)
                    (minimum_vaddr x) (maximum_vaddr x));;
  address_push_as p;;
  x ← get_space p;
  put_space p (MkAs (hole_root x) (hole_tail x) AS_BASE AS_BASE AS_LIMIT root (as_asid x)
                    0x100000000000 0x7fffffffffff);;
  mret (as_asid x).

(** [address_space_allocate]; [has_out] says whether the out-pointer is set. *)
Definition address_space_allocate (p : Z) (has_out : bool) (length : Z) : M astate Z :=
  if negb has_out then fail
  else if length =? 0 then fail
  else
    x ← get_space p;
    holes ← gets a_holes;
    match as_address holes x length with
    | Ok (x, address) => put_space p x;; mret address
    | Err => fail
    | Halt => halt
    end.

Definition address_space_free (p address length : Z) : M astate unit := mret tt.

(** What a call of [as_action] returns, and the address it writes. *)
Record as_answer := MkAnswer { as_ret : Z; as_out : option Z }.

(** The [asid] field of the object a capability is bound to. *)
Definition capability_asid (o : Z) : M astate Z := fun s =>
  match a_caps s !! o with Some n => (s, Ok n) | None => (s, Halt) end.

(** [struct address_space_capability *as_capability = binding->obj] *)
Definition capability_object (handle : Z) : M astate Z :=
  b ← on_process (capability_lookup handle);
  match b with
  | None => fail
  | Some b => if obj b =? 0 then fail else mret (obj b)
  end.

Definition as_action (current : bool) (handle ops : Z) (address : option Z) (length : Z) : M astate as_answer :=
  if negb current then fail
  else if ops =? AS_ACTION_CONSTRUCT then
    asid ← address_space_construct;
    c ← a_alloc_or_fail;
    modify (fun s => MkA (a_src s) (a_heap s) (a_next s) (a_spaces s) (a_holes s) (<[c := asid]> (a_caps s))
      (as_table s) (asid_bump s)
      (set_objects (a_process s) (<[c := default in_front (objects (a_process s) !! c)]> (objects (a_process s)))));;
    h ← on_process (capability_create c (Z.lor CAPABILITY_ACCESS_READ CAPABILITY_ACCESS_WRITE));
    mret (MkAnswer h None)
  else
    c ← capability_object handle;
    if ops =? AS_ACTION_ALLOCATE then
      asid ← capability_asid c;
      p ← address_find_as asid;
      a ← address_space_allocate p (bool_decide (address <> None)) length;
      mret (MkAnswer 0 (Some a))
    else if ops =? AS_ACTION_FREE then
      asid ← capability_asid c;
      p ← address_find_as asid;
      match address with
      | None => halt
      | Some a => address_space_free p a length;; mret (MkAnswer 0 None)
      end
    else fail.

End Address.

(** ** Allocation without holes *)

Fixpoint allocate_all (holes : gmap Z address_hole) (space : address_space) (sizes : list Z)
    : cres (address_space * list Z) :=
  match sizes with
  | [] => Ok (space, [])
  | n :: sizes =>
      match as_address holes space n with
      | Ok (space, a) =>
          match allocate_all holes space sizes with
          | Ok (space, l) => Ok (space, a :: l)
          | Err => Err
          | Halt => Halt
          end
      | Err => Err
      | Halt => Halt
      end
  end.

Definition total (sizes : list Z) : Z := foldr Z.add 0 sizes.

(** The addresses of blocks laid out one after the other. *)
Fixpoint starts (a : Z) (sizes : list Z) : list Z :=
  match sizes with
  | [] => []
  | n :: sizes => a :: starts (a + n) sizes
  end.

Definition set_current (x : address_space) (a : Z) : address_space :=
  MkAs (hole_root x) (hole_tail x) a (as_base x) (as_limit x) (as_pmlt x) (as_asid x) (minimum_vaddr x) (maximum_vaddr x).

(** A space without holes whose end is an address, and requests that do not
    run past the end of the address type. *)
Definition plain_space (x : address_space) : Prop :=
  hole_root x = None /\ 0 <= as_base x <= as_current x /\ as_base x + as_limit x < 2 ^ 64.

Lemma as_address_plain holes x n :
  plain_space x -> 0 < n < 2 ^ 64 - (as_base x + as_limit x) -> as_current x <= as_base x + as_limit x ->
  as_address holes x n =
    if as_current x + n <=? as_base x + as_limit x
    then Ok (set_current x (as_current x + n), as_current x) else Err.
Proof.
  intros (Hh & Hb & He) Hn Hc. unfold as_address. rewrite Hh. cbn [hole_loop].
  rewrite (proj2 (Z.eqb_neq n 0)) by lia. cbn [orb]. rewrite !u64_small by lia.
  rewrite Z.ltb_antisym. unfold set_current. rewrite Hh. destruct (_ <=? _); done.
Qed.

Lemma total_nonneg sizes : Forall (fun n => 0 < n) sizes -> 0 <= total sizes.
Proof. induction 1 as [|n l Hn _ IH]; cbn [total foldr]; [lia|]. fold (total l). lia. Qed.

Lemma allocate_all_plain holes sizes : forall x,
  plain_space x -> as_current x <= as_base x + as_limit x ->
  Forall (fun n => 0 < n < 2 ^ 64 - (as_base x + as_limit x)) sizes ->
  allocate_all holes x sizes =
    if as_current x + total sizes <=? as_base x + as_limit x
    then Ok (set_current x (as_current x + total sizes), starts (as_current x) sizes) else Err.
Proof.
  induction sizes as [|n sizes IH]; intros x HP Hc Hs; cbn [allocate_all total foldr starts].
  { rewrite (proj2 (Z.leb_le _ _)) by lia. rewrite Z.add_0_r. by destruct x. }
  apply Forall_cons in Hs as [Hn Hs]. fold (total sizes).
  assert (0 <= total sizes) by (apply total_nonneg; eapply Forall_impl; [exact Hs|]; cbn; lia).
  rewrite (as_address_plain holes x n HP Hn Hc). destruct (as_current x + n <=? _) eqn:E; zify_bools.
  - rewrite (IH (set_current x (as_current x + n))); [| |cbn; lia|done].
    + cbn [set_current as_current as_base as_limit]. rewrite <- Z.add_assoc. destruct (_ <=? _); done.
    + destruct HP as (? & ? & ?). split_and!; cbn; try done; lia.
  - rewrite (proj2 (Z.leb_gt _ _)) by lia. done.
Qed.

(** Blocks laid out one after the other are apart and in order. *)
Lemma starts_apart sizes : forall a i j p q n,
  Forall (fun n => 0 < n) sizes -> (i < j)%nat ->
  starts a sizes !! i = Some p -> starts a sizes !! j = Some q -> sizes !! i = Some n -> p + n <= q.
Proof.
  assert (Hge : forall sizes b k q, Forall (fun n => 0 < n) sizes -> starts b sizes !! k = Some q -> b <= q).
  { clear. intros sizes b k q HF. revert b k. induction HF as [|n sizes Hn HF IH]; intros b k; cbn [starts]; [done|].
    destruct k as [|k]; cbn [lookup list_lookup]; [intros [= <-]; lia|].
    intros H%IH. lia. }
  induction sizes as [|m sizes IH]; intros a i j p q n HF Hij; cbn [starts]; [done|].
  apply Forall_cons in HF as [Hm HF]. destruct j as [|j]; [lia|]. destruct i as [|i]; cbn [lookup list_lookup].
  - intros [= <-] Hq [= <-]. eapply Hge; done.
  - intros. eapply IH; [done| |done..]. lia.
Qed.

Lemma starts_bounds sizes : forall a i p n,
  Forall (fun n => 0 < n) sizes -> starts a sizes !! i = Some p -> sizes !! i = Some n ->
  a <= p /\ p + n <= a + total sizes.
Proof.
  induction sizes as [|m sizes IH]; intros a i p n HF; cbn [starts]; [done|].
  apply Forall_cons in HF as [Hm HF]. pose proof (total_nonneg sizes HF). cbn [total foldr]. fold (total sizes).
  destruct i as [|i]; cbn [lookup list_lookup]; [intros [= <-] [= <-]; lia|].
  intros Hp Hn. destruct (IH _ _ _ _ HF Hp Hn). lia.
Qed.

(** C24: a space without holes whose pointer is not past its end answers a
    sequence of requests, each smaller than 2^64 less that end (a larger one
    wraps, see [huge_request_wraps]), exactly when they fit below the end; the
    blocks it hands out lie inside the space, one after the other, no two of
    them overlapping. *)
Theorem as_address_disjoint holes x sizes :
  plain_space x -> as_current x <= as_base x + as_limit x ->
  Forall (fun n => 0 < n < 2 ^ 64 - (as_base x + as_limit x)) sizes ->
  match allocate_all holes x sizes with
  | Ok (x', l) =>
      length l = length sizes /\ as_current x' = as_current x + total sizes /\
      (forall i p n, l !! i = Some p -> sizes !! i = Some n ->
         as_current x <= p /\ p + n <= as_base x + as_limit x) /\
      (forall i j p q n, (i < j)%nat -> l !! i = Some p -> l !! j = Some q -> sizes !! i = Some n -> p + n <= q)
  | Err => as_base x + as_limit x < as_current x + total sizes
  | Halt => False
  end.
Proof.
  intros HP Hc Hs. rewrite (allocate_all_plain holes sizes x HP Hc Hs).
  assert (HF : Forall (fun n => 0 < n) sizes) by (eapply Forall_impl; [exact Hs|]; cbn; lia).
  case_if; [|lia]. split_and!.
  - clear. generalize (as_current x). induction sizes as [|n sizes IH]; intros a; cbn; auto.
  - done.
  - intros i p n Hp Hn. destruct (starts_bounds _ _ _ _ _ HF Hp Hn). lia.
  - intros i j p q n Hij. by apply starts_apart.
Qed.

(** ** New spaces *)

Section AddressOk.
Context {S : Type} {PS : PageSource S} {HPS : PageSourceOk S PS}.
Context {AB : AriaBase} {AM : AriaBitmap} {AD : AriaDict} {ADO : AriaDictOk AD}.
Context (pml5_supported : bool) (kernel_pmlt : Z) (junk_hole_root : option Z).
Context (dictionary_room : forall A (d : dictionary A) k v, (dictionary_push d k v).2 = true).

Local Abbreviation top := (top pml5_supported).
Local Abbreviation mapping := (mapping pml5_supported).
Local Abbreviation pt_inv := (pt_inv pml5_supported).
Local Abbreviation astate := (astate (S := S)).

(** The numbers in use are below the next one, each leads to its own space,
    and the objects from [a_next] on are free. *)
Record spaces_ok (s : astate) : Prop := {
  so_asid : forall n p, dictionary_search (as_table s) n = Some p ->
    0 <= n < asid_bump s /\ exists x, a_spaces s !! p = Some x /\ as_asid x = n;
  so_fresh : forall p x, a_spaces s !! p = Some x -> p < a_next s;
}.

(** The state after the space at [p] has been given its number. *)
Lemma address_push_as_eq (s : astate) p x :
  a_spaces s !! p = Some x ->
  exists d, dictionary_push (as_table s) (asid_bump s) p = (d, true) /\
    address_push_as p s =
      (MkA (a_src s) (a_heap s) (a_next s) (<[p := set_asid x (asid_bump s)]> (a_spaces s)) (a_holes s) (a_caps s) d
           (s32 (asid_bump s + 1)) (a_process s), Ok tt).
Proof.
  intros Hp. pose proof (dictionary_room _ (as_table s) (asid_bump s) p) as Hr.
  destruct (dictionary_push (as_table s) (asid_bump s) p) as [d ok] eqn:E. cbn [snd] in Hr. subst ok.
  exists d. split; [done|]. unfold address_push_as.
  erewrite bind_ok by (unfold get_space; rewrite Hp; reflexivity).
  erewrite bind_ok by reflexivity. erewrite bind_ok by reflexivity. erewrite bind_ok by reflexivity.
  cbn [as_table]. rewrite E. reflexivity.
Qed.

Definition new_space (root asid : Z) : address_space :=
  MkAs junk_hole_root None AS_BASE AS_BASE AS_LIMIT root asid 0x100000000000 0x7fffffffffff.

#[local] Opaque pmap_new.

Lemma construct_eq (s s1 : S) h n (t : astate) root :
  pmap_new true kernel_pmlt s = (s1, Ok root) ->
  t = MkA s (true :: true :: true :: true :: h) n (a_spaces t) (a_holes t) (a_caps t) (as_table t) (asid_bump t) (a_process t) ->
  exists d, dictionary_push (as_table t) (asid_bump t) n = (d, true) /\
    address_space_construct kernel_pmlt junk_hole_root t =
      (MkA s1 h (n + 1 + 1 + 1 + 1) (<[n := new_space root (asid_bump t)]> (a_spaces t)) (a_holes t) (a_caps t) d
           (s32 (asid_bump t + 1)) (a_process t), Ok (asid_bump t)).
Proof.
  intros E Ht. rewrite Ht. cbn [a_spaces a_holes a_caps as_table asid_bump a_process]. unfold address_space_construct.
  erewrite bind_ok by reflexivity. erewrite bind_ok by reflexivity. erewrite bind_ok by reflexivity.
  erewrite bind_ok by reflexivity. erewrite bind_ok by reflexivity.
  cbn [a_src a_heap a_next a_spaces a_holes a_caps as_table asid_bump a_process].
  erewrite bind_ok.
  2:{ unfold on_src, vmm_default_table. cbn [a_src]. rewrite !bool_decide_true by done. cbn [negb]. rewrite E. reflexivity. }
  erewrite bind_ok by (unfold get_space; cbn [a_spaces]; rewrite lookup_insert_eq; reflexivity).
  erewrite bind_ok by reflexivity.
  match goal with |- context [(address_push_as n ≫= _) ?u] =>
    destruct (address_push_as_eq u n (MkAs junk_hole_root None 0 0 0 root 0 0 0)) as (d & Ed & Ep) end.
  { cbn [a_spaces]. by rewrite lookup_insert_eq. }
  cbn [as_table asid_bump] in Ed. exists d. split; [done|].
  erewrite bind_ok by exact Ep.
  erewrite bind_ok by (unfold get_space; cbn [a_spaces]; rewrite lookup_insert_eq; reflexivity).
  erewrite bind_ok by reflexivity. cbn. rewrite !insert_insert_eq. reflexivity.
Qed.

#[local] Transparent pmap_new.

(** while memory lasts, constructing a space gives a number no space had;
    it finds the new space, whose page tables share the kernel half and map
    nothing in the user half, with the standard range free; every other
    number finds what it found, and the numbering stays consistent. *)
Theorem address_space_construct_correct (s : astate) G h :
  spaces_ok s -> a_heap s = true :: true :: true :: true :: h -> 0 <= asid_bump s < 2 ^ 31 - 1 ->
  pt_inv (a_src s) G -> G !! kernel_pmlt = Some (top, 0) ->
  shares (ps_mem (a_src s)) kernel_pmlt kernel_pmlt -> ps_avail (a_src s) 1 ->
  exists s' r,
    address_space_construct kernel_pmlt junk_hole_root s = (s', Ok (asid_bump s)) /\
    dictionary_search (as_table s) (asid_bump s) = None /\
    address_find_as (asid_bump s) s' = (s', Ok (a_next s)) /\
    a_spaces s' !! a_next s = Some (new_space r (asid_bump s)) /\
    spaces_ok s' /\
    (forall n, n <> asid_bump s -> dictionary_search (as_table s') n = dictionary_search (as_table s) n) /\
    (forall p, p <> a_next s -> a_spaces s' !! p = a_spaces s !! p) /\
    pt_inv (a_src s') (<[r := (top, 0)]> G) /\ G !! r = None /\
    (forall va, kernel_address pml5_supported va ->
       mapping (ps_mem (a_src s')) r va = mapping (ps_mem (a_src s)) kernel_pmlt va) /\
    (forall va, ~ kernel_address pml5_supported va -> mapping (ps_mem (a_src s')) r va = None).
Proof.
  intros [Ha Hf] Hh Hb HI HG Hsh Hav.
  destruct (pmap_new_post pml5_supported (a_src s) G kernel_pmlt 0 HI HG Hsh Hav)
    as (s1 & r & E & HGr & HI' & _ & _ & Hker & Huser & _).
  destruct (construct_eq (a_src s) s1 h (a_next s) s r E) as (d & Ed & Ec).
  { destruct s; cbn in *. by subst. }
  assert (Hd : forall n, dictionary_search d n = if asid_bump s =? n then Some (a_next s) else dictionary_search (as_table s) n).
  { intros n. apply (dict_search_push _ _ _ _ _ _ Ed). }
  eexists _, r. split; [exact Ec|]. split; [|split; [|split; [|split; [constructor|]]]].
  - destruct (dictionary_search _ _) as [p|] eqn:Es; [|done]. apply Ha in Es as [? _]. lia.
  - unfold address_find_as. cbn [as_table]. rewrite Hd, Z.eqb_refl. done.
  - cbn [a_spaces]. by rewrite lookup_insert_eq.
  - cbn [as_table asid_bump a_spaces]. intros n p. rewrite Hd, s32_small by lia. case_if.
    + intros [= <-]. subst n. split; [lia|]. rewrite lookup_insert_eq. eauto.
    + intros Hs. destruct (Ha n p Hs) as (Hn & x & Hx & Hn'). split; [lia|]. exists x.
      rewrite lookup_insert_ne; [done|]. intros <-. apply Hf in Hx. lia.
  - cbn [a_spaces a_next]. intros p x. rewrite lookup_insert_Some. intros [[<- _]|[_ Hx%Hf]]; lia.
  - cbn [as_table a_spaces a_src]. split_and!; try done.
    + intros n Hn. rewrite Hd, (proj2 (Z.eqb_neq _ _)) by done. done.
    + intros p Hp. by rewrite lookup_insert_ne.
Qed.

End AddressOk.

(** ** Witnesses and edges *)

Module AddressExamples.

Definition fresh (root asid : Z) : address_space :=
  MkAs None None AS_BASE AS_BASE AS_LIMIT root asid 0x100000000000 0x7fffffffffff.

(** The process of the capability examples, and no space yet. *)
Definition demo_spaces {S} (src : S) (heap : list bool) : astate (S := S) :=
  MkA src heap 1000 ∅ ∅ ∅ dict_empty 0 demo_cap.

End AddressExamples.
Import VirtualExamples AddressExamples.

Lemma as_address_disjoint_witness :
  exists x', allocate_all ∅ (fresh 0 0) [4096; 10; 8192] = Ok (x', [0xa0000000; 0xa0001000; 0xa000100a]) /\
    as_current x' = as_current (fresh 0 0) + 12298.
Proof.
  pose proof (as_address_disjoint ∅ (fresh 0 0) [4096; 10; 8192]) as H.
  destruct (allocate_all ∅ (fresh 0 0) [4096; 10; 8192]) as [[x' l]| |] eqn:E; [|vm_compute in E; discriminate E..].
  exists x'. split; [vm_compute in E |- *; congruence|]. apply H.
  - unfold plain_space. split_and!; [reflexivity|vm_compute; discriminate..|reflexivity].
  - vm_compute. discriminate.
  - repeat constructor; vm_compute; reflexivity.
Defined.

Lemma address_space_construct_correct_witness :
  exists (src : pmm_state) kr s' r,
    address_space_construct kr None (demo_spaces src [true; true; true; true]) = (s', Ok 0) /\
    a_spaces s' !! 1000 = Some (fresh r 0).
Proof.
  destruct booted as (src & G & kr & HI & HG & Hsh & Hav).
  destruct (address_space_construct_correct false kr None (fun A d k v => eq_refl : (@dictionary_push dict_ref A d k v).2 = true)
              (demo_spaces src [true; true; true; true]) G []) as (s' & r & E & _ & _ & Hx & _).
  - constructor; cbn; intros *; rewrite lookup_empty; discriminate.
  - reflexivity.
  - cbn. lia.
  - exact HI.
  - exact HG.
  - exact Hsh.
  - eapply ps_avail_le; [|exact Hav]. lia.
  - exists src, kr, s', r. split; [exact E|exact Hx].
Defined.

(** Through the system call: the capability of a new space allocates in it. *)
Lemma as_action_allocates :
  let run := as_action 0x1000000 None (MkHeader 0 0) in
  let s1 := run true 0 AS_ACTION_CONSTRUCT None 0 (demo_spaces one_table [true; true; true; true; true]) in
  snd s1 = Ok (MkAnswer 3 None) /\
  let s2 := run true 3 AS_ACTION_ALLOCATE (Some 0) 4096 (fst s1) in
  snd s2 = Ok (MkAnswer 0 (Some 0xa0000000)) /\
  snd (run true 3 AS_ACTION_ALLOCATE (Some 0) 4096 (fst s2)) = Ok (MkAnswer 0 (Some 0xa0001000)).
Proof. split; [|split]; vm_compute; reflexivity. Qed.

(** A capability record has no object header, but creating the capability
    counts a reference in front of it: the word there changes. *)
Lemma capability_overwrites_neighbour :
  let s1 := fst (as_action 0x1000000 None (MkHeader 7 41) true 0 AS_ACTION_CONSTRUCT None 0
                   (demo_spaces one_table [true; true; true; true; true])) in
  objects (a_process s1) !! 1004 = Some (MkHeader 7 42).
Proof. vm_compute. reflexivity. Qed.

(** The loop over the holes steps twice: one hole is dereferenced past its
    end, and of two holes the second is not looked at. *)
Definition with_hole (x : address_space) (h : Z) : address_space :=
  MkAs (Some h) (Some h) (as_current x) (as_base x) (as_limit x) (as_pmlt x) (as_asid x) (minimum_vaddr x) (maximum_vaddr x).

Lemma one_hole_crashes :
  as_address {[1 := MkHole 0xb0000000 0x1000 None None]} (with_hole (fresh 0 0) 1) 4096 = Halt.
Proof. reflexivity. Qed.

Lemma second_hole_ignored :
  let holes := {[1 := MkHole 0xb0000000 0x1000 (Some 2) None; 2 := MkHole 0xa0000000 0x1000 None (Some 1)]} in
  snd <$> (match as_address holes (with_hole (fresh 0 0) 1) 4096 with Ok r => Some r | _ => None end) = Some 0xa0000000.
Proof. reflexivity. Qed.

(** The end test wraps: a request of almost the whole address type passes it
    and moves the bump pointer back. *)
Lemma huge_request_wraps :
  exists x', as_address ∅ (fresh 0 0) (2 ^ 64 - 0x1000) = Ok (x', 0xa0000000) /\ as_current x' = 0x9ffff000.
Proof. eexists. split; reflexivity. Qed.

(** The limit is a length, but its value is that of an end: the space reaches
    beyond the addresses a four-level page table can translate. *)
Lemma space_past_canonical : 2 ^ 47 < AS_BASE + AS_LIMIT.
Proof. reflexivity. Qed.
