(* ===== verification/Nvme.v ===== *)
(** * The NVMe driver
      ([servers/io/nvme/controller/nvme.c], [servers/io/nvme/irq/main.c])

    A queue pair is two rings in memory that the driver shares with the
    device: the driver writes commands at its tail and rings a doorbell, the
    device writes completions, and the interrupt handler hands each to the
    queue entry of its command.  Pointers the driver takes the address of are
    values here, so that their null checks disappear; memory the driver gets
    from the kernel is zeroed.  System calls, the address a buffer is
    mapped at and the device are parameters.  Writing a ring or an array of
    entries outside its bounds is a wild access. *)

From stdpp Require Import pretty.
From S2P Require Import Prelude Aria.

Definition nvme_op_create_sq : Z := 1.
Definition nvme_op_create_cq : Z := 5.
Definition nvme_op_identify : Z := 6.
Definition NVME_QUEUE_NAME_LENGTH : Z := 16.
Definition NVME_QID_MAX : Z := 65535.
Definition NVME_IRQ_MMIO : Z := 1.
Definition NVME_IRQ_CONTROLLER : Z := 2.

(** The member of [union private] a command uses. *)
Inductive nvme_private :=
| create_cq (prp1 cqid qsize cq_flags irq_vector : Z)
| create_sq (prp1 sqid qsize sq_flags cqid : Z)
| identify (nsid prp1 cns : Z)
| rw (nsid prp1 prp2 slba length : Z).

Record nvme_command := MkCommand {
  opcode : Z;
  cmd_cid : Z;
  private : nvme_private;
}.

Record nvme_completion := MkCompletion {
  cq_cid : Z;
  cq_status : Z;
}.

Record nvme_queue_entry := MkEntry {
  qe_completion : nvme_completion;
  qe_cid : Z;
  qe_response : bool;
  qe_blocking : bool;
}.

Record nvme_queue_pair := MkQp {
  qid : Z;
  entry_cnt : Z;
  sq_tail : Z;
  cq_head : Z;
  qp_irq : Z;
  submission_queue_paddr : Z;
  submission_queue : list nvme_command;
  completion_queue_paddr : Z;
  completion_queue : list nvme_completion;
  submission_doorbell_offset : Z;
  submission_doorbell : Z;
  completion_doorbell_offset : Z;
  completion_doorbell : Z;
  qp_name : string;
  queue_entry_paddr : Z;
  queue_entry : list nvme_queue_entry;
  queue_entry_cnt : Z;
  cid_bitmap : bitmap_t;
}.

Definition set_sq (q : nvme_queue_pair) (l : list nvme_command) (tail db : Z) : nvme_queue_pair :=
  MkQp (qid q) (entry_cnt q) tail (cq_head q) (qp_irq q) (submission_queue_paddr q) l
    (completion_queue_paddr q) (completion_queue q) (submission_doorbell_offset q) db
    (completion_doorbell_offset q) (completion_doorbell q) (qp_name q) (queue_entry_paddr q) (queue_entry q)
    (queue_entry_cnt q) (cid_bitmap q).
Definition set_cq (q : nvme_queue_pair) (l : list nvme_completion) (head db : Z) : nvme_queue_pair :=
  MkQp (qid q) (entry_cnt q) (sq_tail q) head (qp_irq q) (submission_queue_paddr q) (submission_queue q)
    (completion_queue_paddr q) l (submission_doorbell_offset q) (submission_doorbell q)
    (completion_doorbell_offset q) db (qp_name q) (queue_entry_paddr q) (queue_entry q)
    (queue_entry_cnt q) (cid_bitmap q).
Definition set_entries (q : nvme_queue_pair) (l : list nvme_queue_entry) : nvme_queue_pair :=
  MkQp (qid q) (entry_cnt q) (sq_tail q) (cq_head q) (qp_irq q) (submission_queue_paddr q) (submission_queue q)
    (completion_queue_paddr q) (completion_queue q) (submission_doorbell_offset q) (submission_doorbell q)
    (completion_doorbell_offset q) (completion_doorbell q) (qp_name q) (queue_entry_paddr q) l
    (queue_entry_cnt q) (cid_bitmap q).
Definition set_cids (q : nvme_queue_pair) (b : bitmap_t) : nvme_queue_pair :=
  MkQp (qid q) (entry_cnt q) (sq_tail q) (cq_head q) (qp_irq q) (submission_queue_paddr q) (submission_queue q)
    (completion_queue_paddr q) (completion_queue q) (submission_doorbell_offset q) (submission_doorbell q)
    (completion_doorbell_offset q) (completion_doorbell q) (qp_name q) (queue_entry_paddr q) (queue_entry q)
    (queue_entry_cnt q) b.

Definition u16 (x : Z) : Z := x mod 2 ^ 16.

Definition zero_completion : nvme_completion := MkCompletion 0 0.

(** The index after [i] in a ring of [n] slots, as the driver advances it. *)
Definition ring_next (n i : Z) : Z := if n <=? i + 1 then 0 else i + 1.

(** ** Commands *)

Definition nvme_send_command (submission : nvme_command) (cid : Z) (blocking : bool) : M nvme_queue_pair unit := fun q =>
  match queue_entry q !! Z.to_nat cid with
  | None => (q, Halt)
  | Some _ =>
      let q := set_entries q (<[Z.to_nat cid := MkEntry zero_completion 0 false blocking]> (queue_entry q)) in
      if queue_entry_cnt q <? cid then (q, Err)
      else
        match submission_queue q !! Z.to_nat (sq_tail q) with
        | None => (q, Halt)
        | Some _ =>
            let cmd := MkCommand (opcode submission) (u16 cid) (private submission) in
            let tail := ring_next (entry_cnt q) (sq_tail q) in
            (set_sq q (<[Z.to_nat (sq_tail q) := cmd]> (submission_queue q)) tail (u32 tail), Ok tt)
        end
  end.

Section Commands.
Context {AM : AriaBitmap}.
(** What happens until the response of command [cid] is there: the loop of
    [nvme_send_command_and_poll], and the futex system call of
    [nvme_send_command_and_block]. *)
Context (poll futex_wait : Z -> M nvme_queue_pair unit).

(** The end of both routines: the completion is looked at and its command
    identifier given back. *)
Definition nvme_finish (cid : Z) : M nvme_queue_pair unit := fun q =>
  match queue_entry q !! Z.to_nat cid with
  | None => (q, Halt)
  | Some e =>
      if negb (Z.shiftr (cq_status (qe_completion e)) 1 =? 0) then (q, Err)
      else (set_cids q (bitmap_free (cid_bitmap q) (qe_cid e)), Ok tt)
  end.

Definition nvme_send_command_and_poll (submission : nvme_command) (cid : Z) : M nvme_queue_pair unit :=
  nvme_send_command submission cid false;;
  poll cid;;
  nvme_finish (u16 cid).

Definition nvme_send_command_and_block (submission : nvme_command) (cid : Z) : M nvme_queue_pair unit :=
  nvme_send_command submission cid true;;
  futex_wait cid;;
  nvme_finish cid.

(** [bitmap_alloc(&queue_pair->cid_bitmap, &cid)]. *)
Definition alloc_cid : M nvme_queue_pair Z := fun q =>
  match bitmap_alloc (cid_bitmap q) with
  | (b, Some cid) => (set_cids q b, Ok cid)
  | (b, None) => (set_cids q b, Err)
  end.

End Commands.

(** ** The interrupt handler *)

(** The part of [nvme_irq_handle] after the queue is found.  [futex_wake]
    says whether the system call succeeds; a wake stores the value the waiter
    expects, which is [true]. *)
Definition nvme_irq_complete (futex_wake : bool) : M nvme_queue_pair unit := fun q =>
  match completion_queue q !! Z.to_nat (cq_head q) with
  | None => (q, Halt)
  | Some c =>
      match queue_entry q !! Z.to_nat (cq_cid c) with
      | None => (q, Halt)
      | Some e =>
          let head := cq_head q + 1 in
          let q := set_cq q (completion_queue q) (if head =? entry_cnt q then 0 else head) (u32 head) in
          if qe_blocking e && negb futex_wake then
            (set_entries q (<[Z.to_nat (cq_cid c) := MkEntry c (cq_cid c) (qe_response e) (qe_blocking e)]> (queue_entry q)), Err)
          else
            (set_entries q (<[Z.to_nat (cq_cid c) := MkEntry c (cq_cid c) true (qe_blocking e)]> (queue_entry q)), Ok tt)
      end
  end.

(** An anchor tells the handler where something is. *)
Record anchor := MkAnchor {
  identifier : Z;
  anchor_paddr : Z;
}.

Definition HIGH_HALF : Z := 0xffff800000000000.

(** The handler's statics; [None] is a pointer never set. *)
Record irq_server := MkIrqServer {
  nvme_regs_ptr : option Z;
  nvme_controller_ptr : option Z;
}.

Fixpoint nvme_anchor_walk (l : list anchor) : M irq_server unit :=
  match l with
  | [] => mret tt
  | a :: l =>
      if identifier a =? NVME_IRQ_MMIO then
        modify (fun s => MkIrqServer (Some (u64 (anchor_paddr a + HIGH_HALF))) (nvme_controller_ptr s));; nvme_anchor_walk l
      else if identifier a =? NVME_IRQ_CONTROLLER then
        modify (fun s => MkIrqServer (nvme_regs_ptr s) (Some (u64 (anchor_paddr a + HIGH_HALF))));; nvme_anchor_walk l
      else fail
  end.

Definition nvme_anchor_flush (root : list anchor) : M irq_server unit :=
  match root with [] => fail | _ => nvme_anchor_walk root end.

(** ** Controllers and namespaces *)

Record nvme_regs := MkRegs {
  cap : Z;
  vs : Z;
  cc : Z;
  csts : Z;
  aqa : Z;
  asq : Z;
  acq : Z;
}.

Definition set_cc (r : nvme_regs) (x : Z) : nvme_regs := MkRegs (cap r) (vs r) x (csts r) (aqa r) (asq r) (acq r).
Definition set_asq (r : nvme_regs) (x : Z) : nvme_regs := MkRegs (cap r) (vs r) (cc r) (csts r) (aqa r) x (acq r).
Definition set_acq (r : nvme_regs) (x a : Z) : nvme_regs := MkRegs (cap r) (vs r) (cc r) (csts r) a (asq r) x.

(** What the device reports of a namespace: its size, its formatted LBA size
    byte and the data sizes of the sixteen formats. *)
Record nvme_namespace_id := MkNsId {
  nsze : Z;
  flbas : Z;
  lbaf_ds : list Z;
}.

Record nvme_namespace := MkNs {
  ns_nsid : Z;
  max_prp : Z;
  lba_cnt : Z;
  lba_size : Z;
  ns_queue : option nat;
  prp_list : list Z;
}.

Record nvme_controller := MkCtrl {
  regs : nvme_regs;
  version : Z * Z * Z;
  queue_entries : Z;
  page_size_max : Z;
  page_size_min : Z;
  strides : Z;
  qid_bitmap : bitmap_t;
  admin_queue : option nat;
  nvme_queue_pair_cnt : Z;
  queue_pairs : list nvme_queue_pair;
  namespaces : list nvme_namespace;
}.

Definition set_regs (c : nvme_controller) (r : nvme_regs) : nvme_controller :=
  MkCtrl r (version c) (queue_entries c) (page_size_max c) (page_size_min c) (strides c) (qid_bitmap c) (admin_queue c)
    (nvme_queue_pair_cnt c) (queue_pairs c) (namespaces c).
Definition set_qids (c : nvme_controller) (b : bitmap_t) : nvme_controller :=
  MkCtrl (regs c) (version c) (queue_entries c) (page_size_max c) (page_size_min c) (strides c) b (admin_queue c)
    (nvme_queue_pair_cnt c) (queue_pairs c) (namespaces c).
Definition set_admin (c : nvme_controller) (a : option nat) : nvme_controller :=
  MkCtrl (regs c) (version c) (queue_entries c) (page_size_max c) (page_size_min c) (strides c) (qid_bitmap c) a
    (nvme_queue_pair_cnt c) (queue_pairs c) (namespaces c).
Definition set_pairs (c : nvme_controller) (n : Z) (l : list nvme_queue_pair) : nvme_controller :=
  MkCtrl (regs c) (version c) (queue_entries c) (page_size_max c) (page_size_min c) (strides c) (qid_bitmap c) (admin_queue c)
    n l (namespaces c).
Definition set_namespaces (c : nvme_controller) (l : list nvme_namespace) : nvme_controller :=
  MkCtrl (regs c) (version c) (queue_entries c) (page_size_max c) (page_size_min c) (strides c) (qid_bitmap c) (admin_queue c)
    (nvme_queue_pair_cnt c) (queue_pairs c) l.

(** A routine on a queue pair, run on the controller's pair [i]. *)
Definition on_pair {A} (i : nat) (f : M nvme_queue_pair A) : M nvme_controller A := fun c =>
  match queue_pairs c !! i with
  | None => (c, Halt)
  | Some q => let '(q, r) := f q in (set_pairs c (nvme_queue_pair_cnt c) (<[i := q]> (queue_pairs c)), r)
  end.
Definition on_admin {A} (f : M nvme_queue_pair A) : M nvme_controller A := fun c =>
  match admin_queue c with
  | None => (c, Err)
  | Some i => on_pair i f c
  end.

(** The search of [nvme_irq_handle] for the queue of an interrupt vector. *)
Definition find_queue (vector : Z) (l : list nvme_queue_pair) : option nat :=
  fst <$> list_find (fun q => u64 (qp_irq q) = vector) l.

(** [nvme_irq_handle]: the anchors are [None] for a null pointer, [flush] and
    [vector] come from the interrupt state.  The handler reaches the
    controller through its static pointer. *)
Definition nvme_irq_handle (flush : bool) (vector : Z) (anchors : option (list anchor)) (futex_wake : bool)
    : M (irq_server * nvme_controller) unit := fun '(s, c) =>
  match anchors with
  | None | Some [] => ((s, c), Err)
  | Some root =>
      match (if flush : bool then nvme_anchor_flush root s else (s, Ok tt)) with
      | (s, Ok _) =>
          match nvme_controller_ptr s, nvme_regs_ptr s with
          | Some _, Some _ =>
              match find_queue vector (queue_pairs c) with
              | None => ((s, c), Err)
              | Some i => let '(c, r) := on_pair i (nvme_irq_complete futex_wake) c in ((s, c), r)
              end
          | _, _ => ((s, c), Halt)
          end
      | (s, Err) => ((s, c), Err)
      | (s, Halt) => ((s, c), Halt)
      end
  end.

(** ** Reading and writing blocks *)

(** The physical region list of a transfer of [n] pages after the first. *)
Fixpoint fill_prps (l : list Z) (at_ buffer : Z) (n : nat) (i : Z) : cres (list Z) :=
  match n with
  | O => Ok l
  | S n =>
      match l !! Z.to_nat (i + at_) with
      | None => Halt
      | Some _ => fill_prps (<[Z.to_nat (i + at_) := u64 (buffer + PAGE_SIZE + i * PAGE_SIZE)]> l) at_ buffer n (i + 1)
      end
  end.

(** [prp2] of a transfer, and the list it leaves; [None] is the error. *)
Definition lba_prp2 (ns : nvme_namespace) (cid cnt buffer : Z) : cres (option (list Z * Z)) :=
  if PAGE_SIZE <? u32 (cnt * lba_size ns) then
    if PAGE_SIZE * 2 <? u32 (cnt * lba_size ns) then
      let prp_cnt := Z.quot (s32 ((cnt - 1) * lba_size ns)) PAGE_SIZE in
      if max_prp ns <? prp_cnt then Ok None
      else
        match fill_prps (prp_list ns) (cid * max_prp ns) buffer (Z.to_nat prp_cnt) 0 with
        | Ok l =>
            match l !! Z.to_nat (cid * max_prp ns) with
            | Some p => Ok (Some (l, p))
            | None => Halt
            end
        | Err => Err
        | Halt => Halt
        end
    else Ok (Some (prp_list ns, u64 (buffer + PAGE_SIZE)))
  else Ok (Some (prp_list ns, 0)).

Definition rw_command (ns : nvme_namespace) (base cnt : Z) (write : bool) (buffer prp2 : Z) : nvme_command :=
  MkCommand (if write then 1 else 2) 0 (rw (u32 (ns_nsid ns)) buffer prp2 (u64 base) (u16 (cnt - 1))).

Section Rw.
Context {AM : AriaBitmap} (futex_wait : Z -> M nvme_queue_pair unit).

(** [nvme_lba_rw]: the state is the namespace's queue pair and its list of
    regions. *)
Definition nvme_lba_rw (ns : nvme_namespace) (base cnt : Z) (write : bool) (buffer : Z)
    : M (nvme_queue_pair * list Z) unit := fun '(q, l) =>
  match alloc_cid q with
  | (q, Ok cid) =>
      match lba_prp2 (MkNs (ns_nsid ns) (max_prp ns) (lba_cnt ns) (lba_size ns) (ns_queue ns) l) cid cnt buffer with
      | Ok None => ((q, l), Err)
      | Ok (Some (l, prp2)) =>
          let '(q, r) := nvme_send_command_and_block futex_wait (rw_command ns base cnt write buffer prp2) cid q in ((q, l), r)
      | _ => ((q, l), Halt)
      end
  | (q, Err) => ((q, l), Err)
  | (q, Halt) => ((q, l), Halt)
  end.

End Rw.

(** ** Bringing a controller up *)

Section Setup.
Context {AB : AriaBase} {AM : AriaBitmap}.
Context (futex_wait : Z -> M nvme_queue_pair unit).
(** Sizes of structures that embed types of [aria]. *)
Context (sizeof_nvme_controller sizeof_nvme_queue_pair : Z).
(** [alloc]: the bytes of a new object, if any. *)
Context (alloc_bytes : Z -> option (list Z)).

Definition zero_pair : nvme_queue_pair :=
  MkQp 0 0 0 0 0 0 [] 0 [] 0 0 0 0 EmptyString 0 [] 0 (MkBitmap None 0 false).

Definition zero_command : nvme_command := MkCommand 0 0 (identify 0 0 0).

(** The fields set from the controller. *)
Definition init_pair (c : nvme_controller) (qid irq : Z) (name : string) : nvme_queue_pair :=
  let n := queue_entries c in
  MkQp qid n 0 0 irq 0 [] 0 [] (PAGE_SIZE + (2 * 0) * Z.shiftl 4 (strides c)) 0
    (PAGE_SIZE + (2 * 0 + 1) * Z.shiftl 4 (strides c)) 0 name 0 [] 0
    (MkBitmap (alloc_bytes (DIV_ROUNDUP n 8)) n false).

(** The three shared buffers: commands, entries, completions.  [p1], [p2] and
    [p3] are their physical addresses, [None] when the kernel has none. *)
Definition map_commands (q : nvme_queue_pair) (p : Z) : nvme_queue_pair :=
  MkQp (qid q) (entry_cnt q) (sq_tail q) (cq_head q) (qp_irq q) (submission_queue_paddr q)
    (replicate (Z.to_nat (entry_cnt q)) zero_command) p (completion_queue q) (submission_doorbell_offset q)
    (submission_doorbell q) (completion_doorbell_offset q) (completion_doorbell q) (qp_name q) (queue_entry_paddr q)
    (queue_entry q) (queue_entry_cnt q) (cid_bitmap q).
Definition map_entries (q : nvme_queue_pair) (p : Z) : nvme_queue_pair :=
  MkQp (qid q) (entry_cnt q) (sq_tail q) (cq_head q) (qp_irq q) (submission_queue_paddr q)
    (submission_queue q) (completion_queue_paddr q) (completion_queue q) (submission_doorbell_offset q)
    (submission_doorbell q) (completion_doorbell_offset q) (completion_doorbell q) (qp_name q) p
    (replicate (Z.to_nat (queue_entry_cnt q)) (MkEntry zero_completion 0 false false)) (queue_entry_cnt q) (cid_bitmap q).
Definition set_entry_cnt (q : nvme_queue_pair) (n : Z) : nvme_queue_pair :=
  MkQp (qid q) (entry_cnt q) (sq_tail q) (cq_head q) (qp_irq q) (submission_queue_paddr q)
    (submission_queue q) (completion_queue_paddr q) (completion_queue q) (submission_doorbell_offset q)
    (submission_doorbell q) (completion_doorbell_offset q) (completion_doorbell q) (qp_name q) (queue_entry_paddr q)
    (queue_entry q) n (cid_bitmap q).
Definition map_completions (q : nvme_queue_pair) (p : Z) : nvme_queue_pair :=
  MkQp (qid q) (entry_cnt q) (sq_tail q) (cq_head q) (qp_irq q) (submission_queue_paddr q)
    (submission_queue q) p (replicate (Z.to_nat (entry_cnt q)) zero_completion) (submission_doorbell_offset q)
    (submission_doorbell q) (completion_doorbell_offset q) (completion_doorbell q) (qp_name q) (queue_entry_paddr q)
    (queue_entry q) (queue_entry_cnt q) (cid_bitmap q).

Definition orfail {A} (x : option A) : M nvme_controller A := fun c =>
  match x with Some a => (c, Ok a) | None => (c, Err) end.

Definition create_cq_command (q : nvme_queue_pair) : nvme_command :=
  MkCommand nvme_op_create_cq 0
    (create_cq (completion_queue_paddr q) (u16 (qid q)) (u16 (entry_cnt q - 1)) 3 0).
Definition create_sq_command (q : nvme_queue_pair) : nvme_command :=
  MkCommand nvme_op_create_sq 0
    (create_sq (submission_queue_paddr q) (u16 (qid q)) (u16 (entry_cnt q - 1)) 3 (u16 (qid q))).

(** [nvme_queue_pair_instantiate]: the new pair is at the returned index.
    Command identifiers of the new pair are used on the admin queue. *)
Definition nvme_queue_pair_instantiate (admin : bool) (irq : Z) (name : string) (p1 p2 p3 : option Z)
    : M nvme_controller nat :=
  if NVME_QUEUE_NAME_LENGTH <=? Z.of_nat (String.length name) then fail
  else
    c ← gets id;
    let cnt := nvme_queue_pair_cnt c + 1 in
    if PAGE_SIZE <? sizeof_nvme_controller + sizeof_nvme_queue_pair * cnt then
      modify (fun c => set_pairs c cnt (queue_pairs c));; fail
    else
      let i := length (queue_pairs c) in
      modify (fun c => set_pairs c cnt (queue_pairs c ++ [zero_pair]));;
      (if admin then modify (fun c => set_admin c (Some i)) else mret tt);;
      let '(b, r) := bitmap_alloc (qid_bitmap c) in
      modify (fun c => set_qids c b);;
      qid ← orfail r;
      if admin && negb (qid =? 0) then fail
      else
        c ← gets id;
        on_pair i (modify (fun _ => init_pair c qid irq name));;
        p1 ← orfail p1;
        (if admin then modify (fun c => set_regs c (set_asq (regs c) p1)) else mret tt);;
        on_pair i (modify (fun q => set_entry_cnt (map_commands q p1) 128));;
        p2 ← orfail p2;
        on_pair i (modify (fun q => map_entries q p2));;
        p3 ← orfail p3;
        on_pair i (modify (fun q => map_completions q p3));;
        if admin then
          modify (fun c => set_regs c (set_acq (regs c) p3
            (u32 (Z.lor (Z.shiftl (queue_entries c - 1) 16) (queue_entries c - 1)))));;
          mret i
        else
          q ← on_pair i (gets id);
          cid ← on_pair i alloc_cid;
          on_admin (nvme_send_command_and_block futex_wait (create_cq_command q) cid);;
          cid ← on_pair i alloc_cid;
          on_admin (nvme_send_command_and_block futex_wait (create_sq_command q) cid);;
          mret i.

(** [nvme_fetch_controller_id]: the identify command with [cns] 1 into the
    page at [p]. *)
Definition nvme_identify (nsid cns : Z) (p : option Z) : M nvme_controller unit :=
  p ← orfail p;
  cid ← on_admin alloc_cid;
  on_admin (nvme_send_command_and_block futex_wait (MkCommand nvme_op_identify 0 (identify nsid p cns)) cid).

Definition nvme_fetch_controller_id (p : option Z) : M nvme_controller unit := nvme_identify 0 1 p.

(** [mdts] is the controller's limit on transfers, as a power of two of the
    minimal page. *)
Definition namespace_max_prp (cap mdts lba_shift : Z) : Z :=
  let shift := 12 + Z.land (Z.shiftr cap 48) 15 in
  let max_transfer_shift := if mdts =? 0 then 20 else shift + mdts in
  let max_lbas := s32 (Z.shiftl 1 (max_transfer_shift - lba_shift)) in
  Z.quot (s32 (max_lbas * s32 (Z.shiftl 1 lba_shift))) 0x1000.

(** A namespace from what the device reports of it.  The two indices into the
    list of formats are masked differently. *)
Definition make_namespace (cap mdts nsid : Z) (ident : nvme_namespace_id) : cres nvme_namespace :=
  match lbaf_ds ident !! Z.to_nat (Z.land (flbas ident) 15), lbaf_ds ident !! Z.to_nat (Z.land (flbas ident) 31) with
  | Some ds, Some ds' =>
      Ok (MkNs nsid (namespace_max_prp cap mdts ds) (s32 (nsze ident)) (s32 (Z.shiftl 1 ds')) None [])
  | _, _ => Halt
  end.

(** [nvme_fetch_namespaces], for the namespace numbers the device reports;
    [ident] is what it reports of each, and [page] the buffer for it. *)
Fixpoint fetch_namespaces_loop (mdts : Z) (ident : Z -> nvme_namespace_id) (page : Z -> option Z) (nsids : list Z)
    : M nvme_controller unit :=
  match nsids with
  | [] => mret tt
  | nsid :: rest =>
      if nsid =? 0 then fetch_namespaces_loop mdts ident page rest
      else
        nvme_identify nsid 0 (page nsid);;
        c ← gets id;
        match make_namespace (cap (regs c)) mdts nsid (ident nsid) with
        | Ok ns =>
            modify (fun c => set_namespaces c (namespaces c ++ [ns]));;
            fetch_namespaces_loop mdts ident page rest
        | _ => halt
        end
  end.

Definition nvme_fetch_namespaces (mdts : Z) (nsids : list Z) (p : option Z) (ident : Z -> nvme_namespace_id)
    (page : Z -> option Z) : M nvme_controller unit :=
  nvme_identify 0 2 p;;
  fetch_namespaces_loop mdts ident page nsids.

(** The system calls of [nvme_initialise_irq]. *)
Record irq_calls := MkIrqCalls {
  reserve_irq : option Z;
  notify_msi : bool -> Z -> bool;
  cortex_instantiate : bool;
  cortex_anchor : Z -> bool;
}.

Definition nvme_initialise_irq (msix_capable msi_capable : bool) (k : irq_calls) : cres Z :=
  match reserve_irq k with
  | None => Err
  | Some irq =>
      if negb (msix_capable || msi_capable) then Err
      else if negb (notify_msi k msix_capable irq) then Err
      else if negb (cortex_instantiate k) then Err
      else if negb (cortex_anchor k NVME_IRQ_MMIO) then Err
      else if negb (cortex_anchor k NVME_IRQ_CONTROLLER) then Err
      else Ok irq
  end.

(** The part of [nvme] that reads the capabilities and resets the device: a
    device that does not clear its enable bit stops the driver. *)
Definition nvme_reset (cc_after : Z -> Z) : M nvme_controller unit := fun c =>
  let r := regs c in
  let r := if Z.testbit (cc r) 0 then set_cc r (cc_after (Z.clearbit (cc r) 0)) else r in
  let c := MkCtrl r (Z.land (Z.shiftr (vs r) 16) 0xffff, Z.land (Z.shiftr (vs r) 8) 0xff, Z.land (vs r) 0xff)
    (queue_entries c) (s32 (Z.shiftl 1 (12 + Z.land (Z.shiftr (cap r) 52) 15)))
    (s32 (Z.shiftl 1 (12 + Z.land (Z.shiftr (cap r) 48) 15))) (strides c) (qid_bitmap c) (admin_queue c)
    (nvme_queue_pair_cnt c) (queue_pairs c) (namespaces c) in
  if Z.testbit (cc r) 0 then (c, Halt)
  else
    (MkCtrl r (version c) (Z.land (cap r) 0xffff) (page_size_max c) (page_size_min c) (Z.land (Z.shiftr (cap r) 32) 15)
      (MkBitmap (alloc_bytes (NVME_QID_MAX / 8)) NVME_QID_MAX false) (admin_queue c)
      (nvme_queue_pair_cnt c) (queue_pairs c) (namespaces c), Ok tt).

(** Enabling: the loop reads the enable bit it has just written, and looks at
    the device's error bit otherwise. *)
Definition nvme_enable (cc_after : Z -> Z) : M nvme_controller unit := fun c =>
  let r := set_cc (regs c) (cc_after (Z.lor 1 (Z.lor (Z.shiftl 6 16) (Z.shiftl 4 20)))) in
  (set_regs c r,
   if Z.testbit (cc r) 0 then Ok tt else if Z.testbit (csts r) 1 then Err else Halt).

(** What the system calls give a new queue: the interrupt, the three shared
    buffers, and for an I/O queue whether there is room for region lists. *)
Record queue_grant := MkGrant {
  g_irq : irq_calls;
  g_commands : option Z;
  g_entries : option Z;
  g_completions : option Z;
  g_prps : bool;
}.

Definition set_namespace (i : nat) (q : nat) (l : list Z) (c : nvme_controller) : nvme_controller :=
  set_namespaces c (alter (fun ns => MkNs (ns_nsid ns) (max_prp ns) (lba_cnt ns) (lba_size ns) (Some q) l) i (namespaces c)).

Definition lift_ctrl {A} (r : cres A) : M nvme_controller A := fun c => (c, r).

(** The last loop of [nvme]: a queue for every namespace from [i] on. *)
Fixpoint nvme_attach (msix msi : bool) (grant : nat -> queue_grant) (i : nat) (l : list nvme_namespace) : M nvme_controller unit :=
  match l with
  | [] => mret tt
  | ns :: l =>
      irq ← lift_ctrl (nvme_initialise_irq msix msi (g_irq (grant i)));
      q ← nvme_queue_pair_instantiate false irq ("nvme_io" +:+ pretty (N.of_nat i))
            (g_commands (grant i)) (g_entries (grant i)) (g_completions (grant i));
      n ← on_pair q (gets entry_cnt);
      if g_prps (grant i) then
        modify (set_namespace i q (replicate (Z.to_nat (max_prp ns * n)) 0));;
        nvme_attach msix msi grant (S i) l
      else fail
  end.

(** [nvme]: [mapped] tells whether the device's registers and the controller's
    page could be mapped, [cc_after] what the device makes of a write to its
    configuration register. *)
Definition nvme (mapped msix msi : bool) (cc_after : Z -> Z) (admin : queue_grant) (id_page ns_page : option Z)
    (mdts : Z) (nsids : list Z) (ident : Z -> nvme_namespace_id) (page : Z -> option Z) (grant : nat -> queue_grant)
    : M nvme_controller unit :=
  if negb mapped then fail
  else
    irq ← lift_ctrl (nvme_initialise_irq msix msi (g_irq admin));
    nvme_reset cc_after;;
    nvme_queue_pair_instantiate true irq "nvme_admin" (g_commands admin) (g_entries admin) (g_completions admin);;
    nvme_enable cc_after;;
    nvme_fetch_controller_id id_page;;
    nvme_fetch_namespaces mdts nsids ns_page ident page;;
    c ← gets id;
    nvme_attach msix msi grant 0 (namespaces c).

End Setup.

(** ** The block notifications *)

(** [nvme_nread], [nvme_nwrite] and [nvme_nioctl] accept every request that is
    there and transfer nothing. *)
Definition nvme_nread (private : option Z) : cres Z := match private with None => Err | Some _ => Ok 0 end.
Definition nvme_nwrite (private : option Z) : cres Z := match private with None => Err | Some _ => Ok 0 end.
Definition nvme_nioctl (private : option Z) : cres Z := match private with None => Err | Some _ => Ok 0 end.
