(* ===== verification/NvmeOk.v ===== *)
(** * Correctness of the NVMe driver

    The driver, its interrupt handler and a device that shares the rings with
    it, as one system of interleaved steps: no command is lost, none is
    answered twice, and every answer reaches the entry of its command.  The
    device is the one of the NVMe specification: it fetches commands between
    its head and the doorbell, answers fetched commands in any order, and
    raises one interrupt per answer. *)

From S2P Require Import Prelude Aria Nvme.

(** ** Rings *)

Lemma ring_next_mod n i : 0 <= i < n -> ring_next n i = (i + 1) mod n.
Proof.
  intros. unfold ring_next. case_if.
  - replace (i + 1) with n by lia. rewrite Z.mod_same; lia.
  - rewrite Z.mod_small; lia.
Qed.

(** [k] steps from [i] in a ring of [n]. *)
Definition at_ring (n i k : Z) : Z := (i + k) mod n.

Lemma at_ring_range n i k : 0 < n -> 0 <= at_ring n i k < n.
Proof. intros. by apply Z.mod_pos_bound. Qed.

Lemma at_ring_0 n i : 0 <= i < n -> at_ring n i 0 = i.
Proof. intros. unfold at_ring. rewrite Z.add_0_r. by apply Z.mod_small. Qed.

Lemma at_ring_next n i k : 0 < n -> at_ring n (at_ring n i 1) k = at_ring n i (k + 1).
Proof. intros. unfold at_ring. rewrite Zplus_mod_idemp_l. f_equal. lia. Qed.

Lemma at_ring_step n i k : 0 < n -> at_ring n (at_ring n i k) 1 = at_ring n i (k + 1).
Proof. intros. unfold at_ring. rewrite Zplus_mod_idemp_l. f_equal. lia. Qed.

Lemma at_ring_inj n i j k : 0 < n -> 0 <= j < n -> 0 <= k < n -> at_ring n i j = at_ring n i k -> j = k.
Proof.
  intros Hn Hj Hk E. unfold at_ring in E.
  pose proof (Z.div_mod (i + j) n ltac:(lia)) as D1. pose proof (Z.div_mod (i + k) n ltac:(lia)) as D2. rewrite E in D1.
  assert ((i + j) / n = (i + k) / n) by nia. lia.
Qed.

(** [l] lies in the ring [r] of [n] slots, from slot [h] on. *)
Definition in_ring {A B} (f : A -> B) (n : Z) (r : list A) (h : Z) (l : list B) : Prop :=
  forall k x, l !! k = Some x -> exists a, r !! Z.to_nat (at_ring n h (Z.of_nat k)) = Some a /\ f a = x.

Lemma in_ring_push {A B} (f : A -> B) n (r : list A) h (l : list B) a :
  0 < n -> Z.of_nat (length r) = n -> Z.of_nat (length l) < n -> in_ring f n r h l ->
  in_ring f n (<[Z.to_nat (at_ring n h (Z.of_nat (length l))) := a]> r) h (l ++ [f a]).
Proof.
  intros Hn Hr Hl Hin k x Hk. apply lookup_app_Some in Hk as [Hk|(Hk1 & Hk2)].
  - destruct (Hin k x Hk) as (b & Hb & Hx). exists b. apply lookup_lt_Some in Hk. rewrite list_lookup_insert_ne; [done|].
    intros E. assert (Z.of_nat (length l) = Z.of_nat k); [|lia].
    apply (at_ring_inj n h); [lia..|]. pose proof (at_ring_range n h (Z.of_nat (length l)) Hn).
    pose proof (at_ring_range n h (Z.of_nat k) Hn). lia.
  - apply list_lookup_singleton_Some in Hk2 as (Hk & <-). assert (k = length l) as -> by lia.
    exists a. split; [|done]. apply list_lookup_insert_eq. pose proof (at_ring_range n h (Z.of_nat (length l)) Hn). lia.
Qed.

Lemma in_ring_pop {A B} (f : A -> B) n (r : list A) h x (l : list B) :
  0 < n -> 0 <= h < n -> in_ring f n r h (x :: l) ->
  (exists a, r !! Z.to_nat h = Some a /\ f a = x) /\ in_ring f n r (at_ring n h 1) l.
Proof.
  intros Hn Hh Hin. split.
  - destruct (Hin 0%nat x eq_refl) as (a & Ha & Hx). rewrite at_ring_0 in Ha by done. eauto.
  - intros k y Hk. rewrite at_ring_next by done. destruct (Hin (S k) y Hk) as (a & Ha & Hy). exists a.
    split; [|done]. rewrite <- Ha. do 3 f_equal. lia.
Qed.

(** ** The system *)

Record nvme_sys := MkSys {
  qp : nvme_queue_pair;
  (** The device: where it reads commands, the commands it works on, where it
      writes answers; and the interrupts it raised that are not handled. *)
  dev_head : Z;
  dev_work : list Z;
  dev_tail : Z;
  dev_irqs : nat;
  (** The status the device gave to the command last sent with each
      identifier. *)
  answers : gmap Z Z;
}.

Section System.
Context {AB : AriaBase} {AM : AriaBitmap}.

(** The number of commands sent and not yet handed back to the driver. *)
Definition ring_len (s : nvme_sys) : Z := (submission_doorbell (qp s) - dev_head s) mod entry_cnt (qp s).
Definition outstanding (s : nvme_sys) : Z := ring_len s + Z.of_nat (length (dev_work s)) + Z.of_nat (dev_irqs s).

(** What the device and the interrupt handler do. *)
Inductive env_step : nvme_sys -> nvme_sys -> Prop :=
(** The device fetches a command. *)
| st_fetch s cmd :
    dev_head s <> submission_doorbell (qp s) ->
    submission_queue (qp s) !! Z.to_nat (dev_head s) = Some cmd ->
    env_step s (MkSys (qp s) (at_ring (entry_cnt (qp s)) (dev_head s) 1) (dev_work s ++ [cmd_cid cmd])
      (dev_tail s) (dev_irqs s) (answers s))
(** The device answers one of those it works on. *)
| st_post s l1 cid l2 status :
    dev_work s = l1 ++ cid :: l2 ->
    env_step s (MkSys (set_cq (qp s) (<[Z.to_nat (dev_tail s) := MkCompletion cid status]> (completion_queue (qp s)))
        (cq_head (qp s)) (completion_doorbell (qp s)))
      (dev_head s) (l1 ++ l2) (at_ring (entry_cnt (qp s)) (dev_tail s) 1) (S (dev_irqs s)) (<[cid := status]> (answers s)))
(** The interrupt handler runs. *)
| st_irq s q n :
    dev_irqs s = S n -> nvme_irq_complete true (qp s) = (q, Ok tt) ->
    env_step s (MkSys q (dev_head s) (dev_work s) (dev_tail s) n (answers s)).

Inductive nvme_step : nvme_sys -> nvme_sys -> Prop :=
| st_env s s' : env_step s s' -> nvme_step s s'
(** The driver sends a command. *)
| st_send s cmd cid b q1 q2 :
    alloc_cid (qp s) = (q1, Ok cid) -> nvme_send_command cmd cid b q1 = (q2, Ok tt) ->
    nvme_step s (MkSys q2 (dev_head s) (dev_work s) (dev_tail s) (dev_irqs s) (delete cid (answers s)))
(** The driver takes the response of a command. *)
| st_finish s cid e q r :
    queue_entry (qp s) !! Z.to_nat cid = Some e -> 0 <= cid -> bit_used (cid_bitmap (qp s)) cid -> qe_response e = true ->
    nvme_finish cid (qp s) = (q, r) ->
    nvme_step s (MkSys q (dev_head s) (dev_work s) (dev_tail s) (dev_irqs s) (answers s)).

(** The states reached while the ring never gets full: the driver, which does
    not test for this, sends only with fewer than [entry_cnt - 1] commands
    outstanding.  There are as many identifiers as slots, so that its callers
    have to see to it; [full_ring_looks_empty] below is what happens
    otherwise. *)
Definition room_to_send (s s' : nvme_sys) : Prop :=
  sq_tail (qp s') <> sq_tail (qp s) -> outstanding s + 1 < entry_cnt (qp s).

Inductive nvme_reach (s0 : nvme_sys) : nvme_sys -> Prop :=
| nvme_here : nvme_reach s0 s0
| nvme_more s s' : nvme_reach s0 s -> nvme_step s s' -> room_to_send s s' -> nvme_reach s0 s'.

(** The invariant: [ring] are the commands sent and not fetched, [posted] the
    answers not handled. *)
Definition waiting_cids (s : nvme_sys) (ring : list Z) (posted : list nvme_completion) : list Z :=
  ring ++ dev_work s ++ (cq_cid <$> posted).

Record nvme_inv (s : nvme_sys) (ring : list Z) (posted : list nvme_completion) : Prop := {
  ni_cnt : 1 < entry_cnt (qp s) < 2 ^ 16;
  ni_size : Z.of_nat (length (queue_entry (qp s))) <= 2 ^ 16;
  ni_sq : Z.of_nat (length (submission_queue (qp s))) = entry_cnt (qp s);
  ni_cq : Z.of_nat (length (completion_queue (qp s))) = entry_cnt (qp s);
  ni_head : 0 <= dev_head s < entry_cnt (qp s);
  ni_cqhead : 0 <= cq_head (qp s) < entry_cnt (qp s);
  ni_tail : sq_tail (qp s) = at_ring (entry_cnt (qp s)) (dev_head s) (Z.of_nat (length ring));
  ni_doorbell : submission_doorbell (qp s) = sq_tail (qp s);
  ni_devtail : dev_tail s = at_ring (entry_cnt (qp s)) (cq_head (qp s)) (Z.of_nat (length posted));
  ni_few : Z.of_nat (length (waiting_cids s ring posted)) < entry_cnt (qp s);
  ni_ring : in_ring cmd_cid (entry_cnt (qp s)) (submission_queue (qp s)) (dev_head s) ring;
  ni_posted : in_ring id (entry_cnt (qp s)) (completion_queue (qp s)) (cq_head (qp s)) posted;
  ni_irqs : dev_irqs s = length posted;
  ni_nodup : NoDup (waiting_cids s ring posted);
  ni_waiting : forall x, x ∈ waiting_cids s ring posted -> 0 <= x /\ bit_used (cid_bitmap (qp s)) x /\
    exists e, queue_entry (qp s) !! Z.to_nat x = Some e /\ qe_response e = false;
  ni_answers : forall c, c ∈ posted -> answers s !! cq_cid c = Some (cq_status c);
  ni_done : forall x, 0 <= x -> bit_used (cid_bitmap (qp s)) x -> x ∉ waiting_cids s ring posted ->
    exists e, queue_entry (qp s) !! Z.to_nat x = Some e /\ qe_response e = true /\ qe_cid e = x /\
      answers s !! x = Some (cq_status (qe_completion e));
}.

Context {AO : AriaBitmapOk AB AM}.

Lemma outstanding_waiting s ring posted :
  nvme_inv s ring posted -> outstanding s = Z.of_nat (length (waiting_cids s ring posted)).
Proof.
  intros [Hc Hs Hsq Hcq Hh Hch Ht Hd Hdt Hf Hr Hp Hi Hn Hw Ha Hdn]. unfold outstanding, waiting_cids in *.
  rewrite !length_app, length_fmap in *. rewrite Hi. enough (ring_len s = Z.of_nat (length ring)) by lia.
  unfold ring_len. rewrite Hd, Ht. unfold at_ring. rewrite Zminus_mod_idemp_l.
  replace (_ + _ - _) with (Z.of_nat (length ring)) by lia. apply Z.mod_small. lia.
Qed.

Lemma to_nat_ne x y : 0 <= x -> 0 <= y -> x <> y -> Z.to_nat x <> Z.to_nat y.
Proof. lia. Qed.

Lemma send_inv s ring posted cmd cid b q1 q2 :
  nvme_inv s ring posted -> outstanding s + 1 < entry_cnt (qp s) ->
  alloc_cid (qp s) = (q1, Ok cid) -> nvme_send_command cmd cid b q1 = (q2, Ok tt) ->
  nvme_inv (MkSys q2 (dev_head s) (dev_work s) (dev_tail s) (dev_irqs s) (delete cid (answers s))) (ring ++ [cid]) posted.
Proof.
  intros Hinv Hout Ea Es. rewrite (outstanding_waiting s ring posted Hinv) in Hout.
  destruct Hinv as [Hc Hs Hsq Hcq Hh Hch Ht Hd Hdt Hf Hr Hp Hi Hn Hw Ha Hdn].
  unfold alloc_cid in Ea. destruct (bitmap_alloc (cid_bitmap (qp s))) as [bm [i|]] eqn:Eb; [|done]. injection Ea as <- ->.
  destruct (bitmap_alloc_ok _ _ _ Eb) as (Hi0 & _ & _ & Hfresh & Hused).
  unfold nvme_send_command in Es. cbn [queue_entry set_cids queue_entry_cnt submission_queue set_entries sq_tail entry_cnt] in Es.
  destruct (queue_entry (qp s) !! Z.to_nat cid) as [e0|] eqn:Ee; [|done].
  destruct (queue_entry_cnt (qp s) <? cid); [done|].
  destruct (submission_queue (qp s) !! Z.to_nat (sq_tail (qp s))) as [c0|] eqn:Eq; [|done]. injection Es as <-.
  pose proof (lookup_lt_Some _ _ _ Ee) as Hlt.
  assert (Hcid : u16 cid = cid) by (apply Z.mod_small; lia).
  assert (Hnw : cid ∉ waiting_cids s ring posted) by (intros Hx; destruct (Hw _ Hx) as (_ & ? & _); done).
  assert (Hperm : waiting_cids (MkSys (qp s) (dev_head s) (dev_work s) (dev_tail s) (dev_irqs s) (delete cid (answers s))) (ring ++ [cid]) posted
     ≡ₚ cid :: waiting_cids s ring posted) by (unfold waiting_cids; cbn [dev_work]; solve_Permutation).
  assert (Hne : forall x, x ∈ waiting_cids s ring posted -> x <> cid) by (intros x Hx ->; done).
  split; cbn [qp dev_head dev_work dev_tail dev_irqs answers entry_cnt set_sq set_entries set_cids queue_entry submission_queue
    completion_queue sq_tail cq_head submission_doorbell cid_bitmap]; try done.
  - rewrite length_insert. done.
  - rewrite length_insert. done.
  - rewrite Ht, ring_next_mod by (apply at_ring_range; lia). fold (at_ring (entry_cnt (qp s)) (at_ring (entry_cnt (qp s)) (dev_head s) (Z.of_nat (length ring))) 1).
    rewrite at_ring_step by lia. rewrite length_app. cbn. f_equal. lia.
  - apply Z.mod_small. unfold ring_next. rewrite Ht. pose proof (at_ring_range (entry_cnt (qp s)) (dev_head s) (Z.of_nat (length ring)) ltac:(lia)). case_if; lia.
  - unfold waiting_cids in *. cbn [dev_work]. rewrite !length_app in *. cbn. lia.
  - rewrite Ht. apply (in_ring_push cmd_cid _ _ _ _ (MkCommand (opcode cmd) (u16 cid) (private cmd))) in Hr; [|lia|done|].
    + cbn [cmd_cid] in Hr. rewrite Hcid in *. done.
    + unfold waiting_cids in Hf. rewrite !length_app in Hf. lia.
  - unfold waiting_cids in *. cbn [dev_work] in *. rewrite Hperm. by apply NoDup_cons.
  - intros x Hx. unfold waiting_cids in Hx, Hperm. cbn [dev_work] in Hx, Hperm. rewrite Hperm in Hx. apply elem_of_cons in Hx as [->|Hx].
    + split_and!; [lia|apply Hused; by left|]. eexists. split; [by apply list_lookup_insert_eq|done].
    + destruct (Hw x Hx) as (H0 & Hu & e & He & Hre). split_and!; [done|apply Hused; by right|]. exists e. split; [|done].
      rewrite list_lookup_insert_ne; [done|]. apply to_nat_ne; [lia|lia|]. intros ->. by apply (Hne x).
  - intros c Hcp. assert (Hx : cq_cid c ∈ waiting_cids s ring posted).
    { unfold waiting_cids. rewrite !elem_of_app. right. right. apply list_elem_of_fmap. eauto. }
    rewrite lookup_delete_ne; [by apply Ha|]. intros E. apply (Hne _ Hx). done.
  - intros x H0 Hu Hx. unfold waiting_cids in Hx, Hperm. cbn [dev_work] in Hx, Hperm. rewrite Hperm in Hx.
    apply not_elem_of_cons in Hx as (Hxc & Hx). apply Hused in Hu as [->|Hu]; [done|].
    destruct (Hdn x H0 Hu Hx) as (e & He & Hrest). exists e. rewrite lookup_delete_ne by done. split; [|done].
    rewrite list_lookup_insert_ne; [done|]. apply to_nat_ne; [lia|lia|done].
Qed.

(** Commands move between the parts of the system and stay the same set. *)
Lemma moved_inv s s' ring ring' posted posted' :
  nvme_inv s ring posted -> waiting_cids s' ring' posted' ≡ₚ waiting_cids s ring posted ->
  entry_cnt (qp s') = entry_cnt (qp s) -> queue_entry (qp s') = queue_entry (qp s) -> cid_bitmap (qp s') = cid_bitmap (qp s) ->
  Z.of_nat (length (submission_queue (qp s'))) = entry_cnt (qp s) ->
  Z.of_nat (length (completion_queue (qp s'))) = entry_cnt (qp s) ->
  0 <= dev_head s' < entry_cnt (qp s) -> 0 <= cq_head (qp s') < entry_cnt (qp s) ->
  sq_tail (qp s') = at_ring (entry_cnt (qp s)) (dev_head s') (Z.of_nat (length ring')) ->
  submission_doorbell (qp s') = sq_tail (qp s') ->
  dev_tail s' = at_ring (entry_cnt (qp s)) (cq_head (qp s')) (Z.of_nat (length posted')) ->
  in_ring cmd_cid (entry_cnt (qp s)) (submission_queue (qp s')) (dev_head s') ring' ->
  in_ring id (entry_cnt (qp s)) (completion_queue (qp s')) (cq_head (qp s')) posted' ->
  dev_irqs s' = length posted' ->
  (forall c, c ∈ posted' -> answers s' !! cq_cid c = Some (cq_status c)) ->
  (forall x, x ∉ waiting_cids s ring posted -> answers s' !! x = answers s !! x) ->
  nvme_inv s' ring' posted'.
Proof.
  intros [Hc Hs Hsq Hcq Hh Hch Ht Hd Hdt Hf Hr Hp Hi Hn Hw Ha Hdn] HP En Ee Eb G1 G2 G3 G4 G5 G6 G7 G8 G9 G10 G11 Han.
  split; rewrite ?En, ?Ee, ?Eb; try done.
  - rewrite HP. done.
  - rewrite HP. done.
  - intros x Hx. rewrite HP in Hx. by apply Hw.
  - intros x H0 Hu Hx. rewrite HP in Hx. destruct (Hdn x H0 Hu Hx) as (e & ? & ? & ? & ?). exists e.
    split_and!; try done. rewrite Han; done.
Qed.

Lemma fetch_inv s ring posted cmd :
  nvme_inv s ring posted -> dev_head s <> submission_doorbell (qp s) ->
  submission_queue (qp s) !! Z.to_nat (dev_head s) = Some cmd ->
  exists ring', ring = cmd_cid cmd :: ring' /\
    nvme_inv (MkSys (qp s) (at_ring (entry_cnt (qp s)) (dev_head s) 1) (dev_work s ++ [cmd_cid cmd])
      (dev_tail s) (dev_irqs s) (answers s)) ring' posted.
Proof.
  intros Hinv Hne Hcmd. pose proof Hinv as [Hc Hs Hsq Hcq Hh Hch Ht Hd Hdt Hf Hr Hp Hi Hn Hw Ha Hdn].
  destruct ring as [|x ring]; [exfalso; apply Hne; rewrite Hd, Ht; symmetry; by apply at_ring_0|].
  destruct (in_ring_pop cmd_cid (entry_cnt (qp s)) _ _ _ _ ltac:(lia) Hh Hr) as ((a & Ea & <-) & Hr'). assert (a = cmd) as -> by congruence.
  exists ring. split; [done|].
  eapply (moved_inv s _ (cmd_cid cmd :: ring) ring posted posted Hinv); cbn [qp dev_head dev_work dev_tail dev_irqs answers]; try done.
  - unfold waiting_cids. cbn [dev_work]. solve_Permutation.
  - apply at_ring_range. lia.
  - rewrite Ht, at_ring_next by lia. f_equal. cbn. lia.
Qed.

Lemma post_inv s ring posted l1 cid l2 status :
  nvme_inv s ring posted -> dev_work s = l1 ++ cid :: l2 ->
  nvme_inv (MkSys (set_cq (qp s) (<[Z.to_nat (dev_tail s) := MkCompletion cid status]> (completion_queue (qp s)))
        (cq_head (qp s)) (completion_doorbell (qp s)))
      (dev_head s) (l1 ++ l2) (at_ring (entry_cnt (qp s)) (dev_tail s) 1) (S (dev_irqs s)) (<[cid := status]> (answers s)))
    ring (posted ++ [MkCompletion cid status]).
Proof.
  intros Hinv Hwk. pose proof Hinv as [Hc Hs Hsq Hcq Hh Hch Ht Hd Hdt Hf Hr Hp Hi Hn Hw Ha Hdn].
  assert (Hcw : cid ∈ waiting_cids s ring posted) by (unfold waiting_cids; rewrite Hwk; set_solver).
  assert (Hlp : Z.of_nat (length posted) < entry_cnt (qp s)) by (unfold waiting_cids in Hf; rewrite !length_app, length_fmap in Hf; lia).
  eapply (moved_inv s _ ring ring posted _ Hinv); cbn [qp dev_head dev_work dev_tail dev_irqs answers set_cq entry_cnt queue_entry cid_bitmap
    submission_queue completion_queue cq_head sq_tail submission_doorbell]; try done.
  - unfold waiting_cids. cbn [dev_work]. rewrite Hwk, fmap_app. cbn. solve_Permutation.
  - rewrite length_insert. done.
  - rewrite Hdt, at_ring_step by lia. rewrite length_app. cbn. f_equal. lia.
  - rewrite Hdt. by apply (in_ring_push id); [lia|..].
  - rewrite length_app. cbn. lia.
  - intros c Hcp. apply elem_of_app in Hcp as [Hcp|Hcp].
    + rewrite lookup_insert_ne; [by apply Ha|]. intros ->. unfold waiting_cids in Hn. rewrite Hwk in Hn.
      apply NoDup_app in Hn as (_ & _ & Hn). apply NoDup_app in Hn as (_ & Hd' & _).
      apply (Hd' (cq_cid c)); [set_solver|]. apply list_elem_of_fmap. eauto.
    + apply list_elem_of_singleton in Hcp as ->. apply lookup_insert_eq.
  - intros x Hx. apply lookup_insert_ne. intros ->. done.
Qed.

Lemma irq_inv s ring posted n :
  nvme_inv s ring posted -> dev_irqs s = S n ->
  exists q c posted', nvme_irq_complete true (qp s) = (q, Ok tt) /\ posted = c :: posted' /\
    nvme_inv (MkSys q (dev_head s) (dev_work s) (dev_tail s) n (answers s)) ring posted' /\
    exists e, queue_entry q !! Z.to_nat (cq_cid c) = Some e /\ qe_response e = true /\ qe_completion e = c.
Proof.
  intros Hinv Hirq. pose proof Hinv as [Hc Hs Hsq Hcq Hh Hch Ht Hd Hdt Hf Hr Hp Hi Hn Hw Ha Hdn].
  destruct posted as [|c posted]; [cbn in Hi; lia|].
  destruct (in_ring_pop id (entry_cnt (qp s)) _ _ _ _ ltac:(lia) Hch Hp) as ((a & Ea & Eac) & Hp'). cbn in Eac. subst a.
  assert (Hcw : cq_cid c ∈ waiting_cids s ring (c :: posted)) by (unfold waiting_cids; set_solver).
  destruct (Hw _ Hcw) as (H0 & Hu & e & He & Hre). pose proof (lookup_lt_Some _ _ _ He) as Hlt.
  assert (HP : waiting_cids s ring (c :: posted) ≡ₚ cq_cid c :: waiting_cids s ring posted) by (unfold waiting_cids; cbn; solve_Permutation).
  pose proof Hn as Hn'. rewrite HP in Hn'. apply NoDup_cons in Hn' as (Hnc & Hn').
  assert (Hx : forall x, 0 <= x -> x <> cq_cid c -> Z.to_nat (cq_cid c) <> Z.to_nat x) by lia.
  assert (Hhead : (if cq_head (qp s) + 1 =? entry_cnt (qp s) then 0 else cq_head (qp s) + 1) = at_ring (entry_cnt (qp s)) (cq_head (qp s)) 1).
  { fold (at_ring (entry_cnt (qp s)) (cq_head (qp s)) 1). unfold at_ring. rewrite <- ring_next_mod by done. unfold ring_next. repeat case_if; lia. }
  unfold nvme_irq_complete. rewrite Ea, He, andb_false_r. eexists _, c, posted. split_and!; [done|done| |].
  2: { eexists. split; [by apply list_lookup_insert_eq|done]. }
  rewrite Hhead. change (waiting_cids s) with (waiting_cids (MkSys (qp s) (dev_head s) (dev_work s) (dev_tail s) n (answers s))) in Hn', Hnc, HP.
  split; cbn [qp dev_head dev_work dev_tail dev_irqs answers set_cq set_entries entry_cnt queue_entry cid_bitmap
    submission_queue completion_queue cq_head sq_tail submission_doorbell]; try done.
  - rewrite length_insert. done.
  - apply at_ring_range. lia.
  - rewrite Hdt, at_ring_next by lia. f_equal. cbn. lia.
  - rewrite HP in Hf. cbn in Hf. unfold waiting_cids in *. cbn [dev_work] in *. lia.
  - cbn in Hi. lia.
  - intros x Hxw. destruct (Hw x) as (? & ? & e' & ? & ?); [rewrite HP; by right|]. split_and!; [done..|]. exists e'. split; [|done].
    rewrite list_lookup_insert_ne; [done|]. apply Hx; [done|]. intros ->. by apply Hnc.
  - intros c' Hc'. apply Ha. by right.
  - intros x Hx0 Hxu Hxw. destruct (decide (x = cq_cid c)) as [->|Hxc].
    + eexists. split; [by apply list_lookup_insert_eq|]. split_and!; try done. apply Ha. left.
    + destruct (Hdn x Hx0 Hxu) as (e' & ? & ?); [rewrite HP; by apply not_elem_of_cons|]. exists e'. split; [|done].
      rewrite list_lookup_insert_ne; [done|]. by apply Hx.
Qed.

Lemma finish_inv s ring posted cid e q r :
  nvme_inv s ring posted -> queue_entry (qp s) !! Z.to_nat cid = Some e -> 0 <= cid ->
  bit_used (cid_bitmap (qp s)) cid -> qe_response e = true -> nvme_finish cid (qp s) = (q, r) ->
  nvme_inv (MkSys q (dev_head s) (dev_work s) (dev_tail s) (dev_irqs s) (answers s)) ring posted.
Proof.
  intros Hinv He H0 Hu Hre Hfin. pose proof Hinv as [Hc Hs Hsq Hcq Hh Hch Ht Hd Hdt Hf Hr Hp Hi Hn Hw Ha Hdn].
  assert (Hnw : cid ∉ waiting_cids s ring posted) by (intros Hx; destruct (Hw _ Hx) as (_ & _ & e' & ? & ?); congruence).
  destruct (Hdn cid H0 Hu Hnw) as (e' & He' & _ & Hcid & _). assert (e' = e) as -> by congruence.
  unfold nvme_finish in Hfin. rewrite He in Hfin. destruct (negb _); injection Hfin as <- <-; [by destruct s|].
  rewrite Hcid. destruct (bitmap_free_ok _ _ Hu) as (_ & Hfree).
  split; cbn [qp dev_head dev_work dev_tail dev_irqs answers set_cids entry_cnt queue_entry cid_bitmap
    submission_queue completion_queue cq_head sq_tail submission_doorbell]; try done.
  - intros x Hx. destruct (Hw x Hx) as (? & ? & ?). split_and!; try done. apply Hfree. split; [done|]. intros ->. done.
  - intros x Hx0 Hxu Hxw. apply Hfree in Hxu as (Hxu & _). by apply Hdn.
Qed.

(** A new queue pair: empty rings, no identifier in use. *)
Record nvme_fresh (q : nvme_queue_pair) : Prop := {
  nf_cnt : 1 < entry_cnt q < 2 ^ 16;
  nf_entries : Z.of_nat (length (queue_entry q)) <= 2 ^ 16;
  nf_sq : Z.of_nat (length (submission_queue q)) = entry_cnt q;
  nf_cq : Z.of_nat (length (completion_queue q)) = entry_cnt q;
  nf_zero : sq_tail q = 0 /\ cq_head q = 0 /\ submission_doorbell q = 0;
  nf_cids : forall x, ~ bit_used (cid_bitmap q) x;
}.

Definition sys0 (q : nvme_queue_pair) : nvme_sys := MkSys q 0 [] 0 0 ∅.

Lemma fresh_inv q : nvme_fresh q -> nvme_inv (sys0 q) [] [].
Proof.
  intros [H1 H2 H3 H4 (H5 & H6 & H7) H8].
  split; cbn [sys0 qp dev_head dev_work dev_tail dev_irqs answers]; rewrite ?H5, ?H6, ?H7; try done; try lia.
  - cbn. lia.
  - constructor.
  - intros x Hx. by apply not_elem_of_nil in Hx.
  - intros c Hc. by apply not_elem_of_nil in Hc.
  - intros x _ Hu. by destruct (H8 x).
Qed.

Lemma env_inv s s' ring posted :
  nvme_inv s ring posted -> env_step s s' -> exists ring' posted', nvme_inv s' ring' posted'.
Proof.
  intros Hinv Hst. destruct Hst as [s cmd Hne Hcmd|s l1 cid l2 status Hw|s q n Hi E].
  - destruct (fetch_inv _ _ _ _ Hinv Hne Hcmd) as (r & _ & H). eauto.
  - eexists _, _. by eapply post_inv.
  - destruct (irq_inv _ _ _ _ Hinv Hi) as (q' & c & p & E' & _ & H & _). assert (q' = q) as -> by congruence. eauto.
Qed.

(** Sending moves the tail. *)
Lemma send_moves s ring posted cmd cid b q1 q2 :
  nvme_inv s ring posted -> alloc_cid (qp s) = (q1, Ok cid) -> nvme_send_command cmd cid b q1 = (q2, Ok tt) ->
  sq_tail q2 <> sq_tail (qp s).
Proof.
  intros Hinv Ea Es. pose proof (ni_cnt _ _ _ Hinv). unfold alloc_cid in Ea.
  destruct (bitmap_alloc (cid_bitmap (qp s))) as [bm [i|]]; [|done]. injection Ea as <- _.
  unfold nvme_send_command in Es. cbn [queue_entry set_cids] in Es. repeat case_match; try done. injection Es as <-.
  pose proof (at_ring_range (entry_cnt (qp s)) (dev_head s) (Z.of_nat (length ring)) ltac:(lia)) as Hr.
  rewrite <- (ni_tail _ _ _ Hinv) in Hr. cbn. unfold ring_next. case_if; lia.
Qed.

Lemma reach_inv q s : nvme_fresh q -> nvme_reach (sys0 q) s -> exists ring posted, nvme_inv s ring posted.
Proof.
  intros Hq Hr. induction Hr as [|s s' Hr (ring & posted & IH) Hst Hroom]; [eexists _, _; by apply fresh_inv|].
  destruct Hst as [s s' He|s cmd cid b q1 q2 Ea Es|s cid e q1 r He H0 Hu Hre Hf].
  - by eapply env_inv.
  - eexists _, _. eapply send_inv; try done. apply Hroom. cbn [qp]. by eapply send_moves.
  - eexists _, _. by eapply finish_inv.
Qed.

(** How much is left to do before every command has its response. *)
Definition effort (s : nvme_sys) : Z :=
  3 * ring_len s + 2 * Z.of_nat (length (dev_work s)) + Z.of_nat (dev_irqs s).

Lemma ring_len_eq s ring posted : nvme_inv s ring posted -> ring_len s = Z.of_nat (length ring).
Proof.
  intros Hinv. pose proof (outstanding_waiting s ring posted Hinv) as H. unfold outstanding, waiting_cids in H.
  rewrite !length_app, length_fmap, <- (ni_irqs _ _ _ Hinv) in H. lia.
Qed.

Lemma env_effort s s' ring posted : nvme_inv s ring posted -> env_step s s' -> 0 <= effort s' < effort s.
Proof.
  intros Hinv Hst. pose proof (ring_len_eq _ _ _ Hinv) as Hl. destruct Hst as [s cmd Hne Hcmd|s l1 cid l2 status Hw|s q n Hi E].
  - destruct (fetch_inv _ _ _ _ Hinv Hne Hcmd) as (r & -> & H). pose proof (ring_len_eq _ _ _ H) as Hl'.
    unfold effort. rewrite Hl, Hl'. cbn [dev_work dev_irqs]. rewrite length_app. cbn. lia.
  - pose proof (ring_len_eq _ _ _ (post_inv _ _ _ _ _ _ status Hinv Hw)) as Hl'. unfold effort. rewrite Hl, Hl'.
    cbn [dev_work dev_irqs]. rewrite Hw, !length_app. cbn. lia.
  - destruct (irq_inv _ _ _ _ Hinv Hi) as (q' & c & p & E' & _ & H & _). assert (q' = q) as -> by congruence.
    pose proof (ring_len_eq _ _ _ H) as Hl'. unfold effort. rewrite Hl, Hl', Hi. cbn [dev_work dev_irqs]. lia.
Qed.

Lemma env_progress s ring posted : nvme_inv s ring posted -> outstanding s <> 0 -> exists s', env_step s s'.
Proof.
  intros Hinv Ho. rewrite (outstanding_waiting _ _ _ Hinv) in Ho. pose proof (ring_len_eq _ _ _ Hinv) as Hl.
  destruct ring as [|x ring].
  - destruct (dev_work s) as [|cid l] eqn:Ew; [|eexists; by apply (st_post s [] cid l 0)].
    destruct (dev_irqs s) as [|n] eqn:Ei.
    + exfalso. pose proof (ni_irqs _ _ _ Hinv) as Hp. destruct posted; [|cbn in Hp; congruence]. unfold waiting_cids in Ho. rewrite Ew in Ho. done.
    + destruct (irq_inv _ _ _ _ Hinv Ei) as (q & c & p & E & _). eexists. by eapply st_irq.
  - pose proof Hinv as [Hc Hs Hsq Hcq Hh Hch Ht Hd Hdt Hf Hr Hp Hi Hn Hw Ha Hdn].
    destruct (Hr 0%nat x eq_refl) as (cmd & Hcmd & _). rewrite at_ring_0 in Hcmd by done.
    eexists. apply (st_fetch s cmd); [|done]. intros E. unfold ring_len in Hl. rewrite <- E, Z.sub_diag, Z.mod_0_l in Hl by lia.
    cbn in Hl. lia.
Qed.

(** C21: the NVMe driver and any device that answers fetched commands, in
    whatever order and with whatever status, as long as the driver never has
    as many commands outstanding as the ring has slots less one when it sends
    another (the driver does not test this, see [full_ring_looks_empty]).  In
    every state reached so, a response the driver sees is the one the device
    gave to that command; while a command is unanswered the device or the interrupt handler can
    move, each such move brings the end nearer, and when none is left every
    command in use has its response: no command is lost. *)
Theorem nvme_commands_answered (q : nvme_queue_pair) (s : nvme_sys) :
  nvme_fresh q -> nvme_reach (sys0 q) s ->
  (forall x e, 0 <= x -> bit_used (cid_bitmap (qp s)) x -> queue_entry (qp s) !! Z.to_nat x = Some e -> qe_response e = true ->
     qe_cid e = x /\ answers s !! x = Some (cq_status (qe_completion e))) /\
  (outstanding s <> 0 -> exists s', env_step s s') /\
  (forall s', env_step s s' -> 0 <= effort s' < effort s) /\
  (outstanding s = 0 -> forall x, 0 <= x -> bit_used (cid_bitmap (qp s)) x ->
     exists e, queue_entry (qp s) !! Z.to_nat x = Some e /\ qe_response e = true).
Proof.
  intros Hq Hr. destruct (reach_inv q s Hq Hr) as (ring & posted & Hinv). split_and!.
  - intros x e H0 Hu He Hre. destruct (ni_done _ _ _ Hinv x H0 Hu) as (e' & He' & _ & ? & ?).
    + intros Hx. destruct (ni_waiting _ _ _ Hinv x Hx) as (_ & _ & e' & ? & ?). congruence.
    + assert (e' = e) as -> by congruence. done.
  - by eapply env_progress.
  - intros s'. by eapply env_effort.
  - intros Ho x H0 Hu. rewrite (outstanding_waiting _ _ _ Hinv) in Ho.
    destruct (ni_done _ _ _ Hinv x H0 Hu) as (e & ? & ? & _); [|eauto].
    destruct (waiting_cids s ring posted); [apply not_elem_of_nil|cbn in Ho; lia].
Qed.

End System.

(** ** Transfers *)

Section Transfers.
Context {AB : AriaBase} {AM : AriaBitmap} {AO : AriaBitmapOk AB AM}.
Context (futex_wait : Z -> M nvme_queue_pair unit).











End Transfers.

(** ** Concrete runs *)

(** A pair of [n] slots with [m] entries, on the reference bitmap. *)
Definition demo_pair (n m : nat) : nvme_queue_pair :=
  MkQp 0 (Z.of_nat n) 0 0 32 0 (replicate n zero_command) 0 (replicate n zero_completion) 0 0 0 0 EmptyString 0
    (replicate m (MkEntry zero_completion 0 false false)) (Z.of_nat m) (MkBitmap (Some (replicate 1 0)) (Z.of_nat n) false).

Definition demo_read : nvme_command := MkCommand 2 0 (rw 1 0x8000 0 0 0).

Lemma demo_fresh n m : (1 < n < 100)%nat -> (m <= 1000)%nat -> nvme_fresh (demo_pair n m).
Proof.
  intros. split; cbn [demo_pair entry_cnt queue_entry submission_queue completion_queue sq_tail cq_head submission_doorbell cid_bitmap];
    rewrite ?length_replicate; try lia; try done.
  intros x (d & [= <-] & Hin & Ht). pose proof (bit_test_zero 1 x Hin) as E. cbn in E, Ht. congruence.
Qed.



(** One command sent, fetched, answered with status 4 and delivered. *)
Lemma nvme_commands_answered_witness :
  exists s, nvme_reach (sys0 (demo_pair 4 4)) s /\ outstanding s = 0 /\ bit_used (cid_bitmap (qp s)) 0 /\
    exists e, queue_entry (qp s) !! 0%nat = Some e /\ qe_response e = true.
Proof.
  set (s0 := sys0 (demo_pair 4 4)).
  set (s1 := MkSys (nvme_send_command demo_read 0 false (alloc_cid (demo_pair 4 4)).1).1 0 [] 0 0 (delete 0 ∅)).
  set (s2 := MkSys (qp s1) 1 [0] 0 0 (answers s1)).
  set (s3 := MkSys (set_cq (qp s2) (<[0%nat := MkCompletion 0 4]> (completion_queue (qp s2))) 0 0) 1 [] 1 1 (<[0 := 4]> (answers s2))).
  set (s4 := MkSys (nvme_irq_complete true (qp s3)).1 1 [] 1 0 (answers s3)).
  assert (Hr : nvme_reach s0 s4).
  { apply (nvme_more _ s3); [apply (nvme_more _ s2); [apply (nvme_more _ s1); [apply (nvme_more _ s0); [constructor| |]| |]| |]| |].
    all: try (intros _; vm_compute; reflexivity).
    - apply (st_send s0 demo_read 0 false (alloc_cid (demo_pair 4 4)).1); reflexivity.
    - apply st_env, (st_fetch s1 demo_read); [vm_compute; discriminate|reflexivity].
    - apply st_env, (st_post s2 [] 0 [] 4). reflexivity.
    - apply st_env, (st_irq s3 (nvme_irq_complete true (qp s3)).1 0); by vm_compute. }
  assert (Hu : bit_used (cid_bitmap (qp s4)) 0) by (eexists; split_and!; [reflexivity|split; vm_compute; congruence|reflexivity]).
  exists s4. split_and!; [done|reflexivity|done|].
  destruct (nvme_commands_answered (demo_pair 4 4) s4 (demo_fresh 4 4 ltac:(lia) ltac:(lia)) Hr) as (_ & _ & _ & H).
  apply (H eq_refl 0 ltac:(lia) Hu).
Defined.

Definition demo_ns : nvme_namespace := MkNs 1 256 1000 512 None (replicate 600 0).


(** ** What goes wrong *)

(** The bound on identifiers is tested after the entry is written: the
    identifier just past the end is a wild access. *)
Lemma entry_past_end : (nvme_send_command demo_read 4 false (demo_pair 8 4)).2 = Halt.
Proof. reflexivity. Qed.

(** As many commands as slots: the doorbell is where the device's head is,
    and the device sees an empty ring. *)
Lemma full_ring_looks_empty :
  let q1 := (nvme_send_command demo_read 0 false (demo_pair 2 4)).1 in
  let q2 := (nvme_send_command demo_read 1 false q1).1 in
  submission_doorbell q2 = 0.
Proof. reflexivity. Qed.

(** The completion doorbell gets the head before it wraps: at the last slot,
    an index the ring does not have. *)
Lemma doorbell_past_end (q : nvme_queue_pair) c e :
  completion_queue q !! Z.to_nat (cq_head q) = Some c -> queue_entry q !! Z.to_nat (cq_cid c) = Some e ->
  cq_head q = entry_cnt q - 1 -> 0 < entry_cnt q < 2 ^ 32 ->
  completion_doorbell (nvme_irq_complete true q).1 = entry_cnt q.
Proof.
  intros Hc He Hh Hn. unfold nvme_irq_complete. rewrite Hc, He, andb_false_r. cbn. unfold u32. rewrite Z.mod_small; lia.
Qed.

(** A command that fails keeps its identifier. *)
Lemma failed_command_leaks (q : nvme_queue_pair) cid e :
  queue_entry q !! Z.to_nat cid = Some e -> Z.shiftr (cq_status (qe_completion e)) 1 <> 0 -> nvme_finish cid q = (q, Err).
Proof. intros He Hs. unfold nvme_finish. rewrite He, (proj2 (Z.eqb_neq _ _) Hs). done. Qed.

(** For a transfer of more than two pages the second region is the first
    entry of the list, the page after the buffer, and not the list. *)
Lemma region_list_not_linked :
  lba_prp2 demo_ns 0 32 0x8000 = Ok (Some (<[2%nat := 0xb000]> (<[1%nat := 0xa000]> (<[0%nat := 0x9000]> (prp_list demo_ns))), 0x9000)).
Proof. vm_compute. reflexivity. Qed.

(** Every pair uses the doorbells of the admin queue. *)
Lemma doorbells_shared (alloc : Z -> option (list Z)) (c : nvme_controller) (n irq : Z) (name : string) :
  submission_doorbell_offset (init_pair alloc c n irq name) = PAGE_SIZE /\
  completion_doorbell_offset (init_pair alloc c n irq name) = PAGE_SIZE + Z.shiftl 4 (strides c).
Proof. unfold init_pair. cbn [submission_doorbell_offset completion_doorbell_offset]. split; lia. Qed.

(** The address of the submission queue is stored in the field of the
    completion queue: the command that creates it names address 0. *)
Lemma submission_queue_address_lost (alloc : Z -> option (list Z)) (c : nvme_controller) (n irq p1 p2 p3 : Z) (name : string) :
  let q := map_completions (map_entries (set_entry_cnt (map_commands (init_pair alloc c n irq name) p1) 128) p2) p3 in
  private (create_sq_command q) = create_sq 0 (u16 n) (u16 (queue_entries c - 1)) 3 (u16 n).
Proof. reflexivity. Qed.

(** The device's enable bit reads as written: the wait for it to become ready
    ends at once, whatever the status register says. *)
Lemma enable_does_not_wait (c : nvme_controller) : (nvme_enable id c).2 = Ok tt.
Proof. reflexivity. Qed.
