(* ===== verification/Pci.v ===== *)
(** * The PCI server ([servers/io/pci/pci.c], [servers/io/pci/pci.h])

    The configuration space of a function and the MSI-X table of a device are
    hardware: a class gives their registers, and what the PCI specification
    says of a base address register is a hypothesis where it is used.  The
    morphology of a core is the record the server keeps of it.  System calls
    are parameters. *)

From S2P Require Import Prelude Aria.

(** Registers of a function's configuration space, by offset. *)
Class PciConfig := {
  pci_config : Type;
  rd8 : pci_config -> Z -> Z;
  rd16 : pci_config -> Z -> Z;
  rd32 : pci_config -> Z -> Z;
  wr16 : pci_config -> Z -> Z -> pci_config;
  wr32 : pci_config -> Z -> Z -> pci_config;
}.

Definition CFG_BAR (i : Z) : Z := 0x10 + 4 * i.

Record pci_bar := MkBar {
  bar_base : Z;
  bar_limit : Z;
  is_mmio : bool;
  is_prefetchable : bool;
}.

Record pci_descriptor := MkDesc {
  d_segment : Z;
  d_bus : Z;
  d_device : Z;
  d_func : Z;
}.
#[global] Instance pci_descriptor_eq_dec : EqDecision pci_descriptor.
Proof. solve_decision. Defined.
#[global] Instance pci_descriptor_countable : Countable pci_descriptor.
Proof.
  refine (inj_countable' (fun d => (d_segment d, d_bus d, d_device d, d_func d))
            (fun '(a, b, c, d) => MkDesc a b c d) _). by intros [].
Defined.

Record pci_core_morphology := MkCore {
  core_load : Z;
  lapic_id : Z;
}.

(** [pci_fetch_optimal_core]: the loop with its early exit. *)
Fixpoint optimal_core_loop (ret : option pci_core_morphology) (l : list (option pci_core_morphology))
    : option pci_core_morphology :=
  match l with
  | [] => ret
  | None :: l => optimal_core_loop ret l
  | Some core :: l =>
      let best :=
        match ret with
        | None => core
        | Some r => if core_load core <? core_load r then core else r
        end in
      if core_load best =? 0 then Some best else optimal_core_loop (Some best) l
  end.

Definition pci_fetch_optimal_core (cores : list (option pci_core_morphology)) : option pci_core_morphology :=
  optimal_core_loop None cores.

Section Server.
Context {PC : PciConfig} {AB : AriaBase} {AM : AriaBitmap}.

(** ** Base address registers *)

(** [~0xf] and [~0x3] are sign extended to 64 bits. *)
Definition bar_mask (mmio : bool) : Z := if mmio then 2 ^ 64 - 16 else 2 ^ 64 - 4.

Definition pci_device_bar (config : pci_config) (index : Z) : pci_config * pci_bar :=
  let bar_low := rd32 config (CFG_BAR index) in
  let mmio := negb (Z.testbit bar_low 0) in
  let prefetchable := mmio && Z.testbit bar_low 3 in
  let is_64_bits := mmio && (Z.land (Z.shiftr bar_low 1) 3 =? 2) in
  let bar_high := if is_64_bits then rd32 config (CFG_BAR (index + 1)) else 0 in
  let base := Z.land (Z.lor (u64 (Z.shiftl bar_high 32)) bar_low) (bar_mask mmio) in
  let config := wr32 config (CFG_BAR index) 0xffffffff in
  let bar_size_low := rd32 config (CFG_BAR index) in
  let config := if is_64_bits then wr32 config (CFG_BAR (index + 1)) 0xffffffff else config in
  let bar_size_high := if is_64_bits then rd32 config (CFG_BAR (index + 1)) else 0 in
  let config := wr32 config (CFG_BAR index) bar_low in
  let config := if is_64_bits then wr32 config (CFG_BAR (index + 1)) bar_high else config in
  let limit := Z.land (Z.lor (u64 (Z.shiftl bar_size_high 32)) bar_size_low) (bar_mask mmio) in
  let limit := u64 (2 ^ 64 - 1 - limit + 1) in
  let limit := Z.land limit 0xffffffff in
  (config, MkBar base limit mmio prefetchable).

(** ** Devices *)

(** [struct pci_device]; the MSI-X table is the memory behind
    [msix_space], words by byte offset. *)
Record pci_device := MkDevice {
  descriptor : pci_descriptor;
  config : pci_config;
  msi_capable : bool;
  msi_offset : Z;
  msix_capable : bool;
  msix_offset : Z;
  msix_bar : pci_bar;
  msix_bar_offset : Z;
  msix_bitmap : bitmap_t;
  msix_space : Z;
  msix_table : gmap Z Z;
}.

Definition set_config (d : pci_device) (c : pci_config) : pci_device :=
  MkDevice (descriptor d) c (msi_capable d) (msi_offset d) (msix_capable d) (msix_offset d) (msix_bar d)
    (msix_bar_offset d) (msix_bitmap d) (msix_space d) (msix_table d).
Definition set_msi (d : pci_device) (off : Z) : pci_device :=
  MkDevice (descriptor d) (config d) true off (msix_capable d) (msix_offset d) (msix_bar d)
    (msix_bar_offset d) (msix_bitmap d) (msix_space d) (msix_table d).
Definition set_msix (d : pci_device) (off : Z) (c : pci_config) (b : pci_bar) : pci_device :=
  MkDevice (descriptor d) c (msi_capable d) (msi_offset d) true off b (msix_bar_offset d) (msix_bitmap d) (msix_space d)
    (msix_table d).
Definition set_space (d : pci_device) (space : Z) : pci_device :=
  MkDevice (descriptor d) (config d) (msi_capable d) (msi_offset d) (msix_capable d) (msix_offset d) (msix_bar d)
    (msix_bar_offset d) (msix_bitmap d) space (msix_table d).
Definition set_slots (d : pci_device) (tbl : Z) (bm : bitmap_t) : pci_device :=
  MkDevice (descriptor d) (config d) (msi_capable d) (msi_offset d) (msix_capable d) (msix_offset d) (msix_bar d)
    tbl bm (msix_space d) (msix_table d).
Definition set_table (d : pci_device) (bm : bitmap_t) (t : gmap Z Z) (c : pci_config) : pci_device :=
  MkDevice (descriptor d) c (msi_capable d) (msi_offset d) (msix_capable d) (msix_offset d) (msix_bar d)
    (msix_bar_offset d) bm (msix_space d) t.

(** The address a message interrupt to a core is sent to. *)
Definition msi_address (core : pci_core_morphology) : Z :=
  u32 (Z.lor (Z.shiftl 0xfee 20) (u64 (s32 (Z.shiftl (lapic_id core) 12)))).

Definition pci_device_msi (cores : list (option pci_core_morphology)) (vector : Z) : M pci_device unit := fun d =>
  match pci_fetch_optimal_core cores with
  | None => (d, Err)
  | Some core =>
      let off := msi_offset d in
      let message_control := rd16 (config d) (off + 2) in
      let c := wr32 (config d) (off + 4) (msi_address core) in
      let c := wr32 c (off + (if Z.testbit message_control 7 then 8 else 12)) (u32 vector) in
      let message_control := Z.land (Z.lor message_control 1) (2 ^ 16 - 1 - Z.shiftl 7 4) in
      (set_config d (wr16 c (off + 2) message_control), Ok tt)
  end.

(** Four words at a slot of the MSI-X table. *)
Definition msix_entry (t : gmap Z Z) (off a b c d : Z) : gmap Z Z :=
  <[off + 12 := d]> (<[off + 8 := c]> (<[off + 4 := b]> (<[off := a]> t))).

Definition pci_device_msix (cores : list (option pci_core_morphology)) (vector : Z) : M pci_device unit := fun d =>
  match bitmap_alloc (msix_bitmap d) with
  | (bm, None) => (set_table d bm (msix_table d) (config d), Err)
  | (bm, Some slot) =>
      match pci_fetch_optimal_core cores with
      | None => (set_table d bm (msix_table d) (config d), Err)
      | Some core =>
          let off := msix_bar_offset d + slot * 16 in
          let t := msix_entry (msix_table d) off (msi_address core) 0 (u32 vector) 0 in
          let message_control := rd16 (config d) (msix_offset d + 2) in
          let message_control := Z.land (Z.lor message_control (2 ^ 15)) (2 ^ 16 - 1 - 2 ^ 14) in
          (set_table d bm t (wr16 (config d) (msix_offset d + 2) message_control), Ok tt)
      end
  end.

(** The system calls of [pci_device_spawn]: an address for the MSI-X table,
    and whether it can be mapped there. *)
Context (as_vmem_allocate : Z -> option Z) (portal_direct : Z -> pci_bar -> bool).
Context (alloc_bytes : Z -> option (list Z)).

(** One capability of the list: message interrupts are 0x5, MSI-X is 0x11.
    The table pointer is read as 16 bits. *)
Definition spawn_capability (offset : Z) : M pci_device unit := fun d =>
  let id := rd8 (config d) offset in
  if id =? 0x5 then (set_msi d offset, Ok tt)
  else if id =? 0x11 then
    let table_ptr := rd16 (config d) (offset + 4) in
    let '(c, bar) := pci_device_bar (config d) (Z.land table_ptr 7) in
    let d := set_msix d offset c bar in
    match as_vmem_allocate (bar_limit bar) with
    | None => (d, Err)
    | Some space =>
        let d := set_space d space in
        if portal_direct space bar then
          (set_slots d (Z.shiftl (Z.shiftr table_ptr 3) 3) (MkBitmap (alloc_bytes (2048 / 8)) 2048 false), Ok tt)
        else (d, Err)
    end
  else (d, Ok tt).

(** The list of capabilities; a list that does not end keeps the server
    forever. *)
Fixpoint spawn_loop (fuel : nat) (offset : Z) : M pci_device unit :=
  match fuel with
  | O => halt
  | S fuel =>
      if offset =? 0 then mret tt
      else
        spawn_capability offset;;
        d ← gets id;
        spawn_loop fuel (rd8 (config d) (offset + 1))
  end.


(** ** Requests of other servers *)

(** [nbar]: the answer and its validity, [None] for a device the server does
    not know.  The index of the request is not used. *)
Definition nbar (tree : gmap pci_descriptor pci_device) (d : pci_descriptor) (bar_index : Z)
    : gmap pci_descriptor pci_device * option (pci_bar * bool) :=
  match tree !! d with
  | None => (tree, None)
  | Some dev => let '(c, bar) := pci_device_bar (config dev) 0 in (<[d := set_config dev c]> tree, Some (bar, true))
  end.

Definition nmsi (cores : list (option pci_core_morphology)) (tree : gmap pci_descriptor pci_device) (d : pci_descriptor)
    (msix : bool) (vector : Z) : gmap pci_descriptor pci_device * option bool :=
  match tree !! d with
  | None => (tree, None)
  | Some dev =>
      let '(dev, r) := if msix then pci_device_msix cores vector dev else pci_device_msi cores vector dev in
      (<[d := dev]> tree, Some (match r with Ok _ => true | _ => false end))
  end.

(** ** Enumeration *)

Record mcfg_entry := MkMcfg {
  mcfg_base : Z;
  mcfg_segment : Z;
  bus_start : Z;
  bus_end : Z;
}.

(** [PCI_CONFIG]: where a function's page is. *)
Definition PCI_CONFIG (base bus device func : Z) : Z := base + (bus * 256 + device * 8 + func) * 4096.

Definition segment_page_cnt (e : mcfg_entry) : Z :=
  DIV_ROUNDUP (PCI_CONFIG (mcfg_base e) (bus_end e) 31 7 - PCI_CONFIG (mcfg_base e) (bus_start e) 0 0) PAGE_SIZE.


(** Whether a function's page is among the [page_cnt] pages mapped at [base];
    a read of any other faults. *)
Definition mapped (base page_cnt addr : Z) : bool := addr + PAGE_SIZE <=? base + page_cnt * PAGE_SIZE.





End Server.

(** ** Base address registers *)

(** What the PCI specification says of the base address registers: register
    [i] keeps the written bits of [mk i] and has the fixed bits [fl i]. *)
Class PciBars (PC : PciConfig) := {
  bars : pci_config -> (Z -> Z) -> (Z -> Z) -> Prop;
  bars_write : forall c mk fl i v, bars c mk fl -> 0 <= v < 2 ^ 32 ->
    bars (wr32 c (CFG_BAR i) v) mk fl /\
    rd32 (wr32 c (CFG_BAR i) v) (CFG_BAR i) = Z.lor (Z.land v (mk i)) (fl i) /\
    (forall j, j <> i -> rd32 (wr32 c (CFG_BAR i) v) (CFG_BAR j) = rd32 c (CFG_BAR j));
  bars_value : forall c mk fl i, bars c mk fl ->
    0 <= rd32 c (CFG_BAR i) < 2 ^ 32 /\ Z.lor (Z.land (rd32 c (CFG_BAR i)) (mk i)) (fl i) = rd32 c (CFG_BAR i);
}.

Inductive bar_type := BarMem32 | BarMem64 | BarIo.
#[global] Instance bar_type_eq_dec : EqDecision bar_type.
Proof. solve_decision. Defined.

(** A register that asks for [2 ^ k] bytes. *)
Definition is_bar (mk fl : Z -> Z) (i : Z) (t : bar_type) (k : Z) : Prop :=
  mk i = 2 ^ 32 - 2 ^ k /\
  match t with
  | BarMem32 => 4 <= k < 32 /\ (fl i = 0 \/ fl i = 8)
  | BarMem64 => 4 <= k < 32 /\ (fl i = 4 \/ fl i = 12) /\ mk (i + 1) = 2 ^ 32 - 1 /\ fl (i + 1) = 0
  | BarIo => 2 <= k < 32 /\ fl i = 1
  end.

Definition is_mem (t : bar_type) : bool := match t with BarIo => false | _ => true end.

Section Bars.
Context {PC : PciConfig} {PB : PciBars PC}.

Lemma is_bar_small mk fl i t k :
  is_bar mk fl i t k -> 2 <= k < 32 /\ 0 <= fl i < 2 ^ (if is_mem t then 4 else 2) /\ (is_mem t = true -> 4 <= k).
Proof. intros (_ & H). destruct t; cbn; lia. Qed.

(** The value of a register is its address and its fixed bits. *)
Lemma bar_value c mk fl i t k :
  bars c mk fl -> is_bar mk fl i t k ->
  exists q, rd32 c (CFG_BAR i) = q * 2 ^ k + fl i /\ 0 <= q /\ 0 <= q * 2 ^ k + fl i < 2 ^ 32.
Proof.
  intros Hb Hi. destruct (is_bar_small _ _ _ _ _ Hi) as (Hk & Hf & Hm). destruct (bars_value c mk fl i Hb) as (Hr & E).
  destruct Hi as (Emk & _). rewrite Emk, land_high in E by lia. set (v := rd32 c (CFG_BAR i)) in *.
  assert (Hp : 0 < 2 ^ k) by (apply Z.pow_pos_nonneg; lia).
  assert (Hfk : fl i < 2 ^ k).
  { apply Z.lt_le_trans with (2 ^ (if is_mem t then 4 else 2)); [lia|]. apply Z.pow_le_mono_r; [lia|]. destruct (is_mem t); lia. }
  pose proof (Z.div_mod v (2 ^ k) ltac:(lia)) as Hd.
  rewrite (lor_low _ _ k) in E; [|lia| |lia].
  - exists (v / 2 ^ k). split; [lia|]. split; [apply Z.div_pos; lia|lia].
  - replace (v - v mod 2 ^ k) with (v / 2 ^ k * 2 ^ k) by lia. apply Z.mod_mul. lia.
Qed.

(** The fixed bits decide the type. *)
Lemma bar_low_bits q k f n : 0 <= n < k -> 0 <= q -> 0 <= f -> Z.testbit (q * 2 ^ k + f) n = Z.testbit f n.
Proof.
  intros Hn Hq Hf. rewrite <- (Z.mod_pow2_bits_low _ k n), Z.add_comm, Z.mod_add by lia. apply Z.mod_pow2_bits_low. lia.
Qed.

Lemma bar_type_bits q k f : 4 <= k -> 0 <= q -> 0 <= f < 16 -> Z.land (Z.shiftr (q * 2 ^ k + f) 1) 3 = Z.land (Z.shiftr f 1) 3.
Proof.
  intros Hk Hq Hf. change 3 with (2 ^ 2 - 1). rewrite !land_low, !Z.shiftr_div_pow2 by lia.
  replace (2 ^ k) with (2 ^ (k - 3) * 4 * 2 ^ 1) by (change (4 * 2 ^ 1) with (2 ^ 3); rewrite <- Z.mul_assoc; change (4 * 2 ^ 1) with (2 ^ 3); rewrite <- Z.pow_add_r by lia; f_equal; lia).
  rewrite !Z.mul_assoc, Z.div_add_l by lia. rewrite Z.add_comm, Z.mod_add by lia. done.
Qed.

(** A masked 64-bit value made of a high word and an aligned low word. *)
Lemma masked_value hi a f m :
  0 <= hi < 2 ^ 32 -> 0 <= a -> a + f < 2 ^ 32 -> a mod 2 ^ m = 0 -> 0 <= m <= 32 -> 0 <= f < 2 ^ m ->
  Z.land (Z.lor (u64 (Z.shiftl hi 32)) (a + f)) (2 ^ 64 - 2 ^ m) = hi * 2 ^ 32 + a.
Proof.
  intros Hhi Ha Haf Ham Hm Hf. rewrite Z.shiftl_mul_pow2, u64_small by lia.
  rewrite (lor_low _ _ 32); [|lia|by apply Z.mod_mul|lia]. rewrite land_high by lia.
  replace (hi * 2 ^ 32 + (a + f)) with (f + ((hi * 2 ^ (32 - m)) * 2 ^ m + a)).
  - rewrite Z.add_mod, Z.add_mod with (b := a), Z.mod_mul, Ham by lia.
    rewrite (Z.mod_small f), Z.add_0_l, Z.mod_0_l, Z.add_0_r, Z.mod_small by lia. 
    rewrite <- Z.mul_assoc, <- Z.pow_add_r by lia. replace (32 - m + m) with 32 by lia. lia.
  - rewrite <- Z.mul_assoc, <- Z.pow_add_r by lia. replace (32 - m + m) with 32 by lia. lia.
Qed.

Lemma bar_size_read c mk fl i t k :
  bars c mk fl -> is_bar mk fl i t k ->
  rd32 (wr32 c (CFG_BAR i) 0xffffffff) (CFG_BAR i) = 2 ^ 32 - 2 ^ k + fl i.
Proof.
  intros Hb Hi. destruct (is_bar_small _ _ _ _ _ Hi) as (Hk & Hf & Hm).
  assert (Hp : 0 < 2 ^ k <= 2 ^ 31) by (split; [apply Z.pow_pos_nonneg|apply Z.pow_le_mono_r]; lia).
  destruct (bars_write c mk fl i 0xffffffff Hb ltac:(lia)) as (_ & -> & _). destruct Hi as (-> & _).
  change 0xffffffff with (2 ^ 32 - 1). rewrite Z.land_comm, land_low, Z.mod_small by lia.
  apply (lor_low _ _ k); [lia| |].
  - replace (2 ^ 32 - 2 ^ k) with ((2 ^ (32 - k) - 1) * 2 ^ k); [apply Z.mod_mul; lia|].
    rewrite Z.mul_sub_distr_r, <- Z.pow_add_r by lia. replace (32 - k + k) with 32 by lia. lia.
  - split; [lia|]. apply Z.lt_le_trans with (2 ^ (if is_mem t then 4 else 2)); [lia|]. apply Z.pow_le_mono_r; [lia|]. destruct (is_mem t); lia.
Qed.

(** Writing back what was read restores every register. *)
Lemma bar_restore c c1 mk fl i :
  bars c mk fl -> bars c1 mk fl -> (forall j, j <> i -> rd32 c1 (CFG_BAR j) = rd32 c (CFG_BAR j)) ->
  let c2 := wr32 c1 (CFG_BAR i) (rd32 c (CFG_BAR i)) in
  bars c2 mk fl /\ forall j, rd32 c2 (CFG_BAR j) = rd32 c (CFG_BAR j).
Proof.
  intros Hb Hb1 Ho. cbn zeta. destruct (bars_value c mk fl i Hb) as (Hr & E).
  destruct (bars_write c1 mk fl i _ Hb1 Hr) as (B & E1 & E2). split; [done|]. intros j. destruct (decide (j = i)) as [->|Hj].
  - rewrite E1. done.
  - rewrite E2 by done. by apply Ho.
Qed.

Lemma aligned_mod (q k m : Z) : 0 <= m <= k -> (q * 2 ^ k) mod 2 ^ m = 0.
Proof.
  intros. replace (q * 2 ^ k) with (q * 2 ^ (k - m) * 2 ^ m); [apply Z.mod_mul; lia|].
  rewrite <- Z.mul_assoc, <- Z.pow_add_r by lia. do 2 f_equal. lia.
Qed.

Lemma size_aligned (k m : Z) : 0 <= m <= k -> k <= 32 -> (2 ^ 32 - 2 ^ k) mod 2 ^ m = 0.
Proof.
  intros Hm Hk. replace (2 ^ 32 - 2 ^ k) with ((2 ^ (32 - k) - 1) * 2 ^ k); [by apply aligned_mod|].
  rewrite Z.mul_sub_distr_r, <- Z.pow_add_r by lia. replace (32 - k + k) with 32 by lia. lia.
Qed.

(** The size from the masked value [h * 2 ^ 32 + 2 ^ 32 - 2 ^ k]. *)
Lemma limit_of_mask h k :
  0 <= k < 32 -> 0 <= h < 2 ^ 32 -> Z.land (u64 (2 ^ 64 - 1 - (h * 2 ^ 32 + (2 ^ 32 - 2 ^ k)) + 1)) 0xffffffff = 2 ^ k.
Proof.
  intros Hk Hh. assert (0 < 2 ^ k <= 2 ^ 31) by (split; [apply Z.pow_pos_nonneg|apply Z.pow_le_mono_r]; lia).
  change 0xffffffff with (2 ^ 32 - 1). rewrite land_low by lia. rewrite u64_small by lia.
  replace (2 ^ 64 - 1 - (h * 2 ^ 32 + (2 ^ 32 - 2 ^ k)) + 1) with (2 ^ k + (2 ^ 32 - h - 1) * 2 ^ 32) by lia.
  rewrite Z.mod_add by lia. apply Z.mod_small. lia.
Qed.

(** The type the code reads off a register. *)
Lemma bar_type_read c mk fl i t k :
  bars c mk fl -> is_bar mk fl i t k ->
  let v := rd32 c (CFG_BAR i) in
  negb (Z.testbit v 0) = is_mem t /\ is_mem t && Z.testbit v 3 = is_mem t && Z.testbit (fl i) 3 /\
  is_mem t && (Z.land (Z.shiftr v 1) 3 =? 2) = match t with BarMem64 => true | _ => false end.
Proof.
  intros Hb Hi. destruct (bar_value c mk fl i t k Hb Hi) as (q & -> & Hq & _). destruct (is_bar_small _ _ _ _ _ Hi) as (Hk & Hf & Hm).
  destruct Hi as (_ & Hi). cbn zeta. rewrite bar_low_bits by lia. destruct t; cbn [is_mem andb] in *.
  - rewrite bar_low_bits, bar_type_bits by lia. destruct Hi as (_ & [-> | ->]); done.
  - rewrite bar_low_bits, bar_type_bits by lia. destruct Hi as (_ & [-> | ->] & _); done.
  - destruct Hi as (_ & ->). done.
Qed.

(** C27: sizing a base address register.  For a memory register of 32 or 64
    bits or an I/O register of any size below 4 GiB, the server finds its
    base, its size and its kind, and leaves every register as it was. *)
Theorem pci_device_bar_correct (c : pci_config) (mk fl : Z -> Z) (i k : Z) (t : bar_type) :
  bars c mk fl -> is_bar mk fl i t k ->
  let '(c', bar) := pci_device_bar c i in
  bar = MkBar ((match t with BarMem64 => rd32 c (CFG_BAR (i + 1)) * 2 ^ 32 | _ => 0 end) + (rd32 c (CFG_BAR i) - fl i))
          (2 ^ k) (is_mem t) (is_mem t && Z.testbit (fl i) 3) /\
  bars c' mk fl /\ forall j, rd32 c' (CFG_BAR j) = rd32 c (CFG_BAR j).
Proof.
  intros Hb Hi. destruct (bar_type_read c mk fl i t k Hb Hi) as (T1 & T2 & T3).
  destruct (bar_value c mk fl i t k Hb Hi) as (q & Ev & Hq & Hvr). destruct (is_bar_small _ _ _ _ _ Hi) as (Hk & Hf & Hm).
  pose proof (bar_size_read c mk fl i t k Hb Hi) as Es. destruct (bars_write c mk fl i 0xffffffff Hb ltac:(lia)) as (B1 & _ & O1).
  assert (Hp : 0 < 2 ^ k <= 2 ^ 31) by (split; [apply Z.pow_pos_nonneg|apply Z.pow_le_mono_r]; lia).
  assert (Hmk : bar_mask (is_mem t) = 2 ^ 64 - 2 ^ (if is_mem t then 4 else 2)) by (by destruct t).
  set (m := if is_mem t then 4 else 2) in *. assert (Hmr : 0 <= m <= k /\ m <= 4) by (unfold m; destruct (is_mem t); lia).
  assert (Hfm : fl i < 2 ^ k) by (apply Z.lt_le_trans with (2 ^ m); [lia|apply Z.pow_le_mono_r; lia]).
  assert (Hqk : 0 <= q * 2 ^ k) by nia.
  unfold pci_device_bar. rewrite T1, T2, T3, Hmk, Es, Ev. destruct (decide (t = BarMem64)) as [->|Ht].
  - destruct Hi as (_ & _ & _ & Emk & Efl). destruct (bars_value c mk fl (i + 1) Hb) as (Hhr & _).
    destruct (bars_write _ mk fl (i + 1) 0xffffffff B1 ltac:(lia)) as (B2 & E2 & O2). rewrite E2, Emk, Efl, Z.lor_0_r.
    change (Z.land 4294967295 (2 ^ 32 - 1)) with (2 ^ 32 - 1).
    rewrite masked_value, masked_value, limit_of_mask by first [lia | apply aligned_mod; lia | apply size_aligned; lia].
    rewrite <- Ev. split; [f_equal; lia|].
    set (c2 := wr32 (wr32 c _ _) (CFG_BAR (i + 1)) _) in *.
    destruct (bars_write c2 mk fl i (rd32 c (CFG_BAR i)) B2 ltac:(apply (bars_value c mk fl i Hb))) as (B3 & E3 & O3).
    apply (bar_restore c _ mk fl (i + 1)); [done..|]. intros j Hj. destruct (decide (j = i)) as [->|Hji].
    + rewrite E3. apply (bars_value c mk fl i Hb).
    + rewrite O3, O2, O1 by done. done.
  - assert (E0 : match t with BarMem64 => true | _ => false end = false) by (by destruct t). rewrite E0.
    rewrite masked_value, masked_value, limit_of_mask by first [lia | apply aligned_mod; lia | apply size_aligned; lia].
    rewrite <- Ev. split; [destruct t; [f_equal; lia|done|f_equal; lia]|]. by apply bar_restore.
Qed.

End Bars.

(** ** Capabilities and enumeration *)

(** Writing a base address register changes no byte of the capabilities. *)
Class PciHeader (PC : PciConfig) := {
  bar_write_rd8 : forall c i v off, 0x40 <= off -> rd8 (wr32 c (CFG_BAR i) v) off = rd8 c off;
}.


Section Enumeration.
Context {PC : PciConfig} {PH : PciHeader PC} {AB : AriaBase} {AO : AriaBaseOk AB} {AM : AriaBitmap}.
Context (as_vmem_allocate : Z -> option Z) (portal_direct : Z -> pci_bar -> bool).
Context (alloc_bytes : Z -> option (list Z)).





















End Enumeration.

(** ** Interrupts *)

Lemma optimal_core_ok ret l :
  (forall r, ret = Some r -> 0 <= core_load r) -> (forall c, Some c ∈ l -> 0 <= core_load c) ->
  match optimal_core_loop ret l with
  | None => ret = None /\ forall c, Some c ∉ l
  | Some b => (ret = Some b \/ Some b ∈ l) /\ (forall r, ret = Some r -> core_load b <= core_load r) /\ (forall c, Some c ∈ l -> core_load b <= core_load c)
  end.
Proof.
  revert ret. induction l as [|[core|] l IH]; intros ret Hr Hl; cbn [optimal_core_loop].
  - destruct ret as [r|]; [|split; [done|]; intros c Hc; by apply not_elem_of_nil in Hc].
    split_and!; [by left|intros ? [= ->]; lia|]. intros c Hc. by apply not_elem_of_nil in Hc.
  - set (best := match ret with None => core | Some r => _ end).
    assert (Hb : (ret = Some best \/ best = core) /\ core_load best <= core_load core /\ (forall r, ret = Some r -> core_load best <= core_load r) /\ 0 <= core_load best).
    { pose proof (Hl core ltac:(left)). unfold best. destruct ret as [r|]; [pose proof (Hr r eq_refl)|naive_solver lia]. case_if; naive_solver lia. }
    destruct Hb as (Hb1 & Hb2 & Hb3 & Hb0). case_if.
    + split_and!; [destruct Hb1 as [|Hb1]; [by left|right; rewrite Hb1; left]|done|]. intros c [[= ->]|Hc]%elem_of_cons; [done|].
      pose proof (Hl c ltac:(by right)). lia.
    + specialize (IH (Some best) ltac:(by intros ? [= ->]) ltac:(intros c Hc; apply Hl; by right)).
      destruct (optimal_core_loop (Some best) l) as [b|]; [|naive_solver]. destruct IH as (I1 & I2 & I3). specialize (I2 best eq_refl). split_and!.
      * destruct I1 as [[= <-]|I1]; [|right; by right]. destruct Hb1 as [|Hb1]; [by left|right; rewrite Hb1; left].
      * intros r Er. specialize (Hb3 r Er). lia.
      * intros c [[= ->]|Hc]%elem_of_cons; [lia|auto].
  - specialize (IH ret Hr ltac:(intros c Hc; apply Hl; by right)). destruct (optimal_core_loop ret l) as [b|].
    + destruct IH as (I1 & I2 & I3). split_and!; [destruct I1; [by left|right; by right]|done|]. intros c [|Hc]%elem_of_cons; [done|auto].
    + destruct IH as (I1 & I2). split; [done|]. intros c. rewrite not_elem_of_cons. done.
Qed.

(** The words of a slot of the MSI-X table. *)
Definition slot_words (t : gmap Z Z) (off : Z) : option Z * option Z * option Z * option Z :=
  (t !! off, t !! (off + 4), t !! (off + 8), t !! (off + 12)).

(** an MSI-X interrupt gets a table slot no other interrupt of the device
    has, with the vector and the address of a least loaded core, unmasked;
    the slots of other interrupts stay, and the device is told to use its
    table. *)
Theorem pci_device_msix_correct {PC : PciConfig} {AB : AriaBase} {AM : AriaBitmap} {AO : AriaBitmapOk AB AM}
    (cores : list (option pci_core_morphology)) (vector : Z) (d : pci_device) (bm : bitmap_t) (slot : Z) :
  (forall c, Some c ∈ cores -> 0 <= core_load c) -> (exists c, Some c ∈ cores) -> 0 <= vector < 2 ^ 32 ->
  bitmap_alloc (msix_bitmap d) = (bm, Some slot) ->
  exists d' core, pci_device_msix cores vector d = (d', Ok tt) /\
    Some core ∈ cores /\ (forall c, Some c ∈ cores -> core_load core <= core_load c) /\
    ~ bit_used (msix_bitmap d) slot /\ (forall j, bit_used (msix_bitmap d') j <-> j = slot \/ bit_used (msix_bitmap d) j) /\
    slot_words (msix_table d') (msix_bar_offset d + slot * 16) = (Some (msi_address core), Some 0, Some vector, Some 0) /\
    (forall j, j <> slot -> slot_words (msix_table d') (msix_bar_offset d + j * 16) = slot_words (msix_table d) (msix_bar_offset d + j * 16)) /\
    config d' = wr16 (config d) (msix_offset d + 2) (Z.land (Z.lor (rd16 (config d) (msix_offset d + 2)) (2 ^ 15)) (2 ^ 16 - 1 - 2 ^ 14)).
Proof.
  intros Hl (c0 & Hc0) Hv Eb. destruct (bitmap_alloc_ok _ _ _ Eb) as (_ & _ & _ & Hfr & Hus).
  pose proof (optimal_core_ok None cores ltac:(done) Hl) as Ho. unfold pci_device_msix, pci_fetch_optimal_core. rewrite Eb.
  destruct (optimal_core_loop None cores) as [core|]; [|by destruct Ho as (_ & Ho); destruct (Ho c0)].
  destruct Ho as ([|Ho1] & _ & Ho2); [done|]. unfold u32. rewrite Z.mod_small by done.
  eexists _, core. split; [reflexivity|]. cbn [msix_bitmap msix_table set_table config]. unfold slot_words, msix_entry. split_and!; try done.
  - rewrite lookup_insert_eq, !(lookup_insert_ne _ (_ + 12)), lookup_insert_eq, !(lookup_insert_ne _ (_ + 8)), lookup_insert_eq, (lookup_insert_ne _ (_ + 4)), lookup_insert_eq by lia. done.
  - intros j Hj. rewrite !lookup_insert_ne by lia. done.
Qed.

(** ** A concrete device *)

Module CfgRef.

(** Base address registers as mask, fixed bits and value, and the bytes of
    the rest of the space. *)
Record t := Mk {
  regs : gmap Z (Z * Z * Z);
  bytes : gmap Z Z;
}.

Definition reg (c : t) (off : Z) : Z * Z * Z := default (0, 0, 0) (regs c !! off).
Definition byte (c : t) (off : Z) : Z := default 0 (bytes c !! off).
Definition word (c : t) (off : Z) : Z := byte c off + 256 * byte c (off + 1).
Definition write (c : t) (off v : Z) : t :=
  let '(m, f, _) := reg c off in Mk (<[off := (m, f, Z.lor (Z.land v m) f)]> (regs c)) (bytes c).
Definition write16 (c : t) (off v : Z) : t := Mk (regs c) (<[off + 1 := v / 256]> (<[off := v mod 256]> (bytes c))).

End CfgRef.

#[export] Instance cfg_ref : PciConfig := {
  pci_config := CfgRef.t;
  rd8 := CfgRef.byte;
  rd16 := CfgRef.word;
  rd32 c off := (CfgRef.reg c off).2;
  wr16 := CfgRef.write16;
  wr32 := CfgRef.write;
}.

#[export] Instance cfg_ref_bars : PciBars cfg_ref.
Proof.
  refine {| bars := fun c mk fl => forall i, exists v, CfgRef.reg c (CFG_BAR i) = (mk i, fl i, v) /\
     0 <= fl i < 2 ^ 32 /\ 0 <= v < 2 ^ 32 /\ Z.lor (Z.land v (mk i)) (fl i) = v |}.
  - intros c mk fl i v Hc Hv. destruct (Hc i) as (w & E & Hf & Hw & Ew). cbn. unfold CfgRef.write. rewrite E.
    assert (Hother : forall j, j <> i -> CfgRef.reg (CfgRef.Mk (<[CFG_BAR i := (mk i, fl i, Z.lor (Z.land v (mk i)) (fl i))]> (CfgRef.regs c)) (CfgRef.bytes c)) (CFG_BAR j) = CfgRef.reg c (CFG_BAR j)).
    { intros j Hj. unfold CfgRef.reg. cbn. rewrite lookup_insert_ne by (unfold CFG_BAR; lia). done. }
    assert (Hself : CfgRef.reg (CfgRef.Mk (<[CFG_BAR i := (mk i, fl i, Z.lor (Z.land v (mk i)) (fl i))]> (CfgRef.regs c)) (CfgRef.bytes c)) (CFG_BAR i) = (mk i, fl i, Z.lor (Z.land v (mk i)) (fl i))).
    { unfold CfgRef.reg. cbn. rewrite lookup_insert_eq. done. }
    split_and!.
    + intros j. destruct (decide (j = i)) as [->|Hj]; [|rewrite Hother by done; apply Hc].
      eexists. split; [exact Hself|]. split; [done|]. split; [apply lor_range; [lia|apply land_range; lia|done]|].
      apply Z.bits_inj'. intros n Hn. rewrite !Z.lor_spec, !Z.land_spec, Z.lor_spec, Z.land_spec.
      destruct (Z.testbit v n), (Z.testbit (mk i) n), (Z.testbit (fl i) n); done.
    + rewrite Hself. done.
    + intros j Hj. rewrite Hother by done. done.
  - intros c mk fl i Hc. destruct (Hc i) as (v & E & Hf & Hv & Ev). cbn. rewrite E. done.
Defined.

#[export] Instance cfg_ref_header : PciHeader cfg_ref.
Proof. split. cbn. intros c i v off _. unfold CfgRef.write. destruct (CfgRef.reg c (CFG_BAR i)) as [[m f] x]. done. Qed.

(** A device with a 64-bit prefetchable register of 64 KiB at 0x1_4000_0000. *)
Definition demo_bar : CfgRef.t :=
  CfgRef.Mk {[CFG_BAR 0 := (2 ^ 32 - 2 ^ 16, 12, 0x40000000 + 12); CFG_BAR 1 := (2 ^ 32 - 1, 0, 1)]} ∅.
Definition demo_masks (i : Z) : Z := if i =? 0 then 2 ^ 32 - 2 ^ 16 else if i =? 1 then 2 ^ 32 - 1 else 0.
Definition demo_flags (i : Z) : Z := if i =? 0 then 12 else 0.

Lemma pci_device_bar_correct_witness :
  (pci_device_bar (PC := cfg_ref) demo_bar 0).2 = MkBar (2 ^ 32 + 0x40000000) (2 ^ 16) true true.
Proof.
  pose proof (pci_device_bar_correct (PC := cfg_ref) demo_bar demo_masks demo_flags 0 16 BarMem64) as H.
  destruct (pci_device_bar (PC := cfg_ref) demo_bar 0) as [c' bar]. destruct H as (E & _).
  - intros i. unfold demo_masks, demo_flags. destruct (decide (i = 0)) as [->|H0]; [eexists; split; [reflexivity|]; done|].
    destruct (decide (i = 1)) as [->|H1]; [eexists; split; [reflexivity|]; done|].
    exists 0. rewrite !(proj2 (Z.eqb_neq _ _)) by done. unfold CfgRef.reg, demo_bar. cbn [CfgRef.regs].
    rewrite lookup_insert_ne, lookup_singleton_ne by (unfold CFG_BAR; lia). done.
  - split; [done|]. vm_compute. intuition congruence.
  - exact E.
Defined.

(** A function with a message capability at 0x40 and MSI-X at 0x50, alone on
    bus 0. *)
Definition demo_function : CfgRef.t :=
  CfgRef.Mk {[CFG_BAR 0 := (2 ^ 32 - 2 ^ 12, 0, 0x1000)]}
    {[0x00 := 0x86; 0x01 := 0x80; 0x06 := 0x10; 0x34 := 0x40; 0x40 := 5; 0x41 := 0x50; 0x50 := 0x11; 0x51 := 0]}.


Definition demo_device : pci_device (PC := cfg_ref) :=
  MkDevice (MkDesc 0 0 1 0) demo_function false 0 true 0x50 (MkBar 0x1000 0x1000 true false) 0
    (MkBitmap (Some (replicate 256 0)) 2048 false) 0 ∅.

Lemma pci_device_msix_correct_witness :
  exists d', pci_device_msix (PC := cfg_ref) [Some (MkCore 3 0); None; Some (MkCore 1 2)] 0x41 demo_device = (d', Ok tt) /\
    slot_words (msix_table d') 0 = (Some (0xfee00000 + 2 * 4096), Some 0, Some 0x41, Some 0).
Proof.
  destruct (pci_device_msix_correct (PC := cfg_ref) [Some (MkCore 3 0); None; Some (MkCore 1 2)] 0x41 demo_device
    (MkBitmap (Some (AriaRef.bit_set (replicate 256 0) 0)) 2048 false) 0) as (d' & core & E & Hc & Hmin & _ & _ & Hs & _).
  - intros c H. rewrite !elem_of_cons in H.
    destruct H as [[= ->]|[[=]|[[= ->]|H]]]; [cbn; lia..|by apply not_elem_of_nil in H].
  - exists (MkCore 3 0). left.
  - lia.
  - vm_compute. reflexivity.
  - exists d'. split; [exact E|]. rewrite !elem_of_cons in Hc.
    destruct Hc as [[= ->]|[[=]|[[= ->]|H]]]; [|exact Hs|by apply not_elem_of_nil in H].
    specialize (Hmin (MkCore 1 2)). cbn in Hmin. exfalso. assert (3 <= 1); [apply Hmin; right; right; left|lia].
Defined.

(** ** What goes wrong *)

(** A 64-bit register of 4 GiB: the last mask of the size leaves nothing. *)
Lemma bar_4gib_is_empty :
  let c := CfgRef.Mk {[CFG_BAR 0 := (0, 4, 4); CFG_BAR 1 := (2 ^ 32 - 1, 0, 1)]} ∅ in
  bar_limit (pci_device_bar (PC := cfg_ref) c 0).2 = 0.
Proof. vm_compute. reflexivity. Qed.

(** The load of a core is never counted: after [pci] the first core gets
    every interrupt. *)
Lemma first_core_always (x : Z) (l : list Z) :
  pci_fetch_optimal_core ((fun id => Some (MkCore 0 id)) <$> (x :: l)) = Some (MkCore 0 x).
Proof. reflexivity. Qed.

(** A request for any register is answered with the first one. *)
Lemma nbar_ignores_index {PC : PciConfig} {AB : AriaBase} {AM : AriaBitmap} tree d i j : nbar tree d i = nbar tree d j.
Proof. reflexivity. Qed.

(** A capability that points to itself keeps the server forever. *)
Lemma capability_cycle_hangs {PC : PciConfig} {AB : AriaBase} {AM : AriaBitmap} va pd ab (fuel : nat) (d : pci_device) off :
  off <> 0 -> rd8 (config d) off <> 5 -> rd8 (config d) off <> 0x11 -> rd8 (config d) (off + 1) = off ->
  (spawn_loop va pd ab fuel off d).2 = Halt.
Proof.
  intros H0 H5 H11 Hc. induction fuel as [|fuel IH]; [done|]. cbn [spawn_loop]. rewrite (proj2 (Z.eqb_neq _ _)) by done.
  assert (E : spawn_capability va pd ab off d = (d, Ok tt)).
  { unfold spawn_capability. rewrite !(proj2 (Z.eqb_neq _ _)) by done. done. }
  rewrite (bind_ok _ _ _ _ _ E). erewrite bind_ok by reflexivity. cbn [id]. rewrite Hc. exact IH.
Qed.

(** The pages of a segment are mapped from its first bus on, and a function
    is looked up by its absolute bus number: on a segment that starts above
    bus 0 the functions of the last bus are past the end of what is mapped. *)
Lemma later_segment_out_of_bounds {AB : AriaBase} {AO : AriaBaseOk AB} (e : mcfg_entry) (base : Z) :
  0 < bus_start e < bus_end e -> bus_end e < 256 ->
  mapped base (segment_page_cnt e) (PCI_CONFIG base (bus_end e - 1) 31 7) = false.
Proof.
  intros H0 H1. apply Z.leb_gt. unfold segment_page_cnt, PCI_CONFIG, PAGE_SIZE in *.
  set (n := ((bus_end e - bus_start e) * 256 + 31 * 8 + 7) * 4096). replace (mcfg_base e + _ - _) with n by lia.
  pose proof (div_roundup_spec n 4096 ltac:(lia) ltac:(lia) ltac:(lia)). lia.
Qed.
