(* ===== verification/Boot.v ===== *)
(** * The kernel's start ([kernel/main.c], [arch/amd64/entry.c], [core/init.c])

    [fuga_entry] sets the parts of the kernel up one after the other.  Its
    memory part is the composition of three components: [pmm_init] builds the
    page allocator from the boot memory map and changes that map's entries on
    the way, aria's heap takes pages through [spalloc], [kmem_early_init]
    creates the first caches, and [vmm_init] maps the kernel and the direct map
    with pages of that allocator, reading the changed entries.  The theorem is
    that this composition succeeds on every memory map with enough memory, so
    the assumptions the page tables make of the allocator hold at boot. *)

From S2P Require Import Prelude Aria PageSource Physical Paging Virtual Slab Acpi.

Section Boot.
Context {A : AriaBase} {AD : AriaDict}.
Context (sizeof_pmm_module HIGH_VMA : Z) (logical_processor_cnt : nat).
Context (pml5_supported gib_pages_supported : bool).

(** The page hooks of aria's heap: [pmm_alloc(s, 1)] seen through the direct
    map, where a failure is [P2V(-1)], and [pmm_free]. *)
Definition spalloc (s : Z) : M pmm_state Z := fun st =>
  match pmm_alloc st s 1 with
  | (st', Ok a) => (st', Ok (u64 (a + HIGH_VMA)))
  | (st', Err) => (st', Ok (u64 (ERROR_u64 + HIGH_VMA)))
  | (st', Halt) => (st', Halt)
  end.

Definition spfree (addr s : Z) : M pmm_state unit := fun st => pmm_free st (u64 (addr - HIGH_VMA)) s.

(** The caches [fuga_entry] creates in aria's heap.  Which pages aria asks for
    when a cache is created and when the page table record is allocated is not
    part of the sources: lists of page counts are parameters. *)
Definition boot_caches : list Z :=
  [32; 64; 128; 256; 512; 1024; 2048; 4096; 8192; 16384; 32768; 65536; 131072].

Definition heap_requests (slab_cache_create : Z -> list Z) (alloc_page_table : list Z) : list Z :=
  (boot_caches ≫= slab_cache_create) ++ alloc_page_table.

(** The requests reach the page allocator one after the other. *)
Fixpoint heap_calls (reqs : list Z) : M pmm_state unit :=
  match reqs with
  | [] => mret tt
  | s :: reqs => _ ← spalloc s; heap_calls reqs
  end.

(** The entries of the memory map as [pmm_init] leaves them behind. *)
Definition boot_entries (mmap : list limine_memmap_entry) : list limine_memmap_entry :=
  let '(mmap1, buffer_size) := pmm_init_scan sizeof_pmm_module mmap 0 in
  fst (pmm_init_carve HIGH_VMA mmap1 buffer_size 0).

(** [fuga_entry] up to [vmm_init]: the caches and the allocator, and the root
    of the kernel's page tables.  What [vmm_init] returns is not looked at. *)
Definition fuga_memory (mmap : list limine_memmap_entry) (memory : gmap Z Z)
    (slab_cache_create : Z -> list Z) (alloc_page_table : list Z) (kernel_vaddr kernel_paddr : Z) : kst (S := pmm_state) * cres Z :=
  let '(p, r) := heap_calls (heap_requests slab_cache_create alloc_page_table)
                    (pmm_init sizeof_pmm_module HIGH_VMA mmap memory) in
  let '(k, r1) := kmem_early_init logical_processor_cnt p in
  match r, r1 with
  | Ok _, Ok _ =>
      let '(p, r) := vmm_init pml5_supported gib_pages_supported HIGH_VMA true kernel_vaddr kernel_paddr
                       (boot_entries mmap) (kpages k) in
      (set_kpages k p, r)
  | _, _ => (k, Halt)
  end.

End Boot.

(** ** Before [fuga_entry] and beside it *)

(** [amd64_entry]: the offset of the direct map is the boot loader's, if it
    answers. *)
Definition amd64_entry_HIGH_VMA (hhdm_response : option Z) : Z := default 0xffff800000000000 hhdm_response.

(** [arch_devices_init]: one of the two root tables is set, and the fixed
    description table is looked up in it. *)
Definition arch_devices_init (HIGH_VMA : Z) (signature_at : Z -> list Z) (root_at : Z -> sdt_root)
    (xsdt_addr rsdt_addr : Z) : option sdt_root * option sdt_root * option Z :=
  let '(xsdt, rsdt) :=
    if negb (xsdt_addr =? 0) then (Some (root_at (P2V HIGH_VMA xsdt_addr)), None)
    else (None, Some (root_at (P2V HIGH_VMA rsdt_addr))) in
  let FACP := [70; 65; 67; 80] in
  (xsdt, rsdt, acpi_find_sdt signature_at xsdt rsdt FACP).

(** [limine_search_module]: the modules the boot loader delivered, if any,
    with their command lines. *)
Section Modules.
Context {file : Type}.

Fixpoint search_modules (modules : list (list Z * file)) (identifier : list Z) : option file :=
  match modules with
  | [] => None
  | (cmdline, f) :: modules =>
      if bool_decide (cmdline = identifier) then Some f else search_modules modules identifier
  end.

Definition limine_search_module (response : option (list (list Z * file))) (identifier : list Z) : option file :=
  match response with
  | None => None
  | Some modules => search_modules modules identifier
  end.

(** The result is the first module with that command line. *)
Lemma limine_search_module_first (modules : list (list Z * file)) (identifier : list Z) (f : file) :
  limine_search_module (Some modules) identifier = Some f <->
  exists pre post, modules = pre ++ (identifier, f) :: post /\ Forall (fun m => fst m <> identifier) pre.
Proof.
  cbn. induction modules as [|[c g] modules IH]; cbn.
  - split; [done|]. intros ([|] & post & ? & _); done.
  - case_bool_decide as Hc; split.
    + intros [= ->]. exists [], modules. by subst.
    + intros ([|[c' g'] pre] & post & E & Hf); cbn in E; injection E as -> -> E; [done|].
      apply Forall_cons in Hf as [Hf _]. done.
    + intros H. apply IH in H as (pre & post & -> & Hf). exists ((c, g) :: pre), post. split; [done|]. by constructor.
    + intros ([|[c' g'] pre] & post & E & Hf); cbn in E; injection E as -> -> E; [done|].
      apply Forall_cons in Hf as [_ Hf]. apply IH. eauto.
Qed.

End Modules.

(** ** A page allocator that was never asked to free *)

Section Room.
Context {A : AriaBase} {HA : AriaBaseOk A}.

(** The first [u] pages of the module are in use and the hint is not beyond. *)
Record packed (m : pmm_module) (u : Z) : Prop := {
  pk_ok : module_ok m;
  pk_range : 0 <= u <= bitmap_entry_cnt m;
  pk_used : forall k, 0 <= k < bitmap_entry_cnt m -> page_used m k <-> k < u;
  pk_hint : last_free m <= u;
}.

(** [F] pages are free in all. *)
Inductive room : list pmm_module -> Z -> Prop :=
| room_nil : room [] 0
| room_cons m u ms F : packed m u -> room ms F -> room (m :: ms) (bitmap_entry_cnt m - u + F).

Lemma packed_alloc (m : pmm_module) (u cnt : Z) :
  packed m u -> 0 < cnt < 2 ^ 52 ->
  (u + cnt <= bitmap_entry_cnt m /\
   exists m', pmm_module_alloc m cnt 1 = (m', Ok (mm_base (mmap_entry m) + u * PAGE_SIZE)) /\
              packed m' (u + cnt) /\ bitmap_entry_cnt m' = bitmap_entry_cnt m) \/
  (bitmap_entry_cnt m < u + cnt /\ pmm_module_alloc m cnt 1 = (m, Err)).
Proof.
  intros [Hok Hr Hu Hh] Hc. pose proof (pmm_module_alloc_post m cnt 0 Hok Hc ltac:(lia)) as Hp.
  change (2 ^ 0) with 1 in Hp. pose proof (mok_last m Hok) as Hl.
  assert (Hrun : u + cnt <= bitmap_entry_cnt m -> free_run m cnt 1 u).
  { intros Hle. split; [done|done| |].
    - rewrite Z.mul_1_l, Z.mod_add by done. apply Hok.
    - intros k Hk. rewrite Hu by lia. lia. }
  destruct (pmm_module_alloc m cnt 1) as [m' [a| |]]; cbn in Hp; [| |done].
  - destruct Hp as (i & Hi & -> & Hf & Hmin & Ht). left.
    assert (Hge : u <= i).
    { destruct (Z.le_gt_cases u i) as [|Hlt]; [done|]. destruct (fr_free _ _ _ _ Hf i ltac:(lia)).
      apply Hu; [|done]. pose proof (fr_end _ _ _ _ Hf). lia. }
    pose proof (fr_end _ _ _ _ Hf) as He. specialize (Hmin u (Hrun ltac:(lia))). assert (i = u) as -> by lia.
    split; [done|]. exists m'. split; [done|]. destruct Ht as [Hent Hcnt Hok' Hused Hhint]. split; [|done].
    assert (Hu' : forall k, 0 <= k < bitmap_entry_cnt m -> page_used m' k <-> k < u + cnt).
    { intros k Hk. rewrite Hused, Hu by done. lia. }
    split; rewrite ?Hcnt; [done|lia|done|]. pose proof (mok_last m' Hok') as Hl'. rewrite Hcnt in Hl'.
    destruct (Z.eq_dec (u + cnt) (bitmap_entry_cnt m)) as [->|]; [lia|]. apply Hhint; [lia|]. rewrite Hu' by lia. lia.
  - destruct Hp as [-> Hno]. right. split; [|done].
    destruct (Z.le_gt_cases (u + cnt) (bitmap_entry_cnt m)) as [Hle|]; [|done]. by destruct (Hno u (Hrun Hle)).
Qed.

Lemma room_nonneg (ms : list pmm_module) (F : Z) : room ms F -> 0 <= F.
Proof. induction 1 as [|m u ms F Hp _ IH]; [done|]. pose proof (pk_range _ _ Hp). lia. Qed.

Lemma room_ok (ms : list pmm_module) (F : Z) : room ms F -> Forall module_ok ms.
Proof. induction 1 as [|m u ms F Hp _ IH]; constructor; [apply Hp|done]. Qed.

(** A request takes its pages from the free ones; one page is refused only
    when there is none. *)
Lemma room_alloc (ms : list pmm_module) (F cnt : Z) :
  room ms F -> 0 < cnt < 2 ^ 52 ->
  (exists ms' a, pmm_alloc_modules ms cnt 1 = (ms', Ok a) /\ room ms' (F - cnt)) \/
  (pmm_alloc_modules ms cnt 1 = (ms, Err) /\ (cnt = 1 -> F = 0)).
Proof.
  intros Hr Hc. induction Hr as [|m u ms F Hp Hr IH]; cbn [pmm_alloc_modules]; [by right|].
  destruct (packed_alloc m u cnt Hp Hc) as [(Hle & m' & -> & Hp' & Hc')|[Hgt ->]].
  - left. pose proof (mok_base _ (pk_ok _ _ Hp)). pose proof (mok_end _ (pk_ok _ _ Hp)).
    pose proof (pk_range _ _ Hp). destruct (_ =? ERROR_u64) eqn:E; [unfold ERROR_u64, PAGE_SIZE in *; lia|].
    eexists _, _. split; [done|].
    replace (bitmap_entry_cnt m - u + F - cnt) with (bitmap_entry_cnt m' - (u + cnt) + F) by lia. by constructor.
  - destruct IH as [(ms' & a & -> & Hr')|[-> H0]].
    + left. eexists _, _. split; [done|]. rewrite <- Z.add_sub_assoc. by constructor.
    + right. split; [done|]. intros ->. pose proof (pk_range _ _ Hp). specialize (H0 eq_refl). lia.
Qed.

Lemma alloc_modules_nonempty (ms : list pmm_module) (cnt align : Z) :
  ms <> [] -> fst (pmm_alloc_modules ms cnt align) <> [].
Proof. destruct ms as [|m ms]; [done|]. intros _. cbn. repeat case_match; done. Qed.

Lemma room_avail (n : nat) (ms : list pmm_module) (F : Z) :
  room ms F -> ms <> [] -> Z.of_nat n <= F -> modules_avail ms n.
Proof.
  revert ms F. induction n as [|n IH]; intros ms F Hr Hne Hn; cbn [modules_avail]; [done|].
  destruct (room_alloc ms F 1 Hr ltac:(lia)) as [(ms' & a & E & Hr')|[E H0]].
  - rewrite E. apply (IH ms' (F - 1)); [done| |lia].
    pose proof (alloc_modules_nonempty ms 1 1 Hne) as Hm. by rewrite E in Hm.
  - specialize (H0 eq_refl). lia.
Qed.

Definition sum_list (l : list Z) : Z := foldr Z.add 0 l.

(** Requests of aria's heap, granted or not, cost at most the pages they ask for. *)
Lemma heap_calls_room (HIGH_VMA : Z) (reqs : list Z) (s : pmm_state) (F : Z) :
  pmm_ok s -> room (pmm_modules s) F -> Forall (fun c => 0 < c < 2 ^ 52) reqs ->
  exists s' F', heap_calls HIGH_VMA reqs s = (s', Ok tt) /\ pmm_ok s' /\ room (pmm_modules s') F' /\
    F - sum_list reqs <= F'.
Proof.
  revert s F. induction reqs as [|c reqs IH]; intros s F Hok Hr Hreq; cbn [heap_calls sum_list foldr].
  { exists s, F. split_and!; try done. lia. }
  apply Forall_cons in Hreq as [Hc Hreq]. fold (sum_list reqs).
  pose proof (pmm_alloc_ok_post s c 0 Hok Hc ltac:(lia)) as Hp. change (2 ^ 0) with 1 in Hp.
  assert (Hal : exists s1 v F1, spalloc HIGH_VMA c s = (s1, Ok v) /\ pmm_ok s1 /\ room (pmm_modules s1) F1 /\ F - c <= F1).
  { unfold spalloc. destruct (pmm_alloc s c 1) as [s1 [a| |]] eqn:E; cbn in Hp; [| |done].
    - destruct (room_alloc (pmm_modules s) F c Hr Hc) as [(ms' & a' & E' & Hr')|[E' _]].
      + eexists _, _, (F - c). split; [done|]. split; [apply Hp|]. split; [|lia].
        unfold pmm_alloc in E. destruct (pmm_modules s) as [|m0 l]; [done|]. rewrite E' in E. by injection E as <- _.
      + unfold pmm_alloc in E. destruct (pmm_modules s) as [|m0 l]; [done|]. by rewrite E' in E.
    - destruct Hp as [-> _]. eexists _, _, F. split_and!; try done. lia. }
  destruct Hal as (s1 & v & F1 & E & Hok1 & Hr1 & HF). rewrite (bind_ok _ _ _ _ _ E).
  destruct (IH s1 F1 Hok1 Hr1 Hreq) as (s' & F' & E' & Hok' & Hr' & HF'). exists s', F'. split_and!; try done. lia.
Qed.

(** ** The allocator right after [pmm_init] *)

(** The bytes of the usable entries above the first MiB. *)
Definition entry_bytes (e : limine_memmap_entry) : Z :=
  if (mm_type e =? LIMINE_MEMMAP_USABLE) && (MIB <=? mm_base e) then mm_length e else 0.
Definition usable_bytes (mmap : list limine_memmap_entry) : Z := sum_list (entry_bytes <$> mmap).

(** The bytes that are left for modules. *)
Definition left_bytes (e : limine_memmap_entry) : Z :=
  if mm_type e =? LIMINE_MEMMAP_USABLE then mm_length e else 0.

Lemma clip_left (e : limine_memmap_entry) : entry_ok e -> left_bytes (pmm_init_clip e) = entry_bytes e.
Proof.
  intros He. unfold left_bytes, entry_bytes, pmm_init_clip. unfold entry_ok in He.
  destruct (mm_type e =? LIMINE_MEMMAP_USABLE) eqn:Et.
  2: { destruct (mm_base e <? MIB); [destruct (mm_length e <? MIB - mm_base e)|]; cbn; by rewrite Et. }
  apply Z.eqb_eq in Et. destruct (He Et) as (H1 & H2 & H3 & H4 & H5 & H6). cbn [andb].
  destruct (mm_base e <? MIB) eqn:Eb; zify_bools.
  - rewrite (proj2 (Z.ltb_lt (mm_length e) _)), (proj2 (Z.leb_gt _ _)) by lia. cbn. by rewrite Et.
  - rewrite Et, (proj2 (Z.leb_le _ _)) by lia. done.
Qed.

Lemma scan_left (sizeof : Z) (mmap : list limine_memmap_entry) (bs : Z) :
  Forall entry_ok mmap ->
  sum_list (left_bytes <$> fst (pmm_init_scan sizeof mmap bs)) = usable_bytes mmap.
Proof.
  intros Hok. revert bs. induction Hok as [|e mmap He _ IH]; intros bs; cbn; [done|].
  specialize (IH (pmm_init_size sizeof e bs)). destruct (pmm_init_scan sizeof mmap _) as [l b].
  unfold usable_bytes, sum_list in *. cbn in *. rewrite IH, clip_left by done. done.
Qed.

Lemma carve_left (HIGH_VMA : Z) (mmap : list limine_memmap_entry) (bs meta : Z) :
  0 <= bs ->
  sum_list (left_bytes <$> mmap) - bs - 4095 <= sum_list (left_bytes <$> fst (pmm_init_carve HIGH_VMA mmap bs meta)).
Proof.
  intros Hbs. revert meta. induction mmap as [|e mmap IH]; intros meta; cbn [pmm_init_carve]; [cbn; lia|].
  destruct (_ && _) eqn:E.
  - apply andb_true_iff in E as [Et El]. cbn. unfold left_bytes at 1 3. cbn. rewrite Et. unfold PAGE_SIZE.
    pose proof (Z.div_mod (mm_length e - bs) 4096 ltac:(lia)). pose proof (Z.mod_pos_bound (mm_length e - bs) 4096 ltac:(lia)).
    unfold sum_list. lia.
  - specialize (IH meta). destruct (pmm_init_carve HIGH_VMA mmap bs meta) as [l z]. cbn in *. unfold sum_list in *. lia.
Qed.

Lemma fresh_packed (e : limine_memmap_entry) (m : pmm_module) : fresh_module_of e m -> last_free m = 0 -> packed m 0.
Proof.
  intros (_ & Hok & _ & _ & Hf) Hl. pose proof (mok_cnt _ Hok). split; [done|lia| |lia].
  intros k Hk. specialize (Hf k Hk). split; [done|lia].
Qed.

Lemma modules_room (sizeof HIGH_VMA : Z) (mmap mmap' : list limine_memmap_entry) (meta : Z) :
  Forall entry_ok mmap -> Forall2 shrunk mmap mmap' ->
  exists F, room (fst (pmm_init_modules sizeof HIGH_VMA mmap' meta)) F /\ F * PAGE_SIZE = sum_list (left_bytes <$> mmap').
Proof.
  intros Hok Hsh. revert meta. induction Hsh as [|e e' mmap mmap' He Hsh IH]; intros meta; cbn [pmm_init_modules].
  { exists 0. split; [constructor|done]. }
  apply Forall_cons in Hok as [Hoe Hok]. destruct (_ && _) eqn:E.
  - apply andb_true_iff in E as [Et Hl]. apply Z.eqb_eq in Et. apply negb_true_iff, Z.eqb_neq in Hl. set (header := u64 _).
    pose proof (pmm_init_module_fresh e e' header Hoe He Et Hl) as Hf.
    assert (Hc : bitmap_entry_cnt (fst (pmm_init_module e' header)) * PAGE_SIZE = mm_length e').
    { destruct He as [Ht He]. rewrite Ht in Et. destruct (He Et) as (L1 & L2 & L3). destruct (Hoe Et) as (B1 & _ & _ & _ & B2 & _).
      cbn. unfold PAGE_SIZE in *. pose proof (div_roundup_spec (mm_length e') 4096 ltac:(lia) ltac:(lia) ltac:(lia)).
      pose proof (Z.div_mod (mm_length e') 4096 ltac:(lia)). lia. }
    destruct (pmm_init_module e' _) as [m meta1] eqn:Em. cbn [fst] in *.
    destruct (IH Hok meta1) as (F & Hr & HF). destruct (pmm_init_modules _ _ _ _) as [ms meta2]. cbn [fst] in *.
    exists (bitmap_entry_cnt m - 0 + F). split.
    + constructor; [|done]. eapply fresh_packed; [done|]. unfold pmm_init_module in Em. by injection Em as <- _.
    + cbn. unfold left_bytes at 1. rewrite Et. unfold sum_list in HF. cbn. lia.
  - destruct (IH Hok meta) as (F & Hr & HF). exists F. split; [done|]. cbn. unfold left_bytes at 1. unfold sum_list in HF.
    destruct (mm_type e' =? LIMINE_MEMMAP_USABLE); cbn in E; [|lia]. apply negb_false_iff, Z.eqb_eq in E. lia.
Qed.

(** After [pmm_init] all that is missing of the usable memory above the first
    MiB is the buffer for the metadata, rounded to pages. *)
Lemma pmm_init_room (sizeof HIGH_VMA : Z) (mmap : list limine_memmap_entry) (memory : gmap Z Z) :
  Forall entry_ok mmap -> ForallOrdPairs entries_disjoint mmap ->
  let s := pmm_init sizeof HIGH_VMA mmap memory in
  exists F, room (pmm_modules s) F /\ (0 < F -> pmm_ok s) /\
    usable_bytes mmap - snd (pmm_init_scan sizeof mmap 0) - 4095 <= F * PAGE_SIZE.
Proof.
  intros Hok Hd s. pose proof (pmm_init_fresh sizeof HIGH_VMA mmap memory Hok Hd) as [Hfr Hdj]. fold s in Hfr, Hdj.
  assert (HF : exists F, room (pmm_modules s) F /\
    usable_bytes mmap - snd (pmm_init_scan sizeof mmap 0) - 4095 <= F * PAGE_SIZE).
  { unfold s, pmm_init. pose proof (scan_left sizeof mmap 0 Hok) as H0.
    pose proof (pmm_init_scan_shrunk sizeof mmap 0 Hok) as H1. pose proof (pmm_init_size_nonneg sizeof mmap 0 ltac:(lia)) as H2.
    destruct (pmm_init_scan sizeof mmap 0) as [mmap1 bs]. cbn in H0, H1, H2 |- *.
    pose proof (pmm_init_carve_shrunk HIGH_VMA mmap mmap1 bs 0 Hok H1 H2) as H3. pose proof (carve_left HIGH_VMA mmap1 bs 0 H2) as H4.
    destruct (pmm_init_carve HIGH_VMA mmap1 bs 0) as [mmap2 meta]. cbn in H3, H4.
    destruct (modules_room sizeof HIGH_VMA mmap mmap2 meta Hok H3) as (F & Hr & HF).
    destruct (pmm_init_modules sizeof HIGH_VMA mmap2 meta) as [ms meta']. cbn [pmm_modules fst] in *. exists F. split; [done|]. rewrite HF, <- H0. exact H4. }
  destruct HF as (F & Hr & HF). exists F. split_and!; try done. intros Hpos. split; [|by eapply room_ok|done].
  intros E. rewrite E in Hr. inversion Hr. lia.
Qed.

(** ** The entries [vmm_init] reads *)

(** Where an entry ends, as [vmm_init] looks at it. *)
Definition entry_top (e : limine_memmap_entry) : Z :=
  if mm_type e =? LIMINE_MEMMAP_RESERVED then 0 else u64 (mm_base e + mm_length e).

Definition max_top (mmap : list limine_memmap_entry) : Z := foldr (fun e z => Z.max (entry_top e) z) 0 mmap.

Lemma max_top_nonneg (mmap : list limine_memmap_entry) : 0 <= max_top mmap.
Proof. unfold max_top. induction mmap as [|e mmap IH]; cbn; lia. Qed.

Lemma highest_page_max (h : Z) (mmap : list limine_memmap_entry) :
  0 <= h -> foldl highest_page_step h mmap = Z.max h (max_top mmap).
Proof.
  revert h. unfold max_top. induction mmap as [|e mmap IH]; intros h Hh; cbn; [lia|].
  assert (Hs : highest_page_step h e = Z.max h (entry_top e)).
  { unfold highest_page_step, entry_top. pose proof (u64_range (mm_base e + mm_length e)).
    destruct (mm_type e =? LIMINE_MEMMAP_RESERVED), (h <? u64 (mm_base e + mm_length e)) eqn:E; cbn; zify_bools; lia. }
  rewrite IH, Hs by (rewrite Hs; lia). lia.
Qed.

Lemma identity_map_size_max (mmap : list limine_memmap_entry) :
  identity_map_size mmap = Z.max (4 * 2 ^ 30) (max_top mmap).
Proof.
  unfold identity_map_size. rewrite highest_page_max by lia. pose proof (max_top_nonneg mmap).
  cbv zeta. destruct (_ <? _) eqn:E; zify_bools; lia.
Qed.

(** Two entries between which the size of the direct map does not tell. *)
Definition same_top (e e' : limine_memmap_entry) : Prop :=
  entry_top e' = entry_top e \/ (entry_top e <= 4 * 2 ^ 30 /\ entry_top e' <= 4 * 2 ^ 30).

Lemma identity_map_size_same (mmap mmap' : list limine_memmap_entry) :
  Forall2 same_top mmap mmap' -> identity_map_size mmap' = identity_map_size mmap.
Proof.
  intros H. rewrite !identity_map_size_max. unfold max_top.
  induction H as [|e e' mmap mmap' He _ IH]; [done|]. cbn [foldr]. destruct He as [->|[? ?]]; lia.
Qed.

(** An entry of the map as the boot protocol delivers it. *)
Definition boot_entry_ok (e : limine_memmap_entry) : Prop :=
  entry_ok e /\
  (mm_type e <> LIMINE_MEMMAP_RESERVED ->
   0 <= mm_base e /\ 0 <= mm_length e /\ mm_base e + mm_length e <= 2 ^ 52 /\
   (MIB <= mm_base e \/ mm_base e + mm_length e < MIB)).

(** Usable entries after the first loop of [pmm_init]. *)
Definition carvable (e : limine_memmap_entry) : Prop :=
  mm_type e = LIMINE_MEMMAP_USABLE ->
  0 <= mm_base e /\ mm_base e mod PAGE_SIZE = 0 /\ mm_length e mod PAGE_SIZE = 0 /\ mm_base e + mm_length e <= 2 ^ 52.

Lemma clip_same_top (e : limine_memmap_entry) :
  boot_entry_ok e -> same_top e (pmm_init_clip e) /\ carvable (pmm_init_clip e).
Proof.
  intros [He Hb]. unfold same_top, carvable, entry_top. unfold pmm_init_clip.
  destruct (mm_base e <? MIB) eqn:E1; zify_bools; [|split; [by left|]; intros Ht; destruct (He Ht); tauto].
  destruct (decide (mm_type e = LIMINE_MEMMAP_RESERVED)) as [Er|Er].
  { destruct (mm_length e <? MIB - mm_base e); cbn; rewrite Er; (split; [by left|]); cbn; discriminate. }
  destruct (Hb Er) as (B1 & B2 & B3 & B4). rewrite (proj2 (Z.ltb_lt (mm_length e) _)) by lia. cbn.
  rewrite (proj2 (Z.eqb_neq (mm_type e) _)) by done. unfold MIB in *. rewrite !u64_small by lia.
  split; [right; lia|]. intros Ht. destruct (He Ht) as (? & ? & _). split_and!; try done. lia.
Qed.

(** Carving the buffer out of an entry leaves its end where it was. *)
Lemma carve_end (e : limine_memmap_entry) (bs : Z) :
  carvable e -> mm_type e = LIMINE_MEMMAP_USABLE -> 0 <= bs <= mm_length e ->
  ALIGN_UP (u64 (mm_base e + bs)) PAGE_SIZE + (mm_length e - bs) / PAGE_SIZE * PAGE_SIZE = mm_base e + mm_length e.
Proof.
  intros Hc Ht Hbs. destruct (Hc Ht) as (H1 & H2 & H3 & H4). unfold PAGE_SIZE in *. rewrite u64_small by lia.
  pose proof (align_up_ge (mm_base e + bs) 12 ltac:(lia) ltac:(lia) ltac:(lia)) as Hge.
  pose proof (align_up_mod (mm_base e + bs) 12 ltac:(lia) ltac:(lia) ltac:(lia)) as Hmd.
  change (2 ^ 12) with 4096 in *. set (b := ALIGN_UP _ _) in *.
  pose proof (Z.div_mod b 4096 ltac:(lia)). pose proof (Z.div_mod (mm_base e) 4096 ltac:(lia)).
  pose proof (Z.div_mod (mm_length e) 4096 ltac:(lia)). pose proof (Z.div_mod (mm_length e - bs) 4096 ltac:(lia)).
  pose proof (Z.mod_pos_bound (mm_length e - bs) 4096 ltac:(lia)). lia.
Qed.

Lemma carve_same_top (HIGH_VMA : Z) (mmap : list limine_memmap_entry) (bs meta : Z) :
  Forall carvable mmap -> 0 <= bs -> Forall2 same_top mmap (fst (pmm_init_carve HIGH_VMA mmap bs meta)).
Proof.
  intros Hc Hbs. assert (Hrefl : forall l, Forall2 same_top l l) by (intros l; induction l; constructor; [by left|done]).
  revert meta. induction Hc as [|e mmap He _ IH]; intros meta; cbn [pmm_init_carve]; [constructor|].
  destruct (_ && _) eqn:E.
  - apply andb_true_iff in E as [Et El]. zify_bools. cbn [fst]. constructor; [|done]. left.
    unfold entry_top. cbn. by rewrite carve_end.
  - specialize (IH meta). destruct (pmm_init_carve HIGH_VMA mmap bs meta) as [l z]. constructor; [by left|done].
Qed.

(** [pmm_init] changes the map, but not the size of the direct map. *)
Lemma boot_entries_size (sizeof HIGH_VMA : Z) (mmap : list limine_memmap_entry) :
  Forall boot_entry_ok mmap -> identity_map_size (boot_entries sizeof HIGH_VMA mmap) = identity_map_size mmap.
Proof.
  intros Hok. assert (Hscan : forall bs, Forall2 same_top mmap (fst (pmm_init_scan sizeof mmap bs)) /\
                                         Forall carvable (fst (pmm_init_scan sizeof mmap bs))).
  { induction Hok as [|e l He _ IH]; intros bs; cbn; [done|]. specialize (IH (pmm_init_size sizeof e bs)).
    destruct (pmm_init_scan sizeof l _) as [l' b]. destruct (clip_same_top e He). cbn in *. split; constructor; tauto. }
  destruct (Hscan 0) as [H1 H2]. unfold boot_entries. pose proof (pmm_init_size_nonneg sizeof mmap 0 ltac:(lia)) as H3.
  destruct (pmm_init_scan sizeof mmap 0) as [mmap1 bs]. cbn in H1, H2, H3.
  rewrite (identity_map_size_same mmap1); [by apply identity_map_size_same|]. by apply carve_same_top.
Qed.

End Room.

(** ** The first caches *)

Section EarlyCaches.
Context {A : AriaBase} {AD : AriaDict} {S : Type} (ncpu : nat).
Implicit Types s : kst (S := S).

(** [n] caches can still be created. *)
Definition spare s (n : nat) : Prop :=
  (n <= length (cache_freelist s))%nat /\ Forall (fun c => (c < length (caches s))%nat) (cache_freelist s).

(** What creating caches leaves alone. *)
Definition only_caches s s' (n : nat) : Prop :=
  kpages s' = kpages s /\ forall m, spare s (n + m) -> spare s' m.

Lemma create_spare s (size align : Z) (n : nat) :
  spare s (1 + n) ->
  exists s' c, kmem_cache_create ncpu size align None None s = (s', Ok (Some c)) /\ only_caches s s' 1.
Proof.
  intros [Hl Hf]. destruct (cache_freelist s) as [|c fl] eqn:E; [cbn in Hl; lia|].
  apply Forall_cons in Hf as [Hc Hf]. destruct (lookup_lt_is_Some_2 (caches s) c Hc) as [cache Hg].
  unfold kmem_cache_create. unfold mbind, M_bind, gets. rewrite E. unfold get_cache. rewrite Hg. cbv zeta.
  unfold modify, put_cache, mret, M_ret. eexists _, c. split; [reflexivity|]. split; [done|].
  intros m [Hl' _]. cbn. split; cbn; [rewrite E in Hl'; cbn in Hl'; lia|]. rewrite length_insert. exact Hf.
Qed.

Lemma create_generic_spare (n i : nat) s (m : nat) :
  spare s (n + m) ->
  exists s' l, create_generic ncpu i n s = (s', Ok l) /\ only_caches s s' n /\ length l = n /\ Forall is_Some l.
Proof.
  revert i s. induction n as [|n IH]; intros i s Hs; cbn [create_generic].
  { exists s, []. split_and!; try done. }
  destruct (create_spare s (2 ^ (Z.of_nat i + 3)) 0 (n + m) Hs) as (s1 & c & E1 & Hp1 & Hk1).
  rewrite (bind_ok _ _ _ _ _ E1). destruct (IH (Datatypes.S i) s1) as (s2 & l & E2 & [Hp2 Hk2] & Hl & Hf); [by apply Hk1|].
  rewrite (bind_ok _ _ _ _ _ E2). exists s2, (Some c :: l). split_and!; [done| |cbn; lia|by constructor].
  split; [congruence|]. intros k Hk. apply Hk2, Hk1. exact Hk.
Qed.

Lemma create_magazines_spare (ml : list kmem_magtype) s (m : nat) :
  spare s (length ml + m) ->
  exists s' l, create_magazines ncpu ml s = (s', Ok l) /\ only_caches s s' (length ml) /\ length l = length ml /\ Forall is_Some l.
Proof.
  revert s. induction ml as [|mt ml IH]; intros s Hs; cbn [create_magazines length].
  { exists s, []. split_and!; try done. }
  destruct (create_spare s ((mt_rounds mt + 1) * 8) (mt_align mt) (length ml + m) Hs) as (s1 & c & E1 & Hp1 & Hk1).
  rewrite (bind_ok _ _ _ _ _ E1). destruct (IH s1) as (s2 & l & E2 & [Hp2 Hk2] & Hl & Hf); [by apply Hk1|].
  rewrite (bind_ok _ _ _ _ _ E2). exists s2, (Some c :: l). split_and!; [done| |cbn; lia|by constructor].
  split; [congruence|]. intros k Hk. apply Hk2, Hk1. exact Hk.
Qed.

(** [kmem_early_init] always succeeds, with all its caches, and takes no page. *)
Lemma kmem_early_init_ok (p : S) :
  exists k, kmem_early_init ncpu p = (k, Ok tt) /\ kpages k = p /\
    is_Some (bufctl_cache k) /\ is_Some (slab_cache k) /\
    length (generic_caches k) = GENERIC_CACHES_NUM /\ Forall is_Some (generic_caches k) /\
    length (mag_caches k) = length magtypes /\ Forall is_Some (mag_caches k).
Proof.
  unfold kmem_early_init. set (s0 := MkK _ _ _ _ _ _ _ _).
  assert (H0 : spare s0 (1 + (1 + (GENERIC_CACHES_NUM + (length magtypes + 0))))).
  { split; [vm_compute; lia|]. cbn [s0 cache_freelist caches]. rewrite length_replicate. apply Forall_forall. intros c Hc.
    rewrite elem_of_reverse, elem_of_seq in Hc. lia. }
  destruct (create_spare s0 sizeof_kmem_bufctl 0 _ H0) as (s1 & c1 & E1 & P1 & K1). rewrite (bind_ok _ _ _ _ _ E1). apply K1 in H0.
  destruct (create_spare s1 sizeof_kmem_slab 0 _ H0) as (s2 & c2 & E2 & P2 & K2). rewrite (bind_ok _ _ _ _ _ E2). apply K2 in H0.
  destruct (create_generic_spare GENERIC_CACHES_NUM 0 s2 _ H0) as (s3 & l3 & E3 & [P3 K3] & L3 & F3). rewrite (bind_ok _ _ _ _ _ E3).
  apply K3 in H0. destruct (create_magazines_spare magtypes s3 _ H0) as (s4 & l4 & E4 & [P4 K4] & L4 & F4). rewrite (bind_ok _ _ _ _ _ E4).
  eexists. split; [reflexivity|]. cbn. split_and!; try done. rewrite P4, P3, P2, P1. done.
Qed.

End EarlyCaches.

(** ** The composition *)

Section BootOk.
Context {A : AriaBase} {HA : AriaBaseOk A} {AD : AriaDict}.
Context (sizeof_pmm_module HIGH_VMA : Z) (ncpu : nat) (pml5_supported gib_pages_supported : bool).

(** The bytes of usable memory that booting takes at most: what aria's heap
    asks for, the page tables of the kernel image and of a direct map of [n]
    regions, and the metadata of the page allocator. *)
Definition boot_bytes (mmap : list limine_memmap_entry) (reqs : list Z) (n : Z) : Z :=
  (sum_list reqs + 257 + 4 * KERNEL_IMAGE_PAGES + 4 * n + 1) * PAGE_SIZE
  + snd (pmm_init_scan sizeof_pmm_module mmap 0).

(** C14: the kernel boots its memory.  On a memory map whose entries are
    disjoint, page aligned and clear of the first MiB's border, with enough
    usable memory for the requests of aria's heap and the page tables, and
    with a direct map that ends below the kernel image,
    [pmm_init], [kmem_early_init] and [vmm_init] succeed one after the other:
    every cache of the slab allocator exists, every page of the kernel image
    translates to its physical page, and every whole region of the largest
    page size below the highest address of the map that the boot loader
    delivered translates to itself, although [pmm_init] has changed the
    entries of that map.  What lies above the last whole region is not mapped
    (see [vmm_init_tail_unmapped] of [Virtual.v]). *)
Theorem fuga_memory_correct (mmap : list limine_memmap_entry) (memory : gmap Z Z)
    (slab_cache_create : Z -> list Z) (alloc_page_table : list Z) (kv kp : Z) :
  let reqs := heap_requests slab_cache_create alloc_page_table in
  let size := arch_largest_page_size gib_pages_supported in
  let n := identity_map_size mmap / size in
  Forall boot_entry_ok mmap -> ForallOrdPairs entries_disjoint mmap -> Forall (fun c => 0 < c < 2 ^ 52) reqs ->
  boot_bytes mmap reqs n <= usable_bytes mmap ->
  n <= 2 ^ 18 -> n * size <= 2 ^ 52 -> 0 <= HIGH_VMA ->
  HIGH_VMA + n * size <= kv -> kv + KERNEL_IMAGE_PAGES * PAGE_SIZE <= 2 ^ 64 ->
  kv + KERNEL_IMAGE_PAGES * PAGE_SIZE - HIGH_VMA < 2 ^ 47 ->
  frame_addr kp -> kp + KERNEL_IMAGE_PAGES * PAGE_SIZE <= 2 ^ 52 ->
  exists k G root,
    fuga_memory sizeof_pmm_module HIGH_VMA ncpu pml5_supported gib_pages_supported mmap memory
      slab_cache_create alloc_page_table kv kp = (k, Ok root) /\
    pt_inv pml5_supported (kpages k) G /\ G !! root = Some (top pml5_supported, 0) /\
    length (generic_caches k) = GENERIC_CACHES_NUM /\ Forall is_Some (generic_caches k) /\ Forall is_Some (mag_caches k) /\
    (forall i, 0 <= i < KERNEL_IMAGE_PAGES ->
       snd (pmap_translate pml5_supported root (kv + i * PAGE_SIZE) (kpages k)) =
         Ok (Some (MkTrans (kp + i * PAGE_SIZE) None VM_PROT_ALL))) /\
    (forall j, 0 <= j < n ->
       snd (pmap_translate pml5_supported root (P2V HIGH_VMA (j * size)) (kpages k)) =
         Ok (Some (mapped_as gib_pages_supported (j * size) VM_PROT_ALL direct_flags))).
Proof.
  intros reqs size n Hok Hd Hreq Hmem Hn Hn52 Hhv Hdis Hk64 Hfar Hkp Hkp52.
  assert (Hok' : Forall entry_ok mmap) by (eapply Forall_impl; [done|]; by intros e []).
  assert (Hn0 : 0 <= n).
  { unfold n. rewrite identity_map_size_max. apply Z.div_pos; [lia|]. unfold size, arch_largest_page_size. by destruct gib_pages_supported. }
  assert (Hq : 0 <= sum_list reqs) by (clear -Hreq; induction Hreq; cbn; unfold sum_list in *; lia).
  destruct (pmm_init_room sizeof_pmm_module HIGH_VMA mmap memory Hok' Hd) as (F & Hr & Hpok & HF).
  pose proof (pmm_init_size_nonneg sizeof_pmm_module mmap 0 ltac:(lia)) as Hbs.
  unfold boot_bytes, KERNEL_IMAGE_PAGES, PAGE_SIZE in Hmem, HF.
  destruct (heap_calls_room HIGH_VMA reqs _ F (Hpok ltac:(lia)) Hr Hreq) as (p & F' & Eh & Hokp & Hrp & HF').
  destruct (kmem_early_init_ok ncpu p) as (k & Ek & Hkp' & _ & _ & Hg1 & Hg2 & _ & Hm2).
  assert (Hav : ps_avail p (257 + (4 * Z.to_nat KERNEL_IMAGE_PAGES + 4 * Z.to_nat n))).
  { apply (room_avail _ _ F'); [done|apply Hokp|]. unfold KERNEL_IMAGE_PAGES. lia. }
  pose proof (boot_entries_size sizeof_pmm_module HIGH_VMA mmap Hok) as Hsz.
  destruct (vmm_init_correct pml5_supported gib_pages_supported p HIGH_VMA kv kp (boot_entries sizeof_pmm_module HIGH_VMA mmap))
    as (s' & G & root & Ev & HI & HG & Himg & Hdir); rewrite ?Hsz; fold size; fold n; try done.
  exists (set_kpages k s'), G, root. rewrite Hsz in Hdir.
  split; [|split_and!; try done].
  - unfold fuga_memory. fold reqs. rewrite Eh, Ek. cbv beta iota. rewrite Hkp', Ev. done.
  - intros i Hi. cbn. by rewrite (Himg i Hi).
  - intros j Hj. specialize (Hdir j Hj). fold size in Hdir. cbn [kpages set_kpages]. by rewrite Hdir.
Qed.

End BootOk.

(** ** A machine with one GiB *)

Module BootExamples.

(** A reserved entry with the first MiB, one GiB of usable memory above it. *)
Definition one_gib : list limine_memmap_entry :=
  [MkEntry 0 0x100000 LIMINE_MEMMAP_RESERVED; MkEntry 0x100000 0x40000000 LIMINE_MEMMAP_USABLE].

End BootExamples.
Import BootExamples.

Lemma one_gib_ok : Forall boot_entry_ok one_gib /\ ForallOrdPairs entries_disjoint one_gib.
Proof.
  split.
  - repeat constructor; try done; cbn; unfold PAGE_SIZE, MIB; try discriminate; intros _; split_and!; done || lia.
  - repeat constructor. discriminate.
Qed.

Lemma fuga_memory_correct_witness :
  exists k root,
    fuga_memory 64 0xffff800000000000 1 false true one_gib ∅ (fun size => [DIV_ROUNDUP size PAGE_SIZE]) [1]
      0xffffffff80000000 0x60000000 = (k, Ok root) /\
    snd (pmap_translate false root 0xffffffff80001000 (kpages k)) = Ok (Some (MkTrans 0x60001000 None VM_PROT_ALL)).
Proof.
  assert (Hn : identity_map_size one_gib / arch_largest_page_size true = 4) by reflexivity.
  destruct (fuga_memory_correct 64 0xffff800000000000 1 false true one_gib ∅ 
              (fun size => [DIV_ROUNDUP size PAGE_SIZE]) [1] 0xffffffff80000000 0x60000000)
    as (k & G & root & E & _ & _ & _ & _ & _ & Himg & _); rewrite ?Hn.
  - apply one_gib_ok.
  - apply one_gib_ok.
  - change (heap_requests _ _) with [1; 1; 1; 1; 1; 1; 1; 1; 2; 4; 8; 16; 32; 1]. repeat constructor; lia.
  - vm_compute. discriminate.
  - lia.
  - vm_compute. discriminate.
  - lia.
  - vm_compute. discriminate.
  - vm_compute. discriminate.
  - vm_compute. reflexivity.
  - split; [lia|reflexivity].
  - vm_compute. discriminate.
  - exists k, root. split; [exact E|].
    change 0xffffffff80001000 with (0xffffffff80000000 + 1 * PAGE_SIZE).
    apply (Himg 1). unfold KERNEL_IMAGE_PAGES. lia.
Defined.
