(* ===== verification/Log.v ===== *)
(** * Printing ([core/debug.c], [arch/amd64/debug.c], [arch/aarch64/debug.c], the
      servers' [init.c])

    A character goes to the first serial port: the transmitter is polled until
    it is ready, and a line feed is preceded by a carriage return.  The state
    is the sequence of values the line status register is going to show and
    the bytes that were sent.  Formatting is done by libraries that are not
    part of the sources, so a formatted text is an argument. *)

From S2P Require Import Prelude.

(** Characters are their codes. *)
Definition CR : Z := 13.
Definition LF : Z := 10.

Definition COM1 : Z := 0x3f8.
Definition LSR_READY : Z := Z.shiftl 1 5.

Record uart := MkUart {
  lsr_values : list Z;
  port_writes : list (Z * Z);
}.

Definition outb (port data : Z) (u : uart) : uart :=
  MkUart (lsr_values u) (port_writes u ++ [(port, u8 data)]).

(** [serial_init] programs the divisor, the line, the queues and the modem. *)
Definition serial_init (u : uart) : uart :=
  outb (COM1 + 0x4) 0x00 (outb (COM1 + 0x2) 0xc7 (outb (COM1 + 0x3) 0x03
    (outb (COM1 + 0x1) 0x00 (outb (COM1 + 0x0) 0x0c (outb (COM1 + 0x3) 0x80 u))))).

(** The loop of [serial_write] reads the line status until the transmitter is
    ready; a port that never gets ready keeps it for ever. *)
Fixpoint wait_ready (values : list Z) : option (list Z) :=
  match values with
  | [] => None
  | v :: values => if Z.land v LSR_READY =? 0 then wait_ready values else Some values
  end.

Definition serial_write (data : Z) : M uart unit := fun u =>
  match wait_ready (lsr_values u) with
  | None => (MkUart [] (port_writes u), Halt)
  | Some values =>
      let u := MkUart values (port_writes u) in
      let u := if data =? LF then outb COM1 CR u else u in
      (outb COM1 data u, Ok tt)
  end.

Definition arch_debug_write (c : Z) : M uart unit := serial_write c.

(** The other port writes to a fixed address. *)
Definition aarch64_debug_write (c : Z) (mem : gmap Z Z) : gmap Z Z := <[0x09000000 := u8 c]> mem.

(** ** The kernel's printing *)

Definition putc (c : Z) : M uart unit := arch_debug_write c.

(** The printing library hands a text over character by character. *)
Fixpoint npf_pprintf (text : list Z) : M uart unit :=
  match text with
  | [] => mret tt
  | c :: text => putc c;; npf_pprintf text
  end.

(** The system call [log], under the print lock. *)
Definition syscall_log (character : Z) : M uart unit := putc character.

(** "FUGA: [KERNEL] " *)
Definition kernel_prefix : list Z := [70; 85; 71; 65; 58; 32; 91; 75; 69; 82; 78; 69; 76; 93; 32].

(** [print_unlocked] hands its text over twice. *)
Definition print_unlocked (text : list Z) : M uart unit :=
  npf_pprintf kernel_prefix;; npf_pprintf text;; npf_pprintf text.

Definition NANOSECONDS_PER_SECOND : Z := 1000000000.

(** The two numbers in front of a line of [print]. *)
Definition print_stamp (timestamp : Z) : Z * Z :=
  (timestamp / NANOSECONDS_PER_SECOND, timestamp / (NANOSECONDS_PER_SECOND / 1000)).

Section Print.
(** The formatted head of a line: "[%5lu.%06lu] [ BACH ] ". *)
Context (head : Z * Z -> list Z).

Definition print (timestamp : Z) (text : list Z) : M uart unit :=
  npf_pprintf (head (print_stamp timestamp));; npf_pprintf text.

(** "KERNEL PANIC: < " and " > HALTING\n" *)
Definition panic_open : list Z := [75; 69; 82; 78; 69; 76; 32; 80; 65; 78; 73; 67; 58; 32; 60; 32].
Definition panic_close : list Z := [32; 62; 32; 72; 65; 76; 84; 73; 78; 71; 10].

(** [panic] prints and stops the processor. *)
Definition panic (timestamp : Z) (text : list Z) : M uart unit :=
  print timestamp panic_open;; npf_pprintf text;; print_unlocked panic_close;; halt.

End Print.

(** [stacktrace] follows the saved frame pointers; each step prints one return
    address.  The result is the addresses, [None] when the chain does not end
    within [fuel] frames. *)
Fixpoint stacktrace (mem : Z -> Z) (fuel : nat) (rbp : Z) : option (list Z) :=
  match fuel with
  | O => None
  | S fuel =>
      if rbp =? 0 then Some []
      else
        let previous_rbp := mem rbp in
        let return_address := mem (rbp + 8) in
        if return_address =? 0 then Some []
        else (fun l => return_address :: l) <$> stacktrace mem fuel previous_rbp
  end.

(** ** The servers' printing *)

(** "PANIC [ " and " ]\n" *)
Definition server_panic_open : list Z := [80; 65; 78; 73; 67; 32; 91; 32].
Definition server_panic_close : list Z := [32; 93; 10].

(** "DUFAY: [PCI] ", "DUFAY: [FS] ", "DUFAY: [INIT] ", "DUFAY: [NVME] ",
    "DUFAY: [NVME IRQ] " *)
Definition dufay (name : list Z) : list Z := [68; 85; 70; 65; 89; 58; 32; 91] ++ name ++ [93; 32].
Definition pci_prefix : list Z := dufay [80; 67; 73].
Definition fs_prefix : list Z := dufay [70; 83].
Definition init_prefix : list Z := dufay [73; 78; 73; 84].
Definition nvme_prefix : list Z := dufay [78; 86; 77; 69].
Definition nvme_irq_prefix : list Z := dufay [78; 86; 77; 69; 32; 73; 82; 81].

(** A server's stream writes each character with the system call [log]. *)
Definition log_write (c : Z) : M uart unit := syscall_log c.

Fixpoint stream_print (text : list Z) : M uart unit :=
  match text with
  | [] => mret tt
  | c :: text => log_write c;; stream_print text
  end.

Definition server_print (prefix text : list Z) : M uart unit := stream_print prefix;; stream_print text.

Definition server_panic (prefix text : list Z) : M uart unit :=
  server_print prefix server_panic_open;; stream_print text;; server_print prefix server_panic_close;; halt.

Definition pci_print : list Z -> M uart unit := server_print pci_prefix.
Definition pci_panic : list Z -> M uart unit := server_panic pci_prefix.
Definition fs_print : list Z -> M uart unit := server_print fs_prefix.
Definition fs_panic : list Z -> M uart unit := server_panic fs_prefix.
Definition init_print : list Z -> M uart unit := server_print init_prefix.
Definition init_panic : list Z -> M uart unit := server_panic init_prefix.
Definition nvme_print : list Z -> M uart unit := server_print nvme_prefix.
Definition nvme_panic : list Z -> M uart unit := server_panic nvme_prefix.
Definition nvme_irq_print : list Z -> M uart unit := server_print nvme_irq_prefix.
Definition nvme_irq_panic : list Z -> M uart unit := server_panic nvme_irq_prefix.

(** ** What arrives at the other end *)

(** The bytes on the line for a text, and the text a terminal makes of bytes. *)
Definition wire (text : list Z) : list Z := text ≫= fun c => if c =? LF then [CR; LF] else [u8 c].
Definition terminal (bytes : list Z) : list Z := filter (fun c => c <> CR) bytes.

Lemma wire_app (a b : list Z) : wire (a ++ b) = wire a ++ wire b.
Proof. apply bind_app. Qed.

(** Texts of characters other than the carriage return arrive as they are. *)
Lemma terminal_wire (text : list Z) :
  Forall (fun c => 0 <= c < 256 /\ c <> CR) text -> terminal (wire text) = text.
Proof.
  intros H. unfold terminal. induction H as [|c text [Hc Hn] _ IH]; [done|].
  change (c :: text) with ([c] ++ text) at 1. rewrite wire_app, filter_app, IH. unfold wire. cbn.
  destruct (c =? LF) eqn:E; zify_bools; [by subst|]. rewrite app_nil_r.
  unfold u8. rewrite Z.mod_small by lia. by rewrite filter_cons_True.
Qed.

(** How often the transmitter is going to be ready. *)
Definition readies (values : list Z) : nat := length (filter (fun v => Z.land v LSR_READY <> 0) values).

(** [m] sends [bytes] and needs the transmitter [n] times. *)
Definition sends {A} (m : M uart A) (n : nat) (bytes : list Z) (r : cres A) : Prop :=
  forall u, (n <= readies (lsr_values u))%nat ->
    exists u', m u = (u', r) /\ port_writes u' = port_writes u ++ (pair COM1 <$> bytes) /\
               readies (lsr_values u) = (n + readies (lsr_values u'))%nat.

Lemma wait_ready_spec (values : list Z) :
  (1 <= readies values)%nat ->
  exists values', wait_ready values = Some values' /\ readies values = S (readies values').
Proof.
  unfold readies. induction values as [|v values IH]; cbn [wait_ready]; [cbn; lia|]. intros H.
  destruct (Z.land v LSR_READY =? 0) eqn:E; zify_bools.
  - rewrite filter_cons_False in * by tauto. by apply IH.
  - rewrite filter_cons_True in * by done. by exists values.
Qed.

Lemma serial_write_sends (c : Z) : sends (serial_write c) 1 (wire [c]) (Ok tt).
Proof.
  intros u Hr. destruct (wait_ready_spec _ Hr) as (values & E & Hc). unfold serial_write. rewrite E.
  eexists. split; [done|]. unfold wire. cbn. destruct (c =? LF) eqn:El; cbn; zify_bools; subst; (split; [|exact Hc]); cbn.
  - rewrite <- app_assoc. done.
  - done.
Qed.

Lemma sends_ret {A} (a : A) : sends (mret a) 0 [] (Ok a).
Proof. intros u Hr. exists u. rewrite app_nil_r. done. Qed.

Lemma sends_halt {A} : sends (halt : M uart A) 0 [] Halt.
Proof. intros u Hr. exists u. rewrite app_nil_r. done. Qed.

Lemma sends_bind {A B} (m : M uart A) (f : A -> M uart B) (a : A) (n1 n2 : nat) (b1 b2 : list Z) (r : cres B) :
  sends m n1 b1 (Ok a) -> sends (f a) n2 b2 r -> sends (m ≫= f) (n1 + n2) (b1 ++ b2) r.
Proof.
  intros H1 H2 u Hr. destruct (H1 u ltac:(lia)) as (u1 & E1 & W1 & R1). rewrite (bind_ok _ _ _ _ _ E1).
  destruct (H2 u1 ltac:(lia)) as (u2 & E2 & W2 & R2). exists u2. split; [done|].
  rewrite W2, W1, fmap_app, <- app_assoc. split; [done|lia].
Qed.

Lemma npf_pprintf_sends (text : list Z) : sends (npf_pprintf text) (length text) (wire text) (Ok tt).
Proof.
  induction text as [|c text IH]; [apply sends_ret|]. change (wire (c :: text)) with (wire ([c] ++ text)). rewrite wire_app.
  apply (sends_bind _ _ tt 1); [apply serial_write_sends|exact IH].
Qed.

Lemma stream_print_npf (text : list Z) : stream_print text = npf_pprintf text.
Proof. induction text as [|c text IH]; [done|]. cbn. by rewrite IH. Qed.

Lemma npf_pprintf_app (a b : list Z) u : (npf_pprintf a;; npf_pprintf b) u = npf_pprintf (a ++ b) u.
Proof.
  revert u. induction a as [|c a IH]; intros u; [done|]. cbn [npf_pprintf app].
  unfold mbind, M_bind in *. destruct (putc c u) as [u1 [[]| |]]; [|done|done]. apply IH.
Qed.

(** A line of the kernel arrives whole, with its head; a line of a server
    arrives whole, with the server's name. *)
Lemma print_arrives (head : Z * Z -> list Z) (timestamp : Z) (text : list Z) :
  sends (print head timestamp text) (length (head (print_stamp timestamp)) + length text)
    (wire (head (print_stamp timestamp) ++ text)) (Ok tt).
Proof. rewrite wire_app. apply (sends_bind _ _ tt); apply npf_pprintf_sends. Qed.

Lemma server_print_arrives (prefix text : list Z) :
  sends (server_print prefix text) (length prefix + length text) (wire (prefix ++ text)) (Ok tt).
Proof. unfold server_print. rewrite wire_app, !stream_print_npf. apply (sends_bind _ _ tt); apply npf_pprintf_sends. Qed.

(** [print_unlocked] prints its text twice. *)
Lemma print_unlocked_twice (text : list Z) :
  sends (print_unlocked text) (length kernel_prefix + (length text + length text))
    (wire (kernel_prefix ++ text ++ text)) (Ok tt).
Proof.
  rewrite !wire_app. apply (sends_bind _ _ tt); [apply npf_pprintf_sends|].
  apply (sends_bind _ _ tt); apply npf_pprintf_sends.
Qed.

(** [panic] stops after the message, whose end it prints twice. *)
Lemma panic_output (head : Z * Z -> list Z) (timestamp : Z) (text : list Z) :
  exists n, sends (panic head timestamp text) n
    (wire ((head (print_stamp timestamp) ++ panic_open) ++ text ++ (kernel_prefix ++ panic_close ++ panic_close))) Halt.
Proof.
  eexists. rewrite (wire_app (head _ ++ _)), (wire_app text), <- (app_nil_r (wire (kernel_prefix ++ _))).
  apply (sends_bind _ _ tt); [apply print_arrives|]. apply (sends_bind _ _ tt); [apply npf_pprintf_sends|].
  apply (sends_bind _ _ tt); [apply print_unlocked_twice|apply sends_halt].
Qed.

(** A server that panics repeats its name in the middle of the line. *)
Lemma server_panic_output (prefix text : list Z) :
  exists n, sends (server_panic prefix text) n
    (wire ((prefix ++ server_panic_open) ++ text ++ (prefix ++ server_panic_close))) Halt.
Proof.
  eexists. rewrite (wire_app (prefix ++ _)), (wire_app text), <- (app_nil_r (wire (prefix ++ server_panic_close))).
  apply (sends_bind _ _ tt); [apply server_print_arrives|]. rewrite stream_print_npf.
  apply (sends_bind _ _ tt); [apply npf_pprintf_sends|].
  apply (sends_bind _ _ tt); [apply server_print_arrives|apply sends_halt].
Qed.

(** The second number of a stamp counts milliseconds since boot, not the
    fraction of the second that its place after the point promises. *)
Lemma print_stamp_not_fraction : print_stamp 12500000000 = (12, 12500).
Proof. reflexivity. Qed.

(** ** Stack traces *)

(** Frames linked by their saved frame pointers. *)
Inductive frames (mem : Z -> Z) : Z -> list Z -> Prop :=
| frames_null : frames mem 0 []
| frames_top rbp : rbp <> 0 -> mem (rbp + 8) = 0 -> frames mem rbp []
| frames_next rbp l : rbp <> 0 -> mem (rbp + 8) <> 0 -> frames mem (mem rbp) l -> frames mem rbp (mem (rbp + 8) :: l).

Lemma stacktrace_step (mem : Z -> Z) (fuel : nat) (rbp : Z) :
  stacktrace mem (S fuel) rbp =
    if rbp =? 0 then Some []
    else if mem (rbp + 8) =? 0 then Some []
    else (fun l => mem (rbp + 8) :: l) <$> stacktrace mem fuel (mem rbp).
Proof. done. Qed.

(** [stacktrace] prints the return addresses of the frames and ends when they
    do. *)
Lemma stacktrace_frames (mem : Z -> Z) (rbp : Z) (l : list Z) :
  frames mem rbp l <-> exists fuel, stacktrace mem fuel rbp = Some l.
Proof.
  split.
  - intros H. exists (S (length l)). induction H as [|rbp Hn Ht|rbp l Hn Ht _ IH]; [done| |]; rewrite stacktrace_step.
    + rewrite (proj2 (Z.eqb_neq _ _) Hn), Ht. done.
    + rewrite (proj2 (Z.eqb_neq _ _) Hn), (proj2 (Z.eqb_neq _ _) Ht). cbn [length]. by rewrite IH.
  - intros [fuel E]. revert rbp l E. induction fuel as [|fuel IH]; intros rbp l; cbn [stacktrace]; [done|].
    destruct (rbp =? 0) eqn:E1; zify_bools; [intros [= <-]; subst; constructor|].
    destruct (mem (rbp + 8) =? 0) eqn:E2; zify_bools; [intros [= <-]; by apply frames_top|].
    intros H. apply fmap_Some in H as (l' & E & ->). apply frames_next; [done|done|]. by apply IH.
Qed.

(** A frame that names itself as its caller makes it print for ever. *)
Lemma stacktrace_cycle (mem : Z -> Z) (rbp : Z) (fuel : nat) :
  rbp <> 0 -> mem rbp = rbp -> mem (rbp + 8) <> 0 -> stacktrace mem fuel rbp = None.
Proof.
  intros H1 H2 H3. induction fuel as [|fuel IH]; [done|]. cbn.
  rewrite (proj2 (Z.eqb_neq _ _) H1), (proj2 (Z.eqb_neq _ _) H3), H2, IH. done.
Qed.
