(* ===== verification/Cpu.v ===== *)
(** * The processor's registers ([arch/amd64/cpu.h], [arch/amd64/cpu.c], [amd64_paging_init])

    Model-specific registers are written and read as two halves of 32 bits;
    the bases of [gs] and [fs] are such registers.  [amd64_system_init] turns
    the features on that the kernel needs, and stops on a processor that lacks
    them.  What CPUID answers is a parameter. *)

From S2P Require Import Prelude Smp Acpi Log.

Definition MSR_EFER : Z := 0xc0000080.
Definition MSR_STAR : Z := 0xc0000081.
Definition MSR_LSTAR : Z := 0xc0000082.
Definition MSR_SFMASK : Z := 0xc0000084.
Definition MSR_FS_BASE : Z := 0xc0000100.
Definition MSR_GS_BASE : Z := 0xc0000101.
Definition KERNEL_GS_BASE : Z := 0xc0000102.

Record cpu := MkCpuRegs {
  msrs : gmap Z (Z * Z);
  cr0 : Z;
  cr4 : Z;
  cr8 : Z;
  cpu_rflags : Z;
  com1 : uart;
}.

Definition set_msr (c : cpu) (m : Z) (halves : Z * Z) : cpu :=
  MkCpuRegs (<[m := halves]> (msrs c)) (cr0 c) (cr4 c) (cr8 c) (cpu_rflags c) (com1 c).

(** The instructions move the halves [edx] and [eax]. *)
Definition rdmsr (m : Z) (c : cpu) : Z :=
  let '(rdx, rax) := default (0, 0) (msrs c !! m) in Z.lor (Z.shiftl rdx 32) rax.
Definition wrmsr (m data : Z) (c : cpu) : cpu := set_msr c m (Z.shiftr data 32, u32 data).

Definition rdtsc (counter : Z * Z) : Z := Z.lor (snd counter) (Z.shiftl (fst counter) 32).

(** A register gives back what was written to it; the others keep their
    values. *)
Lemma rdmsr_wrmsr (m m' data : Z) (c : cpu) :
  0 <= data < 2 ^ 64 -> rdmsr m' (wrmsr m data c) = if decide (m' = m) then data else rdmsr m' c.
Proof.
  intros Hd. unfold rdmsr, wrmsr, set_msr. cbn. case_decide as Hm.
  - subst m'. rewrite lookup_insert_eq. cbn. unfold u32. rewrite Z.shiftr_div_pow2, Z.shiftl_mul_pow2 by lia.
    apply Z.bits_inj'. intros n Hn. rewrite Z.lor_spec. destruct (Z.lt_ge_cases n 32).
    + rewrite Z.mul_pow2_bits_low, Z.mod_pow2_bits_low by lia. done.
    + rewrite Z.mul_pow2_bits, Z.mod_pow2_bits_high, orb_false_r, <- Z.shiftr_div_pow2, Z.shiftr_spec by lia. f_equal. lia.
  - rewrite lookup_insert_ne by done. done.
Qed.

Definition set_kernel_gs (addr : Z) : cpu -> cpu := wrmsr MSR_GS_BASE addr.
Definition set_user_gs (addr : Z) : cpu -> cpu := wrmsr KERNEL_GS_BASE addr.
Definition get_user_gs : cpu -> Z := rdmsr KERNEL_GS_BASE.
Definition set_user_fs (addr : Z) : cpu -> cpu := wrmsr MSR_FS_BASE addr.
Definition get_user_fs : cpu -> Z := rdmsr MSR_FS_BASE.

Definition swapgs (c : cpu) : cpu :=
  wrmsr KERNEL_GS_BASE (rdmsr MSR_GS_BASE c) (wrmsr MSR_GS_BASE (rdmsr KERNEL_GS_BASE c) c).

(** In kernel mode the two bases are the kernel's and the user's; [swapgs]
    exchanges them, and twice is nothing. *)
Lemma swapgs_twice (m : Z) (c : cpu) :
  0 <= rdmsr MSR_GS_BASE c < 2 ^ 64 -> 0 <= rdmsr KERNEL_GS_BASE c < 2 ^ 64 -> rdmsr m (swapgs (swapgs c)) = rdmsr m c.
Proof.
  intros Hg Hk. assert (Hs : rdmsr MSR_GS_BASE (swapgs c) = rdmsr KERNEL_GS_BASE c /\ rdmsr KERNEL_GS_BASE (swapgs c) = rdmsr MSR_GS_BASE c).
  { unfold swapgs. rewrite !rdmsr_wrmsr by done. done. }
  destruct Hs as [S1 S2]. unfold swapgs at 1. rewrite !rdmsr_wrmsr by (rewrite ?S1, ?S2; done).
  destruct (decide (m = KERNEL_GS_BASE)) as [->|Hm1]; [by rewrite S1|].
  destruct (decide (m = MSR_GS_BASE)) as [->|Hm2]; [by rewrite S2|].
  unfold swapgs. rewrite !rdmsr_wrmsr by done. rewrite !decide_False by done. done.
Qed.

(** ** Interrupts *)

Definition set_rflags (c : cpu) (f : Z) : cpu := MkCpuRegs (msrs c) (cr0 c) (cr4 c) (cr8 c) f (com1 c).
Definition arch_enable_interrupts (c : cpu) : cpu := set_rflags c (Z.setbit (cpu_rflags c) 9).
Definition arch_disable_interrupts (c : cpu) : cpu := set_rflags c (Z.clearbit (cpu_rflags c) 9).
Definition get_interrupt_state (c : cpu) : bool := negb (Z.land (Z.shiftr (cpu_rflags c) 9) 1 =? 0).
Definition arch_interrupt_state (c : cpu) : bool := get_interrupt_state c.
Definition arch_set_hardware_ipl (ipl : Z) (c : cpu) : cpu :=
  MkCpuRegs (msrs c) (cr0 c) (cr4 c) (u8 ipl) (cpu_rflags c) (com1 c).

Lemma interrupt_state_bit (c : cpu) : get_interrupt_state c = Z.testbit (cpu_rflags c) 9.
Proof.
  unfold get_interrupt_state. change 1 with (Z.ones 1). rewrite Z.land_ones, Z.shiftr_div_pow2 by lia.
  rewrite Z.testbit_eqb by lia. change (2 ^ 1) with 2.
  pose proof (Z.mod_pos_bound (cpu_rflags c / 2 ^ 9) 2 ltac:(lia)).
  destruct (_ =? 0) eqn:E1, (_ =? 1) eqn:E2; zify_bools; done || lia.
Qed.

Lemma interrupts_on_off (c : cpu) :
  arch_interrupt_state (arch_enable_interrupts c) = true /\ arch_interrupt_state (arch_disable_interrupts c) = false.
Proof.
  unfold arch_interrupt_state. rewrite !interrupt_state_bit.
  split; [by apply Z.setbit_eq|by apply Z.clearbit_eq].
Qed.

(** ** [amd64_system_init] *)

Section Init.
Context (hardware : Z -> Z -> Z * Z * Z * Z) (syscall_main : Z).

Definition amd64_system_init (c : cpu) : cpu * cres unit :=
  if amd64_system_supported hardware then
    let c := wrmsr MSR_EFER (Z.lor (Z.lor (rdmsr MSR_EFER c) (Z.shiftl 1 0)) (Z.shiftl 1 11)) c in
    let c := wrmsr MSR_STAR msr_star c in
    let c := wrmsr MSR_LSTAR syscall_main c in
    let c := wrmsr MSR_SFMASK (u32 (Z.lnot 2)) c in
    (MkCpuRegs (msrs c) (system_cr0 (cr0 c)) (system_cr4 (cr4 c)) (cr8 c) (cpu_rflags c) (serial_init (com1 c)), Ok tt)
  else (c, Halt).

(** On a processor with SSE and FXSAVE it returns, with the system call
    instruction and the no-execute bit on, interrupts masked at the entry of a
    system call, SSE and global pages usable; it halts on every other. *)
Lemma amd64_system_init_ok (c : cpu) :
  0 <= rdmsr MSR_EFER c < 2 ^ 64 -> 0 <= syscall_main < 2 ^ 64 ->
  exists c', amd64_system_init c = (c', if amd64_system_supported hardware then Ok tt else Halt) /\
    (amd64_system_supported hardware = true ->
       Z.testbit (rdmsr MSR_EFER c') 0 = true /\ Z.testbit (rdmsr MSR_EFER c') 11 = true /\
       rdmsr MSR_STAR c' = msr_star /\ rdmsr MSR_LSTAR c' = syscall_main /\
       Z.testbit (rdmsr MSR_SFMASK c') 9 = true /\
       Z.testbit (cr0 c') 2 = false /\ Z.testbit (cr4 c') 7 = true /\ Z.testbit (cr4 c') 9 = true).
Proof.
  intros He Hs. unfold amd64_system_init. destruct (amd64_system_supported hardware); [|by eexists].
  eexists. split; [done|]. intros _.
  assert (Hr : forall m f, rdmsr m (MkCpuRegs (msrs f) (system_cr0 (cr0 f)) (system_cr4 (cr4 f)) (cr8 f) (cpu_rflags f) (serial_init (com1 f))) = rdmsr m f)
    by done.
  assert (H11 : 0 <= Z.lor (Z.lor (rdmsr MSR_EFER c) (Z.shiftl 1 0)) (Z.shiftl 1 11) < 2 ^ 64).
  { apply lor_range; [lia| |done]. apply lor_range; [lia|done|done]. }
  rewrite !Hr, !rdmsr_wrmsr by done.
  rewrite !(decide_False (P := MSR_EFER = _)), !(decide_True (P := MSR_EFER = MSR_EFER)) by done. split_and!; try done.
  - rewrite !Z.lor_spec. by rewrite orb_true_r.
  - rewrite !Z.lor_spec. by rewrite orb_true_r.
  - cbn [cr0]. unfold system_cr0. rewrite Z.setbit_neq, Z.clearbit_eq by lia. done.
  - cbn [cr4]. unfold system_cr4. rewrite !Z.setbit_neq, Z.setbit_eq by lia. done.
  - cbn [cr4]. unfold system_cr4. rewrite Z.setbit_neq, Z.setbit_eq by lia. done.
Qed.

(** ** Features and time *)

(** [amd64_paging_init]: five levels and pages of one GiB. *)
Definition amd64_paging_init : bool * bool :=
  let '(_, _, c7, _) := cpuid hardware 7 0 in
  let '(_, _, _, d1) := cpuid hardware 0x80000001 0 in
  (Z.testbit c7 16, Z.testbit d1 26).

(** [amd64_tsc_calibrate]: whether the counter can be used, and its frequency
    from two readings around a sleep. *)
Definition amd64_tsc_calibrate (a b freq : Z) : bool * Z :=
  let '(_, _, _, d1) := cpuid hardware 1 0 in
  if negb (Z.testbit d1 4) then (false, freq)
  else
    let '(_, _, _, d7) := cpuid hardware 0x80000007 0 in
    if negb (Z.testbit d7 8) then (false, freq) else (true, tsc_freq a b).

(** [arch_read_timestamp_ns]: the high precision timer, once it is set up. *)
Definition arch_read_timestamp_ns (clock_ready : bool) (capabilities counter : Z) : Z :=
  if negb clock_ready then 0 else hpet_get_timestamp_ns capabilities counter.

End Init.
