(* ===== verification/Servers.v ===== *)
(** * The start of the servers
      ([servers/io/pci/init.c], [servers/io/nvme/controller/init.c], [servers/fs/init.c], [servers/fs/fs.c])

    Each server gives the kernel sixteen stacks for its notification handlers
    and then runs its service.  The address space wrapper of aria is an
    operation of an interface, whose law is that it hands out what
    [as_address] of [Address] hands out; the system call that registers a
    stack is another. *)

From S2P Require Import Prelude Address InitServer.

Definition NOTIFICATION_STACK_SIZE : Z := 0x10000.
Definition SERVER_STACKS : nat := 16.

(** What a server asks of its surroundings. *)
Class ServerEnv (E : Type) := {
  as_vmem_allocate : Z -> M E Z;
  define_stack : Z -> Z -> M E unit;
}.

Section Servers.
Context {E : Type} `{ServerEnv E}.

(** The loop over the stacks.  A stack that cannot be registered ends the start
    of the PCI and NVMe servers ([strict]); the file system server only
    reports it.  The result says whether the server goes on. *)
Fixpoint stack_loop (strict : bool) (n : nat) : M E bool :=
  match n with
  | O => mret true
  | S n =>
      r ← attempt (as_vmem_allocate NOTIFICATION_STACK_SIZE);
      match r with
      | None => mret false
      | Some addr =>
          d ← attempt (define_stack (u64 (addr + NOTIFICATION_STACK_SIZE)) NOTIFICATION_STACK_SIZE);
          match d with
          | None => if strict then mret false else stack_loop strict n
          | Some _ => stack_loop strict n
          end
      end
  end.

(** [main] ends in an endless loop in every case: the result is what the
    service returned, if it was started. *)
Definition server_main (strict : bool) (service : M E Z) : M E (option Z) :=
  go ← stack_loop strict SERVER_STACKS;
  if (go : bool) then ret ← service; mret (Some ret) else mret None.

Definition pci_main (pci : M E Z) : M E (option Z) := server_main true pci.
Definition nvme_main (nvme : M E Z) : M E (option Z) := server_main true nvme.

(** [fs] only tests its argument. *)
Definition fs (pci_info : option Z) : M E Z := match pci_info with None => fail | Some _ => mret 0 end.
Definition fs_main (pci_info : option Z) : M E (option Z) :=
  server_main false (r ← attempt (fs pci_info); mret (default (-1) r)).

(** The page hooks of a server's heap: whole pages of fresh memory, [NULL]
    when there is none; nothing is ever given back. *)
Context (as_mem_allocate : Z -> M E Z).
Definition server_spalloc (s : Z) : M E Z :=
  r ← attempt (as_mem_allocate (u64 (s * PAGE_SIZE)));
  mret (default 0 r).
Definition server_spfree (addr s : Z) : M E unit := mret tt.

End Servers.

(** The laws of the interface: an address space, the stacks the kernel knows,
    and whether it takes further ones. *)
Class ServerEnvOk (E : Type) (SE : ServerEnv E) := {
  env_holes : gmap Z address_hole;
  env_space : E -> address_space;
  env_stacks : E -> list (Z * Z);
  env_takes : E -> Prop;
  allocate_law : forall e n x a, as_address env_holes (env_space e) n = Ok (x, a) ->
    exists e', as_vmem_allocate n e = (e', Ok a) /\ env_space e' = x /\ env_stacks e' = env_stacks e /\
               (env_takes e -> env_takes e');
  define_law : forall e sp size, env_takes e ->
    exists e', define_stack sp size e = (e', Ok tt) /\ env_space e' = env_space e /\
               env_stacks e' = env_stacks e ++ [(sp, size)] /\ env_takes e';
}.

Section ServersOk.
Context {E : Type} {SE : ServerEnv E} {SO : ServerEnvOk E SE}.

(** The stacks from address [a] on, each named by its upper end. *)
Fixpoint stacks_from (a : Z) (n : nat) : list (Z * Z) :=
  match n with
  | O => []
  | S n => (a + NOTIFICATION_STACK_SIZE, NOTIFICATION_STACK_SIZE) :: stacks_from (a + NOTIFICATION_STACK_SIZE) n
  end.

(** No two stacks share an address. *)
Definition stacks_apart (l : list (Z * Z)) : Prop :=
  forall i j p q, (i < j)%nat -> l !! i = Some p -> l !! j = Some q -> fst p <= fst q - snd q.

Lemma stacks_from_above (n : nat) (a : Z) (i : nat) (q : Z * Z) :
  stacks_from a n !! i = Some q -> a <= fst q - snd q.
Proof.
  revert a i. induction n as [|n IH]; intros a i; cbn [stacks_from]; [done|].
  destruct i as [|i]; cbn [lookup list_lookup]; [intros [= <-]; cbn; lia|]. intros H%IH. unfold NOTIFICATION_STACK_SIZE in *. lia.
Qed.

Lemma stacks_from_apart (n : nat) (a : Z) : stacks_apart (stacks_from a n).
Proof.
  revert a. induction n as [|n IH]; intros a i j p q Hij; cbn [stacks_from]; [done|].
  destruct j as [|j]; [lia|]. destruct i as [|i]; cbn [lookup list_lookup].
  - intros [= <-] H%stacks_from_above. done.
  - intros Hp Hq. eapply (IH _ i j); [lia|done|done].
Qed.

(** A step of the loop on a space with room. *)
Lemma stack_loop_spec (strict : bool) (n : nat) (e : E) :
  plain_space (env_space e) -> env_takes e ->
  as_base (env_space e) + as_limit (env_space e) + NOTIFICATION_STACK_SIZE < 2 ^ 64 ->
  as_current (env_space e) + Z.of_nat n * NOTIFICATION_STACK_SIZE <= as_base (env_space e) + as_limit (env_space e) ->
  exists e', stack_loop strict n e = (e', Ok true) /\
    env_stacks e' = env_stacks e ++ stacks_from (as_current (env_space e)) n.
Proof.
  revert e. induction n as [|n IH]; intros e HP Ht Hend Hroom; cbn [stack_loop stacks_from].
  { exists e. rewrite app_nil_r. done. }
  unfold NOTIFICATION_STACK_SIZE in *. pose proof HP as (Hh & Hb & He).
  pose proof (as_address_plain env_holes (env_space e) 0x10000 HP ltac:(lia) ltac:(lia)) as Ha.
  rewrite (proj2 (Z.leb_le _ _)) in Ha by lia.
  destruct (allocate_law _ _ _ _ Ha) as (e1 & E1 & S1 & K1 & T1).
  rewrite (bind_ok _ _ _ _ _ (attempt_ok _ _ _ _ E1)).
  destruct (define_law e1 (u64 (as_current (env_space e) + 0x10000)) 0x10000 (T1 Ht)) as (e2 & E2 & S2 & K2 & T2).
  rewrite (bind_ok _ _ _ _ _ (attempt_ok _ _ _ _ E2)).
  destruct (IH e2) as (e' & E' & K'); rewrite ?S2, ?S1; cbn [set_current as_current as_base as_limit]; try done; try lia.
  { split_and!; cbn; try done; lia. }
  exists e'. split; [done|]. rewrite K', S2, S1, K2, K1, <- app_assoc. cbn. rewrite u64_small by lia. done.
Qed.

(** Every server registers sixteen stacks that do not overlap, and then runs
    its service. *)
Lemma server_main_stacks (strict : bool) (service : M E Z) (e : E) :
  plain_space (env_space e) -> env_takes e ->
  as_base (env_space e) + as_limit (env_space e) + NOTIFICATION_STACK_SIZE < 2 ^ 64 ->
  as_current (env_space e) + 16 * NOTIFICATION_STACK_SIZE <= as_base (env_space e) + as_limit (env_space e) ->
  exists e' l, env_stacks e' = env_stacks e ++ l /\ length l = SERVER_STACKS /\ stacks_apart l /\
    server_main strict service e = (ret ← service; mret (Some ret)) e'.
Proof.
  intros HP Ht Hend Hroom. destruct (stack_loop_spec strict SERVER_STACKS e HP Ht Hend Hroom) as (e' & E1 & K).
  exists e', (stacks_from (as_current (env_space e)) SERVER_STACKS). split_and!; [done|done|apply stacks_from_apart|].
  unfold server_main. rewrite (bind_ok _ _ _ _ _ E1). done.
Qed.

End ServersOk.

(** ** The interface can be met *)

Module ServerExamples.

Record demo_env := MkDemo { demo_space : address_space; demo_stacks : list (Z * Z) }.

#[export] Instance demo_server : ServerEnv demo_env := {
  as_vmem_allocate n e := match as_address ∅ (demo_space e) n with
                          | Ok (x, a) => (MkDemo x (demo_stacks e), Ok a)
                          | Err => (e, Err)
                          | Halt => (e, Halt)
                          end;
  define_stack sp size e := (MkDemo (demo_space e) (demo_stacks e ++ [(sp, size)]), Ok tt);
}.

#[export] Instance demo_server_ok : ServerEnvOk demo_env demo_server.
Proof.
  refine {| env_holes := ∅; env_space := demo_space; env_stacks := demo_stacks; env_takes := fun _ => True |}.
  - intros e n x a Ha. cbn. rewrite Ha. eexists. done.
  - intros e sp size _. eexists. done.
Defined.

Definition demo_start : demo_env := MkDemo (MkAs None None AS_BASE AS_BASE 0x10000000 0 0 0 0) [].

End ServerExamples.
Import ServerExamples.

(** The file system server reports a missing argument only after its stacks. *)
Lemma fs_without_argument :
  exists e, fs_main None demo_start = (e, Ok (Some (-1))) /\ length (demo_stacks e) = 16%nat.
Proof. eexists. split; vm_compute; reflexivity. Qed.
